(** * The refactor agent's analysis core, embedded and verified

    A shallow embedding of three modules of [refactor_agent]:
    [regression.py] (the regression risk classifier), [analyzer.py] (the
    structural extractor and the architecture analyzer) and [planner.py]
    (dependency ordering of refactoring steps).  Python values are modelled
    by the Rocq data closest to them: [str] by [string], [int] by [Z] or
    [nat], [list] by [list], an insertion ordered [dict] by an association
    list, exceptions by a [result] type. *)

From Stdlib Require Import List String Ascii ZArith Bool Arith Lia.
From Stdlib Require Import Permutation Sorted ListDec Relations.
From Stdlib Require Import QArith Qround DecimalString.
Import ListNotations.
Local Close Scope Q_scope.
Local Open Scope string_scope.
Local Open Scope list_scope.

(** ** Python runtime: results, strings, dictionaries, sorting *)

Module Py.

(** The exception classes that the embedded code can raise.  [OutOfFuel]
    is no Python exception: it marks a loop of the model that reached its
    iteration bound, and is shown never to be the outcome. *)
Inductive exn : Type :=
| AttributeError
| KeyError
| TypeError
| RuntimeError
| NetworkXUnfeasible
| OutOfFuel.

(** The outcome of a call: a returned value or a raised exception. *)
Inductive result (A : Type) : Type :=
| Return (a : A)
| Raise (e : exn).

Arguments Return {A} a.
Arguments Raise {A} e.

Definition bind {A B : Type} (r : result A) (k : A -> result B) : result B :=
  match r with
  | Return a => k a
  | Raise e => Raise e
  end.

Definition isSome {A : Type} (o : option A) : bool :=
  match o with
  | Some _ => true
  | None => false
  end.

(** The truth value of a list: it is not empty. *)
Definition nonempty {A : Type} (l : list A) : bool :=
  match l with
  | [] => false
  | _ :: _ => true
  end.

(** [s.startswith(p)]. *)
Definition startswith (s p : string) : bool := String.prefix p s.

(** [sub in s] on strings. *)
Fixpoint contains (s sub : string) : bool :=
  String.prefix sub s ||
  match s with
  | EmptyString => false
  | String _ s' => contains s' sub
  end.

(** [s[1:]]. *)
Definition drop_first (s : string) : string :=
  match s with
  | EmptyString => EmptyString
  | String _ s' => s'
  end.

(** [s.split(sep)] for a separator of one character. *)
Fixpoint split (sep : ascii) (s : string) : list string :=
  match s with
  | EmptyString => [EmptyString]
  | String c s' =>
      if Ascii.eqb c sep then EmptyString :: split sep s'
      else match split sep s' with
           | h :: t => String c h :: t
           | [] => [String c EmptyString]
           end
  end.

Definition newline : ascii := ascii_of_nat 10.

(** The ASCII characters [str.strip()] removes: space, tab, line feed,
    vertical tab, form feed, carriage return and the four separators 28
    to 31.  Strings are sequences of bytes here, so the white space
    outside ASCII is not treated. *)
Definition is_space (c : ascii) : bool :=
  let n := nat_of_ascii c in
  ((n =? 32) || ((9 <=? n) && (n <=? 13)) || ((28 <=? n) && (n <=? 31)))%nat.

Fixpoint lstrip (s : string) : string :=
  match s with
  | EmptyString => EmptyString
  | String c s' => if is_space c then lstrip s' else s
  end.

Fixpoint rstrip (s : string) : string :=
  match s with
  | EmptyString => EmptyString
  | String c s' =>
      match rstrip s' with
      | EmptyString => if is_space c then EmptyString else String c EmptyString
      | r => String c r
      end
  end.

Definition strip (s : string) : string := rstrip (lstrip s).

(** [s.endswith(c)] for one character, and [s[:-1]]. *)
Fixpoint endswith_char (s : string) (c : ascii) : bool :=
  match s with
  | EmptyString => false
  | String a EmptyString => Ascii.eqb a c
  | String _ s' => endswith_char s' c
  end.

Fixpoint drop_last (s : string) : string :=
  match s with
  | EmptyString => EmptyString
  | String _ EmptyString => EmptyString
  | String a s' => String a (drop_last s')
  end.

(** [x in l] for a list or a set of strings. *)
Definition mem (x : string) (l : list string) : bool :=
  existsb (String.eqb x) l.

Definition list_eqb (l1 l2 : list string) : bool :=
  if list_eq_dec string_dec l1 l2 then true else false.

(** [sep.join(l)]. *)
Fixpoint join (sep : string) (l : list string) : string :=
  match l with
  | [] => EmptyString
  | [x] => x
  | x :: rest => (x ++ sep ++ join sep rest)%string
  end.

(** [s.endswith(suffix)]. *)
Definition endswith (s suffix : string) : bool :=
  let n := String.length s in
  let m := String.length suffix in
  (m <=? n)%nat && String.eqb (substring (n - m) m s) suffix.

(** [s.replace(c, by)] for one character [c]. *)
Fixpoint replace_char (c : ascii) (by_ : string) (s : string) : string :=
  match s with
  | EmptyString => EmptyString
  | String a s' =>
      if Ascii.eqb a c then (by_ ++ replace_char c by_ s')%string
      else String a (replace_char c by_ s')
  end.

(** [s.lower()] on ASCII text: the 26 capital letters are lowered, and
    every other byte is left as it is, so the result is that of
    [str.lower] for a string of ASCII characters only. *)
Definition lower_char (c : ascii) : ascii :=
  let n := nat_of_ascii c in
  if ((65 <=? n) && (n <=? 90))%nat then ascii_of_nat (n + 32) else c.

Fixpoint lower (s : string) : string :=
  match s with
  | EmptyString => EmptyString
  | String c s' => String (lower_char c) (lower s')
  end.

(** [str(n)] for a natural number. *)
Definition str_of_nat (n : nat) : string :=
  NilZero.string_of_uint (Nat.to_uint n).

(** *** Insertion ordered dictionaries *)

Section Dict.
Context {V : Type}.

Definition dict := list (string * V).

Fixpoint get (d : dict) (k : string) : option V :=
  match d with
  | [] => None
  | (k', v) :: d' => if String.eqb k k' then Some v else get d' k
  end.

(** [d[k] = v]: an existing key keeps its position. *)
Fixpoint set (d : dict) (k : string) (v : V) : dict :=
  match d with
  | [] => [(k, v)]
  | (k', v') :: d' =>
      if String.eqb k k' then (k, v) :: d' else (k', v') :: set d' k v
  end.

(** [del d[k]]. *)
Fixpoint del (d : dict) (k : string) : dict :=
  match d with
  | [] => []
  | (k', v') :: d' => if String.eqb k k' then d' else (k', v') :: del d' k
  end.

Definition keys (d : dict) : list string := map fst d.

Definition has_key (d : dict) (k : string) : bool := isSome (get d k).

End Dict.

Arguments dict V : clear implicits.

(** *** [sorted(l, key=..., reverse=True)]

    Python's sort is stable, also under [reverse=True]: elements come out
    by descending key, and elements of equal key keep their input order.
    The model inserts each element in front of the first element whose key
    does not exceed its own. *)

Section Sorted.
Context {A : Type} (key : A -> Z).

Fixpoint insert_desc (x : A) (l : list A) : list A :=
  match l with
  | [] => [x]
  | y :: l' => if (key y <=? key x)%Z then x :: l else y :: insert_desc x l'
  end.

Fixpoint sorted_reverse (l : list A) : list A :=
  match l with
  | [] => []
  | x :: l' => insert_desc x (sorted_reverse l')
  end.

(** [sorted(l, key=...)]: ascending and stable; each element goes in
    front of the first element whose key exceeds its own. *)
Fixpoint insert_asc (x : A) (l : list A) : list A :=
  match l with
  | [] => [x]
  | y :: l' => if (key x <? key y)%Z then x :: l else y :: insert_asc x l'
  end.

Definition sorted (l : list A) : list A :=
  fold_left (fun acc x => insert_asc x acc) l [].

(** [a] may stand before [b] in a list sorted by descending key. *)
Definition descending (a b : A) : Prop := (key b <= key a)%Z.

End Sorted.

(** [l1] is [l2] with some elements left out, the others in order. *)
Inductive Sublist {A : Type} : list A -> list A -> Prop :=
| Sublist_nil : Sublist [] []
| Sublist_keep x l1 l2 : Sublist l1 l2 -> Sublist (x :: l1) (x :: l2)
| Sublist_drop x l1 l2 : Sublist l1 l2 -> Sublist l1 (x :: l2).

End Py.

(** ** [regression.py]: the regression risk classifier *)

Module Regression.
Import Py.

(** [models.RegressionRisk]. *)
Record RegressionRisk : Type := mkRisk {
  type : string;
  severity : string;
  description : string;
  affected_components : list string;
  mitigation : option string;
  test_suggestions : list string
}.

(** [models.CodeChange]. *)
Record CodeChange : Type := mkChange {
  file_path : string;
  change_type : string;
  diff : string;
  line_changes : dict Z;
  semantic_changes : list string
}.

(** The execution context is a dictionary that no rule reads. *)
Definition Context : Type := dict string.

(** The regular expressions of the module, by the name the source gives
    them.  The first four are the values of [_compile_api_patterns], the
    next five those of [_compile_behavior_patterns]; [func_pattern] is the
    local pattern of [_detect_parameter_changes]; the [sql_] and [secret_]
    patterns are those of [_check_security_impacts], searched with
    [re.IGNORECASE]. *)
Inductive regex : Type :=
| flask_route
| fastapi_route
| django_url
| express_route
| function_def
| class_def
| conditional
| exception
| return_
| func_pattern
| sql_format
| sql_percent
| sql_concat
| secret_assignment
| secret_cloud_key.

(** [RegressionDetector]: the two pattern tables that [__init__] stores. *)
Record RegressionDetector : Type := mkDetector {
  api_patterns : dict regex;
  behavior_patterns : dict regex
}.

Definition _compile_api_patterns : dict regex :=
  [("flask_route", flask_route);
   ("fastapi_route", fastapi_route);
   ("django_url", django_url);
   ("express_route", express_route)].

Definition _compile_behavior_patterns : dict regex :=
  [("function_def", function_def);
   ("class_def", class_def);
   ("conditional", conditional);
   ("exception", exception);
   ("return", return_)].

Definition __init__ : RegressionDetector :=
  {| api_patterns := _compile_api_patterns;
     behavior_patterns := _compile_behavior_patterns |}.

(** [any(kw in l for kw in kws)]. *)
Definition any_in (kws : list string) (l : string) : bool :=
  existsb (fun kw => contains l kw) kws.

(** [_check_behavior_changes]. *)
Definition _check_behavior_changes (removed added : list string)
    (file_path : string) : list RegressionRisk :=
  let kws := ["if "; "elif "; "while "; "for "] in
  let removed_conditions := filter (any_in kws) removed in
  let added_conditions := filter (any_in kws) added in
  let risks1 :=
    if nonempty removed_conditions && nonempty added_conditions then
      [mkRisk "behavior_change" "high" "Control flow logic modified"
         [file_path] (Some "Ensure all edge cases are covered")
         ["Test all conditional branches"; "Verify edge cases";
          "Check boundary conditions"]]
    else [] in
  let removed_returns := filter (fun l => contains l "return ") removed in
  let added_returns := filter (fun l => contains l "return ") added in
  let risks2 :=
    if negb (list_eqb removed_returns added_returns) then
      [mkRisk "behavior_change" "high" "Return values modified"
         [file_path] (Some "Verify all callers handle new return values")
         ["Test return value compatibility"; "Check error handling";
          "Verify type consistency"]]
    else [] in
  let ekws := ["except "; "raise "; "try:"] in
  let removed_exceptions := filter (any_in ekws) removed in
  let added_exceptions := filter (any_in ekws) added in
  let risks3 :=
    if nonempty removed_exceptions || nonempty added_exceptions then
      [mkRisk "behavior_change" "medium" "Exception handling modified"
         [file_path] (Some "Ensure error handling remains robust")
         ["Test error scenarios"; "Verify exception propagation";
          "Check error messages"]]
    else [] in
  risks1 ++ risks2 ++ risks3.

(** [_check_performance_impacts]. *)
Definition _check_performance_impacts (removed added : list string)
    (file_path : string) : list RegressionRisk :=
  let lkws := ["for "; "while "] in
  let removed_loops := List.length (filter (any_in lkws) removed) in
  let added_loops := List.length (filter (any_in lkws) added) in
  let risks1 :=
    if (removed_loops <? added_loops)%nat then
      [mkRisk "performance" "medium"
         "Additional loops added, potential performance impact"
         [file_path] (Some "Profile code and optimize if necessary")
         ["Run performance benchmarks"; "Test with large datasets";
          "Monitor resource usage"]]
    else [] in
  let db_patterns :=
    ["SELECT"; "INSERT"; "UPDATE"; "DELETE"; ".query("; ".filter(";
     ".all()"; ".first()"] in
  let removed_queries := List.length (filter (any_in db_patterns) removed) in
  let added_queries := List.length (filter (any_in db_patterns) added) in
  let risks2 :=
    if (removed_queries <? added_queries)%nat then
      [mkRisk "performance" "high" "Additional database queries detected"
         [file_path] (Some "Consider query optimization or caching")
         ["Profile database queries"; "Check for N+1 query problems";
          "Test query performance"]]
    else [] in
  let risks3 :=
    if existsb (fun l => contains l "async ") added then
      let sync_io :=
        filter (any_in ["open("; "requests."; "urllib."]) added in
      if nonempty sync_io then
        [mkRisk "performance" "high" "Synchronous I/O in async function"
           [file_path] (Some "Use async I/O libraries")
           ["Test async performance"; "Check for blocking operations";
            "Monitor event loop"]]
      else []
    else [] in
  risks1 ++ risks2 ++ risks3.

(** [_deduplicate_risks]: the key of a risk and the loop over the risks,
    which carries the set [seen] and the list [unique_risks]. *)
Definition risk_key (r : RegressionRisk) : string * string * list string :=
  (type r, description r, affected_components r).

Definition key_eq_dec (k1 k2 : string * string * list string) :
    {k1 = k2} + {k1 <> k2}.
Proof.
  decide equality.
  - apply (list_eq_dec string_dec).
  - decide equality; apply string_dec.
Defined.

Definition key_in (k : string * string * list string)
    (seen : list (string * string * list string)) : bool :=
  existsb (fun k' => if key_eq_dec k k' then true else false) seen.

Fixpoint dedup_loop (risks : list RegressionRisk)
    (seen : list (string * string * list string))
    (unique_risks : list RegressionRisk) : list RegressionRisk :=
  match risks with
  | [] => unique_risks
  | risk :: rest =>
      let key := risk_key risk in
      if negb (key_in key seen)
      then dedup_loop rest (key :: seen) (unique_risks ++ [risk])
      else dedup_loop rest seen unique_risks
  end.

Definition _deduplicate_risks (risks : list RegressionRisk)
    : list RegressionRisk :=
  dedup_loop risks [] [].

(** [_risk_priority]: the two weight tables, read with [dict.get(_, 0)]. *)
Definition severity_scores : dict Z :=
  [("critical", 4%Z); ("high", 3%Z); ("medium", 2%Z); ("low", 1%Z)].

Definition type_scores : dict Z :=
  [("security", 4%Z); ("api_change", 3%Z); ("behavior_change", 2%Z);
   ("performance", 1%Z)].

Definition get_default (d : dict Z) (k : string) (default : Z) : Z :=
  match get d k with
  | Some v => v
  | None => default
  end.

Definition _risk_priority (risk : RegressionRisk) : Z :=
  (get_default severity_scores (severity risk) 0 * 10
   + get_default type_scores (type risk) 0)%Z.

(** *** Vocabulary of the properties

    [has_key k r]: the deduplication key of [r] is [k].  [same_set l1 l2]:
    the two lists hold the same elements, whatever their order and
    multiplicity.  [same_set_key r1 r2]: the key the specification names,
    with the affected components compared as sets. *)
Definition has_key (k : string * string * list string) (r : RegressionRisk)
    : bool :=
  if key_eq_dec (risk_key r) k then true else false.

Definition same_set (l1 l2 : list string) : bool :=
  forallb (fun x => mem x l2) l1 && forallb (fun x => mem x l1) l2.

Definition same_set_key (r1 r2 : RegressionRisk) : bool :=
  String.eqb (type r1) (type r2)
  && String.eqb (description r1) (description r2)
  && same_set (affected_components r1) (affected_components r2).

(** The lines of a diff side that hold a return statement, and the risk
    that reports modified return values. *)
Definition return_lines (lines : list string) : list string :=
  filter (fun l => contains l "return ") lines.

Definition is_return_risk (r : RegressionRisk) : bool :=
  String.eqb (type r) "behavior_change"
  && String.eqb (severity r) "high"
  && String.eqb (description r) "Return values modified".

(** The return rule as the specification words it, at one pair of diff
    sides: the risk is emitted exactly when the two multisets of return
    lines differ. *)
Definition return_rule_by_multiset (removed added : list string) : Prop :=
  existsb is_return_risk
    (_check_behavior_changes removed added "f.py") = true
  <-> ~ Permutation (return_lines removed) (return_lines added).

(** An engine that matches nothing and a set order that follows
    insertion, to run the classifier on concrete inputs. *)
Definition no_match (p : regex) (l : string) : option (list string) := None.

Definition insertion_order (l : list string) : list string :=
  nodup string_dec l.

(** *** Sample inputs *)

(** A modify change whose diff swaps two return lines. *)
Definition swapped_returns_change : CodeChange :=
  mkChange "svc/calc.py" "modify"
    "--- a/svc/calc.py
+++ b/svc/calc.py
-    return a
-    return b
+    return b
+    return a"
    [("added", 2%Z); ("removed", 2%Z)] ["Reordered returns"].

(** The change of [test_risk_prioritization]: an authorization marker
    is removed. *)
Definition change_v1 : CodeChange :=
  mkChange "api/auth.py" "modify"
    "-@login_required
 def sensitive_operation():"
    [("added", 0%Z); ("removed", 1%Z)] ["Removed authentication"].

(** The rules below depend on two services of the interpreter that the
    module does not define: the regular expression engine, and the order in
    which a [set] of strings is iterated.  [re_search p l] is
    [p.search(l)], giving the groups of the first match.  [set_iter l] is
    the order in which the elements of the set holding the strings of [l]
    are visited.  It follows the hashes of the strings, which change with
    the hash seed of the interpreter run: two runs may visit the same
    set in two orders, and nothing is assumed of the order here. *)

Section Rules.
Variable re_search : regex -> string -> option (list string).
Variable set_iter : list string -> list string.

Definition matches (pattern : regex) (line : string) : bool :=
  isSome (re_search pattern line).

(** One entry of the list that [_detect_parameter_changes] returns. *)
Record ParamChange : Type := mkParamChange {
  function : string;
  removed : list string;
  added : list string
}.

Definition is_empty (s : string) : bool :=
  match s with
  | EmptyString => true
  | String _ _ => false
  end.

(** The loop that fills [removed_funcs] (and [added_funcs]). *)
Definition collect_funcs (lines : list string) : dict (list string) :=
  fold_left
    (fun funcs line =>
       match re_search func_pattern line with
       | Some groups =>
           let func_name := nth 0 groups EmptyString in
           let params :=
             filter (fun p => negb (is_empty p))
               (map strip (split "," (nth 1 groups EmptyString))) in
           set funcs func_name params
       | None => funcs
       end)
    lines [].

(** [_detect_parameter_changes].  Every name visited is a key of both
    dictionaries, so the two lookups succeed. *)
Definition _detect_parameter_changes (removed_lines added_lines : list string)
    : list ParamChange :=
  let removed_funcs := collect_funcs removed_lines in
  let added_funcs := collect_funcs added_lines in
  flat_map
    (fun func_name =>
       match get removed_funcs func_name, get added_funcs func_name with
       | Some r, Some a =>
           if negb (list_eqb r a) then
             [mkParamChange func_name
                (set_iter (filter (fun p => negb (mem p a)) r))
                (set_iter (filter (fun p => negb (mem p r)) a))]
           else []
       | _, _ => []
       end)
    (set_iter
       (filter (fun k => mem k (keys added_funcs)) (keys removed_funcs))).

(** [_check_api_changes]. *)
Definition _check_api_changes (self : RegressionDetector)
    (removed_lines added_lines : list string) (file_path : string)
    : list RegressionRisk :=
  let endpoint_risks :=
    flat_map
      (fun entry : string * regex =>
         let pattern := snd entry in
         let removed_matches :=
           map strip (filter (matches pattern) removed_lines) in
         match removed_matches with
         | [] => []
         | first_match :: _ =>
             let added_matches := filter (matches pattern) added_lines in
             if negb (nonempty added_matches) then
               [mkRisk "api_change" "critical"
                  ("API endpoint removed: " ++ first_match)%string
                  [file_path]
                  (Some "Add deprecation notice and migration path")
                  ["Test all client applications";
                   "Verify API backward compatibility";
                   "Check API documentation updates"]]
             else
               [mkRisk "api_change" "high"
                  ("API endpoint modified in " ++ file_path)%string
                  [file_path]
                  (Some "Ensure backward compatibility or version the API")
                  ["Test with existing API clients";
                   "Verify request/response format compatibility";
                   "Update API tests"]]
         end)
      (api_patterns self) in
  let param_risks :=
    map
      (fun param_change =>
         mkRisk "api_change"
           (if nonempty (removed param_change) then "high" else "medium")
           ("Function parameters changed: " ++ function param_change)%string
           [file_path]
           (Some "Update all callers or maintain backward compatibility")
           [("Test all calls to " ++ function param_change)%string;
            "Verify parameter validation";
            "Check default parameter values"])
      (_detect_parameter_changes removed_lines added_lines) in
  endpoint_risks ++ param_risks.

(** [_check_security_impacts]. *)
Definition _check_security_impacts (removed_lines added_lines : list string)
    (file_path : string) : list RegressionRisk :=
  let sql_patterns := [sql_format; sql_percent; sql_concat] in
  let risks1 :=
    if existsb (fun pattern => existsb (matches pattern) added_lines)
         sql_patterns
    then
      [mkRisk "security" "critical" "Potential SQL injection vulnerability"
         [file_path] (Some "Use parameterized queries")
         ["Test with malicious input"; "Run security scanning tools";
          "Review query construction"]]
    else [] in
  let auth_patterns :=
    ["@login_required"; "@requires_auth"; "check_permission";
     "authenticate"] in
  let removed_auth := existsb (any_in auth_patterns) removed_lines in
  let added_auth := existsb (any_in auth_patterns) added_lines in
  let risks2 :=
    if removed_auth && negb added_auth then
      [mkRisk "security" "critical"
         "Authentication/authorization checks removed"
         [file_path] (Some "Ensure proper access controls remain in place")
         ["Test unauthorized access attempts"; "Verify permission checks";
          "Audit access logs"]]
    else [] in
  let secret_patterns := [secret_assignment; secret_cloud_key] in
  let risks3 :=
    if existsb (fun pattern => existsb (matches pattern) added_lines)
         secret_patterns
    then
      [mkRisk "security" "critical" "Hardcoded secrets detected"
         [file_path]
         (Some "Use environment variables or secret management service")
         ["Scan for exposed secrets"; "Verify secret rotation";
          "Check environment configuration"]]
    else [] in
  risks1 ++ risks2 ++ risks3.

(** The two comprehensions that split a unified diff. *)
Definition removed_lines_of (diff_text : string) : list string :=
  map drop_first
    (filter (fun l => startswith l "-" && negb (startswith l "---"))
       (split newline diff_text)).

Definition added_lines_of (diff_text : string) : list string :=
  map drop_first
    (filter (fun l => startswith l "+" && negb (startswith l "+++"))
       (split newline diff_text)).

(** [_analyze_modification]. *)
Definition _analyze_modification (self : RegressionDetector)
    (change : CodeChange) (context : Context) : list RegressionRisk :=
  let removed_lines := removed_lines_of (diff change) in
  let added_lines := added_lines_of (diff change) in
  _check_api_changes self removed_lines added_lines (file_path change)
  ++ _check_behavior_changes removed_lines added_lines (file_path change)
  ++ _check_performance_impacts removed_lines added_lines (file_path change)
  ++ _check_security_impacts removed_lines added_lines (file_path change).

(** [_analyze_addition]. *)
Definition _analyze_addition (change : CodeChange) (context : Context)
    : list RegressionRisk :=
  if contains (diff change) "import" || contains (diff change) "require" then
    [mkRisk "behavior_change" "low" "New dependencies introduced"
       [file_path change]
       (Some "Verify dependency compatibility and security")
       ["Check dependency versions"; "Run security audit";
        "Test in isolated environment"]]
  else [].

(** [_analyze_rename]. *)
Definition _analyze_rename (change : CodeChange) (context : Context)
    : list RegressionRisk :=
  [mkRisk "api_change" "medium"
     ("File renamed: " ++ file_path change)%string
     [file_path change]
     (Some "Update all imports and references")
     ["Verify all imports are updated"; "Check configuration files";
      "Test module loading"]].

(** [_analyze_cross_file_impacts]. *)
Definition _analyze_cross_file_impacts (changes : list CodeChange)
    (context : Context) : list RegressionRisk :=
  let modified_interfaces :=
    map file_path
      (filter
         (fun change =>
            String.eqb (change_type change) "modify"
            && existsb (fun keyword => contains (diff change) keyword)
                 ["class "; "interface "; "trait "])
         changes) in
  let risks1 :=
    if (1 <? List.length (nodup string_dec modified_interfaces))%nat then
      [mkRisk "behavior_change" "high"
         "Multiple interfaces modified simultaneously"
         (set_iter modified_interfaces)
         (Some "Ensure all implementations are updated consistently")
         ["Run integration tests"; "Verify interface contracts";
          "Check for version mismatches"]]
    else [] in
  let risks2 :=
    if (10 <? List.length changes)%nat then
      [mkRisk "behavior_change" "medium" "Large number of files changed"
         (map file_path (firstn 5 changes) ++ ["..."])
         (Some "Consider breaking into smaller, incremental changes")
         ["Run comprehensive test suite"; "Perform staged rollout";
          "Monitor system behavior closely"]]
    else [] in
  risks1 ++ risks2.

(** The risks in the order [analyze_changes] discovers them, before
    deduplication. *)
Definition analyze_change (self : RegressionDetector) (context : Context)
    (change : CodeChange) : list RegressionRisk :=
  if mem (change_type change) ["modify"; "delete"] then
    _analyze_modification self change context
  else if String.eqb (change_type change) "add" then
    _analyze_addition change context
  else if String.eqb (change_type change) "rename" then
    _analyze_rename change context
  else [].

Definition discovered (self : RegressionDetector)
    (changes : list CodeChange) (context : Context) : list RegressionRisk :=
  flat_map (analyze_change self context) changes
  ++ _analyze_cross_file_impacts changes context.

(** [analyze_changes], the entry point [classifyRegressionRisks]. *)
Definition analyze_changes (self : RegressionDetector)
    (changes : list CodeChange) (context : Context) : list RegressionRisk :=
  let risks := discovered self changes context in
  let risks := _deduplicate_risks risks in
  sorted_reverse _risk_priority risks.

End Rules.
End Regression.

(** ** The part of [networkx] that the agent calls

    A [DiGraph] keeps its nodes and, per node, its successors in
    insertion order; both are dictionaries in [networkx], so a node or an
    edge added twice is kept once, at its first position.  The edge
    attribute [weight] that the analyzer passes is read nowhere and is not
    kept. *)

Module Nx.
Import Py.

Record DiGraph : Type := mkDiGraph {
  nodes : list string;
  edges : list (string * string)
}.

(** [nx.DiGraph()]. *)
Definition empty : DiGraph := mkDiGraph [] [].

Definition number_of_nodes (g : DiGraph) : nat := List.length (nodes g).

Definition add_node (g : DiGraph) (n : string) : DiGraph :=
  if mem n (nodes g) then g else mkDiGraph (nodes g ++ [n]) (edges g).

Definition edge_eqb (e1 e2 : string * string) : bool :=
  String.eqb (fst e1) (fst e2) && String.eqb (snd e1) (snd e2).

Definition has_edge (g : DiGraph) (u v : string) : bool :=
  existsb (edge_eqb (u, v)) (edges g).

(** [G.add_edge(u, v)]: both ends become nodes, [u] first. *)
Definition add_edge (g : DiGraph) (u v : string) : DiGraph :=
  let g1 := add_node (add_node g u) v in
  if has_edge g1 u v then g1 else mkDiGraph (nodes g1) (edges g1 ++ [(u, v)]).

(** [G.neighbors(u)]: the successors of [u]. *)
Definition neighbors (g : DiGraph) (u : string) : list string :=
  map snd (filter (fun e => String.eqb (fst e) u) (edges g)).

Definition in_degree (g : DiGraph) (v : string) : nat :=
  List.length (filter (fun e => String.eqb (snd e) v) (edges g)).

Definition out_degree (g : DiGraph) (u : string) : nat :=
  List.length (filter (fun e => String.eqb (fst e) u) (edges g)).

(** [nx.degree_centrality(G)]: a dictionary from node to degree over
    [len(G) - 1], and to 1 when the graph has at most one node. *)
Definition degree_centrality (g : DiGraph) : dict Q :=
  if (number_of_nodes g <=? 1)%nat then
    map (fun n => (n, 1%Q)) (nodes g)
  else
    let s := (1 / (inject_Z (Z.of_nat (number_of_nodes g)) - 1))%Q in
    map
      (fun n =>
         (n, (inject_Z (Z.of_nat (in_degree g n + out_degree g n)) * s)%Q))
      (nodes g).

(** *** [nx.topological_sort]

    The version of networkx 3: the nodes of in-degree zero form the first
    generation; visiting a generation lowers the in-degree of each child by
    one, and a child that reaches zero joins the next generation.  The
    generations are yielded one after the other; when none is left and the
    in-degree map is not empty, [NetworkXUnfeasible] is raised. *)

(** The loop over the children of one node. *)
Fixpoint relax (children : list string) (indegree_map : dict Z)
    (zero_indegree : list string) : result (dict Z * list string) :=
  match children with
  | [] => Return (indegree_map, zero_indegree)
  | child :: rest =>
      match get indegree_map child with
      | None => Raise RuntimeError
      | Some d =>
          let d' := (d - 1)%Z in
          if (d' =? 0)%Z
          then relax rest (del indegree_map child) (zero_indegree ++ [child])
          else relax rest (set indegree_map child d') zero_indegree
      end
  end.

(** The loop over the nodes of one generation. *)
Fixpoint visit_generation (g : DiGraph) (this_generation : list string)
    (indegree_map : dict Z) (zero_indegree : list string)
    : result (dict Z * list string) :=
  match this_generation with
  | [] => Return (indegree_map, zero_indegree)
  | node :: rest =>
      if negb (mem node (nodes g)) then Raise RuntimeError
      else
        bind (relax (neighbors g node) indegree_map zero_indegree)
          (fun st => visit_generation g rest (fst st) (snd st))
  end.

(** The [while zero_indegree] loop; [fuel] bounds its iterations. *)
Fixpoint generations_loop (fuel : nat) (g : DiGraph) (indegree_map : dict Z)
    (zero_indegree : list string) : result (list (list string)) :=
  match zero_indegree with
  | [] =>
      match indegree_map with
      | [] => Return []
      | _ :: _ => Raise NetworkXUnfeasible
      end
  | _ :: _ =>
      match fuel with
      | O => Raise OutOfFuel
      | S fuel' =>
          bind (visit_generation g zero_indegree indegree_map [])
            (fun st =>
               bind (generations_loop fuel' g (fst st) (snd st))
                 (fun later => Return (zero_indegree :: later)))
      end
  end.

Definition topological_generations (g : DiGraph)
    : result (list (list string)) :=
  let indegree_map :=
    map (fun v => (v, Z.of_nat (in_degree g v)))
      (filter (fun v => (0 <? in_degree g v)%nat) (nodes g)) in
  let zero_indegree :=
    filter (fun v => (in_degree g v =? 0)%nat) (nodes g) in
  generations_loop (number_of_nodes g) g indegree_map zero_indegree.

(** [list(nx.topological_sort(G))]. *)
Definition topological_sort (g : DiGraph) : result (list string) :=
  bind (topological_generations g) (fun gens => Return (List.concat gens)).

(** *** Vocabulary of the properties *)

(** [u -> v] is an edge of [g]; a cycle is a node that reaches itself
    along at least one edge. *)
Definition edge (g : DiGraph) (u v : string) : Prop := In (u, v) (edges g).

Definition has_cycle (g : DiGraph) : Prop :=
  exists v, clos_trans string (edge g) v v.

(** [a] stands before [b] in [l]: at a smaller index. *)
Definition before {A : Type} (l : list A) (a b : A) : Prop :=
  exists i j,
    (i < j)%nat /\ nth_error l i = Some a /\ nth_error l j = Some b.

(** A topological order of [g]: every node once, every edge forwards. *)
Definition topological_order (g : DiGraph) (l : list string) : Prop :=
  NoDup l
  /\ (forall v, In v l <-> In v (nodes g))
  /\ (forall u v, edge g u v -> before l u v).

(** The invariants of a graph built with [add_node] and [add_edge]. *)
Definition well_formed (g : DiGraph) : Prop :=
  NoDup (nodes g)
  /\ NoDup (edges g)
  /\ (forall u v, edge g u v -> In u (nodes g) /\ In v (nodes g)).

(** *** The state of [topological_sort], for its analysis

    While the sort runs, the edges whose source has been visited have
    been taken off the in-degree of their target.  [visited_sources P]
    holds of the edges that leave a node of [P]; [relaxed P u done] holds
    of these and of the edges from [u] to a child in [done];
    [also_relaxed rel x] adds the edge [x].  [remaining g rel v] counts
    the edges into [v] not yet taken off. *)
Definition visited_sources (P : list string) (e : string * string) : bool :=
  mem (fst e) P.

Definition relaxed (P : list string) (u : string) (done : list string)
    (e : string * string) : bool :=
  mem (fst e) P || (String.eqb (fst e) u && mem (snd e) done).

Definition also_relaxed (rel : string * string -> bool)
    (x e : string * string) : bool :=
  rel e || edge_eqb e x.

Definition remaining (g : DiGraph) (rel : string * string -> bool)
    (v : string) : nat :=
  List.length
    (filter (fun e => String.eqb (snd e) v && negb (rel e)) (edges g)).

(** The invariant of the sort: [L] lists the nodes placed in a
    generation so far, in the order of the output; a node is placed
    exactly when no edge into it remains; the in-degree map holds the
    remaining count of every other node; and every edge into a placed
    node comes from a node placed earlier. *)
Record kahn_invariant (g : DiGraph) (L : list string)
    (rel : string * string -> bool) (m : dict Z) : Prop := mkInvariant {
  inv_nodup : NoDup L;
  inv_incl : incl L (nodes g);
  inv_rel : forall e, In e (edges g) -> rel e = true -> In (fst e) L;
  inv_placed :
    forall v, In v (nodes g) -> (In v L <-> remaining g rel v = 0%nat);
  inv_map :
    forall v,
      In v (nodes g) ->
      get m v
      = if (remaining g rel v =? 0)%nat then None
        else Some (Z.of_nat (remaining g rel v));
  inv_outside : forall v, ~ In v (nodes g) -> get m v = None;
  inv_keys : NoDup (keys m);
  inv_order : forall u v, edge g u v -> In v L -> before L u v
}.

(** A list of nodes in which each is joined to the next by an edge. *)
Fixpoint is_path (g : DiGraph) (l : list string) : Prop :=
  match l with
  | x :: (y :: _) as rest => edge g x y /\ is_path g rest
  | _ => True
  end.

End Nx.

(** ** [analyzer.py]: the structural extractor and the architecture
    analyzer *)

Module Analyzer.
Import Py.

(** [models.ServiceDependency]; the coupling strength is a rational. *)
Record ServiceDependency : Type := mkDependency {
  source : string;
  target : string;
  dependency_type : string;
  strength : Q;
  calls : list string
}.

(** [models.CodeSmell]. *)
Record CodeSmell : Type := mkSmell {
  type : string;
  severity : string;
  location : string;
  description : string;
  suggested_fix : option string;
  effort_estimate : option Z
}.

(** *** Syntax trees

    The node classes of Python's [ast] module that the extractor tells
    apart, and the trees [ast.parse] builds.  [Name], [Attribute], [BoolOp]
    and [FunctionDef] carry the fields the extractor reads; every other
    node is a [Node] of its class with its child nodes in field order.
    A function definition carries its positional parameters, by name,
    and their defaults: annotations of parameters, parameters that are
    positional-only, keyword-only or starred, and the defaults of
    keyword-only parameters are not represented. *)

Module ast.
Inductive class : Type :=
| Module_
| ClassDef
| AsyncFunctionDef
| If
| While
| For
| AsyncFor
| Try
| ExceptHandler
| With
| Return
| Assign
| Expr
| Call
| Compare
| BinOp
| UnaryOp
| IfExp
| Constant
| arguments
| arg
| Load
| And
| Or
| Other (name : string).
End ast.

#[warnings="-register-all"]
Inductive AST : Type :=
| Name (id : string)
| Attribute (value : AST) (attr : string)
| BoolOp (op : ast.class) (values : list AST)
| FunctionDef (name : string) (args : list string) (defaults : list AST)
    (body : list AST) (decorator_list : list AST) (returns : option AST)
    (lineno : Z)
| Node (cls : ast.class) (children : list AST).

(** [ast.iter_child_nodes]: the fields that are nodes, in field order. *)
Definition iter_child_nodes (node : AST) : list AST :=
  match node with
  | Name _ => [Node ast.Load []]
  | Attribute value _ => [value; Node ast.Load []]
  | BoolOp op values => Node op [] :: values
  | FunctionDef _ args defaults body decorator_list returns _ =>
      Node ast.arguments (map (fun _ => Node ast.arg []) args ++ defaults)
      :: body ++ decorator_list
         ++ match returns with
            | Some r => [r]
            | None => []
            end
  | Node _ children => children
  end.

(** The number of nodes that [ast.walk] visits from [node]. *)
Fixpoint size (node : AST) : nat :=
  S match node with
    | Name _ => 1
    | Attribute value _ => size value + 1
    | BoolOp _ values => 1 + list_sum (map size values)
    | FunctionDef _ args defaults body decorator_list returns _ =>
        (1 + (list_sum (map (fun _ => 1) args)
              + list_sum (map size defaults)))
        + (list_sum (map size body)
           + (list_sum (map size decorator_list)
              + match returns with
                | Some r => size r
                | None => 0
                end))
    | Node _ children => list_sum (map size children)
    end%nat.

(** [ast.walk]: breadth first, from a queue [todo]. *)
Fixpoint walk_queue (fuel : nat) (todo : list AST) : list AST :=
  match fuel with
  | O => []
  | S fuel' =>
      match todo with
      | [] => []
      | node :: rest => node :: walk_queue fuel' (rest ++ iter_child_nodes node)
      end
  end.

Definition walk (node : AST) : list AST := walk_queue (size node) [node].

(** [isinstance(node, (ast.If, ast.While, ast.For, ast.ExceptHandler))]. *)
Definition is_branching (node : AST) : bool :=
  match node with
  | Node ast.If _ | Node ast.While _ | Node ast.For _
  | Node ast.ExceptHandler _ => true
  | _ => false
  end.

(** [CodeAnalyzer._calculate_complexity]. *)
Definition _calculate_complexity (tree : AST) : Z :=
  fold_left
    (fun complexity node =>
       if is_branching node then (complexity + 1)%Z
       else match node with
            | BoolOp _ values =>
                (complexity + (Z.of_nat (List.length values) - 1))%Z
            | _ => complexity
            end)
    (walk tree) 1%Z.

(** [CodeAnalyzer._calculate_function_complexity]. *)
Definition _calculate_function_complexity (func_node : AST) : Z :=
  fold_left
    (fun complexity node =>
       if is_branching node then (complexity + 1)%Z else complexity)
    (walk func_node) 1%Z.

(** [CodeAnalyzer._get_name]. *)
Fixpoint _get_name (node : AST) : string :=
  match node with
  | Name id => id
  | Attribute value attr => (_get_name value ++ "." ++ attr)%string
  | _ => "unknown"
  end.

(** One entry of the list [_extract_functions] returns. *)
Record FunctionFacts : Type := mkFunctionFacts {
  fn_name : string;
  fn_args : list string;
  fn_decorators : list string;
  fn_returns : option string;
  fn_line_number : Z;
  fn_complexity : Z
}.

(** [CodeAnalyzer._extract_functions]. *)
Definition _extract_functions (tree : AST) : list FunctionFacts :=
  flat_map
    (fun node =>
       match node with
       | FunctionDef name args _ _ decorator_list returns lineno =>
           [mkFunctionFacts name args (map _get_name decorator_list)
              (option_map _get_name returns) lineno
              (_calculate_function_complexity node)]
       | _ => []
       end)
    (walk tree).

(** *** Vocabulary of the complexity property

    The count the specification words: one, plus one per conditional, loop
    and exception handler, plus the number of operands less one per
    boolean operator, over all the nodes of a tree. *)
Definition node_weight (node : AST) : Z :=
  if is_branching node then 1%Z
  else match node with
       | BoolOp _ values => (Z.of_nat (List.length values) - 1)%Z
       | _ => 0%Z
       end.

Definition branch_weight (node : AST) : Z :=
  if is_branching node then 1%Z else 0%Z.

Definition sum_Z (l : list Z) : Z := fold_right Z.add 0%Z l.

Fixpoint tree_sum (w : AST -> Z) (node : AST) : Z :=
  (w node
   + match node with
     | Name _ => w (Node ast.Load [])
     | Attribute value _ => tree_sum w value + w (Node ast.Load [])
     | BoolOp op values => w (Node op []) + sum_Z (map (tree_sum w) values)
     | FunctionDef _ args defaults body decorator_list returns _ =>
         (w (Node ast.arguments
               (map (fun _ => Node ast.arg []) args ++ defaults))
          + (sum_Z (map (fun _ => w (Node ast.arg [])) args)
             + sum_Z (map (tree_sum w) defaults)))
         + (sum_Z (map (tree_sum w) body)
            + (sum_Z (map (tree_sum w) decorator_list)
               + match returns with
                 | Some r => tree_sum w r
                 | None => 0
                 end))
     | Node _ children => sum_Z (map (tree_sum w) children)
     end)%Z.

Definition cyclomatic_complexity (tree : AST) : Z :=
  (1 + tree_sum node_weight tree)%Z.

(** *** [CodeAnalyzer.analyze_file] *)

(** The patterns of the three extractors, by what they look for. *)
Inductive regex : Type :=
| requests_call
| boto3_client
| redis_client
| psycopg2_connect
| pymongo_client
| kafka_producer
| celery_app
| flask_endpoint
| fastapi_endpoint
| flask_restful_endpoint
| sql_statement
| sqlalchemy_call
| django_orm_call.

(** The text of the dependency patterns, from which the source derives
    the name of the external system. *)
Definition pattern_text (p : regex) : string :=
  match p with
  | requests_call => "requests\.(get|post|put|delete)\s*\("
  | boto3_client => "boto3\.client\s*\("
  | redis_client => "redis\.Redis\s*\("
  | psycopg2_connect => "psycopg2\.connect\s*\("
  | pymongo_client => "pymongo\.MongoClient\s*\("
  | kafka_producer => "kafka\.KafkaProducer\s*\("
  | celery_app => "celery\.Celery\s*\("
  | _ => EmptyString
  end.

Record Endpoint : Type := mkEndpoint {
  path : string;
  method : string;
  framework : string
}.

Record Query : Type := mkQuery {
  query_type : string;
  operation : string;
  table : string
}.

(** The dictionary [analyze_file] returns, or its [error] entry.  The
    [imports] and [classes] entries are read by no other component and
    are not carried. *)
Record FileFacts : Type := mkFileFacts {
  functions : list FunctionFacts;
  complexity : Z;
  dependencies : list string;
  api_endpoints : list Endpoint;
  database_queries : list Query
}.

Inductive FileAnalysis : Type :=
| Facts (f : FileFacts)
| Error (message : string).

Inductive ParseResult : Type :=
| Parsed (tree : AST)
| SyntaxError (message : string).

(** [pattern.split(r'\.')[0]]: the text before the first backslash dot. *)
Fixpoint before_escaped_dot (s : string) : string :=
  match s with
  | EmptyString => EmptyString
  | String c s' =>
      if Ascii.eqb c "\" && String.prefix "." s' then EmptyString
      else String c (before_escaped_dot s')
  end.

(** [s.upper()] on ASCII letters. *)
Definition upper_char (c : ascii) : ascii :=
  let n := nat_of_ascii c in
  if ((97 <=? n) && (n <=? 122))%nat then ascii_of_nat (n - 32) else c.

Fixpoint upper (s : string) : string :=
  match s with
  | EmptyString => EmptyString
  | String c s' => String (upper_char c) (upper s')
  end.

Section Extractor.
(** The file system, the parser, the regular expression engine and the
    iteration order of sets are services of the interpreter. *)
Variable read_file : string -> option string.
Variable ast_parse : string -> ParseResult.
Variable re_search : regex -> string -> bool.
Variable re_finditer : regex -> string -> list (list string).
Variable set_iter : list string -> list string.

(** [_extract_dependencies]. *)
Definition _extract_dependencies (content : string) : list string :=
  let patterns :=
    [requests_call; boto3_client; redis_client; psycopg2_connect;
     pymongo_client; kafka_producer; celery_app] in
  set_iter
    (map
       (fun pattern =>
          replace_char "\" EmptyString
            (before_escaped_dot (pattern_text pattern)))
       (filter (fun pattern => re_search pattern content) patterns)).

(** [_extract_api_endpoints]. *)
Definition _extract_api_endpoints (content : string) : list Endpoint :=
  let patterns :=
    [(flask_endpoint, "flask"); (fastapi_endpoint, "fastapi");
     (flask_restful_endpoint, "flask-restful")] in
  flat_map
    (fun entry : regex * string =>
       map
         (fun groups =>
            let g1 := nth 0 groups EmptyString in
            let method :=
              if negb (mem g1 ["route"; "resource"]) then upper g1
              else "GET" in
            mkEndpoint (nth 1 groups EmptyString) method (snd entry))
         (re_finditer (fst entry) content))
    patterns.

(** [_extract_db_queries]. *)
Definition _extract_db_queries (content : string) : list Query :=
  let sql_patterns :=
    [(sql_statement, "sql"); (sqlalchemy_call, "sqlalchemy");
     (django_orm_call, "django-orm")] in
  flat_map
    (fun entry : regex * string =>
       map
         (fun groups =>
            mkQuery (snd entry)
              (if nonempty groups then nth 0 groups EmptyString
               else "unknown")
              (if (1 <? List.length groups)%nat
               then nth 1 groups EmptyString
               else "unknown"))
         (re_finditer (fst entry) content))
    sql_patterns.

(** [CodeAnalyzer.analyze_file]: the file is missing, or it is read and
    parsed, where a [SyntaxError] gives the error entry.  A file that
    cannot be decoded, or that [ast.parse] refuses with another
    exception, makes the source raise; that is not modelled. *)
Definition analyze_file (file_path : string) : FileAnalysis :=
  match read_file file_path with
  | None => Error ("File not found: " ++ file_path)%string
  | Some content =>
      match ast_parse content with
      | Parsed tree =>
          Facts
            (mkFileFacts (_extract_functions tree)
               (_calculate_complexity tree)
               (_extract_dependencies content)
               (_extract_api_endpoints content)
               (_extract_db_queries content))
      | SyntaxError message =>
          Error ("Syntax error in " ++ file_path ++ ": " ++ message)%string
      end
  end.

End Extractor.

(** *** The architecture analyzer *)

(** The dictionary [_analyze_service] builds for one service. *)
Module Service.
Record t : Type := mk {
  name : string;
  path : string;
  files : list string;
  total_lines : Z;
  complexity : Z;
  api_endpoints : list Endpoint;
  database_tables : list string;
  external_dependencies : list string;
  internal_calls : list string
}.
End Service.

(** Python values, as far as the entries of that dictionary need them:
    strings, integers, lists and dictionaries. *)
#[warnings="-register-all"]
Inductive value : Type :=
| VStr (s : string)
| VInt (n : Z)
| VList (l : list value)
| VDict (d : list (string * value)).

Definition endpoint_value (e : Endpoint) : value :=
  VDict [("path", VStr (path e)); ("method", VStr (method e));
         ("framework", VStr (framework e))].

(** [service_analysis.items()]: the entries in insertion order. *)
Definition items (service_analysis : Service.t) : list (string * value) :=
  [("name", VStr (Service.name service_analysis));
   ("path", VStr (Service.path service_analysis));
   ("files", VList (map VStr (Service.files service_analysis)));
   ("total_lines", VInt (Service.total_lines service_analysis));
   ("complexity", VInt (Service.complexity service_analysis));
   ("api_endpoints",
    VList (map endpoint_value (Service.api_endpoints service_analysis)));
   ("database_tables",
    VList (map VStr (Service.database_tables service_analysis)));
   ("external_dependencies",
    VList (map VStr (Service.external_dependencies service_analysis)));
   ("internal_calls",
    VList (map VStr (Service.internal_calls service_analysis)))].

(** [v.get(key, default)]: only a dictionary has the method [get]. *)
Definition py_get (v : value) (key : string) (default : value)
    : result value :=
  match v with
  | VDict d =>
      Return match get d key with
             | Some x => x
             | None => default
             end
  | _ => Raise AttributeError
  end.

(** [set(v)], keeping the strings: a list gives its elements, a
    dictionary its keys, a string its characters; an integer is not
    iterable and a list or dictionary element is not hashable. *)
Fixpoint chars (s : string) : list string :=
  match s with
  | EmptyString => []
  | String c s' => String c EmptyString :: chars s'
  end.

Fixpoint set_of_elements (l : list value) : result (list string) :=
  match l with
  | [] => Return []
  | VStr s :: rest => bind (set_of_elements rest) (fun r => Return (s :: r))
  | VInt _ :: rest => set_of_elements rest
  | _ :: _ => Raise TypeError
  end.

Definition py_set (v : value) : result (list string) :=
  match v with
  | VStr s => Return (chars s)
  | VInt _ => Raise TypeError
  | VList l => set_of_elements l
  | VDict d => Return (map fst d)
  end.

(** The [code_analyzer] an [ArchitectureAnalyzer] is built with, as far
    as the analyzer uses it. *)
Record CodeAnalyzer : Type := mkCodeAnalyzer {
  repo_path : string;
  analyze_file_of : string -> FileAnalysis
}.

(** [models.ArchitectureAnalysis] and the entries of [risk_areas]. *)
Record RiskArea : Type := mkRiskArea {
  risk_type : string;
  risk_service : string;
  risk_score : Q;
  risk_description : string
}.

Record ArchitectureAnalysis : Type := mkAnalysis {
  services : dict Service.t;
  analysis_dependencies : list ServiceDependency;
  code_smells : list CodeSmell;
  metrics : dict Q;
  recommendations : list string;
  risk_areas : list RiskArea
}.

(** [_check_api_dependency]: the escaped pattern is computed and the
    files are looped over, but no file is read; the answer is [False]. *)
Definition _check_api_dependency (endpoint_path : string)
    (service_data : Service.t) : bool :=
  let endpoint_pattern := replace_char "/" "\/" endpoint_path in
  let visited :=
    fold_left (fun (u : unit) (file_path : string) => u)
      (Service.files service_data) tt in
  false.

Definition Qlt_bool (a b : Q) : bool := negb (Qle_bool b a).

Section Architecture.
(** Services of the interpreter: the directory walk ([os.walk], given as
    the pairs of a directory, relative to the repository, and its files),
    the cycle enumeration of networkx, the iteration order of sets, and
    the formatting of sets, lists and floats in messages. *)
Variable os_walk : string -> string -> list (string * list string).
Variable simple_cycles : Nx.DiGraph -> list (list string).
Variable set_iter : list string -> list string.
Variable repr_set : list string -> string.
Variable repr_list : list string -> string.
Variable repr_cycles : list (list string) -> string.
Variable format_float : nat -> Q -> string.

Variable code_analyzer : CodeAnalyzer.

(** The state of the loop of [_analyze_service] that is kept per file. *)
Definition add_file_facts (analysis : Service.t) (rel_path : string)
    : Service.t :=
  match analyze_file_of code_analyzer rel_path with
  | Error _ => analysis
  | Facts file_analysis =>
      Service.mk (Service.name analysis) (Service.path analysis)
        (Service.files analysis ++ [rel_path])
        (Service.total_lines analysis)
        (Service.complexity analysis + complexity file_analysis)%Z
        (Service.api_endpoints analysis ++ api_endpoints file_analysis)
        (Service.database_tables analysis
         ++ filter (fun t => negb (String.eqb t "unknown"))
              (map table (database_queries file_analysis)))
        (Service.external_dependencies analysis
         ++ dependencies file_analysis)
        (Service.internal_calls analysis)
  end.

(** [_analyze_service]: the two sets become lists at the end. *)
Definition _analyze_service (service_name service_path : string)
    : Service.t :=
  let rel_paths :=
    flat_map
      (fun entry : string * list string =>
         map (fun file => (fst entry ++ "/" ++ file)%string)
           (filter (fun file => endswith file ".py") (snd entry)))
      (os_walk (repo_path code_analyzer) service_path) in
  let analysis :=
    fold_left add_file_facts rel_paths
      (Service.mk service_name service_path [] 0 0 [] [] [] []) in
  Service.mk (Service.name analysis) (Service.path analysis)
    (Service.files analysis) (Service.total_lines analysis)
    (Service.complexity analysis) (Service.api_endpoints analysis)
    (set_iter (Service.database_tables analysis))
    (set_iter (Service.external_dependencies analysis))
    (Service.internal_calls analysis).

(** The loop of the shared database rule of [_detect_code_smells], over
    the entries [service_analysis.items()] of the service's own
    dictionary. *)
Fixpoint shared_database_loop (service_name : string)
    (tables : list string) (entries : list (string * value))
    (smells : list CodeSmell) : result (list CodeSmell) :=
  match entries with
  | [] => Return smells
  | (other_service, other_analysis) :: rest =>
      if negb (String.eqb other_service service_name) then
        bind (py_get other_analysis "database_tables" (VList []))
          (fun other_tables_value =>
             bind (py_set other_tables_value)
               (fun other_tables =>
                  let shared_tables :=
                    filter (fun t => mem t other_tables) tables in
                  if nonempty shared_tables then
                    shared_database_loop service_name tables rest
                      (smells
                       ++ [mkSmell "shared_database" "high"
                             (service_name ++ " and " ++ other_service)
                             ("Services share database tables: "
                              ++ repr_set shared_tables)
                             (Some
                                "Consider database-per-service pattern or API-based data access")
                             None])
                  else shared_database_loop service_name tables rest smells))
      else shared_database_loop service_name tables rest smells
  end.

(** [_detect_code_smells]. *)
Definition _detect_code_smells (service_name : string)
    (service_analysis : Service.t) : result (list CodeSmell) :=
  let n_endpoints := List.length (Service.api_endpoints service_analysis) in
  let smells1 :=
    if (20 <? n_endpoints)%nat then
      [mkSmell "god_service" "high" service_name
         ("Service has " ++ str_of_nat n_endpoints
          ++ " endpoints, consider splitting")
         (Some
            "Split into smaller, focused services based on domain boundaries")
         None]
    else [] in
  let avg_complexity :=
    (inject_Z (Service.complexity service_analysis)
     / inject_Z
         (Z.max (Z.of_nat (List.length (Service.files service_analysis))) 1))%Q
  in
  let smells2 :=
    if Qlt_bool 10 avg_complexity then
      [mkSmell "high_complexity" "medium" service_name
         ("Average file complexity is " ++ format_float 1 avg_complexity)
         (Some "Refactor complex functions and classes")
         None]
    else [] in
  if (0 <? List.length (Service.database_tables service_analysis))%nat then
    shared_database_loop service_name
      (Service.database_tables service_analysis)
      (items service_analysis) (smells1 ++ smells2)
  else Return (smells1 ++ smells2).

(** [_build_dependency_graph], with the check it calls through [self] as
    a parameter.  The state [st] is the list [dependencies] and the graph
    [self.dependency_graph]; the three functions are the bodies of the
    three nested loops, innermost first. *)
Definition record_call (check : string -> Service.t -> bool)
    (service_name : string) (endpoint : Endpoint)
    (st : list ServiceDependency * Nx.DiGraph) (other : string * Service.t)
    : list ServiceDependency * Nx.DiGraph :=
  let other_service := fst other in
  if negb (String.eqb other_service service_name)
     && check (path endpoint) (snd other)
  then
    (fst st
     ++ [mkDependency other_service service_name "api" (7 # 10)
           [path endpoint]],
     Nx.add_edge (snd st) other_service service_name)
  else st.

Definition scan_endpoint (check : string -> Service.t -> bool)
    (services : dict Service.t) (service_name : string)
    (st : list ServiceDependency * Nx.DiGraph) (endpoint : Endpoint)
    : list ServiceDependency * Nx.DiGraph :=
  fold_left (record_call check service_name endpoint) services st.

Definition scan_service (check : string -> Service.t -> bool)
    (services : dict Service.t)
    (st : list ServiceDependency * Nx.DiGraph) (entry : string * Service.t)
    : list ServiceDependency * Nx.DiGraph :=
  fold_left (scan_endpoint check services (fst entry))
    (Service.api_endpoints (snd entry)) st.

Definition build_dependency_graph_with
    (check : string -> Service.t -> bool)
    (services : dict Service.t) (graph : Nx.DiGraph)
    : list ServiceDependency * Nx.DiGraph :=
  fold_left (scan_service check services) services ([], graph).

Definition _build_dependency_graph (services : dict Service.t)
    (graph : Nx.DiGraph) : list ServiceDependency * Nx.DiGraph :=
  build_dependency_graph_with _check_api_dependency services graph.

Definition len_Q {A : Type} (l : list A) : Q :=
  inject_Z (Z.of_nat (List.length l)).

Definition sum_Q (l : list Q) : Q := fold_left Qplus l 0%Q.

Definition max_Q (l : list Q) : Q :=
  match l with
  | [] => 0%Q
  | x :: rest => fold_left (fun m y => if Qlt_bool m y then y else m) rest x
  end.

(** [_calculate_metrics]. *)
Definition _calculate_metrics (services : dict Service.t)
    (dependencies : list ServiceDependency) (graph : Nx.DiGraph) : dict Q :=
  let n := List.length services in
  let metrics :=
    [("total_services", len_Q services);
     ("total_dependencies", len_Q dependencies);
     ("avg_service_complexity",
      (inject_Z (sum_Z (map (fun s => Service.complexity (snd s)) services))
       / inject_Z (Z.max (Z.of_nat n) 1))%Q);
     ("coupling_score",
      (len_Q dependencies
       / inject_Z (Z.max (Z.of_nat n * (Z.of_nat n - 1)) 1))%Q);
     ("avg_endpoints_per_service",
      (inject_Z
         (sum_Z
            (map
               (fun s =>
                  Z.of_nat (List.length (Service.api_endpoints (snd s))))
               services))
       / inject_Z (Z.max (Z.of_nat n) 1))%Q)] in
  if (0 <? Nx.number_of_nodes graph)%nat then
    let centrality := map snd (Nx.degree_centrality graph) in
    metrics
    ++ [("max_centrality",
         if nonempty centrality then max_Q centrality else 0%Q);
        ("avg_centrality",
         if nonempty centrality
         then (sum_Q centrality / len_Q centrality)%Q else 0%Q)]
  else metrics.

(** [_generate_recommendations]. *)
Definition _generate_recommendations (services : dict Service.t)
    (dependencies : list ServiceDependency) (smells : list CodeSmell)
    (graph : Nx.DiGraph) : list string :=
  let r1 :=
    if (0 <? Nx.number_of_nodes graph)%nat then
      let cycles := simple_cycles graph in
      if nonempty cycles then
        [("Remove circular dependencies between services: "
          ++ repr_cycles cycles)%string]
      else []
    else [] in
  let r2 :=
    flat_map
      (fun s : string * Service.t =>
         if (100 <? Service.complexity (snd s))%Z then
           [("Consider breaking down " ++ fst s ++ " - complexity score: "
             ++ NilZero.string_of_int (Z.to_int (Service.complexity (snd s))))%string]
         else [])
      services in
  let unversioned_apis :=
    flat_map
      (fun s : string * Service.t =>
         map (fun e => (fst s ++ ":" ++ path e)%string)
           (filter (fun e => negb (contains (path e) "/v"))
              (Service.api_endpoints (snd s))))
      services in
  let r3 :=
    if nonempty unversioned_apis then
      [("Add API versioning to endpoints: "
        ++ repr_list (firstn 5 unversioned_apis) ++ "...")%string]
    else [] in
  let services_with_db :=
    filter (fun s : string * Service.t =>
              nonempty (Service.database_tables (snd s)))
      services in
  let r4 :=
    if (1 <? List.length services_with_db)%nat then
      ["Consider implementing database-per-service pattern for better isolation"]
    else [] in
  r1 ++ r2 ++ r3 ++ r4.

(** [_identify_risk_areas]: the high coupling entries, then the single
    point of failure entries.  Scores are exact rationals here; the
    source computes them in floating point, so the number of services
    that the description of a high coupling entry names may be rounded
    differently. *)
Definition high_coupling_risks (services : dict Service.t)
    (graph : Nx.DiGraph) : list RiskArea :=
  if (0 <? Nx.number_of_nodes graph)%nat then
    flat_map
      (fun entry : string * Q =>
         let node := fst entry in
         let score := snd entry in
         if Qlt_bool (1 # 2) score then
           [mkRiskArea "high_coupling" node score
              (node ++ " is highly coupled with "
               ++ NilZero.string_of_int
                    (Z.to_int (Qfloor (score * len_Q services)))
               ++ " other services")]
         else [])
      (Nx.degree_centrality graph)
  else [].

Definition single_point_of_failure_risks (services : dict Service.t)
    (dependencies : list ServiceDependency) : list RiskArea :=
  flat_map
    (fun s : string * Service.t =>
       let service_name := fst s in
       let dependents :=
         map source
           (filter (fun d => String.eqb (target d) service_name)
              dependencies) in
       if Qlt_bool (len_Q services * (1 # 2)) (len_Q dependents) then
         [mkRiskArea "single_point_of_failure" service_name
            (len_Q dependents / len_Q services)
            (service_name ++ " is a dependency for "
             ++ str_of_nat (List.length dependents) ++ " services")]
       else [])
    services.

Definition _identify_risk_areas (services : dict Service.t)
    (dependencies : list ServiceDependency) (graph : Nx.DiGraph)
    : list RiskArea :=
  high_coupling_risks services graph
  ++ single_point_of_failure_risks services dependencies.

(** The first loop of [analyze_architecture]: each service is analysed,
    stored, and checked for smells. *)
Fixpoint analyze_services (service_paths : dict string)
    (services : dict Service.t) (code_smells : list CodeSmell)
    : result (dict Service.t * list CodeSmell) :=
  match service_paths with
  | [] => Return (services, code_smells)
  | (service_name, service_path) :: rest =>
      let service_analysis := _analyze_service service_name service_path in
      let services := set services service_name service_analysis in
      bind (_detect_code_smells service_name service_analysis)
        (fun smells =>
           analyze_services rest services (code_smells ++ smells))
  end.

(** [analyze_architecture], for an analyzer whose [dependency_graph] is
    [graph]; the graph after the call comes with the result. *)
Definition analyze_architecture (graph : Nx.DiGraph)
    (service_paths : dict string)
    : result ArchitectureAnalysis * Nx.DiGraph :=
  match analyze_services service_paths [] [] with
  | Raise e => (Raise e, graph)
  | Return (services, code_smells) =>
      let built := _build_dependency_graph services graph in
      let dependencies := fst built in
      let graph := snd built in
      let metrics := _calculate_metrics services dependencies graph in
      let recommendations :=
        _generate_recommendations services dependencies code_smells graph in
      let risk_areas := _identify_risk_areas services dependencies graph in
      (Return
         (mkAnalysis services dependencies code_smells metrics
            recommendations risk_areas),
       graph)
  end.

End Architecture.

(** *** Vocabulary of the properties *)

(** A shared database smell that names the services [a] and [b]. *)
Definition is_shared_database_smell (a b : string) (s : CodeSmell) : bool :=
  String.eqb (type s) "shared_database"
  && String.eqb (severity s) "high"
  && contains (location s) a && contains (location s) b.

(** The edge that the dependency rule records for a call from
    [other_service] to the endpoint [endpoint] of [service_name]. *)
Definition api_edge (other_service service_name : string)
    (endpoint : Endpoint) : ServiceDependency :=
  mkDependency other_service service_name "api" (7 # 10) [path endpoint].

(** The dependency rule as the specification words it: whenever a file
    of another service holds the literal path of an endpoint, the edge
    from that service to the endpoint's owner is among the
    dependencies. *)
Definition adds_edge_on_textual_match (read_file : string -> option string)
    (services : dict Service.t) (dependencies : list ServiceDependency)
    : Prop :=
  forall service_name service_data endpoint other_service other_data
         file content,
    In (service_name, service_data) services ->
    In endpoint (Service.api_endpoints service_data) ->
    In (other_service, other_data) services ->
    other_service <> service_name ->
    In file (Service.files other_data) ->
    read_file file = Some content ->
    contains content (path endpoint) = true ->
    In (api_edge other_service service_name endpoint) dependencies.

(** *** A small repository to run the analyzer on

    Four services of one file each.  [auth] declares an endpoint that
    the code of [user] calls by its literal path; [orders] and [billing]
    both query the table [users].  The interpreter services are the least
    that serve these four files. *)
Definition auth_source : string :=
  "@app.route('/api/auth/login')
def login():
    return {'status': 'ok'}".

Definition user_source : string :=
  "@app.route('/api/users')
def get_users():
    auth = requests.get('http://auth-service/api/auth/login')
    return {'users': []}".

Definition orders_source : string :=
  "def orders(db):
    return db.execute('SELECT id FROM users')".

Definition billing_source : string :=
  "def invoices(db):
    return db.execute('SELECT total FROM users')".

Definition demo_read_file (file_path : string) : option string :=
  if String.eqb file_path "auth-service/main.py" then Some auth_source
  else if String.eqb file_path "user-service/main.py" then Some user_source
  else if String.eqb file_path "orders-service/main.py"
  then Some orders_source
  else if String.eqb file_path "billing-service/main.py"
  then Some billing_source
  else None.

Definition demo_parse (content : string) : ParseResult :=
  Parsed (Node ast.Module_ []).

Definition demo_re_search (p : regex) (content : string) : bool :=
  match p with
  | requests_call => contains content "requests.get("
  | _ => false
  end.

Definition demo_re_finditer (p : regex) (content : string)
    : list (list string) :=
  match p with
  | flask_endpoint =>
      if contains content "@app.route('/api/auth/login')"
      then [["route"; "/api/auth/login"]]
      else if contains content "@app.route('/api/users')"
      then [["route"; "/api/users"]]
      else []
  | sql_statement =>
      if contains content "FROM users" then [["SELECT"; "users"]] else []
  | _ => []
  end.

Definition demo_set_iter (l : list string) : list string :=
  nodup string_dec l.

Definition demo_code_analyzer : CodeAnalyzer :=
  mkCodeAnalyzer "/repo"
    (analyze_file demo_read_file demo_parse demo_re_search demo_re_finditer
       demo_set_iter).

Definition demo_walk (repo service_path : string)
    : list (string * list string) :=
  [(service_path, ["main.py"; "README.md"])].

Definition demo_cycles (g : Nx.DiGraph) : list (list string) := [].

Definition demo_format_float (digits : nat) (x : Q) : string :=
  NilZero.string_of_int (Z.to_int (Qfloor x)).

(** [analyze_architecture] on the small repository. *)
Definition demo_analyze (service_paths : dict string)
    : result ArchitectureAnalysis * Nx.DiGraph :=
  analyze_architecture demo_walk demo_cycles demo_set_iter
    (join ", ") (join ", ") (fun cycles => join "; " (map (join ", ") cycles))
    demo_format_float demo_code_analyzer Nx.empty service_paths.

Definition calling_services : dict string :=
  [("auth", "auth-service"); ("user", "user-service")].

Definition sharing_services : dict string :=
  [("orders", "orders-service"); ("billing", "billing-service")].

(** A function whose body returns a conjunction of its two parameters,
    and the module that holds it. *)
Definition both_function : AST :=
  FunctionDef "both" ["a"; "b"] []
    [Node ast.Return [BoolOp ast.And [Name "a"; Name "b"]]] [] None 1.

Definition both_module : AST := Node ast.Module_ [both_function].
End Analyzer.

(** ** [planner.py]: the refactor planner *)

Module Planner.
Import Py.

(** [models.RefactorType], with the string value of each member, and
    [models.SafetyLevel]. *)
Inductive RefactorType : Type :=
| EXTRACT_SERVICE
| MERGE_SERVICES
| SPLIT_SERVICE
| RENAME
| RESTRUCTURE
| DEPENDENCY_INJECTION
| INTERFACE_EXTRACTION
| DATABASE_MIGRATION
| API_VERSIONING
| REMOVE_DEAD_CODE.

Definition type_value (t : RefactorType) : string :=
  match t with
  | EXTRACT_SERVICE => "extract_service"
  | MERGE_SERVICES => "merge_services"
  | SPLIT_SERVICE => "split_service"
  | RENAME => "rename"
  | RESTRUCTURE => "restructure"
  | DEPENDENCY_INJECTION => "dependency_injection"
  | INTERFACE_EXTRACTION => "interface_extraction"
  | DATABASE_MIGRATION => "database_migration"
  | API_VERSIONING => "api_versioning"
  | REMOVE_DEAD_CODE => "remove_dead_code"
  end.

Inductive SafetyLevel : Type :=
| LOW
| MEDIUM
| HIGH.

Definition is_high (s : SafetyLevel) : bool :=
  match s with
  | HIGH => true
  | _ => false
  end.

Definition is_low (s : SafetyLevel) : bool :=
  match s with
  | LOW => true
  | _ => false
  end.

(** [models.RefactorStep]. *)
Record RefactorStep : Type := mkStep {
  id : string;
  type : RefactorType;
  description : string;
  target_files : list string;
  dependencies : list string;
  estimated_effort : Z;
  risk_level : string;
  rollback_strategy : option string;
  validation_steps : list string;
  commit_message : option string
}.

(** The [risk_assessment] dictionary of a plan. *)
Record RiskAssessment : Type := mkRiskAssessment {
  risk_distribution : dict Z;
  high_risk_count : nat;
  total_risk_score : Z;
  mitigation_strategies : list string;
  critical_paths : list (list string)
}.

(** [models.RefactorPlan]. *)
Record RefactorPlan : Type := mkPlan {
  plan_id : string;
  created_at : string;
  target_architecture : string;
  safety_level : SafetyLevel;
  steps : list RefactorStep;
  total_effort : Z;
  risk_assessment : RiskAssessment;
  success_criteria : list string;
  rollback_plan : option string
}.

(** What a call hands to its caller: the value it returns or the
    exception it raises, and the warnings it emits on the way (through
    [warnings] or [logging]).  The planner emits none. *)
Record outcome (A : Type) : Type := mkOutcome {
  returned : result A;
  emitted : list string
}.

Arguments mkOutcome {A} returned emitted.
Arguments returned {A} o.
Arguments emitted {A} o.

(** *** Dependency ordering *)

(** [step_map = {step.id: step for step in steps}]. *)
Definition step_map_of (steps : list RefactorStep) : dict RefactorStep :=
  fold_left (fun m step => set m (id step) step) steps [].

(** The body of the loop over the dependencies of one step. *)
Definition add_dependency (step_map : dict RefactorStep) (step_id : string)
    (graph : Nx.DiGraph) (dep : string) : Nx.DiGraph :=
  if endswith dep "*" then
    let prefix := drop_last dep in
    fold_left
      (fun g other_id =>
         if startswith other_id prefix then Nx.add_edge g other_id step_id
         else g)
      (keys step_map) graph
  else if has_key step_map dep then Nx.add_edge graph dep step_id
  else graph.

(** The body of the loop over the steps. *)
Definition add_step (step_map : dict RefactorStep) (graph : Nx.DiGraph)
    (step : RefactorStep) : Nx.DiGraph :=
  fold_left (add_dependency step_map (id step)) (dependencies step)
    (Nx.add_node graph (id step)).

(** The graph that [_order_by_dependencies] builds. *)
Definition dependency_graph (steps : list RefactorStep) : Nx.DiGraph :=
  fold_left (add_step (step_map_of steps)) steps Nx.empty.

(** [[step_map[step_id] for step_id in ordered_ids if step_id in
    step_map]]. *)
Definition steps_of_ids (step_map : dict RefactorStep)
    (ordered_ids : list string) : list RefactorStep :=
  flat_map
    (fun step_id =>
       match get step_map step_id with
       | Some step => [step]
       | None => []
       end)
    ordered_ids.

(** [_order_by_dependencies]: the handler catches [NetworkXUnfeasible]
    only, and returns the steps as they came. *)
Definition _order_by_dependencies (steps : list RefactorStep)
    : outcome (list RefactorStep) :=
  let step_map := step_map_of steps in
  let graph := dependency_graph steps in
  match Nx.topological_sort graph with
  | Return ordered_ids => mkOutcome (Return (steps_of_ids step_map ordered_ids)) []
  | Raise NetworkXUnfeasible => mkOutcome (Return steps) []
  | Raise e => mkOutcome (Raise e) []
  end.

(** *** Prioritization *)

(** [priority_map = {p: i for i, p in enumerate(priorities)}]. *)
Definition priority_map_of (priorities : list string) : dict Z :=
  fst
    (fold_left
       (fun st p => (set (fst st) p (snd st), (snd st + 1)%Z))
       priorities ([], 0%Z)).

Fixpoint first_match (step : RefactorStep) (entries : list (string * Z))
    (default : Z) : Z :=
  match entries with
  | [] => default
  | (priority, index) :: rest =>
      if contains (type_value (type step)) priority
         || contains (lower (description step)) priority
      then index
      else first_match step rest default
  end.

Definition get_priority (priorities : list string) (step : RefactorStep)
    : Z :=
  first_match step (priority_map_of priorities)
    (Z.of_nat (List.length priorities)).

(** [_prioritize_steps]. *)
Definition _prioritize_steps (steps : list RefactorStep)
    (priorities : list string) : list RefactorStep :=
  sorted (get_priority priorities) steps.

(** *** Step generation *)

(** [_plan_ddd_migration]. *)
Definition _plan_ddd_migration (analysis : Analyzer.ArchitectureAnalysis)
    (safety : SafetyLevel) : list RefactorStep :=
  flat_map
    (fun entry : string * Analyzer.Service.t =>
       let service_name := fst entry in
       let service_data := snd entry in
       if (10 <? List.length (Analyzer.Service.api_endpoints service_data))%nat
       then
         [mkStep ("extract-context-" ++ service_name) SPLIT_SERVICE
            ("Extract bounded contexts from " ++ service_name)
            (Analyzer.Service.files service_data) [] 16 "medium" None
            ["Verify all endpoints still function"; "Check data consistency";
             "Validate domain boundaries"]
            (Some ("refactor: extract bounded contexts from "
                   ++ service_name)%string)]
       else [])
    (Analyzer.services analysis)
  ++ [mkStep "implement-aggregates" RESTRUCTURE
        "Implement DDD aggregates and entities" [] ["extract-context-*"]
        24 "low" None
        ["Verify aggregate boundaries"; "Check invariant enforcement";
         "Validate entity relationships"]
        (Some "refactor: implement DDD aggregates and entities");
      mkStep "create-domain-events" RESTRUCTURE
        "Implement domain events for cross-aggregate communication" []
        ["implement-aggregates"] 16 "medium" None
        ["Verify event publishing"; "Check event handling";
         "Validate event sourcing if applicable"]
        (Some "feat: add domain events for aggregate communication");
      mkStep "implement-repositories" INTERFACE_EXTRACTION
        "Create repository interfaces and implementations" []
        ["implement-aggregates"] 12 "low" None
        ["Verify data access patterns"; "Check repository contracts";
         "Validate persistence logic"]
        (Some "refactor: implement repository pattern for data access")].

(** [_plan_event_driven_migration]. *)
Definition _plan_event_driven_migration
    (analysis : Analyzer.ArchitectureAnalysis) (safety : SafetyLevel)
    : list RefactorStep :=
  [mkStep "setup-message-broker" RESTRUCTURE
     "Set up message broker infrastructure (Kafka/RabbitMQ)"
     ["docker-compose.yml"; "infrastructure/"] [] 8 "low" None
     ["Verify broker connectivity"; "Check topic/queue creation";
      "Validate message persistence"]
     (Some "feat: add message broker infrastructure")]
  ++ flat_map
       (fun dep : Analyzer.ServiceDependency =>
          if String.eqb (Analyzer.dependency_type dep) "api"
             && Analyzer.Qlt_bool (1 # 2) (Analyzer.strength dep)
          then
            [mkStep
               ("async-" ++ Analyzer.source dep ++ "-" ++ Analyzer.target dep)
               RESTRUCTURE
               ("Convert sync call from " ++ Analyzer.source dep ++ " to "
                ++ Analyzer.target dep ++ " to async events")
               [] ["setup-message-broker"] 8
               (if is_high safety then "high" else "medium") None
               ["Verify event publishing"; "Check event consumption";
                "Validate data consistency"; "Test failure scenarios"]
               (Some ("refactor: convert " ++ Analyzer.source dep ++ "->"
                      ++ Analyzer.target dep ++ " to async events")%string)]
          else [])
       (Analyzer.analysis_dependencies analysis)
  ++ (if negb (is_low safety) then
        [mkStep "implement-event-sourcing" DATABASE_MIGRATION
           "Implement event sourcing for critical aggregates" []
           ["async-*"] 40 "high" None
           ["Verify event store"; "Check event replay";
            "Validate projections"; "Test snapshot functionality"]
           (Some "feat: implement event sourcing for audit and replay")]
      else []).

(** [_find_services_with_shared_db]: the state is the list of groups and
    the set [processed]. *)
Definition _find_services_with_shared_db
    (analysis : Analyzer.ArchitectureAnalysis) : list (list string) :=
  let services := Analyzer.services analysis in
  fst
    (fold_left
       (fun (st : list (list string) * list string)
            (entry1 : string * Analyzer.Service.t) =>
          let service1 := fst entry1 in
          if mem service1 (snd st) then st
          else
            let tables1 := Analyzer.Service.database_tables (snd entry1) in
            let group :=
              service1
              :: map fst
                   (filter
                      (fun entry2 : string * Analyzer.Service.t =>
                         negb (String.eqb (fst entry2) service1)
                         && negb (mem (fst entry2) (snd st))
                         && nonempty
                              (filter
                                 (fun t =>
                                    mem t
                                      (Analyzer.Service.database_tables
                                         (snd entry2)))
                                 tables1))
                      services) in
            if (1 <? List.length group)%nat
            then (fst st ++ [group], snd st ++ group)
            else st)
       services ([], [])).

Section Generation.
(** Services of the interpreter: the formatting of lists and floats,
    [uuid.uuid4], [datetime.now] and the path enumeration of networkx. *)
Variable repr_list : list string -> string.
Variable format_float : nat -> Q -> string.
Variable new_uuid : string.
Variable now : string.
Variable all_simple_paths :
  Nx.DiGraph -> string -> string -> list (list string).

(** [_plan_microservices_migration]. *)
Definition _plan_microservices_migration
    (analysis : Analyzer.ArchitectureAnalysis) (safety : SafetyLevel)
    : list RefactorStep :=
  map
    (fun service_group =>
       mkStep ("separate-db-" ++ join "-" service_group) DATABASE_MIGRATION
         ("Separate databases for services: " ++ repr_list service_group)
         [] [] 24 "high" None
         ["Verify data migration"; "Check data consistency";
          "Validate cross-service queries"; "Test rollback procedures"]
         (Some ("refactor: implement database-per-service for "
                ++ repr_list service_group)%string))
    (_find_services_with_shared_db analysis)
  ++ flat_map
       (fun entry : string * Analyzer.Service.t =>
          let service_name := fst entry in
          let service_data := snd entry in
          let unversioned :=
            filter (fun e => negb (contains (Analyzer.path e) "/v"))
              (Analyzer.Service.api_endpoints service_data) in
          if nonempty unversioned then
            [mkStep ("api-versioning-" ++ service_name) API_VERSIONING
               ("Add API versioning to " ++ service_name)
               (filter (fun f => contains f "api" || contains f "route")
                  (Analyzer.Service.files service_data))
               [] 8 "medium" None
               ["Verify backward compatibility"; "Check version routing";
                "Validate deprecation headers"]
               (Some ("feat: add API versioning to " ++ service_name)%string)]
          else [])
       (Analyzer.services analysis)
  ++ (if is_high safety then
        [mkStep "setup-service-mesh" RESTRUCTURE
           "Implement service mesh for observability and security"
           ["kubernetes/"; "istio/"] ["api-versioning-*"] 32 "medium" None
           ["Verify mesh connectivity"; "Check mTLS configuration";
            "Validate traffic policies"; "Test circuit breakers"]
           (Some
              "feat: add service mesh for improved microservices management")]
      else []).

(** [smell.suggested_fix or fallback]. *)
Definition fix_or (suggested_fix : option string) (fallback : string)
    : string :=
  match suggested_fix with
  | Some (String c s) => String c s
  | _ => fallback
  end.

(** [_plan_generic_improvements]. *)
Definition _plan_generic_improvements
    (analysis : Analyzer.ArchitectureAnalysis) (safety : SafetyLevel)
    : list RefactorStep :=
  let smells := Analyzer.code_smells analysis in
  let of_type (t : string) :=
    filter (fun smell => String.eqb (Analyzer.type smell) t) smells in
  map
    (fun smell =>
       mkStep ("split-god-service-" ++ Analyzer.location smell) SPLIT_SERVICE
         (fix_or (Analyzer.suggested_fix smell)
            ("Split " ++ Analyzer.location smell ++ " into smaller services"))
         [] [] 40 "high" None
         ["Verify service boundaries"; "Check data consistency";
          "Validate API contracts"; "Test integration points"]
         (Some ("refactor: split " ++ Analyzer.location smell
                ++ " into focused services")%string))
    (of_type "god_service")
  ++ map
       (fun smell =>
          mkStep ("reduce-complexity-" ++ Analyzer.location smell) RESTRUCTURE
            (fix_or (Analyzer.suggested_fix smell)
               ("Reduce complexity in " ++ Analyzer.location smell))
            [] [] 16 "low" None
            ["Verify functionality preserved"; "Check test coverage";
             "Validate performance"]
            (Some ("refactor: reduce complexity in "
                   ++ Analyzer.location smell)%string))
       (of_type "high_complexity")
  ++ (if existsb (fun smell => String.eqb (Analyzer.type smell) "dead_code")
           smells
      then
        [mkStep "remove-dead-code" REMOVE_DEAD_CODE
           "Remove unused code and dependencies" [] [] 8 "low" None
           ["Verify no runtime dependencies"; "Check test coverage";
            "Validate build process"]
           (Some "chore: remove dead code and unused dependencies")]
      else []).

(** [_identify_critical_paths]: edges for the literal dependencies only;
    the paths from every source to every sink, the three longest. *)
Definition critical_graph (steps : list RefactorStep) : Nx.DiGraph :=
  fold_left
    (fun g step =>
       fold_left
         (fun g dep =>
            if negb (endswith dep "*")
               && existsb (fun s => String.eqb (id s) dep) steps
            then Nx.add_edge g dep (id step)
            else g)
         (dependencies step) (Nx.add_node g (id step)))
    steps Nx.empty.

Definition _identify_critical_paths (steps : list RefactorStep)
    : list (list string) :=
  let graph := critical_graph steps in
  if (0 <? Nx.number_of_nodes graph)%nat then
    let sources :=
      filter (fun n => (Nx.in_degree graph n =? 0)%nat) (Nx.nodes graph) in
    let sinks :=
      filter (fun n => (Nx.out_degree graph n =? 0)%nat) (Nx.nodes graph) in
    let paths :=
      flat_map
        (fun source =>
           flat_map (fun target => all_simple_paths graph source target)
             sinks)
        sources in
    firstn 3
      (sorted_reverse (fun p : list string => Z.of_nat (List.length p)) paths)
  else [].

(** [_assess_plan_risks]. *)
Definition count_risk (risk_counts : dict Z) (step : RefactorStep) : dict Z :=
  match get risk_counts (risk_level step) with
  | Some n => set risk_counts (risk_level step) (n + 1)%Z
  | None => set risk_counts (risk_level step) 1%Z
  end.

Definition _assess_plan_risks (steps : list RefactorStep)
    (analysis : Analyzer.ArchitectureAnalysis) : RiskAssessment :=
  mkRiskAssessment
    (fold_left count_risk steps [])
    (List.length
       (filter (fun s => String.eqb (risk_level s) "high") steps))
    (Analyzer.sum_Z
       (map
          (fun s =>
             if String.eqb (risk_level s) "high" then 3%Z
             else if String.eqb (risk_level s) "medium" then 2%Z
             else 1%Z)
          steps))
    ["Implement comprehensive testing before high-risk changes";
     "Use feature flags for gradual rollout";
     "Maintain rollback procedures for each step";
     "Monitor system metrics during migration"]
    (_identify_critical_paths steps).

(** [_define_success_criteria]. *)
Definition _define_success_criteria (target : string)
    (analysis : Analyzer.ArchitectureAnalysis) : list string :=
  ["All existing functionality preserved";
   "No degradation in performance metrics";
   "All tests passing with >80% coverage";
   "No increase in error rates"]
  ++ (if String.eqb target "domain-driven" then
        ["Clear bounded contexts established";
         "Aggregates enforce business invariants";
         "Domain events enable loose coupling"]
      else if String.eqb target "event-driven" then
        ["All synchronous dependencies converted to events";
         "Message delivery guarantees implemented";
         "Event replay capability verified"]
      else if String.eqb target "microservices" then
        ["Each service has its own database";
         "API versioning implemented";
         "Service discovery and load balancing functional"]
      else [])
  ++ (let coupling_score :=
        match get (Analyzer.metrics analysis) "coupling_score" with
        | Some x => x
        | None => 0%Q
        end in
      if Analyzer.Qlt_bool (3 # 10) coupling_score then
        [("Coupling score reduced below 0.3 (current: "
          ++ format_float 2 coupling_score ++ ")")%string]
      else []).

(** [_create_rollback_plan]. *)
Definition _create_rollback_plan (steps : list RefactorStep) : string :=
  "
Rollback Procedure:
1. Identify the failed step and its dependencies
2. Revert git commits in reverse order of application
3. Restore database backups if database migrations were involved
4. Redeploy previous service versions
5. Verify system functionality with smoke tests
6. Monitor error rates and performance metrics
7. Document lessons learned and adjust plan

Rollback checkpoints are created after each high-risk step.
Automated rollback triggers on:
- Test failure rate > 10%
- Error rate increase > 5%
- Performance degradation > 20%
".

(** The steps of [create_refactoring_plan] before dependency ordering:
    the strategy of the target architecture, then the priorities when a
    non-empty list of them is given. *)
Definition generated_steps (analysis : Analyzer.ArchitectureAnalysis)
    (target : string) (safety : SafetyLevel) : list RefactorStep :=
  if String.eqb target "domain-driven" then
    _plan_ddd_migration analysis safety
  else if String.eqb target "event-driven" then
    _plan_event_driven_migration analysis safety
  else if String.eqb target "microservices" then
    _plan_microservices_migration analysis safety
  else _plan_generic_improvements analysis safety.

Definition presorted_steps (analysis : Analyzer.ArchitectureAnalysis)
    (target : string) (safety : SafetyLevel)
    (priorities : option (list string)) : list RefactorStep :=
  let steps := generated_steps analysis target safety in
  match priorities with
  | Some (p :: ps) => _prioritize_steps steps (p :: ps)
  | _ => steps
  end.

(** [create_refactoring_plan], the entry point [createPlan]. *)
Definition create_refactoring_plan
    (analysis : Analyzer.ArchitectureAnalysis) (target : string)
    (safety : SafetyLevel) (priorities : option (list string))
    : outcome RefactorPlan :=
  let ordered :=
    _order_by_dependencies
      (presorted_steps analysis target safety priorities) in
  match returned ordered with
  | Raise e => mkOutcome (Raise e) (emitted ordered)
  | Return steps =>
      mkOutcome
        (Return
           (mkPlan new_uuid now target safety steps
              (Analyzer.sum_Z (map estimated_effort steps))
              (_assess_plan_risks steps analysis)
              (_define_success_criteria target analysis)
              (Some (_create_rollback_plan steps))))
        (emitted ordered)
  end.

End Generation.

(** *** Vocabulary of the properties *)

(** [dep], a dependency of some step, designates the step id [a]: as a
    wildcard when it ends in a star, as a literal id otherwise. *)
Definition dep_matches (dep a : string) : bool :=
  if endswith dep "*" then startswith a (drop_last dep)
  else String.eqb dep a.

(** Step [B] depends on step [A]: by the literal id of [A], or by a
    wildcard ending in a star whose prefix starts the id of [A]. *)
Definition depends_on (B A : RefactorStep) : Prop :=
  exists dep,
    In dep (dependencies B)
    /\ (dep = id A
        \/ (endswith dep "*" = true
            /\ startswith (id A) (drop_last dep) = true)).

(** The step-dependency graph of a list of steps, on step ids, and its
    cycles. *)
Definition step_edge (steps : list RefactorStep) (a b : string) : Prop :=
  exists A B,
    In A steps /\ In B steps /\ id A = a /\ id B = b /\ depends_on B A.

Definition cyclic (steps : list RefactorStep) : Prop :=
  exists v, clos_trans string (step_edge steps) v v.


(** The stage of a step id in each strategy: a step depends on steps of
    earlier stages only. *)
Definition stage_ddd (step_id : string) : nat :=
  if String.eqb step_id "create-domain-events" then 2
  else if String.eqb step_id "implement-repositories" then 2
  else if String.eqb step_id "implement-aggregates" then 1
  else 0.

Definition stage_event_driven (step_id : string) : nat :=
  if String.eqb step_id "implement-event-sourcing" then 2
  else if String.eqb step_id "setup-message-broker" then 0
  else 1.

Definition stage_microservices (step_id : string) : nat :=
  if String.eqb step_id "setup-service-mesh" then 1 else 0.

(** Two steps that depend on each other, and three steps in a chain
    given in reverse order. *)
Definition plain_step (name : string) (deps : list string) : RefactorStep :=
  mkStep name RESTRUCTURE ("Step " ++ name) [] deps 8 "low" None [] None.

Definition cyclic_steps : list RefactorStep :=
  [plain_step "a" ["b"]; plain_step "b" ["a"]].

Definition chain_steps : list RefactorStep :=
  [plain_step "deploy" ["build-*"]; plain_step "build-api" ["setup"];
   plain_step "setup" []].

End Planner.

(** ** [regression.py]: the regression report *)

Module Report.
Import Py Regression.

(** The line feed, as a string. *)
Definition nl : string := String newline EmptyString.

(** [by_severity.setdefault(risk.severity, []).append(risk)]. *)
Definition group_risk (by_severity : dict (list RegressionRisk))
    (risk : RegressionRisk) : dict (list RegressionRisk) :=
  match get by_severity (severity risk) with
  | Some group => set by_severity (severity risk) (group ++ [risk])
  | None => set by_severity (severity risk) [risk]
  end.

(** The dictionary [by_severity] after the loop over the risks. *)
Definition by_severity_of (risks : list RegressionRisk)
    : dict (list RegressionRisk) :=
  fold_left group_risk risks [].

(** The lines that the report holds for one risk. *)
Definition risk_entry (risk : RegressionRisk) : string :=
  ("**" ++ type risk ++ "**: " ++ description risk ++ nl
   ++ "- Affected: " ++ join ", " (affected_components risk) ++ nl
   ++ (match mitigation risk with
       | Some (String c m) => "- Mitigation: " ++ String c m ++ nl
       | _ => EmptyString
       end)
   ++ (if nonempty (test_suggestions risk) then
         "- Tests needed:" ++ nl
         ++ String.concat EmptyString
              (map (fun test => "  - " ++ test ++ nl) (test_suggestions risk))
       else EmptyString)
   ++ nl)%string.

(** The body of the loop over the four severity levels. *)
Definition severity_section (by_severity : dict (list RegressionRisk))
    (level : string) : string :=
  match get by_severity level with
  | Some group =>
      ("### " ++ Analyzer.upper level ++ " Severity" ++ nl ++ nl
       ++ String.concat EmptyString (map risk_entry group))%string
  | None => EmptyString
  end.

Definition severity_levels : list string :=
  ["critical"; "high"; "medium"; "low"].

(** The risk types that [_risk_priority] weighs. *)
Definition risk_types : list string :=
  ["security"; "api_change"; "behavior_change"; "performance"].

(** A risk whose severity and type are among those the classifier and
    the report know. *)
Definition classified (r : RegressionRisk) : Prop :=
  In (severity r) severity_levels /\ In (type r) risk_types.

(** [RegressionDetector.generate_regression_report]. *)
Definition generate_regression_report (risks : list RegressionRisk)
    (step : Planner.RefactorStep) : string :=
  if negb (nonempty risks) then
    ("No regression risks detected for step: "
     ++ Planner.description step)%string
  else
    let by_severity := by_severity_of risks in
    ("# Regression Analysis Report" ++ nl ++ nl
     ++ "**Step**: " ++ Planner.description step ++ nl
     ++ "**Type**: " ++ Planner.type_value (Planner.type step) ++ nl
     ++ "**Risk Level**: " ++ Planner.risk_level step ++ nl ++ nl
     ++ "## Detected Risks" ++ nl ++ nl
     ++ String.concat EmptyString
          (map (severity_section by_severity) severity_levels)
     ++ "## Recommendations" ++ nl ++ nl
     ++ "1. Address all critical and high severity risks before proceeding"
     ++ nl
     ++ "2. Implement suggested tests for each risk area" ++ nl
     ++ "3. Consider breaking large changes into smaller steps" ++ nl
     ++ "4. Set up monitoring for affected components" ++ nl)%string.

(** *** Vocabulary of the properties *)

(** The risks of one severity, in list order, and the risks in the order
    in which the report shows them: level by level. *)
Definition of_severity (level : string) (risks : list RegressionRisk)
    : list RegressionRisk :=
  filter (fun r => String.eqb (severity r) level) risks.

Definition shown_risks (risks : list RegressionRisk) : list RegressionRisk :=
  flat_map
    (fun level =>
       match get (by_severity_of risks) level with
       | Some group => group
       | None => []
       end)
    severity_levels.

(** The weight of the severity of a risk in [_risk_priority]. *)
Definition severity_weight (r : RegressionRisk) : Z :=
  get_default severity_scores (severity r) 0.

(** A risk of a severity that the report has no section for, and two of
    known severities. *)
Definition info_risk : RegressionRisk :=
  mkRisk "behavior_change" "info" "Logging changed" ["svc/log.py"] None [].

Definition medium_risk : RegressionRisk :=
  mkRisk "api_change" "medium" "File renamed: svc/a.py" ["svc/a.py"]
    (Some "Update all imports and references") ["Test module loading"].

Definition critical_risk : RegressionRisk :=
  mkRisk "security" "critical" "Hardcoded secrets detected" ["svc/b.py"]
    (Some "Use environment variables or secret management service") [].

End Report.

(** ** [git_manager.py]: the commit message generator *)

Module GitManager.
Import Py Regression.

(** [CommitMessageGenerator.__init__]: the keyword table [type_patterns],
    in insertion order. *)
Definition type_patterns : dict (list string) :=
  [("feat", ["add"; "implement"; "create"; "introduce"]);
   ("fix", ["fix"; "resolve"; "correct"; "repair"]);
   ("refactor", ["refactor"; "restructure"; "reorganize"; "optimize"]);
   ("test", ["test"; "testing"; "coverage"; "spec"]);
   ("docs", ["document"; "documentation"; "readme"; "comment"]);
   ("style", ["format"; "style"; "lint"; "prettier"]);
   ("perf", ["performance"; "optimize"; "speed"; "efficiency"]);
   ("chore", ["update"; "upgrade"; "configure"; "setup"]);
   ("build", ["build"; "compile"; "bundle"; "package"]);
   ("ci", ["ci"; "pipeline"; "workflow"; "automation"])].

Definition type_mapping : dict string :=
  [("extract_service", "refactor");
   ("merge_services", "refactor");
   ("split_service", "refactor");
   ("rename", "refactor");
   ("restructure", "refactor");
   ("dependency_injection", "refactor");
   ("interface_extraction", "refactor");
   ("database_migration", "feat");
   ("api_versioning", "feat");
   ("remove_dead_code", "chore")].

(** [_determine_commit_type]: the first entry of the keyword table one
    of whose keywords occurs in the lower-cased description decides;
    otherwise the refactor type does. *)
Definition _determine_commit_type (step : Planner.RefactorStep)
    (changes : list CodeChange) : string :=
  let step_type := lower (Planner.type_value (Planner.type step)) in
  let description_lower := lower (Planner.description step) in
  match
    find
      (fun entry : string * list string =>
         existsb (fun keyword => contains description_lower keyword)
           (snd entry))
      type_patterns
  with
  | Some entry => fst entry
  | None =>
      match get type_mapping step_type with
      | Some commit_type => commit_type
      | None => "refactor"
      end
  end.

(** [risk.type == "api_change" and risk.severity in ["critical", "high"]]. *)
Definition is_breaking (risk : RegressionRisk) : bool :=
  String.eqb (Regression.type risk) "api_change"
  && mem (severity risk) ["critical"; "high"].

(** [_is_breaking_change]. *)
Definition _is_breaking_change (risks : list RegressionRisk) : bool :=
  existsb is_breaking risks.

Definition breaking_notice : string :=
  "BREAKING CHANGE: API modifications may affect existing clients".

(** [_generate_footer]. *)
Definition _generate_footer (step : Planner.RefactorStep)
    (risks : list RegressionRisk) : option string :=
  let breaking_risks := filter is_breaking risks in
  let notice :=
    if nonempty breaking_risks then
      breaking_notice
      :: map (fun risk => ("  - " ++ description risk)%string)
           (firstn 2 breaking_risks)
    else [] in
  let reference :=
    match Planner.id step with
    | EmptyString => []
    | String _ _ => [(Report.nl ++ "Ref: " ++ Planner.id step)%string]
    end in
  let rollback :=
    if String.eqb (Planner.risk_level step) "high" then
      match Planner.rollback_strategy step with
      | Some (String c s) =>
          [(Report.nl ++ "Rollback: " ++ String c s)%string]
      | _ => []
      end
    else [] in
  let footer_parts := notice ++ reference ++ rollback in
  if nonempty footer_parts then Some (join Report.nl footer_parts) else None.

(** The commit types that [GitWorkflowManager._verify_commit] accepts at
    the head of a message. *)
Definition conventional_types : list string :=
  ["feat"; "fix"; "docs"; "style"; "refactor"; "test"; "chore"; "perf";
   "ci"; "build"].

End GitManager.

(** ** Vocabulary for the properties of the extractor and of the
    architecture analyzer *)

Module AnalyzerVocabulary.
Import Py Analyzer.

(** [n] occurs in [t]: it is [t], or it occurs in a child node of [t]. *)
Inductive subtree (n : AST) : AST -> Prop :=
| subtree_refl : subtree n n
| subtree_child (t c : AST) :
    In c (iter_child_nodes t) -> subtree n c -> subtree n t.

(** One for a function definition, zero for any other node. *)
Definition function_weight (node : AST) : Z :=
  match node with
  | FunctionDef _ _ _ _ _ _ _ => 1%Z
  | _ => 0%Z
  end.

(** One for a function definition of the given name, parameters and
    line, zero for any other node. *)
Definition is_function (name : string) (args : list string) (lineno : Z)
    (node : AST) : Z :=
  match node with
  | FunctionDef name' args' _ _ _ _ lineno' =>
      if String.eqb name' name && list_eqb args' args && (lineno' =? lineno)%Z
      then 1%Z else 0%Z
  | _ => 0%Z
  end.

(** The expression [base.a1.a2...an]. *)
Definition dotted (base : string) (attrs : list string) : AST :=
  fold_left Attribute attrs (Name base).

(** What is assumed of the iteration order of a set when a property
    needs it: every element of the set is visited once. *)
Definition visits_each_once (set_iter : list string -> list string) : Prop :=
  forall l, NoDup (set_iter l) /\ forall x, In x (set_iter l) <-> In x l.

(** What [analyze_file] says of a file, as [_analyze_service] reads it. *)
Definition analysed (code_analyzer : CodeAnalyzer) (rel_path : string)
    : bool :=
  match analyze_file_of code_analyzer rel_path with
  | Facts _ => true
  | Error _ => false
  end.

Definition file_complexity (code_analyzer : CodeAnalyzer)
    (rel_path : string) : Z :=
  match analyze_file_of code_analyzer rel_path with
  | Facts f => complexity f
  | Error _ => 0%Z
  end.

Definition file_endpoints (code_analyzer : CodeAnalyzer)
    (rel_path : string) : list Endpoint :=
  match analyze_file_of code_analyzer rel_path with
  | Facts f => api_endpoints f
  | Error _ => []
  end.

Definition has_smell (smell_type : string) (smells : list CodeSmell)
    : bool :=
  existsb (fun s => String.eqb (type s) smell_type) smells.

(** A class with a method that holds a nested function with a loop. *)
Definition nested_module : AST :=
  Node ast.Module_
    [Node ast.ClassDef
       [FunctionDef "handle" ["self"; "items"] []
          [FunctionDef "visit" ["item"] []
             [Node ast.For [Name "x"; Name "item"; Node ast.Return []]]
             [] None 3;
           Node ast.If
             [BoolOp ast.Or [Name "items"; Name "self"];
              Node ast.Return []]]
          [Attribute (Name "app") "route"] None 2]].

(** A service of three files and twenty-one endpoints. *)
Definition busy_service : Service.t :=
  Service.mk "orders" "orders-service"
    ["orders-service/a.py"; "orders-service/b.py"; "orders-service/c.py"]
    0 31
    (repeat (mkEndpoint "/api/orders" "GET" "flask") 21)
    [] [] [].

End AnalyzerVocabulary.

(** ** Vocabulary for the properties of the planner *)

Module PlannerVocabulary.
Import Py Planner.

(** [a] may stand before [b] in a list sorted by ascending key. *)
Definition ascending {A : Type} (key : A -> Z) (a b : A) : Prop :=
  (key a <= key b)%Z.

(** [s] is the last step of [steps] that carries its id. *)
Definition last_of_its_id (steps : list RefactorStep) (s : RefactorStep)
    : Prop :=
  exists l1 l2,
    steps = l1 ++ s :: l2 /\ forall t, In t l2 -> id t <> id s.

(** The number of steps of one risk level. *)
Definition count_level (level : string) (steps : list RefactorStep) : Z :=
  Z.of_nat
    (List.length
       (filter (fun s => String.eqb (risk_level s) level) steps)).

(** [risk_counts.get(level, 0)]. *)
Definition count_of (risk_counts : dict Z) (level : string) : Z :=
  match get risk_counts level with
  | Some n => n
  | None => 0%Z
  end.

(** The services [a] and [b] of the analysis reference a common table. *)
Definition shares_table (services : dict Analyzer.Service.t) (a b : string)
    : Prop :=
  exists data_a data_b t,
    In (a, data_a) services /\ In (b, data_b) services
    /\ In t (Analyzer.Service.database_tables data_a)
    /\ In t (Analyzer.Service.database_tables data_b).

(** A group of [_find_services_with_shared_db]: at least two services of
    the analysis, each but the first sharing a table with the first. *)
Definition shared_group (services : dict Analyzer.Service.t)
    (group : list string) : Prop :=
  (2 <= List.length group)%nat
  /\ incl group (keys services)
  /\ exists first others,
       group = first :: others
       /\ forall member, In member others ->
            shares_table services first member.

(** A string of ASCII characters only: on such a string [lower] is
    [str.lower]. *)
Definition is_ascii (s : string) : bool :=
  forallb (fun c => (nat_of_ascii c <? 128)%nat) (list_ascii_of_string s).

(** [priority in step.type.value or priority in step.description.lower()],
    the test of [get_priority]. *)
Definition matches_priority (priority : string) (step : RefactorStep)
    : bool :=
  contains (type_value (type step)) priority
  || contains (lower (description step)) priority.

(** The strings of a list with their positions, counted from [k]. *)
Fixpoint indexed (k : Z) (l : list string) : dict Z :=
  match l with
  | [] => []
  | p :: rest => (p, k) :: indexed (k + 1) rest
  end.

(** *** Sample inputs *)

(** Three steps and two priorities: the second step matches the first
    priority, the first step the second, the third none. *)
Definition described_steps : list RefactorStep :=
  [mkStep "routes" RESTRUCTURE "Update API routes" [] [] 4 "low" None []
     None;
   mkStep "schema" RESTRUCTURE "Migrate the DATABASE schema" [] [] 6 "high"
     None [] None;
   mkStep "imports" RESTRUCTURE "Tidy imports" [] [] 1 "low" None [] None].

Definition sample_priorities : list string := ["database"; "api"].

(** Two steps of one id, the second depending on a third step. *)
Definition duplicate_steps : list RefactorStep :=
  [mkStep "migrate" DATABASE_MIGRATION "First draft" [] [] 4 "high" None []
     None;
   mkStep "migrate" DATABASE_MIGRATION "Second draft" [] ["backup"] 6 "high"
     None [] None;
   plain_step "backup" []].

(** Steps whose only dependency names no step of the list. *)
Definition loose_steps : list RefactorStep :=
  [plain_step "deploy" ["review"]; plain_step "build" ["lint-*"]].

(** An analysis of three services, two of which reference the table
    [users]. *)
Definition table_service (name : string) (tables : list string)
    : Analyzer.Service.t :=
  Analyzer.Service.mk name (name ++ "-service") [] 0 0 [] tables [] [].

Definition shared_analysis : Analyzer.ArchitectureAnalysis :=
  Analyzer.mkAnalysis
    [("orders", table_service "orders" ["users"; "orders"]);
     ("mail", table_service "mail" ["outbox"]);
     ("billing", table_service "billing" ["invoices"; "users"])]
    [] [] [] [] [].

End PlannerVocabulary.

(** ** The analysis of the small repository, as handed to the planner *)

Module Pipeline.
Import Py.

(** The analysis that [analyze_architecture] returns for the services
    [auth] and [user] of the small repository. *)
Definition demo_analysis : Analyzer.ArchitectureAnalysis :=
  match fst (Analyzer.demo_analyze Analyzer.calling_services) with
  | Return analysis => analysis
  | Raise _ => Analyzer.mkAnalysis [] [] [] [] [] []
  end.

End Pipeline.

(** ** Vocabulary for the classifier at its entry point *)

Module ClassifierVocabulary.
Import Py Regression.

(** Two risks that agree in every field, the affected components being
    compared up to their order. *)
Definition same_up_to_component_order (r1 r2 : RegressionRisk) : Prop :=
  type r1 = type r2
  /\ severity r1 = severity r2
  /\ description r1 = description r2
  /\ Permutation (affected_components r1) (affected_components r2)
  /\ mitigation r1 = mitigation r2
  /\ test_suggestions r1 = test_suggestions r2.

(** Determinism as the specification words it, for two invocations that
    need not share an interpreter run: whatever the two orders in which
    sets are iterated, the returned lists are identical. *)
Definition deterministic_across_runs : Prop :=
  forall (re_search : regex -> string -> option (list string))
         (set_iter1 set_iter2 : list string -> list string)
         (self : RegressionDetector) (changes : list CodeChange)
         (context : Context),
    AnalyzerVocabulary.visits_each_once set_iter1 ->
    AnalyzerVocabulary.visits_each_once set_iter2 ->
    analyze_changes re_search set_iter1 self changes context
    = analyze_changes re_search set_iter2 self changes context.

(** The iteration order opposite to [insertion_order]. *)
Definition reverse_order (l : list string) : list string :=
  rev (nodup string_dec l).

(** *** Sample inputs *)

(** A modify change to a class definition in the file [path]. *)
Definition class_change (path : string) : CodeChange :=
  mkChange path "modify"
    "-class Shape:
+class Shape(Base):"
    [("added", 1%Z); ("removed", 1%Z)] ["Changed base class"].

Definition two_class_changes : list CodeChange :=
  [class_change "shapes/a.py"; class_change "shapes/b.py"].

(** The same file renamed by two changes of the list. *)
Definition rename_change : CodeChange :=
  mkChange "svc/a.py" "rename" EmptyString [] ["Renamed module"].

Definition renamed_twice : list CodeChange := [rename_change; rename_change].

(** The risk that [_analyze_rename] reports for [rename_change]. *)
Definition rename_risk : RegressionRisk :=
  mkRisk "api_change" "medium" "File renamed: svc/a.py" ["svc/a.py"]
    (Some "Update all imports and references")
    ["Verify all imports are updated"; "Check configuration files";
     "Test module loading"].

End ClassifierVocabulary.

(** * Proofs *)

(** ** Facts about the Python runtime model *)

Module PyFacts.
Import Py.

Section SortedFacts.
Context {A : Type} (key : A -> Z).

Lemma insert_desc_perm (x : A) (l : list A) :
  Permutation (x :: l) (insert_desc key x l).
Proof.
  induction l as [|y l IH]; simpl.
  - apply Permutation_refl.
  - destruct (key y <=? key x)%Z.
    + apply Permutation_refl.
    + eapply perm_trans; [apply perm_swap|].
      apply perm_skip. exact IH.
Qed.

Lemma sorted_reverse_perm (l : list A) :
  Permutation l (sorted_reverse key l).
Proof.
  induction l as [|x l IH]; simpl.
  - constructor.
  - eapply perm_trans; [apply perm_skip; exact IH|].
    apply insert_desc_perm.
Qed.

Lemma insert_desc_sorted (x : A) (l : list A) :
  StronglySorted (descending key) l ->
  StronglySorted (descending key) (insert_desc key x l).
Proof.
  induction 1 as [|y l Hs IH Hall]; simpl.
  - constructor; constructor.
  - destruct (Z.leb_spec (key y) (key x)) as [Hle|Hlt].
    + constructor.
      * constructor; assumption.
      * constructor; [exact Hle|].
        eapply Forall_impl; [|exact Hall].
        unfold descending; intros; lia.
    + constructor; [exact IH|].
      eapply Permutation_Forall; [apply insert_desc_perm|].
      constructor; [unfold descending; lia|exact Hall].
Qed.

Lemma sorted_reverse_sorted (l : list A) :
  StronglySorted (descending key) (sorted_reverse key l).
Proof.
  induction l as [|x l IH]; simpl.
  - constructor.
  - apply insert_desc_sorted. exact IH.
Qed.

(** Inserting never moves an element past another of the same key. *)
Lemma insert_desc_stable (p : Z) (x : A) (l : list A) :
  filter (fun a => (key a =? p)%Z) (insert_desc key x l)
  = filter (fun a => (key a =? p)%Z) (x :: l).
Proof.
  induction l as [|y l IH]; [reflexivity|].
  cbn [insert_desc].
  destruct (Z.leb_spec (key y) (key x)) as [Hle|Hlt]; [reflexivity|].
  cbn [filter] in *.
  destruct (Z.eqb_spec (key y) p) as [Hy|Hy];
    destruct (Z.eqb_spec (key x) p) as [Hx|Hx];
    rewrite IH; try reflexivity.
  lia.
Qed.

Lemma sorted_reverse_stable (p : Z) (l : list A) :
  filter (fun a => (key a =? p)%Z) (sorted_reverse key l)
  = filter (fun a => (key a =? p)%Z) l.
Proof.
  induction l as [|x l IH]; [reflexivity|].
  cbn [sorted_reverse]. rewrite insert_desc_stable.
  cbn [filter]. rewrite IH. reflexivity.
Qed.

End SortedFacts.

Lemma Permutation_filter {A : Type} (f : A -> bool) (l1 l2 : list A) :
  Permutation l1 l2 -> Permutation (filter f l1) (filter f l2).
Proof.
  induction 1 as [|x l1 l2 _ IH|x y l|l1 l2 l3 _ IH1 _ IH2]; simpl.
  - constructor.
  - destruct (f x); [apply perm_skip|]; exact IH.
  - destruct (f x), (f y); try apply Permutation_refl. apply perm_swap.
  - eapply perm_trans; eassumption.
Qed.

Lemma Sublist_refl {A : Type} (l : list A) : Sublist l l.
Proof. induction l; constructor; assumption. Qed.

Lemma Sublist_app_l {A : Type} (l l1 l2 : list A) :
  Sublist l1 l2 -> Sublist (l ++ l1) (l ++ l2).
Proof. induction l; simpl; intros; [assumption|constructor; auto]. Qed.

End PyFacts.

(** ** The regression risk classifier *)

Module RegressionFacts.
Import Py Regression PyFacts.

Lemma Sublist_trans {A : Type} (l1 l2 l3 : list A) :
  Sublist l1 l2 -> Sublist l2 l3 -> Sublist l1 l3.
Proof.
  intros H12 H23. revert l1 H12.
  induction H23 as [|x l2 l3 _ IH|x l2 l3 _ IH]; intros l1 H12.
  - exact H12.
  - inversion H12; subst.
    + apply Sublist_keep. apply IH. assumption.
    + apply Sublist_drop. apply IH. assumption.
  - apply Sublist_drop. apply IH. exact H12.
Qed.

Lemma has_key_true (k : string * string * list string) (r : RegressionRisk) :
  has_key k r = true <-> risk_key r = k.
Proof.
  unfold has_key. destruct (key_eq_dec (risk_key r) k); split; intros;
    congruence.
Qed.

Lemma key_in_cons (k k' : string * string * list string)
    (seen : list (string * string * list string)) :
  key_in k (k' :: seen) = (if key_eq_dec k k' then true else key_in k seen).
Proof.
  unfold key_in. simpl. destruct (key_eq_dec k k'); reflexivity.
Qed.

(** What the loop of [_deduplicate_risks] leaves of one key: what the
    accumulator held, and the first risk of that key unless the key was
    seen before. *)
Lemma dedup_loop_filter (k : string * string * list string)
    (risks : list RegressionRisk) :
  forall seen unique_risks,
    filter (has_key k) (dedup_loop risks seen unique_risks)
    = filter (has_key k) unique_risks
      ++ (if key_in k seen then []
          else firstn 1 (filter (has_key k) risks)).
Proof.
  induction risks as [|r rest IH]; intros seen unique_risks.
  - simpl. destruct (key_in k seen); rewrite app_nil_r; reflexivity.
  - cbn [dedup_loop].
    destruct (key_in (risk_key r) seen) eqn:Hseen; cbn [negb].
    + rewrite IH. f_equal.
      cbn [filter]. unfold has_key at 2.
      destruct (key_eq_dec (risk_key r) k) as [Hk|Hk].
      * subst k. rewrite Hseen. reflexivity.
      * reflexivity.
    + rewrite IH. rewrite filter_app, <- app_assoc. f_equal.
      rewrite key_in_cons. cbn [filter]. unfold has_key.
      destruct (key_eq_dec (risk_key r) k) as [Hk|Hk].
      * subst k. destruct (key_eq_dec (risk_key r) (risk_key r));
          [|congruence].
        rewrite Hseen. reflexivity.
      * destruct (key_eq_dec k (risk_key r)); [congruence|].
        reflexivity.
Qed.

Lemma deduplicate_filter (k : string * string * list string)
    (risks : list RegressionRisk) :
  filter (has_key k) (_deduplicate_risks risks)
  = firstn 1 (filter (has_key k) risks).
Proof.
  unfold _deduplicate_risks. rewrite dedup_loop_filter. reflexivity.
Qed.

Lemma dedup_loop_sublist (risks : list RegressionRisk) :
  forall seen unique_risks,
    Sublist (dedup_loop risks seen unique_risks) (unique_risks ++ risks).
Proof.
  induction risks as [|r rest IH]; intros seen unique_risks.
  - simpl. rewrite app_nil_r. apply Sublist_refl.
  - cbn [dedup_loop]. destruct (negb (key_in (risk_key r) seen)).
    + specialize (IH (risk_key r :: seen) (unique_risks ++ [r])).
      rewrite <- app_assoc in IH. exact IH.
    + eapply Sublist_trans; [apply IH|].
      apply Sublist_app_l. apply Sublist_drop. apply Sublist_refl.
Qed.

Lemma deduplicate_sublist (risks : list RegressionRisk) :
  Sublist (_deduplicate_risks risks) risks.
Proof. apply (dedup_loop_sublist risks [] []). Qed.

Lemma list_eqb_true (l1 l2 : list string) : list_eqb l1 l2 = true <-> l1 = l2.
Proof.
  unfold list_eqb. destruct (list_eq_dec string_dec l1 l2); split; intros;
    congruence.
Qed.

Lemma existsb_none {A : Type} (f : A -> bool) (l : list A) :
  (forall x, In x l -> f x = false) -> existsb f l = false.
Proof.
  induction l as [|a l IH]; intros H; [reflexivity|].
  simpl. rewrite (H a (or_introl eq_refl)). apply IH.
  intros x Hx. apply H. right. exact Hx.
Qed.

(** A rule family is a concatenation of lists that hold one risk or
    none; [risk_cases H] splits [H : In r risks] into one goal per risk
    that the family can emit. *)
Ltac risk_cases H :=
  repeat (apply in_app_or in H; destruct H as [H|H]);
  repeat match type of H with
         | In _ (if ?c then _ else _) => destruct c
         end;
  simpl in H; try contradiction;
  destruct H as [<-|[]].

Lemma not_return_risk_of_type (r : RegressionRisk) :
  type r <> "behavior_change" -> is_return_risk r = false.
Proof.
  intros H. unfold is_return_risk.
  destruct (String.eqb_spec (type r) "behavior_change"); [contradiction|].
  reflexivity.
Qed.

(** The behaviour rules report modified return values exactly when the
    two lists of return lines differ. *)
Lemma behavior_changes_return_risk (removed added : list string)
    (path : string) :
  existsb is_return_risk (_check_behavior_changes removed added path) = true
  <-> return_lines removed <> return_lines added.
Proof.
  unfold _check_behavior_changes. fold (return_lines removed).
  fold (return_lines added).
  rewrite !existsb_app.
  set (c1 := nonempty _ && nonempty _).
  set (c3 := nonempty _ || nonempty _).
  assert (E1 : existsb is_return_risk
            (if c1
             then [mkRisk "behavior_change" "high"
                     "Control flow logic modified" [path]
                     (Some "Ensure all edge cases are covered")
                     ["Test all conditional branches"; "Verify edge cases";
                      "Check boundary conditions"]]
             else []) = false) by (destruct c1; reflexivity).
  assert (E3 : existsb is_return_risk
            (if c3
             then [mkRisk "behavior_change" "medium"
                     "Exception handling modified" [path]
                     (Some "Ensure error handling remains robust")
                     ["Test error scenarios"; "Verify exception propagation";
                      "Check error messages"]]
             else []) = false) by (destruct c3; reflexivity).
  rewrite E1, E3. rewrite orb_false_r. cbn [orb].
  destruct (list_eqb (return_lines removed) (return_lines added)) eqn:E.
  - apply list_eqb_true in E. cbn. split; [discriminate|congruence].
  - cbn. split; [|reflexivity]. intros _ Heq.
    apply list_eqb_true in Heq. congruence.
Qed.

Lemma performance_no_return_risk (removed added : list string)
    (path : string) :
  existsb is_return_risk (_check_performance_impacts removed added path)
  = false.
Proof.
  apply existsb_none. intros r Hr. apply not_return_risk_of_type.
  unfold _check_performance_impacts in Hr.
  risk_cases Hr; discriminate.
Qed.

Section RulesFacts.
Variable re_search : regex -> string -> option (list string).
Variable set_iter : list string -> list string.

Local Abbreviation analyze_changes := (analyze_changes re_search set_iter).
Local Abbreviation discovered := (discovered re_search set_iter).
Local Abbreviation analyze_change := (analyze_change re_search set_iter).
Local Abbreviation _analyze_modification :=
  (_analyze_modification re_search set_iter).
Local Abbreviation _check_api_changes := (_check_api_changes re_search set_iter).
Local Abbreviation _check_security_impacts :=
  (_check_security_impacts re_search).
Local Abbreviation _analyze_cross_file_impacts :=
  (_analyze_cross_file_impacts set_iter).

Lemma api_changes_type (self : RegressionDetector)
    (removed added : list string) (path : string) (r : RegressionRisk) :
  In r (_check_api_changes self removed added path) ->
  type r = "api_change".
Proof.
  unfold Regression._check_api_changes. intros Hr.
  apply in_app_or in Hr. destruct Hr as [Hr|Hr].
  - apply in_flat_map in Hr. destruct Hr as [entry [_ Hr]].
    destruct (map strip (filter (matches re_search (snd entry)) removed));
      [contradiction|].
    destruct (negb (nonempty (filter (matches re_search (snd entry)) added)));
      destruct Hr as [<-|[]]; reflexivity.
  - apply in_map_iff in Hr. destruct Hr as [pc [<- _]]. reflexivity.
Qed.

Lemma security_impacts_type (removed added : list string) (path : string)
    (r : RegressionRisk) :
  In r (_check_security_impacts removed added path) -> type r = "security".
Proof.
  unfold Regression._check_security_impacts. intros Hr.
  risk_cases Hr; reflexivity.
Qed.

(** ** C8 *)

(** C8, amended.  For a modify or delete change, the classifier discovers
    a behavior_change risk of severity high about modified return values
    if and only if the list of removed diff lines that contain a return
    statement differs from the list of added diff lines that contain one,
    the two lists being compared element by element, in diff order. *)
Theorem return_risk_iff_return_lists_differ
    (self : RegressionDetector) (change : CodeChange) (context : Context) :
  mem (change_type change) ["modify"; "delete"] = true ->
  (existsb is_return_risk (analyze_change self context change) = true
   <-> return_lines (removed_lines_of (diff change))
       <> return_lines (added_lines_of (diff change))).
Proof.
  intros Hty. unfold Regression.analyze_change. rewrite Hty.
  unfold Regression._analyze_modification.
  rewrite !existsb_app.
  rewrite performance_no_return_risk.
  rewrite (existsb_none is_return_risk (_check_api_changes _ _ _ _)).
  2:{ intros r Hr. apply not_return_risk_of_type.
      rewrite (api_changes_type _ _ _ _ _ Hr). discriminate. }
  rewrite (existsb_none is_return_risk (_check_security_impacts _ _ _)).
  2:{ intros r Hr. apply not_return_risk_of_type.
      rewrite (security_impacts_type _ _ _ _ Hr). discriminate. }
  cbn [orb]. rewrite !orb_false_r.
  apply behavior_changes_return_risk.
Qed.

(** Of the discovered risks that share one deduplication key (type,
    description and tuple of affected components), the returned list
    holds the first one discovered, and no other. *)
Lemma analyze_changes_keeps_first_of_key
    (self : RegressionDetector) (changes : list CodeChange)
    (context : Context) (k : string * string * list string) :
  filter (has_key k) (analyze_changes self changes context)
  = firstn 1 (filter (has_key k) (discovered self changes context)).
Proof.
  unfold Regression.analyze_changes.
  pose proof (Permutation_filter (has_key k) _ _
                (sorted_reverse_perm _risk_priority
                   (_deduplicate_risks (discovered self changes context))))
    as Hperm.
  rewrite deduplicate_filter in Hperm.
  destruct (filter (has_key k) (discovered self changes context))
    as [|r rest]; cbn [firstn] in *.
  - apply Permutation_nil in Hperm. exact Hperm.
  - apply Permutation_length_1_inv in Hperm. exact Hperm.
Qed.

(** ** C10 *)

(** C10.  The list that classifyRegressionRisks returns is sorted by
    descending severity_weight*10 + type_weight, with the weight tables
    critical=4, high=3, medium=2, low=1 and security=4, api_change=3,
    behavior_change=2, performance=1; it holds exactly the deduplicated
    risks, and the risks of any one priority stand in the order in which
    they were discovered. *)
Theorem analyze_changes_sorted_by_priority
    (self : RegressionDetector) (changes : list CodeChange)
    (context : Context) :
  let found := _deduplicate_risks (discovered self changes context) in
  let out := analyze_changes self changes context in
  StronglySorted (descending _risk_priority) out
  /\ Permutation found out
  /\ Sublist found (discovered self changes context)
  /\ (forall p : Z,
        filter (fun r => (_risk_priority r =? p)%Z) out
        = filter (fun r => (_risk_priority r =? p)%Z) found)
  /\ (forall r : RegressionRisk,
        _risk_priority r
        = (get_default
             [("critical", 4); ("high", 3); ("medium", 2); ("low", 1)]
             (severity r) 0 * 10
           + get_default
               [("security", 4); ("api_change", 3); ("behavior_change", 2);
                ("performance", 1)]
               (type r) 0)%Z).
Proof.
  cbv zeta. unfold Regression.analyze_changes.
  split; [apply sorted_reverse_sorted|].
  split; [apply sorted_reverse_perm|].
  split; [apply deduplicate_sublist|].
  split; [intros p; apply sorted_reverse_stable|].
  intros r. reflexivity.
Qed.

End RulesFacts.

(** *** Concrete runs *)

Lemma return_risk_iff_return_lists_differ_witness :
  mem (change_type swapped_returns_change) ["modify"; "delete"] = true
  /\ (existsb is_return_risk
        (analyze_change no_match insertion_order __init__ []
           swapped_returns_change) = true
      <-> return_lines (removed_lines_of (diff swapped_returns_change))
          <> return_lines (added_lines_of (diff swapped_returns_change))).
Proof.
  split.
  - reflexivity.
  - apply (return_risk_iff_return_lists_differ no_match insertion_order
             __init__ swapped_returns_change []).
    reflexivity.
Defined.

(** C8, counterexample.  The removed return lines [return a; return b]
    and the added ones [return b; return a] are equal as multisets, yet
    the rule reports modified return values. *)
Lemma return_rule_by_multiset_fails :
  ~ return_rule_by_multiset
      ["    return a"; "    return b"] ["    return b"; "    return a"].
Proof.
  unfold return_rule_by_multiset. intros [H _].
  apply H.
  - vm_compute. reflexivity.
  - vm_compute. apply perm_swap.
Qed.

(** The same through the entry point: the swapped diff yields the risk. *)
Lemma swapped_returns_reported :
  existsb is_return_risk
    (analyze_changes no_match insertion_order __init__
       [swapped_returns_change] []) = true
  /\ Permutation
       (return_lines (removed_lines_of (diff swapped_returns_change)))
       (return_lines (added_lines_of (diff swapped_returns_change))).
Proof.
  split.
  - vm_compute. reflexivity.
  - vm_compute. apply perm_swap.
Qed.

(** The test of [test_risk_prioritization]: a removed authorization
    marker comes out first, as a critical security risk. *)
Example removed_auth_comes_first :
  map (fun r => (type r, severity r, description r))
    (analyze_changes no_match insertion_order __init__ [change_v1] [])
  = [("security", "critical",
      "Authentication/authorization checks removed")].
Proof. vm_compute. reflexivity. Qed.

End RegressionFacts.

(** ** The architecture analyzer and the structural extractor *)

Module AnalyzerFacts.
Import Py Analyzer.

(** *** The dependency graph *)

Lemma record_call_deps (check : string -> Service.t -> bool)
    (service_name : string) (endpoint : Endpoint)
    (others : list (string * Service.t)) :
  forall st,
    fst (fold_left (record_call check service_name endpoint) others st)
    = fst st
      ++ flat_map
           (fun other : string * Service.t =>
              if negb (String.eqb (fst other) service_name)
                 && check (path endpoint) (snd other)
              then [api_edge (fst other) service_name endpoint]
              else [])
           others.
Proof.
  induction others as [|other others IH]; intros st;
    cbn [fold_left flat_map].
  - rewrite app_nil_r. reflexivity.
  - rewrite IH. unfold record_call, api_edge.
    destruct (negb (String.eqb (fst other) service_name)
              && check (path endpoint) (snd other)); cbn [fst].
    + rewrite <- app_assoc. reflexivity.
    + reflexivity.
Qed.

Lemma scan_endpoint_deps (check : string -> Service.t -> bool)
    (services : dict Service.t) (service_name : string)
    (endpoints : list Endpoint) :
  forall st,
    fst (fold_left (scan_endpoint check services service_name) endpoints st)
    = fst st
      ++ flat_map
           (fun endpoint =>
              flat_map
                (fun other : string * Service.t =>
                   if negb (String.eqb (fst other) service_name)
                      && check (path endpoint) (snd other)
                   then [api_edge (fst other) service_name endpoint]
                   else [])
                services)
           endpoints.
Proof.
  induction endpoints as [|endpoint endpoints IH]; intros st;
    cbn [fold_left flat_map].
  - rewrite app_nil_r. reflexivity.
  - rewrite IH. unfold scan_endpoint. rewrite record_call_deps.
    rewrite <- app_assoc. reflexivity.
Qed.

Lemma scan_service_deps (check : string -> Service.t -> bool)
    (services : dict Service.t) (entries : list (string * Service.t)) :
  forall st,
    fst (fold_left (scan_service check services) entries st)
    = fst st
      ++ flat_map
           (fun entry : string * Service.t =>
              flat_map
                (fun endpoint =>
                   flat_map
                     (fun other : string * Service.t =>
                        if negb (String.eqb (fst other) (fst entry))
                           && check (path endpoint) (snd other)
                        then [api_edge (fst other) (fst entry) endpoint]
                        else [])
                     services)
                (Service.api_endpoints (snd entry)))
           entries.
Proof.
  induction entries as [|entry entries IH]; intros st;
    cbn [fold_left flat_map].
  - rewrite app_nil_r. reflexivity.
  - rewrite IH. unfold scan_service. rewrite scan_endpoint_deps.
    rewrite <- app_assoc. reflexivity.
Qed.

(** The dependencies that the three loops collect, for any check. *)
Lemma dependency_edge_iff (check : string -> Service.t -> bool)
    (services : dict Service.t) (graph : Nx.DiGraph)
    (d : ServiceDependency) :
  In d (fst (build_dependency_graph_with check services graph))
  <-> exists service_name service_data endpoint other_service other_data,
        In (service_name, service_data) services
        /\ In endpoint (Service.api_endpoints service_data)
        /\ In (other_service, other_data) services
        /\ other_service <> service_name
        /\ check (path endpoint) other_data = true
        /\ d = api_edge other_service service_name endpoint.
Proof.
  unfold build_dependency_graph_with. rewrite scan_service_deps. simpl.
  split.
  - intros H. apply in_flat_map in H. destruct H as [[name data] [Hs H]].
    apply in_flat_map in H. destruct H as [endpoint [He H]].
    apply in_flat_map in H. destruct H as [[other odata] [Ho H]].
    simpl in *.
    destruct (String.eqb_spec other name) as [Heq|Hne]; simpl in H;
      [contradiction|].
    destruct (check (path endpoint) odata) eqn:Hc; simpl in H;
      [|contradiction].
    destruct H as [<-|[]].
    exists name, data, endpoint, other, odata. repeat split; assumption.
  - intros (name & data & endpoint & other & odata & Hs & He & Ho & Hne
            & Hc & ->).
    apply in_flat_map. exists (name, data). split; [exact Hs|].
    apply in_flat_map. exists endpoint. split; [exact He|].
    apply in_flat_map. exists (other, odata). split; [exact Ho|].
    simpl. destruct (String.eqb_spec other name) as [Heq|_];
      [contradiction|].
    rewrite Hc. simpl. left. reflexivity.
Qed.

Lemma fold_left_unchanged {A B : Type} (f : A -> B -> A) (l : list B) :
  (forall a b, f a b = a) -> forall a, fold_left f l a = a.
Proof.
  intros Hf. induction l as [|b l IH]; intros a; simpl.
  - reflexivity.
  - rewrite Hf. apply IH.
Qed.

Lemma build_with_negative_check (check : string -> Service.t -> bool)
    (services : dict Service.t) (graph : Nx.DiGraph) :
  (forall endpoint_path service_data,
      check endpoint_path service_data = false) ->
  build_dependency_graph_with check services graph = ([], graph).
Proof.
  intros Hc. unfold build_dependency_graph_with.
  apply fold_left_unchanged. intros st entry. unfold scan_service.
  apply fold_left_unchanged. intros st' endpoint. unfold scan_endpoint.
  apply fold_left_unchanged. intros st'' other. unfold record_call.
  rewrite Hc. rewrite andb_false_r. reflexivity.
Qed.

Lemma check_api_dependency_false (endpoint_path : string)
    (service_data : Service.t) :
  _check_api_dependency endpoint_path service_data = false.
Proof. reflexivity. Qed.

Lemma build_dependency_graph_empty (services : dict Service.t)
    (graph : Nx.DiGraph) :
  _build_dependency_graph services graph = ([], graph).
Proof.
  unfold _build_dependency_graph. apply build_with_negative_check.
  apply check_api_dependency_false.
Qed.

(** ** C2 *)

(** C2, amended.  For every service endpoint and every other service for
    which the per-endpoint call check answers True, the dependency rule
    adds a directed edge from the calling service to the endpoint-owning
    service with dependency_type api, strength exactly 0.7 and the
    endpoint path in its calls list, and it adds no other edge.  The check
    [_check_api_dependency] is a placeholder that reads no file and
    answers False for every endpoint and service, so the rule adds no
    edge, whatever the services' code contains. *)
Theorem dependency_edges_follow_the_check :
  (forall (check : string -> Service.t -> bool) (services : dict Service.t)
          (graph : Nx.DiGraph) (d : ServiceDependency),
      In d (fst (build_dependency_graph_with check services graph))
      <-> exists service_name service_data endpoint other_service other_data,
            In (service_name, service_data) services
            /\ In endpoint (Service.api_endpoints service_data)
            /\ In (other_service, other_data) services
            /\ other_service <> service_name
            /\ check (path endpoint) other_data = true
            /\ d = mkDependency other_service service_name "api" (7 # 10)
                     [path endpoint])
  /\ (forall endpoint_path service_data,
         _check_api_dependency endpoint_path service_data = false)
  /\ (forall services graph,
         _build_dependency_graph services graph = ([], graph)).
Proof.
  split; [|split].
  - intros check services graph d. apply dependency_edge_iff.
  - apply check_api_dependency_false.
  - apply build_dependency_graph_empty.
Qed.

(** *** The smell rules *)

(** The loop of the shared database rule visits the entries of the
    service's own dictionary; the first entry whose key is not the service
    name holds a string, which has no method [get]. *)
Lemma shared_database_loop_string (repr_set : list string -> string)
    (service_name other s : string) (tables : list string)
    (rest : list (string * value)) (smells : list CodeSmell) :
  other <> service_name ->
  shared_database_loop repr_set service_name tables
    ((other, VStr s) :: rest) smells
  = Raise AttributeError.
Proof.
  intros H. cbn [shared_database_loop].
  rewrite (proj2 (String.eqb_neq _ _) H). reflexivity.
Qed.

Lemma shared_database_loop_own_key (repr_set : list string -> string)
    (service_name : string) (v : value) (tables : list string)
    (rest : list (string * value)) (smells : list CodeSmell) :
  shared_database_loop repr_set service_name tables
    ((service_name, v) :: rest) smells
  = shared_database_loop repr_set service_name tables rest smells.
Proof.
  cbn [shared_database_loop]. rewrite String.eqb_refl. reflexivity.
Qed.

Lemma shared_database_loop_raises (repr_set : list string -> string)
    (service_name : string) (tables : list string)
    (service_analysis : Service.t) (smells : list CodeSmell) :
  shared_database_loop repr_set service_name tables (items service_analysis)
    smells
  = Raise AttributeError.
Proof.
  unfold items.
  destruct (string_dec "name" service_name) as [Heq|Hne].
  - rewrite <- Heq. rewrite shared_database_loop_own_key.
    apply shared_database_loop_string. discriminate.
  - apply shared_database_loop_string. exact Hne.
Qed.

Lemma detect_code_smells_raises (repr_set : list string -> string)
    (format_float : nat -> Q -> string) (service_name : string)
    (service_analysis : Service.t) :
  Service.database_tables service_analysis <> [] ->
  _detect_code_smells repr_set format_float service_name service_analysis
  = Raise AttributeError.
Proof.
  intros Hne. unfold _detect_code_smells.
  destruct (Service.database_tables service_analysis) as [|t ts] eqn:Ht;
    [contradiction|].
  cbn [List.length Nat.ltb Nat.leb].
  apply shared_database_loop_raises.
Qed.

Lemma detect_code_smells_returns (repr_set : list string -> string)
    (format_float : nat -> Q -> string) (service_name : string)
    (service_analysis : Service.t) :
  Service.database_tables service_analysis = [] ->
  exists smells,
    _detect_code_smells repr_set format_float service_name service_analysis
    = Return smells.
Proof.
  intros He. unfold _detect_code_smells. rewrite He.
  cbn [List.length Nat.ltb Nat.leb]. eexists. reflexivity.
Qed.

Lemma len_Q_nonneg {A : Type} (l : list A) : (0 <= len_Q l)%Q.
Proof.
  unfold len_Q, Qle. simpl. lia.
Qed.

Lemma flat_map_all_nil {A B : Type} (f : A -> list B) (l : list A) :
  (forall x, f x = []) -> flat_map f l = [].
Proof.
  intros Hf. induction l as [|x l IH]; [reflexivity|].
  simpl. rewrite Hf, IH. reflexivity.
Qed.

(** With no dependency, no service has more dependents than half the
    number of services. *)
Lemma single_point_of_failure_none (services : dict Service.t) :
  single_point_of_failure_risks services [] = [].
Proof.
  unfold single_point_of_failure_risks.
  apply flat_map_all_nil. intros s. cbn [filter map].
  assert (Hno : Qlt_bool (len_Q services * (1 # 2))
                  (len_Q (@nil string)) = false).
  { unfold Qlt_bool. apply negb_false_iff. apply Qle_bool_iff.
    apply Qmult_le_0_compat; [apply len_Q_nonneg|discriminate]. }
  rewrite Hno. reflexivity.
Qed.

Section ArchitectureFacts.
Variable os_walk : string -> string -> list (string * list string).
Variable simple_cycles : Nx.DiGraph -> list (list string).
Variable set_iter : list string -> list string.
Variable repr_set : list string -> string.
Variable repr_list : list string -> string.
Variable repr_cycles : list (list string) -> string.
Variable format_float : nat -> Q -> string.
Variable code_analyzer : CodeAnalyzer.

Local Abbreviation _analyze_service :=
  (_analyze_service os_walk set_iter code_analyzer).
Local Abbreviation _detect_code_smells :=
  (_detect_code_smells repr_set format_float).
Local Abbreviation analyze_services :=
  (analyze_services os_walk set_iter repr_set format_float code_analyzer).
Local Abbreviation analyze_architecture :=
  (analyze_architecture os_walk simple_cycles set_iter repr_set repr_list
     repr_cycles format_float code_analyzer).

(** The first loop of [analyze_architecture] raises as soon as one of the
    services references a table, and returns otherwise. *)
Lemma analyze_services_raises (service_paths : dict string) :
  forall services code_smells,
    (exists service_name service_path,
        In (service_name, service_path) service_paths
        /\ Service.database_tables
             (_analyze_service service_name service_path) <> []) ->
    analyze_services service_paths services code_smells
    = Raise AttributeError.
Proof.
  induction service_paths as [|[n p] rest IH];
    intros services code_smells (name & spath & Hin & Htab).
  - destruct Hin.
  - cbn [Analyzer.analyze_services].
    destruct (Service.database_tables (_analyze_service n p)) eqn:Hnp.
    + destruct (detect_code_smells_returns repr_set format_float n
                  (_analyze_service n p) Hnp) as [smells Hs].
      rewrite Hs. cbn [bind]. apply IH.
      destruct Hin as [Heq|Hin].
      * inversion Heq; subst. congruence.
      * exists name, spath. split; assumption.
    + rewrite detect_code_smells_raises; [reflexivity|].
      rewrite Hnp. discriminate.
Qed.

Lemma analyze_services_returns (service_paths : dict string) :
  forall services code_smells,
    (forall service_name service_path,
        In (service_name, service_path) service_paths ->
        Service.database_tables
          (_analyze_service service_name service_path) = []) ->
    exists r, analyze_services service_paths services code_smells = Return r.
Proof.
  induction service_paths as [|[n p] rest IH];
    intros services code_smells Hall.
  - eexists. reflexivity.
  - cbn [Analyzer.analyze_services].
    destruct (detect_code_smells_returns repr_set format_float n
                (_analyze_service n p) (Hall n p (or_introl eq_refl)))
      as [smells Hs].
    rewrite Hs. cbn [bind]. apply IH.
    intros name spath Hin. apply Hall. right. exact Hin.
Qed.

(** [analyze_architecture] raises [AttributeError] exactly when one of
    the services references a table; otherwise it returns an analysis. *)
Lemma analyze_architecture_raises (graph : Nx.DiGraph)
    (service_paths : dict string) :
  (exists service_name service_path,
      In (service_name, service_path) service_paths
      /\ Service.database_tables
           (_analyze_service service_name service_path) <> []) ->
  analyze_architecture graph service_paths = (Raise AttributeError, graph).
Proof.
  intros H. unfold Analyzer.analyze_architecture.
  rewrite (analyze_services_raises service_paths [] [] H). reflexivity.
Qed.

Lemma analyze_architecture_returns (graph : Nx.DiGraph)
    (service_paths : dict string) :
  (forall service_name service_path,
      In (service_name, service_path) service_paths ->
      Service.database_tables
        (_analyze_service service_name service_path) = []) ->
  exists analysis,
    fst (analyze_architecture graph service_paths) = Return analysis.
Proof.
  intros H. unfold Analyzer.analyze_architecture.
  destruct (analyze_services_returns service_paths [] [] H)
    as [[services smells] Hr].
  rewrite Hr. eexists. reflexivity.
Qed.

(** ** C3 *)

(** C3.  For every input service mapping, the per-endpoint call check
    answers False for every endpoint and every service, so the analysis
    that analyze_architecture returns has an empty dependencies list, its
    metric total_dependencies is 0, and it has no high-coupling risk area
    (indeed no risk area at all); the dependency graph of the analyzer
    stays empty. *)
Theorem analyze_architecture_has_no_dependencies
    (service_paths : dict string) :
  (forall endpoint_path service_data,
      _check_api_dependency endpoint_path service_data = false)
  /\ snd (analyze_architecture Nx.empty service_paths) = Nx.empty
  /\ (forall analysis,
         fst (analyze_architecture Nx.empty service_paths) = Return analysis ->
         analysis_dependencies analysis = []
         /\ get (metrics analysis) "total_dependencies" = Some 0%Q
         /\ high_coupling_risks (services analysis)
              (snd (analyze_architecture Nx.empty service_paths)) = []
         /\ risk_areas analysis = []).
Proof.
  split; [apply check_api_dependency_false|].
  unfold Analyzer.analyze_architecture.
  destruct (analyze_services service_paths [] []) as [[services smells]|e].
  - rewrite build_dependency_graph_empty. cbn [fst snd].
    split; [reflexivity|].
    intros analysis Heq. inversion Heq; subst analysis; clear Heq.
    cbn [analysis_dependencies metrics risk_areas Analyzer.services].
    split; [reflexivity|].
    split; [reflexivity|].
    split; [reflexivity|].
    unfold _identify_risk_areas. rewrite single_point_of_failure_none.
    reflexivity.
  - cbn [fst snd]. split; [reflexivity|]. intros analysis Heq.
    discriminate.
Qed.

End ArchitectureFacts.

(** *** Runs on the small repository *)

Lemma analyze_architecture_has_no_dependencies_witness :
  exists analysis,
    fst (demo_analyze calling_services) = Return analysis
    /\ analysis_dependencies analysis = []
    /\ get (metrics analysis) "total_dependencies" = Some 0%Q
    /\ risk_areas analysis = [].
Proof.
  destruct (analyze_architecture_returns demo_walk demo_cycles demo_set_iter
              (join ", ") (join ", ")
              (fun cycles => join "; " (map (join ", ") cycles))
              demo_format_float demo_code_analyzer Nx.empty
              calling_services) as [analysis Ha].
  - intros name spath [Heq|[Heq|[]]]; inversion Heq; subst;
      vm_compute; reflexivity.
  - exists analysis. split; [exact Ha|].
    destruct (analyze_architecture_has_no_dependencies demo_walk demo_cycles
                demo_set_iter (join ", ") (join ", ")
                (fun cycles => join "; " (map (join ", ") cycles))
                demo_format_float demo_code_analyzer calling_services)
      as (_ & _ & Hall).
    destruct (Hall analysis Ha) as (Hd & Hm & _ & Hr).
    split; [exact Hd|]. split; [exact Hm|exact Hr].
Defined.

(** C2, counterexample.  The code of [user] holds the literal path of the
    endpoint [/api/auth/login] of [auth]; the analysis is returned, and
    its dependencies hold no edge from [user] to [auth]. *)
Lemma no_edge_on_textual_match :
  exists analysis,
    fst (demo_analyze calling_services) = Return analysis
    /\ ~ adds_edge_on_textual_match demo_read_file (services analysis)
           (analysis_dependencies analysis).
Proof.
  eexists. split.
  - vm_compute. reflexivity.
  - cbn [services analysis_dependencies]. intros H.
    refine (_ (H "auth" _ (mkEndpoint "/api/auth/login" "GET" "flask")
                 "user" _ "user-service/main.py" user_source
                 _ _ _ _ _ _ _)).
    + intros Hin. exact Hin.
    + left. reflexivity.
    + left. reflexivity.
    + right. left. reflexivity.
    + discriminate.
    + left. reflexivity.
    + reflexivity.
    + vm_compute. reflexivity.
Qed.

(** ** C1 *)

(** C1, at a failing input.  The services [orders] and [billing] both
    reference the table [users], so their table sets intersect; the smell
    rule visits the entries of the service's own dictionary in place of
    the other services, calls [get] on a string, and analyzeArchitecture
    raises [AttributeError]: no analysis is returned and no
    shared_database smell is emitted. *)
Theorem shared_database_smell_not_emitted :
  Service.database_tables
    (_analyze_service demo_walk demo_set_iter demo_code_analyzer
       "orders" "orders-service") = ["users"]
  /\ Service.database_tables
       (_analyze_service demo_walk demo_set_iter demo_code_analyzer
          "billing" "billing-service") = ["users"]
  /\ _detect_code_smells (join ", ") demo_format_float "orders"
       (_analyze_service demo_walk demo_set_iter demo_code_analyzer
          "orders" "orders-service")
     = Raise AttributeError
  /\ fst (demo_analyze sharing_services) = Raise AttributeError.
Proof.
  repeat split; vm_compute; reflexivity.
Qed.

(** The same for every repository: a service that references a table
    makes [_detect_code_smells] raise, whatever the other services are. *)
Lemma shared_database_rule_always_raises
    (repr_set : list string -> string) (format_float : nat -> Q -> string)
    (service_name : string) (service_analysis : Service.t) :
  Service.database_tables service_analysis <> [] ->
  _detect_code_smells repr_set format_float service_name service_analysis
  = Raise AttributeError.
Proof. apply detect_code_smells_raises. Qed.

(** *** The complexity counts *)

Lemma sum_Z_app (l1 l2 : list Z) :
  sum_Z (l1 ++ l2) = (sum_Z l1 + sum_Z l2)%Z.
Proof.
  unfold sum_Z. induction l1 as [|x l1 IH]; simpl; [reflexivity|].
  rewrite IH. lia.
Qed.

Lemma sum_Z_cons (x : Z) (l : list Z) : sum_Z (x :: l) = (x + sum_Z l)%Z.
Proof. reflexivity. Qed.

Lemma sum_Z_nil : sum_Z [] = 0%Z.
Proof. reflexivity. Qed.

Lemma list_sum_cons (x : nat) (l : list nat) :
  list_sum (x :: l) = (x + list_sum l)%nat.
Proof. reflexivity. Qed.

Lemma list_sum_nil : list_sum [] = 0%nat.
Proof. reflexivity. Qed.

(** [size] and [tree_sum] follow [iter_child_nodes]. *)
Lemma size_children (node : AST) :
  size node = S (list_sum (map size (iter_child_nodes node))).
Proof.
  destruct node as [id|value attr|op values|name args defaults body decos
                    returns lineno|cls children];
    cbn [size iter_child_nodes map]; f_equal;
    rewrite ?list_sum_cons, ?map_app, ?list_sum_app, ?map_map;
    cbn [size map];
    rewrite ?list_sum_cons, ?map_app, ?list_sum_app, ?map_map, ?list_sum_nil;
    try lia.
  destruct returns; cbn [map]; rewrite ?list_sum_cons, ?list_sum_nil; lia.
Qed.

Lemma tree_sum_children (w : AST -> Z) (node : AST) :
  tree_sum w node
  = (w node + sum_Z (map (tree_sum w) (iter_child_nodes node)))%Z.
Proof.
  destruct node as [id|value attr|op values|name args defaults body decos
                    returns lineno|cls children];
    cbn [tree_sum iter_child_nodes map]; f_equal;
    rewrite ?sum_Z_cons, ?map_app, ?sum_Z_app, ?map_map, ?sum_Z_nil;
    cbn [tree_sum map];
    rewrite ?sum_Z_cons, ?map_app, ?sum_Z_app, ?map_map, ?sum_Z_nil;
    cbn [tree_sum map];
    try lia.
  rewrite (map_ext (fun _ : string => (w (Node ast.arg []) + 0)%Z)
             (fun _ : string => w (Node ast.arg []))) by (intros; lia).
  destruct returns; cbn [map]; rewrite ?sum_Z_cons, ?sum_Z_nil; lia.
Qed.

(** The breadth first walk adds up the weight of every node once. *)
Lemma walk_queue_sum (w : AST -> Z) (fuel : nat) :
  forall (todo : list AST) (acc : Z),
    (list_sum (map size todo) <= fuel)%nat ->
    fold_left (fun c node => (c + w node)%Z) (walk_queue fuel todo) acc
    = (acc + sum_Z (map (tree_sum w) todo))%Z.
Proof.
  induction fuel as [|fuel IH]; intros todo acc Hfuel.
  - destruct todo as [|node rest].
    + cbn [walk_queue fold_left map]. rewrite sum_Z_nil. lia.
    + cbn [map] in Hfuel. rewrite list_sum_cons, size_children in Hfuel. lia.
  - destruct todo as [|node rest].
    + cbn [walk_queue fold_left map]. rewrite sum_Z_nil. lia.
    + cbn [walk_queue fold_left].
      rewrite IH.
      * rewrite map_app, sum_Z_app.
        cbn [map]. rewrite sum_Z_cons, (tree_sum_children w node). lia.
      * rewrite map_app, list_sum_app.
        cbn [map] in Hfuel. rewrite list_sum_cons, size_children in Hfuel.
        lia.
Qed.

Lemma walk_sum (w : AST -> Z) (tree : AST) (acc : Z) :
  fold_left (fun c node => (c + w node)%Z) (walk tree) acc
  = (acc + tree_sum w tree)%Z.
Proof.
  unfold walk. rewrite walk_queue_sum.
  - cbn [map]. rewrite sum_Z_cons, sum_Z_nil. lia.
  - cbn [map]. rewrite list_sum_cons, list_sum_nil. lia.
Qed.

Lemma fold_left_ext_Z (f g : Z -> AST -> Z) (l : list AST) :
  (forall c node, f c node = g c node) ->
  forall acc, fold_left f l acc = fold_left g l acc.
Proof.
  intros Hfg. induction l as [|x l IH]; intros acc; simpl.
  - reflexivity.
  - rewrite Hfg. apply IH.
Qed.

(** The whole-file count is the count the specification words. *)
Lemma calculate_complexity_spec (tree : AST) :
  _calculate_complexity tree = cyclomatic_complexity tree.
Proof.
  unfold _calculate_complexity, cyclomatic_complexity.
  rewrite (fold_left_ext_Z _ (fun c node => (c + node_weight node)%Z)).
  - apply walk_sum.
  - intros c node. unfold node_weight.
    destruct (is_branching node); [reflexivity|].
    destruct node; lia.
Qed.

(** The per-function count adds the branching constructs only. *)
Lemma calculate_function_complexity_spec (func_node : AST) :
  _calculate_function_complexity func_node
  = (1 + tree_sum branch_weight func_node)%Z.
Proof.
  unfold _calculate_function_complexity.
  rewrite (fold_left_ext_Z _ (fun c node => (c + branch_weight node)%Z)).
  - apply walk_sum.
  - intros c node. unfold branch_weight.
    destruct (is_branching node); lia.
Qed.

(** ** C6 *)

(** C6, at a failing input.  For the function [both], whose body returns
    [a and b], the count of the specification is 2: one, no branching
    construct, and one boolean operator of two operands.  The whole-file
    count of the module that holds the function is 2, but the
    per-function count that [_extract_functions] records is 1: the
    per-function computation leaves the boolean operators out. *)
Theorem function_complexity_ignores_boolean_operators :
  cyclomatic_complexity both_function = 2%Z
  /\ cyclomatic_complexity both_module = 2%Z
  /\ _calculate_complexity both_module = 2%Z
  /\ _calculate_function_complexity both_function = 1%Z
  /\ map fn_complexity (_extract_functions both_module) = [1%Z].
Proof.
  repeat split; vm_compute; reflexivity.
Qed.

End AnalyzerFacts.

(** ** The topological sort of networkx *)

Module NxFacts.
Import Py Nx.

(** *** Dictionaries and membership *)

Lemma mem_In (x : string) (l : list string) : mem x l = true <-> In x l.
Proof.
  unfold mem. rewrite existsb_exists. split.
  - intros [y [Hy Heq]]. apply String.eqb_eq in Heq. subst. exact Hy.
  - intros H. exists x. split; [exact H|apply String.eqb_refl].
Qed.

Lemma mem_false (x : string) (l : list string) :
  mem x l = false <-> ~ In x l.
Proof.
  rewrite <- mem_In. destruct (mem x l); split; intros; congruence.
Qed.

Lemma mem_app (x : string) (l1 l2 : list string) :
  mem x (l1 ++ l2) = mem x l1 || mem x l2.
Proof. unfold mem. apply existsb_app. Qed.

Section DictFacts.
Context {V : Type}.
Implicit Types (d : dict V) (k : string) (v : V).

Lemma get_set_eq d k v : get (set d k v) k = Some v.
Proof.
  induction d as [|[k' v'] d IH]; simpl.
  - rewrite String.eqb_refl. reflexivity.
  - destruct (String.eqb_spec k k') as [Heq|Hne]; simpl.
    + rewrite String.eqb_refl. reflexivity.
    + destruct (String.eqb_spec k k'); [contradiction|]. exact IH.
Qed.

Lemma get_set_neq d k k' v : k <> k' -> get (set d k v) k' = get d k'.
Proof.
  intros Hne. induction d as [|[k0 v0] d IH]; simpl.
  - destruct (String.eqb_spec k' k); [congruence|reflexivity].
  - destruct (String.eqb_spec k k0) as [Heq|Hne0]; simpl.
    + subst k0. destruct (String.eqb_spec k' k); [congruence|reflexivity].
    + destruct (String.eqb_spec k' k0); [reflexivity|exact IH].
Qed.

Lemma get_del_neq d k k' : k <> k' -> get (del d k) k' = get d k'.
Proof.
  intros Hne. induction d as [|[k0 v0] d IH]; simpl; [reflexivity|].
  destruct (String.eqb_spec k k0) as [Heq|Hne0]; simpl.
  - subst k0. destruct (String.eqb_spec k' k); [congruence|reflexivity].
  - destruct (String.eqb_spec k' k0); [reflexivity|exact IH].
Qed.

Lemma get_None_keys d k : get d k = None <-> ~ In k (keys d).
Proof.
  induction d as [|[k0 v0] d IH]; simpl.
  - split; [intros _ []|reflexivity].
  - destruct (String.eqb_spec k k0) as [Heq|Hne].
    + subst. split; [discriminate|]. intros H. exfalso. apply H. left.
      reflexivity.
    + rewrite IH. split.
      * intros H [Heq|Hin]; [congruence|contradiction].
      * intros H Hin. apply H. right. exact Hin.
Qed.

Lemma get_del_eq d k : NoDup (keys d) -> get (del d k) k = None.
Proof.
  induction d as [|[k0 v0] d IH]; simpl; intros Hnd; [reflexivity|].
  inversion Hnd as [|x l Hnotin Hnd']; subst.
  destruct (String.eqb_spec k k0) as [Heq|Hne]; simpl.
  - subst k0. apply get_None_keys. exact Hnotin.
  - destruct (String.eqb_spec k k0); [contradiction|]. apply IH. exact Hnd'.
Qed.

Lemma keys_set_In d k v k' :
  In k' (keys (set d k v)) <-> k' = k \/ In k' (keys d).
Proof.
  induction d as [|[k0 v0] d IH]; simpl.
  - split; [intros [H|[]]; left; congruence|].
    intros [H|[]]. left. congruence.
  - destruct (String.eqb_spec k k0) as [Heq|Hne]; simpl.
    + subst k0. split; [intros [H|H]; [left; congruence|right; right; exact H]|].
      intros [H|[H|H]]; [left; congruence|left; exact H|right; exact H].
    + rewrite IH. split.
      * intros [H|[H|H]]; [right; left; exact H|left; exact H|right; right; exact H].
      * intros [H|[H|H]]; [right; left; exact H|left; exact H|right; right; exact H].
Qed.

Lemma keys_set_NoDup d k v : NoDup (keys d) -> NoDup (keys (set d k v)).
Proof.
  induction d as [|[k0 v0] d IH]; simpl; intros Hnd.
  - constructor; [intros []|constructor].
  - inversion Hnd as [|x l Hnotin Hnd']; subst.
    destruct (String.eqb_spec k k0) as [Heq|Hne]; simpl.
    + subst k0. constructor; assumption.
    + constructor; [|apply IH; exact Hnd'].
      intros Hin. apply keys_set_In in Hin. destruct Hin as [Heq|Hin].
      * congruence.
      * contradiction.
Qed.

Lemma keys_del_incl d k k' : In k' (keys (del d k)) -> In k' (keys d).
Proof.
  induction d as [|[k0 v0] d IH]; simpl; [intros []|].
  destruct (String.eqb_spec k k0); simpl.
  - intros H. right. exact H.
  - intros [H|H]; [left; exact H|right; apply IH; exact H].
Qed.

Lemma keys_del_NoDup d k : NoDup (keys d) -> NoDup (keys (del d k)).
Proof.
  induction d as [|[k0 v0] d IH]; simpl; intros Hnd; [constructor|].
  inversion Hnd as [|x l Hnotin Hnd']; subst.
  destruct (String.eqb_spec k k0); simpl.
  - exact Hnd'.
  - constructor; [|apply IH; exact Hnd'].
    intros Hin. apply Hnotin. apply (keys_del_incl d k k0 Hin).
Qed.

End DictFacts.

(** *** Positions in a list *)

Lemma before_app_l {A : Type} (l l' : list A) (a b : A) :
  before l a b -> before (l ++ l') a b.
Proof.
  intros (i & j & Hij & Hi & Hj). exists i, j. split; [exact Hij|].
  assert (Hjlt : (j < List.length l)%nat)
    by (apply nth_error_Some; congruence).
  split; rewrite nth_error_app1; try assumption; lia.
Qed.

Lemma before_last {A : Type} (l : list A) (a c : A) :
  In a l -> before (l ++ [c]) a c.
Proof.
  intros Ha. apply In_nth_error in Ha. destruct Ha as [i Hi].
  assert (Hilt : (i < List.length l)%nat)
    by (apply nth_error_Some; congruence).
  exists i, (List.length l). split; [exact Hilt|]. split.
  - rewrite nth_error_app1; assumption.
  - rewrite nth_error_app2 by lia. rewrite Nat.sub_diag. reflexivity.
Qed.

Lemma before_trans {A : Type} (l : list A) (a b c : A) :
  NoDup l -> before l a b -> before l b c -> before l a c.
Proof.
  intros Hnd (i & j & Hij & Hi & Hj) (j' & k & Hjk & Hj' & Hk).
  assert (Heq : j = j').
  { apply (proj1 (NoDup_nth_error l) Hnd).
    - apply nth_error_Some. congruence.
    - congruence. }
  subst j'. exists i, k. split; [lia|]. split; assumption.
Qed.

Lemma before_irrefl {A : Type} (l : list A) (a : A) :
  NoDup l -> ~ before l a a.
Proof.
  intros Hnd (i & j & Hij & Hi & Hj).
  assert (Heq : i = j).
  { apply (proj1 (NoDup_nth_error l) Hnd).
    - apply nth_error_Some. congruence.
    - congruence. }
  lia.
Qed.

Lemma before_split {A : Type} (l : list A) (a b : A) :
  before l a b -> exists l1 l2 l3, l = l1 ++ a :: l2 ++ b :: l3.
Proof.
  intros (i & j & Hij & Hi & Hj).
  apply nth_error_split in Hi. destruct Hi as (l1 & r & -> & Hlen).
  rewrite nth_error_app2 in Hj by lia.
  rewrite Hlen in Hj.
  destruct (j - i)%nat as [|n] eqn:Hn; [lia|].
  simpl in Hj. apply nth_error_split in Hj.
  destruct Hj as (l2 & l3 & -> & _).
  exists l1, l2, l3. reflexivity.
Qed.

(** *** Edges and counts *)

Lemma edge_eqb_eq (e1 e2 : string * string) :
  edge_eqb e1 e2 = true <-> e1 = e2.
Proof.
  unfold edge_eqb. destruct e1 as [a b], e2 as [c d]. simpl.
  rewrite andb_true_iff, !String.eqb_eq. split.
  - intros [-> ->]. reflexivity.
  - intros H. inversion H. split; reflexivity.
Qed.

Lemma has_edge_In (g : DiGraph) (u v : string) :
  has_edge g u v = true <-> In (u, v) (edges g).
Proof.
  unfold has_edge. rewrite existsb_exists. split.
  - intros [e [He Heq]]. apply edge_eqb_eq in Heq. subst. exact He.
  - intros H. exists (u, v). split; [exact H|]. apply edge_eqb_eq.
    reflexivity.
Qed.

Lemma neighbors_In (g : DiGraph) (u c : string) :
  In c (neighbors g u) <-> In (u, c) (edges g).
Proof.
  unfold neighbors. rewrite in_map_iff. split.
  - intros [[a b] [Hb Hin]]. simpl in Hb. subst b.
    apply filter_In in Hin. destruct Hin as [Hin Ha]. simpl in Ha.
    apply String.eqb_eq in Ha. subst a. exact Hin.
  - intros H. exists (u, c). split; [reflexivity|].
    apply filter_In. split; [exact H|]. simpl. apply String.eqb_refl.
Qed.

Lemma neighbors_NoDup (g : DiGraph) (u : string) :
  NoDup (edges g) -> NoDup (neighbors g u).
Proof.
  unfold neighbors. intros Hnd.
  induction (edges g) as [|[a b] l IH]; simpl; [constructor|].
  inversion Hnd as [|x l' Hnotin Hnd']; subst.
  destruct (String.eqb_spec a u) as [Heq|Hne]; simpl.
  - subst a. constructor; [|apply IH; exact Hnd'].
    intros Hin. apply in_map_iff in Hin.
    destruct Hin as [[a' b'] [Hb Hin]]. simpl in Hb. subst b'.
    apply filter_In in Hin. destruct Hin as [Hin Ha]. simpl in Ha.
    apply String.eqb_eq in Ha. subst a'. contradiction.
  - apply IH. exact Hnd'.
Qed.

Lemma remaining_ext (g : DiGraph) (rel rel' : string * string -> bool)
    (v : string) :
  (forall e, In e (edges g) -> rel e = rel' e) ->
  remaining g rel v = remaining g rel' v.
Proof.
  intros H. unfold remaining. f_equal. apply filter_ext_in.
  intros e He. rewrite (H e He). reflexivity.
Qed.

Lemma remaining_zero (g : DiGraph) (rel : string * string -> bool)
    (v : string) (e : string * string) :
  remaining g rel v = 0%nat -> In e (edges g) -> snd e = v -> rel e = true.
Proof.
  unfold remaining. intros Hz He Hv.
  apply length_zero_iff_nil in Hz.
  destruct (rel e) eqn:Hr; [reflexivity|].
  assert (Hin : In e (filter (fun e => String.eqb (snd e) v && negb (rel e))
                        (edges g))).
  { apply filter_In. split; [exact He|]. rewrite Hv, String.eqb_refl, Hr.
    reflexivity. }
  rewrite Hz in Hin. destruct Hin.
Qed.

Lemma remaining_positive (g : DiGraph) (rel : string * string -> bool)
    (v : string) :
  remaining g rel v <> 0%nat ->
  exists u, In (u, v) (edges g) /\ rel (u, v) = false.
Proof.
  unfold remaining. intros Hnz.
  destruct (filter (fun e => String.eqb (snd e) v && negb (rel e)) (edges g))
    as [|[a b] l] eqn:Hf; [contradiction|].
  assert (Hin : In (a, b) (filter (fun e => String.eqb (snd e) v
                                            && negb (rel e)) (edges g)))
    by (rewrite Hf; left; reflexivity).
  apply filter_In in Hin. destruct Hin as [Hin Hc].
  apply andb_true_iff in Hc. destruct Hc as [Hb Hr]. simpl in Hb.
  apply String.eqb_eq in Hb. subst b.
  exists a. split; [exact Hin|]. apply negb_true_iff in Hr. exact Hr.
Qed.

(** Taking one counted element out of a list without repetition lowers
    the count by one. *)
Lemma filter_remove_one (f : string * string -> bool) (x : string * string)
    (l : list (string * string)) :
  NoDup l -> In x l -> f x = true ->
  List.length (filter f l)
  = S (List.length (filter (fun e => f e && negb (edge_eqb e x)) l)).
Proof.
  induction l as [|y l IH]; intros Hnd Hin Hfx; [destruct Hin|].
  inversion Hnd as [|y' l' Hnotin Hnd']; subst.
  destruct Hin as [Heq|Hin].
  - subst y. simpl. rewrite Hfx.
    rewrite (proj2 (edge_eqb_eq x x) eq_refl). simpl. f_equal. f_equal.
    apply filter_ext_in. intros e He.
    destruct (edge_eqb e x) eqn:Hex.
    + apply edge_eqb_eq in Hex. subst e. contradiction.
    + rewrite andb_true_r. reflexivity.
  - simpl. assert (Hyx : edge_eqb y x = false).
    { destruct (edge_eqb y x) eqn:Hex; [|reflexivity].
      apply edge_eqb_eq in Hex. subst y. contradiction. }
    rewrite Hyx, andb_true_r. destruct (f y); simpl.
    + f_equal. apply IH; assumption.
    + apply IH; assumption.
Qed.

Lemma remaining_relaxed_target (g : DiGraph)
    (rel : string * string -> bool) (u c : string) :
  NoDup (edges g) -> In (u, c) (edges g) -> rel (u, c) = false ->
  remaining g rel c = S (remaining g (also_relaxed rel (u, c)) c).
Proof.
  intros Hnd Hin Hrel. unfold remaining.
  rewrite (filter_remove_one _ (u, c) (edges g) Hnd Hin).
  - f_equal. f_equal. apply filter_ext. intros e. unfold also_relaxed.
    rewrite negb_orb, andb_assoc. reflexivity.
  - simpl. rewrite String.eqb_refl, Hrel. reflexivity.
Qed.

Lemma remaining_relaxed_other (g : DiGraph)
    (rel : string * string -> bool) (u c v : string) :
  v <> c ->
  remaining g (also_relaxed rel (u, c)) v = remaining g rel v.
Proof.
  intros Hne. unfold remaining. f_equal. apply filter_ext. intros [a b].
  unfold also_relaxed, edge_eqb. simpl.
  destruct (String.eqb_spec b v) as [Hb|Hb]; [|reflexivity].
  subst b. destruct (String.eqb_spec v c); [contradiction|].
  rewrite andb_false_r, orb_false_r. reflexivity.
Qed.

(** *** The invariant of the sort *)

Lemma invariant_ext (g : DiGraph) (L : list string)
    (rel rel' : string * string -> bool) (m : dict Z) :
  (forall e, In e (edges g) -> rel e = rel' e) ->
  kahn_invariant g L rel m -> kahn_invariant g L rel' m.
Proof.
  intros Hext [Hnd Hincl Hrel Hplaced Hmap Hout Hkeys Hord].
  constructor; try assumption.
  - intros e He Hr. apply Hrel; [exact He|]. rewrite Hext; assumption.
  - intros v Hv. rewrite <- (remaining_ext g rel rel' v Hext).
    apply Hplaced. exact Hv.
  - intros v Hv. rewrite <- (remaining_ext g rel rel' v Hext).
    apply Hmap. exact Hv.
Qed.

(** One round of the loop over the children: the edge from [u] to [c] is
    taken off; [c] is placed when no edge into it remains. *)
Lemma relax_child (g : DiGraph) (L : list string)
    (rel : string * string -> bool) (m : dict Z) (u c : string) :
  well_formed g -> kahn_invariant g L rel m ->
  In (u, c) (edges g) -> rel (u, c) = false -> In u L ->
  exists d,
    get m c = Some d
    /\ (((d - 1 =? 0)%Z = true
         /\ kahn_invariant g (L ++ [c]) (also_relaxed rel (u, c)) (del m c))
        \/ ((d - 1 =? 0)%Z = false
            /\ kahn_invariant g L (also_relaxed rel (u, c))
                 (set m c (d - 1)%Z))).
Proof.
  intros (Hndn & Hnde & Hends) [Hnd Hincl Hrel Hplaced Hmap Hout Hkeys Hord]
    Hin Hfalse Hu.
  pose proof (remaining_relaxed_target g rel u c Hnde Hin Hfalse) as Hcount.
  set (k := remaining g (also_relaxed rel (u, c)) c) in *.
  assert (Hc : In c (nodes g)) by (apply (Hends u c); exact Hin).
  assert (HcL : ~ In c L).
  { intros HcL. apply (Hplaced c Hc) in HcL. lia. }
  exists (Z.of_nat (S k)). split.
  { rewrite (Hmap c Hc), Hcount. reflexivity. }
  assert (Hd : (Z.of_nat (S k) - 1 = Z.of_nat k)%Z) by lia.
  rewrite Hd.
  assert (Hsrc : forall e, In e (edges g) ->
                           also_relaxed rel (u, c) e = true ->
                           In (fst e) L).
  { intros e He Hr. unfold also_relaxed in Hr.
    apply orb_true_iff in Hr. destruct Hr as [Hr|Hr].
    - apply Hrel; assumption.
    - apply edge_eqb_eq in Hr. subst e. exact Hu. }
  destruct k as [|k'] eqn:Hk.
  - left. split; [reflexivity|].
    constructor.
    + apply NoDup_app; [exact Hnd|repeat constructor; intros []|].
      intros a Ha [Hac|[]]. subst a. contradiction.
    + apply incl_app; [exact Hincl|]. intros a [Ha|[]]. subst a. exact Hc.
    + intros e He Hr. apply in_or_app. left. apply Hsrc; assumption.
    + intros v Hv. destruct (string_dec v c) as [Hvc|Hvc].
      * subst v. fold k. rewrite Hk. split; [reflexivity|].
        intros _. apply in_or_app. right. left. reflexivity.
      * rewrite (remaining_relaxed_other g rel u c v Hvc).
        rewrite <- (Hplaced v Hv). rewrite in_app_iff. split.
        -- intros [H|[H|[]]]; [exact H|congruence].
        -- intros H. left. exact H.
    + intros v Hv. destruct (string_dec v c) as [Hvc|Hvc].
      * subst v. fold k. rewrite Hk. rewrite get_del_eq by exact Hkeys.
        reflexivity.
      * rewrite get_del_neq by congruence.
        rewrite (remaining_relaxed_other g rel u c v Hvc).
        apply Hmap. exact Hv.
    + intros v Hv. rewrite get_del_neq by congruence. apply Hout. exact Hv.
    + apply keys_del_NoDup. exact Hkeys.
    + intros a b Hab Hb. apply in_app_or in Hb. destruct Hb as [Hb|[Hb|[]]].
      * apply before_app_l. apply Hord; assumption.
      * subst b. apply before_last.
        apply (Hsrc (a, c) Hab).
        apply (remaining_zero g _ c (a, c)); [|exact Hab|reflexivity].
        fold k. exact Hk.
  - right. split; [apply Z.eqb_neq; lia|].
    constructor.
    + exact Hnd.
    + exact Hincl.
    + exact Hsrc.
    + intros v Hv. destruct (string_dec v c) as [Hvc|Hvc].
      * subst v. fold k. rewrite Hk. split; [contradiction|discriminate].
      * rewrite (remaining_relaxed_other g rel u c v Hvc).
        apply Hplaced. exact Hv.
    + intros v Hv. destruct (string_dec v c) as [Hvc|Hvc].
      * subst v. fold k. rewrite Hk. rewrite get_set_eq. reflexivity.
      * rewrite get_set_neq by congruence.
        rewrite (remaining_relaxed_other g rel u c v Hvc).
        apply Hmap. exact Hv.
    + intros v Hv. rewrite get_set_neq by congruence. apply Hout. exact Hv.
    + apply keys_set_NoDup. exact Hkeys.
    + exact Hord.
Qed.

Lemma relaxed_snoc (P : list string) (u : string) (done : list string)
    (c : string) (e : string * string) :
  also_relaxed (relaxed P u done) (u, c) e = relaxed P u (done ++ [c]) e.
Proof.
  unfold also_relaxed, relaxed, edge_eqb. rewrite mem_app. simpl.
  destruct (mem (fst e) P), (String.eqb (fst e) u), (mem (snd e) done),
    (String.eqb (snd e) c); reflexivity.
Qed.

(** The loop over the children of [u]. *)
Lemma relax_correct (g : DiGraph) (L0 P : list string) (u : string) :
  well_formed g -> In u L0 -> ~ In u P ->
  forall todo done Z m,
    kahn_invariant g (L0 ++ Z) (relaxed P u done) m ->
    NoDup todo ->
    (forall c, In c todo -> In (u, c) (edges g) /\ ~ In c done) ->
    exists m' Z',
      relax todo m Z = Return (m', Z')
      /\ kahn_invariant g (L0 ++ Z') (relaxed P u (done ++ todo)) m'.
Proof.
  intros WF Hu HuP. induction todo as [|c todo IH];
    intros done Z m Hinv Hnd Hall.
  - exists m, Z. split; [reflexivity|]. rewrite app_nil_r. exact Hinv.
  - inversion Hnd as [|c' l Hnotin Hnd']; subst.
    destruct (Hall c (or_introl eq_refl)) as [Hedge Hdone].
    assert (Hfalse : relaxed P u done (u, c) = false).
    { unfold relaxed. simpl.
      rewrite (proj2 (mem_false u P) HuP), (proj2 (mem_false c done) Hdone).
      rewrite andb_false_r. reflexivity. }
    assert (Hrest : forall c', In c' todo ->
                      In (u, c') (edges g) /\ ~ In c' (done ++ [c])).
    { intros c' Hc'. split; [apply Hall; right; exact Hc'|].
      intros Hin. apply in_app_or in Hin. destruct Hin as [Hin|[Hin|[]]].
      - apply (proj2 (Hall c' (or_intror Hc'))). exact Hin.
      - subst c'. contradiction. }
    destruct (relax_child g (L0 ++ Z) (relaxed P u done) m u c WF Hinv Hedge
                Hfalse (in_or_app _ _ _ (or_introl Hu)))
      as (d & Hget & [[Hz Hinv']|[Hz Hinv']]).
    + assert (Hnext : kahn_invariant g (L0 ++ (Z ++ [c]))
                        (relaxed P u (done ++ [c])) (del m c)).
      { rewrite app_assoc.
        apply (invariant_ext g _ (also_relaxed (relaxed P u done) (u, c)));
          [|exact Hinv'].
        intros e _. apply relaxed_snoc. }
      destruct (IH (done ++ [c]) (Z ++ [c]) (del m c) Hnext Hnd' Hrest)
        as (m' & Z' & Hrun & Hfin).
      exists m', Z'. split.
      * cbn [relax]. rewrite Hget. cbv zeta. rewrite Hz. exact Hrun.
      * rewrite <- app_assoc in Hfin. exact Hfin.
    + assert (Hnext : kahn_invariant g (L0 ++ Z)
                        (relaxed P u (done ++ [c])) (set m c (d - 1)%Z)).
      { apply (invariant_ext g _ (also_relaxed (relaxed P u done) (u, c)));
          [|exact Hinv'].
        intros e _. apply relaxed_snoc. }
      destruct (IH (done ++ [c]) Z (set m c (d - 1)%Z) Hnext Hnd' Hrest)
        as (m' & Z' & Hrun & Hfin).
      exists m', Z'. split.
      * cbn [relax]. rewrite Hget. cbv zeta. rewrite Hz. exact Hrun.
      * rewrite <- app_assoc in Hfin. exact Hfin.
Qed.

(** The loop over the nodes of one generation. *)
Lemma visit_correct (g : DiGraph) :
  well_formed g ->
  forall gen P Z m,
    kahn_invariant g (P ++ gen ++ Z) (visited_sources P) m ->
    exists m' Z',
      visit_generation g gen m Z = Return (m', Z')
      /\ kahn_invariant g (P ++ gen ++ Z') (visited_sources (P ++ gen)) m'.
Proof.
  intros WF. induction gen as [|u rest IH]; intros P Z m Hinv.
  - exists m, Z. split; [reflexivity|]. rewrite app_nil_r. exact Hinv.
  - pose proof (inv_nodup _ _ _ _ Hinv) as Hnd.
    assert (HuP : ~ In u P).
    { apply NoDup_remove_2 in Hnd. intros H. apply Hnd.
      apply in_or_app. left. exact H. }
    assert (Hun : In u (nodes g)).
    { apply (inv_incl _ _ _ _ Hinv). apply in_or_app. right. left.
      reflexivity. }
    assert (Hstart : kahn_invariant g ((P ++ u :: rest) ++ Z)
                       (relaxed P u []) m).
    { rewrite <- app_assoc.
      apply (invariant_ext g _ (visited_sources P)); [|exact Hinv].
      intros e _. unfold relaxed, visited_sources. simpl.
      rewrite andb_false_r, orb_false_r. reflexivity. }
    assert (HuL0 : In u (P ++ u :: rest))
      by (apply in_or_app; right; left; reflexivity).
    destruct WF as (Hndn & Hnde & Hends).
    destruct (relax_correct g (P ++ u :: rest) P u
                (conj Hndn (conj Hnde Hends)) HuL0 HuP
                (neighbors g u) [] Z m Hstart (neighbors_NoDup g u Hnde))
      as (m1 & Z1 & Hrun & Hinv1).
    { intros c Hc. split; [apply neighbors_In; exact Hc|intros []]. }
    assert (Hnext : kahn_invariant g ((P ++ [u]) ++ rest ++ Z1)
                      (visited_sources (P ++ [u])) m1).
    { rewrite <- app_assoc. simpl. rewrite <- app_assoc in Hinv1.
      simpl in Hinv1.
      apply (invariant_ext g _ (relaxed P u ([] ++ neighbors g u)));
        [|exact Hinv1].
      intros [a b] He. unfold relaxed, visited_sources. simpl.
      rewrite mem_app. simpl. rewrite orb_false_r.
      destruct (String.eqb_spec a u) as [Hau|Hau]; simpl.
      - subst a. rewrite (proj2 (mem_In b (neighbors g u))).
        + reflexivity.
        + apply neighbors_In. exact He.
      - reflexivity. }
    destruct (IH (P ++ [u]) Z1 m1 Hnext) as (m' & Z' & Hrun' & Hfin).
    exists m', Z'. split.
    + cbn [visit_generation].
      rewrite (proj2 (mem_In u (nodes g)) Hun). cbn [negb].
      rewrite Hrun. cbn [bind fst snd]. exact Hrun'.
    + rewrite <- !app_assoc in Hfin. simpl in Hfin. exact Hfin.
Qed.

(** When the sort ends with an empty in-degree map, the placed nodes are
    a topological order. *)
Lemma final_order (g : DiGraph) (P : list string) :
  well_formed g ->
  kahn_invariant g P (visited_sources P) [] ->
  topological_order g P.
Proof.
  intros (Hndn & Hnde & Hends) [Hnd Hincl Hrel Hplaced Hmap Hout Hkeys Hord].
  assert (Hall : forall v, In v (nodes g) -> In v P).
  { intros v Hv. apply (Hplaced v Hv).
    pose proof (Hmap v Hv) as Hm. simpl in Hm.
    destruct (Nat.eqb_spec (remaining g (visited_sources P) v) 0);
      [assumption|discriminate]. }
  split; [exact Hnd|]. split.
  - intros v. split; [apply Hincl|apply Hall].
  - intros u v Huv. apply Hord; [exact Huv|].
    apply Hall. apply (Hends u v). exact Huv.
Qed.

(** *** Cycles *)

Lemma is_path_app_r (g : DiGraph) (l1 l2 : list string) :
  is_path g (l1 ++ l2) -> is_path g l2.
Proof.
  induction l1 as [|x l1 IH]; intros H; [exact H|].
  apply IH. destruct l1 as [|y l1]; simpl in *.
  - destruct l2; [exact I|]. destruct H as [_ H]. exact H.
  - destruct H as [_ H]. exact H.
Qed.

Lemma is_path_reaches (g : DiGraph) (l : list string) :
  forall a b, is_path g (a :: l ++ [b]) -> clos_trans string (edge g) a b.
Proof.
  induction l as [|x l IH]; intros a b H.
  - simpl in H. destruct H as [H _]. apply t_step. exact H.
  - simpl in H. destruct H as [Hax H].
    apply t_trans with x; [apply t_step; exact Hax|].
    apply IH. exact H.
Qed.

(** A chain of [n] edges inside a non-empty set in which every node has
    a predecessor. *)
Lemma backward_chain (g : DiGraph) (Rem : string -> Prop) :
  (forall v, Rem v -> exists x, Rem x /\ edge g x v) ->
  (exists v, Rem v) ->
  forall n,
    exists h l,
      List.length (h :: l) = S n /\ Forall Rem (h :: l)
      /\ is_path g (h :: l).
Proof.
  intros Hpred [v Hv]. induction n as [|n IH].
  - exists v, []. repeat split; try reflexivity.
    constructor; [exact Hv|constructor].
  - destruct IH as (h & l & Hlen & Hall & Hpath).
    assert (Hh : Rem h) by (inversion Hall; assumption).
    destruct (Hpred h Hh) as (x & Hx & Hxh).
    exists x, (h :: l). split; [simpl in *; lia|]. split.
    + constructor; [exact Hx|exact Hall].
    + split; assumption.
Qed.

(** In a finite graph, a non-empty set of nodes in which every node has
    a predecessor holds a cycle. *)
Lemma pigeonhole_cycle (g : DiGraph) (Rem : string -> Prop) :
  (forall v, Rem v -> In v (nodes g)) ->
  (forall v, Rem v -> exists x, Rem x /\ edge g x v) ->
  (exists v, Rem v) ->
  has_cycle g.
Proof.
  intros Hnodes Hpred Hex.
  destruct (backward_chain g Rem Hpred Hex (List.length (nodes g)))
    as (h & l & Hlen & Hall & Hpath).
  assert (Hdup : ~ NoDup (h :: l)).
  { intros Hnd.
    assert (Hle : (List.length (h :: l) <= List.length (nodes g))%nat).
    { apply NoDup_incl_length; [exact Hnd|].
      intros a Ha. apply Hnodes.
      rewrite Forall_forall in Hall. apply Hall. exact Ha. }
    lia. }
  apply not_NoDup in Hdup.
  2:{ intros x y. destruct (string_dec x y); [left|right]; assumption. }
  destruct Hdup as (a & l1 & l2 & l3 & Heq).
  exists a. apply (is_path_reaches g l2).
  rewrite Heq in Hpath. apply is_path_app_r in Hpath.
  clear - Hpath. revert Hpath.
  change (a :: l2 ++ a :: l3) with ((a :: l2) ++ a :: l3).
  change (a :: l2 ++ [a]) with ((a :: l2) ++ [a]).
  generalize (a :: l2). intros l. induction l as [|x l IH]; intros H.
  - simpl. exact I.
  - destruct l as [|y l]; simpl in *.
    + destruct H as [H _]. split; [exact H|exact I].
    + destruct H as [Hxy H]. split; [exact Hxy|]. apply IH. exact H.
Qed.

(** When the sort ends with a non-empty in-degree map, the graph has a
    cycle. *)
Lemma stuck_cycle (g : DiGraph) (P : list string) (m : dict Z) :
  well_formed g ->
  kahn_invariant g P (visited_sources P) m ->
  m <> [] ->
  has_cycle g.
Proof.
  intros (Hndn & Hnde & Hends) [Hnd Hincl Hrel Hplaced Hmap Hout Hkeys Hord]
    Hne.
  apply (pigeonhole_cycle g (fun v => In v (nodes g) /\ ~ In v P)).
  - intros v [Hv _]. exact Hv.
  - intros v [Hv HvP].
    assert (Hrem : remaining g (visited_sources P) v <> 0%nat).
    { intros Hz. apply HvP. apply (Hplaced v Hv). exact Hz. }
    apply remaining_positive in Hrem. destruct Hrem as (u & Huv & Hvis).
    exists u. split; [|exact Huv]. split.
    + apply (Hends u v). exact Huv.
    + unfold visited_sources in Hvis. simpl in Hvis.
      apply mem_false. exact Hvis.
  - destruct m as [|[k d] m']; [contradiction|].
    exists k.
    assert (Hget : get ((k, d) :: m') k = Some d)
      by (simpl; rewrite String.eqb_refl; reflexivity).
    assert (Hk : In k (nodes g)).
    { destruct (in_dec string_dec k (nodes g)) as [H|H]; [exact H|].
      rewrite (Hout k H) in Hget. discriminate. }
    split; [exact Hk|].
    intros HkP. apply (Hplaced k Hk) in HkP.
    rewrite (Hmap k Hk), HkP in Hget. discriminate.
Qed.

(** *** The loop over the generations *)

Lemma generations_loop_correct (g : DiGraph) :
  well_formed g ->
  forall fuel P zero m,
    kahn_invariant g (P ++ zero) (visited_sources P) m ->
    (List.length (nodes g) <= List.length P + fuel)%nat ->
    (exists gens,
        generations_loop fuel g m zero = Return gens
        /\ topological_order g (P ++ List.concat gens))
    \/ (generations_loop fuel g m zero = Raise NetworkXUnfeasible
        /\ has_cycle g).
Proof.
  intros WF. induction fuel as [|fuel IH]; intros P zero m Hinv Hfuel.
  - destruct zero as [|z zs].
    + rewrite app_nil_r in Hinv. destruct m as [|entry m'].
      * left. exists []. split; [reflexivity|]. simpl. rewrite app_nil_r.
        apply final_order; assumption.
      * right. split; [reflexivity|].
        apply (stuck_cycle g P (entry :: m') WF Hinv). discriminate.
    + exfalso.
      pose proof (NoDup_incl_length (inv_nodup _ _ _ _ Hinv)
                    (inv_incl _ _ _ _ Hinv)) as Hle.
      rewrite length_app in Hle. simpl in Hle. lia.
  - destruct zero as [|z zs].
    + rewrite app_nil_r in Hinv. destruct m as [|entry m'].
      * left. exists []. split; [reflexivity|]. simpl. rewrite app_nil_r.
        apply final_order; assumption.
      * right. split; [reflexivity|].
        apply (stuck_cycle g P (entry :: m') WF Hinv). discriminate.
    + assert (Hinv0 : kahn_invariant g (P ++ (z :: zs) ++ [])
                        (visited_sources P) m)
        by (rewrite app_nil_r; exact Hinv).
      destruct (visit_correct g WF (z :: zs) P [] m Hinv0)
        as (m1 & Z1 & Hrun & Hinv1).
      rewrite app_assoc in Hinv1.
      destruct (IH (P ++ z :: zs) Z1 m1 Hinv1) as [(gens & Hg & Hord)|[Hg Hc]].
      * rewrite length_app. simpl. lia.
      * left. exists ((z :: zs) :: gens). split.
        -- cbn [generations_loop]. rewrite Hrun. cbn [bind fst snd].
           rewrite Hg. reflexivity.
        -- cbn [List.concat]. rewrite app_assoc. exact Hord.
      * right. split; [|exact Hc].
        cbn [generations_loop]. rewrite Hrun. cbn [bind fst snd].
        rewrite Hg. reflexivity.
Qed.

Lemma get_map_filter (f : string -> Z) (p : string -> bool)
    (l : list string) (v : string) :
  get (map (fun x => (x, f x)) (filter p l)) v
  = if mem v l && p v then Some (f v) else None.
Proof.
  induction l as [|x l IH]; simpl; [reflexivity|].
  destruct (p x) eqn:Hpx; simpl;
    destruct (String.eqb_spec v x) as [Heq|Hne]; simpl.
  - subst x. rewrite Hpx. reflexivity.
  - exact IH.
  - subst x. rewrite IH, Hpx, !andb_false_r. reflexivity.
  - exact IH.
Qed.

Lemma remaining_initial (g : DiGraph) (v : string) :
  remaining g (visited_sources []) v = in_degree g v.
Proof.
  unfold remaining, in_degree. f_equal. apply filter_ext. intros e.
  unfold visited_sources. simpl. rewrite andb_true_r. reflexivity.
Qed.

(** The invariant holds when the sort starts. *)
Lemma initial_invariant (g : DiGraph) :
  well_formed g ->
  kahn_invariant g
    ([] ++ filter (fun v => (in_degree g v =? 0)%nat) (nodes g))
    (visited_sources [])
    (map (fun v => (v, Z.of_nat (in_degree g v)))
       (filter (fun v => (0 <? in_degree g v)%nat) (nodes g))).
Proof.
  intros (Hndn & Hnde & Hends). simpl. constructor.
  - apply NoDup_filter. exact Hndn.
  - intros v Hv. apply filter_In in Hv. apply Hv.
  - intros e _ Hr. discriminate.
  - intros v Hv. rewrite remaining_initial, filter_In, Nat.eqb_eq.
    split; [intros [_ H]; exact H|intros H; split; assumption].
  - intros v Hv. rewrite remaining_initial, get_map_filter.
    rewrite (proj2 (mem_In v (nodes g)) Hv). simpl.
    destruct (in_degree g v); reflexivity.
  - intros v Hv. rewrite get_map_filter.
    rewrite (proj2 (mem_false v (nodes g)) Hv). reflexivity.
  - unfold keys. rewrite map_map. simpl. rewrite map_id.
    apply NoDup_filter. exact Hndn.
  - intros u v Huv Hv. exfalso.
    apply filter_In in Hv. destruct Hv as [_ Hz].
    apply Nat.eqb_eq in Hz. rewrite <- remaining_initial in Hz.
    pose proof (remaining_zero g _ v (u, v) Hz Huv eq_refl) as Hr.
    discriminate.
Qed.

(** A topological order leaves no room for a cycle. *)
Lemma topological_order_acyclic (g : DiGraph) (l : list string) :
  topological_order g l -> ~ has_cycle g.
Proof.
  intros (Hnd & _ & Hord) [v Hv].
  assert (Hall : forall a b, clos_trans string (edge g) a b -> before l a b).
  { intros a b H. induction H as [a b H|a b c _ IH1 _ IH2].
    - apply Hord. exact H.
    - apply (before_trans l a b c Hnd IH1 IH2). }
  apply (before_irrefl l v Hnd). apply Hall. exact Hv.
Qed.

(** [topological_sort] on a graph built by [add_node] and [add_edge]:
    it returns a topological order, or the graph has a cycle and it
    raises [NetworkXUnfeasible]; it raises nothing else. *)
Lemma topological_sort_correct (g : DiGraph) :
  well_formed g ->
  (exists l, topological_sort g = Return l /\ topological_order g l)
  \/ (topological_sort g = Raise NetworkXUnfeasible /\ has_cycle g).
Proof.
  intros WF. unfold topological_sort, topological_generations.
  destruct (generations_loop_correct g WF (number_of_nodes g) [] _ _
              (initial_invariant g WF))
    as [(gens & Hg & Hord)|[Hg Hc]].
  - unfold number_of_nodes. simpl. lia.
  - left. exists (List.concat gens). rewrite Hg. split; [reflexivity|].
    exact Hord.
  - right. rewrite Hg. split; [reflexivity|exact Hc].
Qed.

Lemma topological_sort_cyclic (g : DiGraph) :
  well_formed g -> has_cycle g ->
  topological_sort g = Raise NetworkXUnfeasible.
Proof.
  intros WF Hc. destruct (topological_sort_correct g WF)
    as [(l & _ & Hord)|[H _]]; [|exact H].
  exfalso. apply (topological_order_acyclic g l Hord Hc).
Qed.

Lemma topological_sort_acyclic (g : DiGraph) :
  well_formed g -> ~ has_cycle g ->
  exists l, topological_sort g = Return l /\ topological_order g l.
Proof.
  intros WF Hc. destruct (topological_sort_correct g WF)
    as [H|[_ H]]; [exact H|contradiction].
Qed.

(** *** Graphs built by [add_node] and [add_edge] *)

Lemma empty_well_formed : well_formed empty.
Proof.
  split; [constructor|]. split; [constructor|]. intros u v [].
Qed.

Lemma add_node_nodes (g : DiGraph) (n v : string) :
  In v (nodes (add_node g n)) <-> v = n \/ In v (nodes g).
Proof.
  unfold add_node. destruct (mem n (nodes g)) eqn:Hm; simpl.
  - apply mem_In in Hm. split; [intros H; right; exact H|].
    intros [H|H]; [subst; exact Hm|exact H].
  - rewrite in_app_iff. simpl. split.
    + intros [H|[H|[]]]; [right; exact H|left; congruence].
    + intros [H|H]; [right; left; congruence|left; exact H].
Qed.

Lemma add_node_edges (g : DiGraph) (n : string) :
  edges (add_node g n) = edges g.
Proof. unfold add_node. destruct (mem n (nodes g)); reflexivity. Qed.

Lemma add_node_well_formed (g : DiGraph) (n : string) :
  well_formed g -> well_formed (add_node g n).
Proof.
  intros (Hndn & Hnde & Hends). split; [|split].
  - unfold add_node. destruct (mem n (nodes g)) eqn:Hm; simpl.
    + exact Hndn.
    + apply mem_false in Hm. apply NoDup_app.
      * exact Hndn.
      * constructor; [intros []|constructor].
      * intros a Ha [Han|[]]. subst a. contradiction.
  - rewrite add_node_edges. exact Hnde.
  - intros u v Huv. unfold edge in Huv. rewrite add_node_edges in Huv.
    destruct (Hends u v Huv) as [Hu Hv].
    split; apply add_node_nodes; right; assumption.
Qed.

Lemma add_edge_nodes (g : DiGraph) (a b v : string) :
  In v (nodes (add_edge g a b)) <-> v = a \/ v = b \/ In v (nodes g).
Proof.
  unfold add_edge.
  destruct (has_edge (add_node (add_node g a) b) a b); simpl;
    rewrite !add_node_nodes; tauto.
Qed.

Lemma add_edge_edges (g : DiGraph) (a b : string) (e : string * string) :
  In e (edges (add_edge g a b)) <-> e = (a, b) \/ In e (edges g).
Proof.
  unfold add_edge.
  destruct (has_edge (add_node (add_node g a) b) a b) eqn:Hh; simpl.
  - apply has_edge_In in Hh. rewrite !add_node_edges in *.
    split; [intros H; right; exact H|].
    intros [H|H]; [subst; exact Hh|exact H].
  - rewrite !add_node_edges, in_app_iff. simpl. split.
    + intros [H|[H|[]]]; [right; exact H|left; congruence].
    + intros [H|H]; [right; left; congruence|left; exact H].
Qed.

Lemma add_edge_well_formed (g : DiGraph) (a b : string) :
  well_formed g -> well_formed (add_edge g a b).
Proof.
  intros WF.
  pose proof (add_node_well_formed _ b (add_node_well_formed g a WF))
    as (Hndn & Hnde & Hends).
  split; [|split].
  - unfold add_edge.
    destruct (has_edge (add_node (add_node g a) b) a b); exact Hndn.
  - unfold add_edge.
    destruct (has_edge (add_node (add_node g a) b) a b) eqn:Hh; simpl.
    + exact Hnde.
    + apply NoDup_app.
      * exact Hnde.
      * constructor; [intros []|constructor].
      * intros e He [Heq|[]]. subst e.
        apply has_edge_In in He. congruence.
  - intros u v Huv. unfold edge in Huv. apply add_edge_edges in Huv.
    rewrite !add_edge_nodes. destruct Huv as [Heq|Huv].
    + inversion Heq; subst. tauto.
    + destruct WF as (_ & _ & Hends0). destruct (Hends0 u v Huv). tauto.
Qed.

End NxFacts.

(** ** The refactor planner *)

Module PlannerFacts.
Import Py Nx NxFacts Planner.

(** *** The step map *)

Lemma step_map_keys (l : list RefactorStep) :
  forall (m0 : dict RefactorStep) (k : string),
    In k (keys (fold_left (fun m step => set m (id step) step) l m0))
    <-> In k (keys m0) \/ exists s, In s l /\ id s = k.
Proof.
  induction l as [|s l IH]; intros m0 k; simpl.
  - split; [intros H; left; exact H|].
    intros [H|(s & [] & _)]. exact H.
  - rewrite IH, keys_set_In. split.
    + intros [[H|H]|(s' & Hs' & Hk)].
      * right. exists s. split; [left; reflexivity|congruence].
      * left. exact H.
      * right. exists s'. split; [right; exact Hs'|exact Hk].
    + intros [H|(s' & [Heq|Hs'] & Hk)].
      * left. right. exact H.
      * subst s'. left. left. congruence.
      * right. exists s'. split; assumption.
Qed.

Lemma step_map_get (l : list RefactorStep) :
  forall (m0 : dict RefactorStep) (k : string) (s : RefactorStep),
    get (fold_left (fun m step => set m (id step) step) l m0) k = Some s ->
    get m0 k = Some s \/ (In s l /\ id s = k).
Proof.
  induction l as [|s0 l IH]; intros m0 k s H; simpl in H.
  - left. exact H.
  - apply IH in H. destruct H as [H|[Hin Hk]].
    + destruct (string_dec (id s0) k) as [Heq|Hne].
      * subst k. rewrite get_set_eq in H. inversion H; subst.
        right. split; [left; reflexivity|reflexivity].
      * rewrite get_set_neq in H by exact Hne. left. exact H.
    + right. split; [right; exact Hin|exact Hk].
Qed.

Lemma step_map_of_keys (steps : list RefactorStep) (k : string) :
  In k (keys (step_map_of steps)) <-> exists s, In s steps /\ id s = k.
Proof.
  unfold step_map_of. rewrite step_map_keys. simpl. tauto.
Qed.

Lemma step_map_of_get (steps : list RefactorStep) (k : string)
    (s : RefactorStep) :
  get (step_map_of steps) k = Some s -> In s steps /\ id s = k.
Proof.
  unfold step_map_of. intros H. apply step_map_get in H.
  destruct H as [H|H]; [discriminate|exact H].
Qed.

Lemma step_map_of_lookup (steps : list RefactorStep) (k : string) :
  (exists s, In s steps /\ id s = k) ->
  exists s, get (step_map_of steps) k = Some s.
Proof.
  intros H. apply step_map_of_keys in H.
  destruct (get (step_map_of steps) k) as [s|] eqn:Hg.
  - exists s. reflexivity.
  - apply get_None_keys in Hg. contradiction.
Qed.

Lemma has_key_In {V : Type} (d : dict V) (k : string) :
  has_key d k = true <-> In k (keys d).
Proof.
  unfold has_key. destruct (get d k) eqn:Hg; simpl.
  - split; [intros _|reflexivity].
    destruct (in_dec string_dec k (keys d)) as [H|H]; [exact H|].
    apply get_None_keys in H. congruence.
  - apply get_None_keys in Hg. split; [discriminate|contradiction].
Qed.

(** *** The graph of [_order_by_dependencies] *)

Lemma prefix_drop_last (s : string) : String.prefix (drop_last s) s = true.
Proof.
  induction s as [|a s IH]; [reflexivity|].
  destruct s as [|b s]; [reflexivity|].
  change (drop_last (String a (String b s)))
    with (String a (drop_last (String b s))).
  cbn [String.prefix].
  destruct (Ascii.ascii_dec a a) as [_|Hne]; [exact IH|congruence].
Qed.

Lemma wildcard_edges (prefix step_id : string) (ks : list string) :
  forall (g : DiGraph) (e : string * string),
    In e
      (edges
         (fold_left
            (fun g other_id =>
               if startswith other_id prefix
               then add_edge g other_id step_id else g)
            ks g))
    <-> In e (edges g)
        \/ exists a, In a ks /\ startswith a prefix = true
                     /\ e = (a, step_id).
Proof.
  induction ks as [|k ks IH]; intros g e; simpl.
  - split; [intros H; left; exact H|].
    intros [H|(a & [] & _)]. exact H.
  - rewrite IH. destruct (startswith k prefix) eqn:Hk.
    + rewrite add_edge_edges. split.
      * intros [[H|H]|(a & Ha & Hp & He)].
        -- right. exists k. repeat split; [left; reflexivity|exact Hk|exact H].
        -- left. exact H.
        -- right. exists a. repeat split; [right; exact Ha|exact Hp|exact He].
      * intros [H|(a & [Heq|Ha] & Hp & He)].
        -- left. right. exact H.
        -- subst a. left. left. exact He.
        -- right. exists a. repeat split; assumption.
    + split.
      * intros [H|(a & Ha & Hp & He)]; [left; exact H|].
        right. exists a. repeat split; [right; exact Ha|exact Hp|exact He].
      * intros [H|(a & [Heq|Ha] & Hp & He)].
        -- left. exact H.
        -- subst a. congruence.
        -- right. exists a. repeat split; assumption.
Qed.

Lemma wildcard_well_formed (prefix step_id : string) (ks : list string) :
  forall g, well_formed g ->
    well_formed
      (fold_left
         (fun g other_id =>
            if startswith other_id prefix
            then add_edge g other_id step_id else g)
         ks g).
Proof.
  induction ks as [|k ks IH]; intros g WF; simpl; [exact WF|].
  apply IH. destruct (startswith k prefix); [|exact WF].
  apply add_edge_well_formed. exact WF.
Qed.

Lemma wildcard_nodes (prefix step_id : string) (ks : list string) :
  forall (g : DiGraph) (v : string),
    In v
      (nodes
         (fold_left
            (fun g other_id =>
               if startswith other_id prefix
               then add_edge g other_id step_id else g)
            ks g)) ->
    In v (nodes g) \/ v = step_id \/ In v ks.
Proof.
  induction ks as [|k ks IH]; intros g v H; simpl in H.
  - left. exact H.
  - apply IH in H. destruct H as [H|[H|H]].
    + destruct (startswith k prefix).
      * apply add_edge_nodes in H. destruct H as [H|[H|H]].
        -- right. right. left. congruence.
        -- right. left. exact H.
        -- left. exact H.
      * left. exact H.
    + right. left. exact H.
    + right. right. right. exact H.
Qed.

Lemma wildcard_nodes_keep (prefix step_id : string) (ks : list string) :
  forall (g : DiGraph) (v : string),
    In v (nodes g) ->
    In v
      (nodes
         (fold_left
            (fun g other_id =>
               if startswith other_id prefix
               then add_edge g other_id step_id else g)
            ks g)).
Proof.
  induction ks as [|k ks IH]; intros g v H; simpl; [exact H|].
  apply IH. destruct (startswith k prefix); [|exact H].
  apply add_edge_nodes. right. right. exact H.
Qed.

Section Graph.
Variable step_map : dict RefactorStep.

Lemma add_dependency_edges (step_id : string) (g : DiGraph) (dep : string)
    (e : string * string) :
  In e (edges (add_dependency step_map step_id g dep))
  <-> In e (edges g)
      \/ exists a, In a (keys step_map) /\ dep_matches dep a = true
                   /\ e = (a, step_id).
Proof.
  unfold add_dependency, dep_matches.
  destruct (endswith dep "*").
  - apply wildcard_edges.
  - destruct (has_key step_map dep) eqn:Hk.
    + apply has_key_In in Hk. rewrite add_edge_edges. split.
      * intros [H|H]; [|left; exact H].
        right. exists dep. repeat split;
          [exact Hk|apply String.eqb_refl|exact H].
      * intros [H|(a & Ha & Hm & He)]; [right; exact H|].
        apply String.eqb_eq in Hm. subst a. left. exact He.
    + split; [intros H; left; exact H|].
      intros [H|(a & Ha & Hm & He)]; [exact H|].
      apply String.eqb_eq in Hm. subst a.
      apply has_key_In in Ha. congruence.
Qed.

Lemma add_dependency_well_formed (step_id : string) (g : DiGraph)
    (dep : string) :
  well_formed g -> well_formed (add_dependency step_map step_id g dep).
Proof.
  intros WF. unfold add_dependency. destruct (endswith dep "*").
  - apply wildcard_well_formed. exact WF.
  - destruct (has_key step_map dep); [|exact WF].
    apply add_edge_well_formed. exact WF.
Qed.

Lemma add_dependency_nodes (step_id : string) (g : DiGraph) (dep : string)
    (v : string) :
  In v (nodes (add_dependency step_map step_id g dep)) ->
  In v (nodes g) \/ v = step_id \/ In v (keys step_map).
Proof.
  unfold add_dependency. destruct (endswith dep "*").
  - apply wildcard_nodes.
  - destruct (has_key step_map dep) eqn:Hk; [|intros H; left; exact H].
    apply has_key_In in Hk. intros H. apply add_edge_nodes in H.
    destruct H as [H|[H|H]].
    + right. right. congruence.
    + right. left. exact H.
    + left. exact H.
Qed.

Lemma add_dependency_nodes_keep (step_id : string) (g : DiGraph)
    (dep : string) (v : string) :
  In v (nodes g) -> In v (nodes (add_dependency step_map step_id g dep)).
Proof.
  intros H. unfold add_dependency. destruct (endswith dep "*").
  - apply wildcard_nodes_keep. exact H.
  - destruct (has_key step_map dep); [|exact H].
    apply add_edge_nodes. right. right. exact H.
Qed.

(** The loop over the dependencies of one step. *)
Lemma dependencies_loop (step_id : string) (deps : list string) :
  forall g,
    well_formed g ->
    let g' := fold_left (add_dependency step_map step_id) deps g in
    well_formed g'
    /\ (forall e,
           In e (edges g')
           <-> In e (edges g)
               \/ exists dep a,
                    In dep deps /\ In a (keys step_map)
                    /\ dep_matches dep a = true /\ e = (a, step_id))
    /\ (forall v, In v (nodes g') ->
                  In v (nodes g) \/ v = step_id \/ In v (keys step_map))
    /\ (forall v, In v (nodes g) -> In v (nodes g')).
Proof.
  induction deps as [|dep deps IH]; intros g WF; cbv zeta; simpl.
  - split; [exact WF|]. split; [|split].
    + intros e. split; [intros H; left; exact H|].
      intros [H|(dep & a & [] & _)]. exact H.
    + intros v H. left. exact H.
    + intros v H. exact H.
  - destruct (IH (add_dependency step_map step_id g dep)
                (add_dependency_well_formed step_id g dep WF))
      as (WF' & Hedges & Hnodes & Hkeep).
    split; [exact WF'|]. split; [|split].
    + intros e. rewrite Hedges, add_dependency_edges. split.
      * intros [[H|(a & Ha & Hm & He)]|(dep' & a & Hd & Ha & Hm & He)].
        -- left. exact H.
        -- right. exists dep, a. repeat split; try assumption. left.
           reflexivity.
        -- right. exists dep', a. repeat split; try assumption. right.
           exact Hd.
      * intros [H|(dep' & a & [Heq|Hd] & Ha & Hm & He)].
        -- left. left. exact H.
        -- subst dep'. left. right. exists a. repeat split; assumption.
        -- right. exists dep', a. repeat split; assumption.
    + intros v H. apply Hnodes in H. destruct H as [H|[H|H]].
      * apply add_dependency_nodes in H. exact H.
      * right. left. exact H.
      * right. right. exact H.
    + intros v H. apply Hkeep. apply add_dependency_nodes_keep. exact H.
Qed.

(** The loop over the steps. *)
Lemma steps_loop (l : list RefactorStep) :
  forall g,
    well_formed g ->
    let g' := fold_left (add_step step_map) l g in
    well_formed g'
    /\ (forall e,
           In e (edges g')
           <-> In e (edges g)
               \/ exists B dep a,
                    In B l /\ In dep (dependencies B)
                    /\ In a (keys step_map)
                    /\ dep_matches dep a = true /\ e = (a, id B))
    /\ (forall v, In v (nodes g') ->
                  In v (nodes g) \/ (exists B, In B l /\ id B = v)
                  \/ In v (keys step_map))
    /\ (forall v, In v (nodes g) \/ (exists B, In B l /\ id B = v) ->
                  In v (nodes g')).
Proof.
  induction l as [|s l IH]; intros g WF; cbv zeta; simpl.
  - split; [exact WF|]. split; [|split].
    + intros e. split; [intros H; left; exact H|].
      intros [H|(B & dep & a & [] & _)]. exact H.
    + intros v H. left. exact H.
    + intros v [H|(B & [] & _)]. exact H.
  - destruct (dependencies_loop (id s) (dependencies s)
                (add_node g (id s)) (add_node_well_formed g (id s) WF))
      as (WF1 & Hedges1 & Hnodes1 & Hkeep1).
    fold (add_step step_map g s) in WF1, Hedges1, Hnodes1, Hkeep1.
    destruct (IH (add_step step_map g s) WF1)
      as (WF' & Hedges & Hnodes & Hkeep).
    split; [exact WF'|]. split; [|split].
    + intros e. rewrite Hedges, Hedges1, add_node_edges. split.
      * intros [[H|(dep & a & Hd & Ha & Hm & He)]
               |(B & dep & a & HB & Hd & Ha & Hm & He)].
        -- left. exact H.
        -- right. exists s, dep, a. repeat split; try assumption. left.
           reflexivity.
        -- right. exists B, dep, a. repeat split; try assumption. right.
           exact HB.
      * intros [H|(B & dep & a & [Heq|HB] & Hd & Ha & Hm & He)].
        -- left. left. exact H.
        -- subst B. left. right. exists dep, a. repeat split; assumption.
        -- right. exists B, dep, a. repeat split; assumption.
    + intros v H. apply Hnodes in H. destruct H as [H|[(B & HB & Hv)|H]].
      * apply Hnodes1 in H. destruct H as [H|[H|H]].
        -- apply add_node_nodes in H. destruct H as [H|H].
           ++ right. left. exists s. split; [left; reflexivity|congruence].
           ++ left. exact H.
        -- right. left. exists s. split; [left; reflexivity|congruence].
        -- right. right. exact H.
      * right. left. exists B. split; [right; exact HB|exact Hv].
      * right. right. exact H.
    + intros v H. apply Hkeep. destruct H as [H|(B & [Heq|HB] & Hv)].
      * left. apply Hkeep1. apply add_node_nodes. right. exact H.
      * subst B. left. apply Hkeep1. apply add_node_nodes. left. congruence.
      * right. exists B. split; assumption.
Qed.

End Graph.

Lemma dependency_graph_well_formed (steps : list RefactorStep) :
  well_formed (dependency_graph steps).
Proof.
  apply (steps_loop (step_map_of steps) steps empty empty_well_formed).
Qed.

Lemma dependency_graph_nodes (steps : list RefactorStep) (v : string) :
  In v (nodes (dependency_graph steps))
  <-> exists s, In s steps /\ id s = v.
Proof.
  destruct (steps_loop (step_map_of steps) steps empty empty_well_formed)
    as (_ & _ & Hnodes & Hkeep).
  fold (dependency_graph steps) in Hnodes, Hkeep. split.
  - intros H. apply Hnodes in H. destruct H as [[]|[H|H]]; [exact H|].
    apply step_map_of_keys. exact H.
  - intros H. apply Hkeep. right. exact H.
Qed.

Lemma dep_matches_depends (dep a : string) (A : RefactorStep) :
  id A = a ->
  dep_matches dep a = true
  <-> dep = id A
      \/ (endswith dep "*" = true /\ startswith (id A) (drop_last dep) = true).
Proof.
  intros Ha. subst a. unfold dep_matches.
  destruct (endswith dep "*") eqn:He.
  - split.
    + intros H. right. split; [reflexivity|exact H].
    + intros [H|[_ H]]; [|exact H].
      subst dep. unfold startswith. apply prefix_drop_last.
  - rewrite String.eqb_eq. split.
    + intros H. left. exact H.
    + intros [H|[H _]]; [exact H|discriminate].
Qed.

(** The edges of the graph that the code builds are the dependencies
    between the steps, literal and wildcard. *)
Lemma dependency_graph_edges (steps : list RefactorStep) (a b : string) :
  edge (dependency_graph steps) a b <-> step_edge steps a b.
Proof.
  destruct (steps_loop (step_map_of steps) steps empty empty_well_formed)
    as (_ & Hedges & _ & _).
  fold (dependency_graph steps) in Hedges.
  unfold edge, step_edge, depends_on. rewrite Hedges. simpl. split.
  - intros [[]|(B & dep & a' & HB & Hd & Ha & Hm & He)].
    inversion He; subst a' b.
    apply step_map_of_keys in Ha. destruct Ha as (A & HA & HidA).
    exists A, B. repeat split; try assumption.
    exists dep. split; [exact Hd|].
    apply (dep_matches_depends dep a A HidA). exact Hm.
  - intros (A & B & HA & HB & HidA & HidB & dep & Hd & Hm).
    right. exists B, dep, a. repeat split; try assumption.
    + apply step_map_of_keys. exists A. split; assumption.
    + apply (dep_matches_depends dep a A HidA). exact Hm.
    + congruence.
Qed.

Lemma clos_trans_equiv (R1 R2 : string -> string -> Prop) (a b : string) :
  (forall x y, R1 x y -> R2 x y) ->
  clos_trans string R1 a b -> clos_trans string R2 a b.
Proof.
  intros H. induction 1 as [x y Hxy|x y z _ IH1 _ IH2].
  - apply t_step. apply H. exact Hxy.
  - apply t_trans with y; assumption.
Qed.

Lemma cyclic_has_cycle (steps : list RefactorStep) :
  cyclic steps <-> has_cycle (dependency_graph steps).
Proof.
  unfold cyclic, has_cycle. split; intros [v Hv]; exists v.
  - apply (clos_trans_equiv (step_edge steps)); [|exact Hv].
    intros x y. apply dependency_graph_edges.
  - apply (clos_trans_equiv (edge (dependency_graph steps))); [|exact Hv].
    intros x y. apply dependency_graph_edges.
Qed.

(** A successful sort shows that the steps are not cyclic. *)
Lemma sorted_not_cyclic (steps : list RefactorStep) (l : list string) :
  topological_sort (dependency_graph steps) = Return l -> ~ cyclic steps.
Proof.
  intros Hs Hc. apply cyclic_has_cycle in Hc.
  rewrite (topological_sort_cyclic _ (dependency_graph_well_formed steps) Hc)
    in Hs.
  discriminate.
Qed.

(** *** The ordered steps *)

Lemma steps_of_ids_ids (steps : list RefactorStep) (l : list string) :
  (forall v, In v l -> exists s, In s steps /\ id s = v) ->
  map id (steps_of_ids (step_map_of steps) l) = l.
Proof.
  induction l as [|v l IH]; intros H; [reflexivity|].
  cbn [steps_of_ids flat_map].
  destruct (step_map_of_lookup steps v (H v (or_introl eq_refl)))
    as [s Hs].
  rewrite Hs. cbn [app map].
  destruct (step_map_of_get steps v s Hs) as [_ Hid]. rewrite Hid.
  f_equal. apply IH. intros w Hw. apply H. right. exact Hw.
Qed.

Lemma steps_of_ids_In (steps : list RefactorStep) (l : list string)
    (s : RefactorStep) :
  In s (steps_of_ids (step_map_of steps) l) -> In s steps.
Proof.
  unfold steps_of_ids. intros H. apply in_flat_map in H.
  destruct H as (v & _ & Hs).
  destruct (get (step_map_of steps) v) as [s'|] eqn:Hg; [|destruct Hs].
  destruct Hs as [<-|[]]. apply (step_map_of_get steps v s' Hg).
Qed.

Lemma NoDup_map_injective {A B : Type} (f : A -> B) (l : list A)
    (x y : A) :
  NoDup (map f l) -> In x l -> In y l -> f x = f y -> x = y.
Proof.
  induction l as [|a l IH]; intros Hnd Hx Hy Hf; [destruct Hx|].
  simpl in Hnd. inversion Hnd as [|b l' Hnotin Hnd']; subst.
  destruct Hx as [Hx|Hx], Hy as [Hy|Hy].
  - congruence.
  - subst a. exfalso. apply Hnotin. rewrite Hf. apply in_map. exact Hy.
  - subst a. exfalso. apply Hnotin. rewrite <- Hf. apply in_map. exact Hx.
  - apply IH; assumption.
Qed.

Lemma steps_of_ids_all (steps : list RefactorStep) :
  NoDup (map id steps) ->
  forall l, incl l steps -> steps_of_ids (step_map_of steps) (map id l) = l.
Proof.
  intros Hnd. induction l as [|s l IH]; intros Hincl; [reflexivity|].
  cbn [map steps_of_ids flat_map].
  assert (Hs : In s steps) by (apply Hincl; left; reflexivity).
  destruct (step_map_of_lookup steps (id s)
              (ex_intro _ s (conj Hs eq_refl))) as [s' Hs'].
  rewrite Hs'.
  destruct (step_map_of_get steps (id s) s' Hs') as [Hin Hid].
  rewrite (NoDup_map_injective id steps s' s Hnd Hin Hs Hid).
  cbn [app]. f_equal. apply IH.
  intros x Hx. apply Hincl. right. exact Hx.
Qed.

Lemma before_map_inv {A B : Type} (f : A -> B) (l : list A) (x y : B) :
  before (map f l) x y ->
  exists a b, before l a b /\ f a = x /\ f b = y.
Proof.
  intros (i & j & Hij & Hi & Hj).
  rewrite nth_error_map in Hi, Hj.
  destruct (nth_error l i) as [a|] eqn:Ha; [|discriminate].
  destruct (nth_error l j) as [b|] eqn:Hb; [|discriminate].
  simpl in Hi, Hj. inversion Hi. inversion Hj.
  exists a, b. split; [|split; reflexivity].
  exists i, j. repeat split; assumption.
Qed.

(** What [_order_by_dependencies] does with the two outcomes of the
    sort. *)
Lemma order_when_cyclic (steps : list RefactorStep) :
  cyclic steps ->
  _order_by_dependencies steps = mkOutcome (Return steps) [].
Proof.
  intros Hc. apply cyclic_has_cycle in Hc. unfold _order_by_dependencies.
  rewrite (topological_sort_cyclic _ (dependency_graph_well_formed steps) Hc).
  reflexivity.
Qed.

Lemma order_when_acyclic (steps : list RefactorStep) :
  ~ cyclic steps ->
  exists l,
    topological_order (dependency_graph steps) l
    /\ _order_by_dependencies steps
       = mkOutcome (Return (steps_of_ids (step_map_of steps) l)) [].
Proof.
  intros Hc. rewrite cyclic_has_cycle in Hc.
  destruct (topological_sort_acyclic _ (dependency_graph_well_formed steps)
              Hc) as (l & Hs & Hord).
  exists l. split; [exact Hord|].
  unfold _order_by_dependencies. rewrite Hs. reflexivity.
Qed.

(** ** C5 *)

(** C5.  When the step-dependency graph is acyclic, the dependency
    ordering of createPlan returns a sequence that respects every literal
    and every wildcard dependency: for any step B that depends on a step
    A, the id of A stands before the id of B in the returned sequence, and
    A itself stands before B when the ids of A and of B are unique among
    the steps, as the data model requires; with unique ids the returned
    sequence is a permutation of the steps. *)
Theorem acyclic_steps_are_ordered_by_dependencies
    (steps : list RefactorStep) :
  ~ cyclic steps ->
  exists ordered,
    _order_by_dependencies steps = mkOutcome (Return ordered) []
    /\ (forall A B,
           In A steps -> In B steps -> depends_on B A ->
           before (map id ordered) (id A) (id B))
    /\ (forall A B,
           In A steps -> In B steps -> depends_on B A ->
           (forall S, In S steps -> id S = id A -> S = A) ->
           (forall S, In S steps -> id S = id B -> S = B) ->
           exists l1 l2 l3, ordered = l1 ++ A :: l2 ++ B :: l3)
    /\ (NoDup (map id steps) -> Permutation steps ordered).
Proof.
  intros Hc.
  destruct (order_when_acyclic steps Hc) as (l & (Hnd & Hnodes & Hord) & Hrun).
  exists (steps_of_ids (step_map_of steps) l).
  assert (Hids : map id (steps_of_ids (step_map_of steps) l) = l).
  { apply steps_of_ids_ids. intros v Hv.
    apply dependency_graph_nodes. apply Hnodes. exact Hv. }
  assert (Hbefore : forall A B,
             In A steps -> In B steps -> depends_on B A ->
             before l (id A) (id B)).
  { intros A B HA HB Hdep. apply Hord. apply dependency_graph_edges.
    exists A, B. repeat split; assumption. }
  split; [exact Hrun|]. split; [|split].
  - intros A B HA HB Hdep. rewrite Hids. apply Hbefore; assumption.
  - intros A B HA HB Hdep HuA HuB.
    pose proof (Hbefore A B HA HB Hdep) as Hb. rewrite <- Hids in Hb.
    apply before_map_inv in Hb. destruct Hb as (A' & B' & Hb & HA' & HB').
    assert (HinA : In A' steps).
    { destruct Hb as (i & j & _ & Hi & _).
      apply (steps_of_ids_In steps l). apply (nth_error_In _ _ Hi). }
    assert (HinB : In B' steps).
    { destruct Hb as (i & j & _ & _ & Hj).
      apply (steps_of_ids_In steps l). apply (nth_error_In _ _ Hj). }
    rewrite (HuA A' HinA HA'), (HuB B' HinB HB') in Hb.
    apply before_split. exact Hb.
  - intros Hunique.
    rewrite <- (steps_of_ids_all steps Hunique steps (incl_refl steps)) at 1.
    unfold steps_of_ids. apply Permutation_flat_map.
    apply NoDup_Permutation; [exact Hunique|exact Hnd|].
    intros v. rewrite Hnodes, dependency_graph_nodes, in_map_iff.
    split; intros (s & H1 & H2); exists s; split; assumption.
Qed.



(** The same at the entry point: when the steps that createPlan
    generated and prioritized have an acyclic dependency graph, the plan is
    returned and its steps respect every dependency between them. *)
Lemma create_plan_respects_dependencies
    (repr_list : list string -> string) (format_float : nat -> Q -> string)
    (new_uuid now : string)
    (all_simple_paths : DiGraph -> string -> string -> list (list string))
    (analysis : Analyzer.ArchitectureAnalysis) (target : string)
    (safety : SafetyLevel) (priorities : option (list string)) :
  let generated :=
    presorted_steps repr_list analysis target safety priorities in
  ~ cyclic generated ->
  exists plan,
    returned
      (create_refactoring_plan repr_list format_float new_uuid now
         all_simple_paths analysis target safety priorities)
    = Return plan
    /\ forall A B,
         In A generated -> In B generated -> depends_on B A ->
         before (map id (steps plan)) (id A) (id B).
Proof.
  cbv zeta. intros Hc.
  destruct (order_when_acyclic _ Hc) as (l & (Hnd & Hnodes & Hord) & Hrun).
  unfold create_refactoring_plan. rewrite Hrun. cbn [returned emitted].
  eexists. split; [reflexivity|]. cbn [steps].
  intros A B HA HB Hdep.
  rewrite steps_of_ids_ids.
  - apply Hord. apply dependency_graph_edges.
    exists A, B. repeat split; assumption.
  - intros v Hv. apply dependency_graph_nodes. apply Hnodes. exact Hv.
Qed.

(** *** The generated steps are never cyclic *)

Lemma staged_not_cyclic (steps : list RefactorStep) (stage : string -> nat) :
  (forall A B,
      In A steps -> In B steps -> depends_on B A ->
      (stage (id A) < stage (id B))%nat) ->
  ~ cyclic steps.
Proof.
  intros Hstage [v Hv].
  assert (Hlt : forall a b, clos_trans string (step_edge steps) a b ->
                            (stage a < stage b)%nat).
  { intros a b H. induction H as [a b H|a b c _ IH1 _ IH2]; [|lia].
    destruct H as (A & B & HA & HB & <- & <- & Hdep).
    apply Hstage; assumption. }
  specialize (Hlt v v Hv). lia.
Qed.

Lemma cyclic_members (l1 l2 : list RefactorStep) :
  (forall s, In s l1 -> In s l2) -> cyclic l1 -> cyclic l2.
Proof.
  intros Hincl [v Hv]. exists v.
  apply (clos_trans_equiv (step_edge l1)); [|exact Hv].
  intros a b (A & B & HA & HB & Ha & Hb & Hdep).
  exists A, B. repeat split; auto.
Qed.

Lemma insert_asc_In {A : Type} (key : A -> Z) (x y : A) (l : list A) :
  In y (insert_asc key x l) -> y = x \/ In y l.
Proof.
  induction l as [|z l IH]; simpl.
  - intros [H|[]]. left. congruence.
  - destruct (key x <? key z)%Z; simpl.
    + intros [H|H]; [left; congruence|right; exact H].
    + intros [H|H]; [right; left; exact H|].
      destruct (IH H) as [H'|H']; [left; exact H'|right; right; exact H'].
Qed.

Lemma sorted_In {A : Type} (key : A -> Z) (l : list A) (y : A) :
  In y (sorted key l) -> In y l.
Proof.
  unfold sorted.
  assert (Hgen : forall acc,
             In y (fold_left (fun acc x => insert_asc key x acc) l acc) ->
             In y acc \/ In y l).
  { induction l as [|x l IH]; intros acc H; simpl in H.
    - left. exact H.
    - destruct (IH _ H) as [H'|H'].
      + apply insert_asc_In in H'. destruct H' as [H'|H'].
        * right. left. congruence.
        * left. exact H'.
      + right. right. exact H'. }
  intros H. destruct (Hgen [] H) as [[]|H']. exact H'.
Qed.

Lemma no_dependencies (A B : RefactorStep) :
  dependencies B = [] -> ~ depends_on B A.
Proof.
  intros He (dep & Hd & _). rewrite He in Hd. destruct Hd.
Qed.

Ltac without_dependencies H :=
  eapply no_dependencies; [|exact H]; reflexivity.

Lemma ddd_staged (analysis : Analyzer.ArchitectureAnalysis)
    (safety : SafetyLevel) (A B : RefactorStep) :
  In B (_plan_ddd_migration analysis safety) -> depends_on B A ->
  (stage_ddd (id A) < stage_ddd (id B))%nat.
Proof.
  unfold _plan_ddd_migration. intros HB Hdep.
  apply in_app_or in HB. destruct HB as [HB|HB].
  - exfalso. apply in_flat_map in HB. destruct HB as (entry & _ & HB).
    destruct (10 <? _)%nat; [|destruct HB].
    destruct HB as [<-|[]]. without_dependencies Hdep.
  - destruct HB as [<-|[<-|[<-|[]]]];
      destruct Hdep as (dep & [<-|[]] & [Hid|[He Hp]]);
      cbn [id dependencies] in *;
      try (rewrite <- Hid; vm_compute; lia);
      try (vm_compute in He; discriminate).
    change (drop_last "extract-context-*") with "extract-context-" in Hp.
    unfold stage_ddd at 1.
    destruct (String.eqb_spec (id A) "create-domain-events") as [E|_];
      [rewrite E in Hp; vm_compute in Hp; discriminate|].
    destruct (String.eqb_spec (id A) "implement-repositories") as [E|_];
      [rewrite E in Hp; vm_compute in Hp; discriminate|].
    destruct (String.eqb_spec (id A) "implement-aggregates") as [E|_];
      [rewrite E in Hp; vm_compute in Hp; discriminate|].
    vm_compute. lia.
Qed.

Lemma event_driven_staged (analysis : Analyzer.ArchitectureAnalysis)
    (safety : SafetyLevel) (A B : RefactorStep) :
  In B (_plan_event_driven_migration analysis safety) -> depends_on B A ->
  (stage_event_driven (id A) < stage_event_driven (id B))%nat.
Proof.
  unfold _plan_event_driven_migration. intros HB Hdep.
  apply in_app_or in HB. destruct HB as [HB|HB].
  - exfalso. destruct HB as [<-|[]].
    without_dependencies Hdep.
  - apply in_app_or in HB. destruct HB as [HB|HB].
    + apply in_flat_map in HB. destruct HB as (dep0 & _ & HB).
      destruct (_ && _); [|destruct HB].
      destruct HB as [<-|[]].
      destruct Hdep as (dep & [<-|[]] & [Hid|[He Hp]]);
        cbn [id dependencies] in *.
      * rewrite <- Hid. vm_compute. lia.
      * vm_compute in He. discriminate.
    + destruct (negb (is_low safety)); [|destruct HB].
      destruct HB as [<-|[]].
      destruct Hdep as (dep & [<-|[]] & [Hid|[He Hp]]);
        cbn [id dependencies] in *.
      * rewrite <- Hid. vm_compute. lia.
      * change (drop_last "async-*") with "async-" in Hp.
        unfold stage_event_driven at 1.
        destruct (String.eqb_spec (id A) "implement-event-sourcing")
          as [E|_];
          [rewrite E in Hp; vm_compute in Hp; discriminate|].
        destruct (String.eqb (id A) "setup-message-broker");
          vm_compute; lia.
Qed.

Lemma microservices_staged (repr_list : list string -> string)
    (analysis : Analyzer.ArchitectureAnalysis)
    (safety : SafetyLevel) (A B : RefactorStep) :
  In B (_plan_microservices_migration repr_list analysis safety) ->
  depends_on B A ->
  (stage_microservices (id A) < stage_microservices (id B))%nat.
Proof.
  unfold _plan_microservices_migration. intros HB Hdep.
  apply in_app_or in HB. destruct HB as [HB|HB].
  - exfalso. apply in_map_iff in HB. destruct HB as (group & <- & _).
    without_dependencies Hdep.
  - apply in_app_or in HB. destruct HB as [HB|HB].
    + exfalso. apply in_flat_map in HB. destruct HB as (entry & _ & HB).
      destruct (nonempty _); [|destruct HB].
      destruct HB as [<-|[]]. without_dependencies Hdep.
    + destruct (is_high safety); [|destruct HB].
      destruct HB as [<-|[]].
      destruct Hdep as (dep & [<-|[]] & [Hid|[He Hp]]);
        cbn [id dependencies] in *.
      * rewrite <- Hid. vm_compute. lia.
      * change (drop_last "api-versioning-*") with "api-versioning-" in Hp.
        unfold stage_microservices at 1.
        destruct (String.eqb_spec (id A) "setup-service-mesh") as [E|_];
          [rewrite E in Hp; vm_compute in Hp; discriminate|].
        vm_compute. lia.
Qed.

Lemma generic_no_dependencies (analysis : Analyzer.ArchitectureAnalysis)
    (safety : SafetyLevel) (B : RefactorStep) :
  In B (_plan_generic_improvements analysis safety) -> dependencies B = [].
Proof.
  unfold _plan_generic_improvements. intros HB.
  apply in_app_or in HB. destruct HB as [HB|HB].
  - apply in_map_iff in HB. destruct HB as (smell & <- & _). reflexivity.
  - apply in_app_or in HB. destruct HB as [HB|HB].
    + apply in_map_iff in HB. destruct HB as (smell & <- & _). reflexivity.
    + destruct (existsb _ _); [|destruct HB].
      destruct HB as [<-|[]]. reflexivity.
Qed.

(** Whatever the analysis, the target, the safety level and the
    priorities, the steps that [create_refactoring_plan] hands to the
    dependency ordering have no dependency cycle. *)
Lemma generated_steps_not_cyclic (repr_list : list string -> string)
    (analysis : Analyzer.ArchitectureAnalysis) (target : string)
    (safety : SafetyLevel) (priorities : option (list string)) :
  ~ cyclic (presorted_steps repr_list analysis target safety priorities).
Proof.
  intros Hc.
  assert (Hgen : cyclic (generated_steps repr_list analysis target safety)).
  { apply (cyclic_members _ _ ) with (2 := Hc).
    unfold presorted_steps. intros s Hs.
    destruct priorities as [[|p ps]|]; try exact Hs.
    apply (sorted_In _ _ _ Hs). }
  clear Hc. revert Hgen. unfold generated_steps.
  destruct (String.eqb target "domain-driven").
  { apply (staged_not_cyclic _ stage_ddd).
    intros A B _ HB Hdep. apply (ddd_staged analysis safety A B HB Hdep). }
  destruct (String.eqb target "event-driven").
  { apply (staged_not_cyclic _ stage_event_driven).
    intros A B _ HB Hdep.
    apply (event_driven_staged analysis safety A B HB Hdep). }
  destruct (String.eqb target "microservices").
  { apply (staged_not_cyclic _ stage_microservices).
    intros A B _ HB Hdep.
    apply (microservices_staged repr_list analysis safety A B HB Hdep). }
  apply (staged_not_cyclic _ (fun _ => 0%nat)).
  intros A B _ HB Hdep. exfalso.
  apply (no_dependencies A B (generic_no_dependencies analysis safety B HB)
           Hdep).
Qed.

(** Hence createPlan always returns a plan, and the steps of the plan
    respect every literal and wildcard dependency between the generated
    steps. *)
Lemma create_plan_always_ordered
    (repr_list : list string -> string) (format_float : nat -> Q -> string)
    (new_uuid now : string)
    (all_simple_paths : DiGraph -> string -> string -> list (list string))
    (analysis : Analyzer.ArchitectureAnalysis) (target : string)
    (safety : SafetyLevel) (priorities : option (list string)) :
  exists plan,
    returned
      (create_refactoring_plan repr_list format_float new_uuid now
         all_simple_paths analysis target safety priorities)
    = Return plan
    /\ forall A B,
         In A (presorted_steps repr_list analysis target safety priorities) ->
         In B (presorted_steps repr_list analysis target safety priorities) ->
         depends_on B A ->
         before (map id (steps plan)) (id A) (id B).
Proof.
  apply create_plan_respects_dependencies.
  apply generated_steps_not_cyclic.
Qed.

(** ** C4 *)


(** *** Concrete runs *)

Lemma cyclic_steps_cyclic : cyclic cyclic_steps.
Proof.
  exists "a". apply t_trans with "b"; apply t_step.
  - exists (plain_step "a" ["b"]), (plain_step "b" ["a"]).
    repeat split; try reflexivity.
    + left. reflexivity.
    + right. left. reflexivity.
    + exists "a". split; [left; reflexivity|left; reflexivity].
  - exists (plain_step "b" ["a"]), (plain_step "a" ["b"]).
    repeat split; try reflexivity.
    + right. left. reflexivity.
    + left. reflexivity.
    + exists "b". split; [left; reflexivity|left; reflexivity].
Qed.

(** [_order_by_dependencies] called on its own with the two steps [a]
    and [b], which depend on each other: the steps come back as given. *)
Example cyclic_steps_come_back_unchanged :
  cyclic cyclic_steps
  /\ _order_by_dependencies cyclic_steps = mkOutcome (Return cyclic_steps) [].
Proof.
  split; [exact cyclic_steps_cyclic|].
  apply order_when_cyclic. exact cyclic_steps_cyclic.
Qed.

Lemma chain_steps_acyclic : ~ cyclic chain_steps.
Proof.
  apply (sorted_not_cyclic chain_steps ["setup"; "build-api"; "deploy"]).
  vm_compute. reflexivity.
Qed.

Lemma acyclic_steps_are_ordered_by_dependencies_witness :
  ~ cyclic chain_steps
  /\ exists ordered,
       _order_by_dependencies chain_steps = mkOutcome (Return ordered) []
       /\ (forall A B,
              In A chain_steps -> In B chain_steps -> depends_on B A ->
              before (map id ordered) (id A) (id B))
       /\ (forall A B,
              In A chain_steps -> In B chain_steps -> depends_on B A ->
              (forall S, In S chain_steps -> id S = id A -> S = A) ->
              (forall S, In S chain_steps -> id S = id B -> S = B) ->
              exists l1 l2 l3, ordered = l1 ++ A :: l2 ++ B :: l3)
       /\ (NoDup (map id chain_steps) -> Permutation chain_steps ordered).
Proof.
  split.
  - exact chain_steps_acyclic.
  - apply (acyclic_steps_are_ordered_by_dependencies chain_steps).
    exact chain_steps_acyclic.
Defined.

(** The chain given as deploy, build-api, setup comes back as setup,
    build-api, deploy: the wildcard of deploy and the literal dependency
    of build-api are both respected. *)
Example chain_steps_ordered :
  option_map (map id)
    match returned (_order_by_dependencies chain_steps) with
    | Return ordered => Some ordered
    | Raise _ => None
    end
  = Some ["setup"; "build-api"; "deploy"].
Proof. vm_compute. reflexivity. Qed.

End PlannerFacts.

(** ** The classifier's rules, deduplication and report *)

Module RegressionProperties.
Import Py Regression Report PyFacts NxFacts RegressionFacts.

Lemma Sublist_In {A : Type} (l1 l2 : list A) (x : A) :
  Sublist l1 l2 -> In x l1 -> In x l2.
Proof.
  induction 1 as [|y l1 l2 _ IH|y l1 l2 _ IH]; simpl; intros Hx.
  - exact Hx.
  - destruct Hx as [Hx|Hx]; [left; exact Hx|right; apply IH; exact Hx].
  - right. apply IH. exact Hx.
Qed.

Lemma flat_map_nil_on {A B : Type} (f : A -> list B) (l : list A) :
  (forall x, In x l -> f x = []) -> flat_map f l = [].
Proof.
  induction l as [|a l IH]; intros H; [reflexivity|].
  cbn [flat_map]. rewrite (H a (or_introl eq_refl)). cbn [app].
  apply IH. intros x Hx. apply H. right. exact Hx.
Qed.

(** *** Deduplication *)

Lemma key_in_true (k : string * string * list string)
    (seen : list (string * string * list string)) :
  key_in k seen = true <-> In k seen.
Proof.
  unfold key_in. rewrite existsb_exists. split.
  - intros (k' & Hin & Hk). destruct (key_eq_dec k k'); [|discriminate].
    subst. exact Hin.
  - intros Hin. exists k. split; [exact Hin|].
    destruct (key_eq_dec k k); [reflexivity|congruence].
Qed.

Lemma key_in_false (k : string * string * list string)
    (seen : list (string * string * list string)) :
  key_in k seen = false <-> ~ In k seen.
Proof.
  rewrite <- key_in_true. destruct (key_in k seen); split; intros;
    congruence.
Qed.

(** The accumulator of the loop is a prefix of its result. *)
Lemma dedup_loop_acc (risks : list RegressionRisk) :
  forall seen unique_risks,
    dedup_loop risks seen unique_risks
    = unique_risks ++ dedup_loop risks seen [].
Proof.
  induction risks as [|r rest IH]; intros seen unique_risks.
  - simpl. rewrite app_nil_r. reflexivity.
  - cbn [dedup_loop]. destruct (negb (key_in (risk_key r) seen)).
    + rewrite (IH _ (unique_risks ++ [r])), (IH _ ([] ++ [r])).
      rewrite <- app_assoc. reflexivity.
    + apply IH.
Qed.

Lemma dedup_loop_fresh (risks : list RegressionRisk) :
  forall seen r,
    In r (dedup_loop risks seen []) ->
    In r risks /\ ~ In (risk_key r) seen.
Proof.
  induction risks as [|r0 rest IH]; intros seen r Hr; [destruct Hr|].
  cbn [dedup_loop] in Hr.
  destruct (key_in (risk_key r0) seen) eqn:Hseen; cbn [negb] in Hr.
  - destruct (IH _ _ Hr) as [Hin Hk]. split; [right; exact Hin|exact Hk].
  - rewrite dedup_loop_acc in Hr. destruct Hr as [Hr|Hr].
    + subst r0. split; [left; reflexivity|].
      apply key_in_false. exact Hseen.
    + destruct (IH _ _ Hr) as [Hin Hk]. split; [right; exact Hin|].
      intros Hk'. apply Hk. right. exact Hk'.
Qed.

Lemma dedup_loop_NoDup (risks : list RegressionRisk) :
  forall seen, NoDup (map risk_key (dedup_loop risks seen [])).
Proof.
  induction risks as [|r rest IH]; intros seen; [constructor|].
  cbn [dedup_loop].
  destruct (key_in (risk_key r) seen) eqn:Hseen; cbn [negb].
  - apply IH.
  - rewrite dedup_loop_acc. cbn [app map]. constructor; [|apply IH].
    intros Hin. apply in_map_iff in Hin. destruct Hin as (r' & Hk & Hr').
    apply dedup_loop_fresh in Hr'. destruct Hr' as [_ Hfresh].
    apply Hfresh. left. symmetry. exact Hk.
Qed.

Lemma dedup_loop_covers (risks : list RegressionRisk) :
  forall seen r,
    In r risks ->
    In (risk_key r) seen
    \/ In (risk_key r) (map risk_key (dedup_loop risks seen [])).
Proof.
  induction risks as [|r0 rest IH]; intros seen r Hr; [destruct Hr|].
  cbn [dedup_loop].
  destruct (key_in (risk_key r0) seen) eqn:Hseen; cbn [negb].
  - destruct Hr as [Hr|Hr].
    + subst r0. left. apply key_in_true. exact Hseen.
    + apply IH. exact Hr.
  - rewrite dedup_loop_acc. cbn [app map]. destruct Hr as [Hr|Hr].
    + subst r0. right. left. reflexivity.
    + destruct (IH (risk_key r0 :: seen) r Hr) as [[Hk|Hk]|Hk].
      * right. left. exact Hk.
      * left. exact Hk.
      * right. right. exact Hk.
Qed.

Lemma dedup_loop_unique (risks : list RegressionRisk) :
  forall seen,
    NoDup (map risk_key risks) ->
    (forall r, In r risks -> ~ In (risk_key r) seen) ->
    dedup_loop risks seen [] = risks.
Proof.
  induction risks as [|r rest IH]; intros seen Hnd Hfresh; [reflexivity|].
  cbn [dedup_loop]. cbn [map] in Hnd.
  inversion Hnd as [|k ks Hnotin Hnd']; subst.
  rewrite (proj2 (key_in_false _ _) (Hfresh r (or_introl eq_refl))).
  cbn [negb]. rewrite dedup_loop_acc. cbn [app]. f_equal.
  apply IH; [exact Hnd'|].
  intros r' Hr' [Hk|Hk].
  - apply Hnotin. rewrite Hk. apply in_map. exact Hr'.
  - apply (Hfresh r' (or_intror Hr') Hk).
Qed.

(** X1.  [_deduplicate_risks] leaves one risk per key: the keys of its result
    are pairwise different, every key of the input is still there, a list
    whose keys already differ comes back unchanged, and deduplicating
    twice is deduplicating once. *)
Theorem deduplicate_risks_keeps_one_per_key (risks : list RegressionRisk) :
  NoDup (map risk_key (_deduplicate_risks risks))
  /\ (forall r, In r risks ->
        In (risk_key r) (map risk_key (_deduplicate_risks risks)))
  /\ (NoDup (map risk_key risks) -> _deduplicate_risks risks = risks)
  /\ _deduplicate_risks (_deduplicate_risks risks) = _deduplicate_risks risks.
Proof.
  unfold _deduplicate_risks.
  assert (Hnd : NoDup (map risk_key (dedup_loop risks [] [])))
    by apply dedup_loop_NoDup.
  assert (Hid : forall l, NoDup (map risk_key l) -> dedup_loop l [] [] = l).
  { intros l Hl. apply dedup_loop_unique; [exact Hl|].
    intros r _ []. }
  split; [exact Hnd|]. split; [|split].
  - intros r Hr. destruct (dedup_loop_covers risks [] r Hr) as [[]|H].
    exact H.
  - apply Hid.
  - apply Hid. exact Hnd.
Qed.

(** *** The emitted risks are classified *)

Ltac classified_now :=
  unfold classified, severity_levels, risk_types; simpl; tauto.

Lemma behavior_changes_classified (removed added : list string)
    (path : string) (r : RegressionRisk) :
  In r (_check_behavior_changes removed added path) -> classified r.
Proof.
  unfold _check_behavior_changes. intros Hr. risk_cases Hr; classified_now.
Qed.

Lemma performance_impacts_classified (removed added : list string)
    (path : string) (r : RegressionRisk) :
  In r (_check_performance_impacts removed added path) -> classified r.
Proof.
  unfold _check_performance_impacts. intros Hr.
  risk_cases Hr; classified_now.
Qed.

Lemma classified_priority (r : RegressionRisk) :
  classified r -> (11 <= _risk_priority r <= 44)%Z.
Proof.
  intros [Hs Ht]. unfold _risk_priority.
  unfold severity_levels in Hs. unfold risk_types in Ht. simpl in Hs, Ht.
  destruct Hs as [Hs|[Hs|[Hs|[Hs|[]]]]]; rewrite <- Hs;
    destruct Ht as [Ht|[Ht|[Ht|[Ht|[]]]]]; rewrite <- Ht;
    vm_compute; split; discriminate.
Qed.

Section RulesProperties.
Variable re_search : regex -> string -> option (list string).
Variable set_iter : list string -> list string.

Local Abbreviation analyze_changes := (analyze_changes re_search set_iter).
Local Abbreviation discovered := (discovered re_search set_iter).
Local Abbreviation analyze_change := (analyze_change re_search set_iter).
Local Abbreviation _analyze_modification :=
  (_analyze_modification re_search set_iter).
Local Abbreviation _check_api_changes := (_check_api_changes re_search set_iter).
Local Abbreviation _check_security_impacts :=
  (_check_security_impacts re_search).
Local Abbreviation _analyze_cross_file_impacts :=
  (_analyze_cross_file_impacts set_iter).

Lemma api_changes_classified (self : RegressionDetector)
    (removed added : list string) (path : string) (r : RegressionRisk) :
  In r (_check_api_changes self removed added path) -> classified r.
Proof.
  unfold Regression._check_api_changes. intros Hr.
  apply in_app_or in Hr. destruct Hr as [Hr|Hr].
  - apply in_flat_map in Hr. destruct Hr as [entry [_ Hr]].
    destruct (map strip (filter (matches re_search (snd entry)) removed));
      [contradiction|].
    destruct (negb (nonempty (filter (matches re_search (snd entry)) added)));
      destruct Hr as [<-|[]]; classified_now.
  - apply in_map_iff in Hr. destruct Hr as [pc [<- _]].
    destruct (nonempty (Regression.removed pc)); classified_now.
Qed.

Lemma security_impacts_classified (removed added : list string)
    (path : string) (r : RegressionRisk) :
  In r (_check_security_impacts removed added path) -> classified r.
Proof.
  unfold Regression._check_security_impacts. intros Hr.
  risk_cases Hr; classified_now.
Qed.

Lemma analyze_change_classified (self : RegressionDetector)
    (context : Context) (change : CodeChange) (r : RegressionRisk) :
  In r (analyze_change self context change) -> classified r.
Proof.
  unfold Regression.analyze_change. intros Hr.
  destruct (mem (change_type change) ["modify"; "delete"]).
  - unfold Regression._analyze_modification in Hr.
    apply in_app_or in Hr. destruct Hr as [Hr|Hr];
      [apply (api_changes_classified _ _ _ _ _ Hr)|].
    apply in_app_or in Hr. destruct Hr as [Hr|Hr];
      [apply (behavior_changes_classified _ _ _ _ Hr)|].
    apply in_app_or in Hr. destruct Hr as [Hr|Hr];
      [apply (performance_impacts_classified _ _ _ _ Hr)|].
    apply (security_impacts_classified _ _ _ _ Hr).
  - destruct (String.eqb (change_type change) "add").
    + unfold _analyze_addition in Hr.
      destruct (contains (diff change) "import"
                || contains (diff change) "require"); [|destruct Hr].
      destruct Hr as [<-|[]]. classified_now.
    + destruct (String.eqb (change_type change) "rename"); [|destruct Hr].
      destruct Hr as [<-|[]]. classified_now.
Qed.

Lemma discovered_classified (self : RegressionDetector)
    (changes : list CodeChange) (context : Context) (r : RegressionRisk) :
  In r (discovered self changes context) -> classified r.
Proof.
  unfold Regression.discovered. intros Hr.
  apply in_app_or in Hr. destruct Hr as [Hr|Hr].
  - apply in_flat_map in Hr. destruct Hr as (change & _ & Hr).
    apply (analyze_change_classified _ _ _ _ Hr).
  - unfold Regression._analyze_cross_file_impacts in Hr.
    risk_cases Hr; classified_now.
Qed.

Lemma analyze_changes_discovered (self : RegressionDetector)
    (changes : list CodeChange) (context : Context) (r : RegressionRisk) :
  In r (analyze_changes self changes context) ->
  In r (discovered self changes context).
Proof.
  unfold Regression.analyze_changes. intros Hr.
  apply (Sublist_In _ _ r (deduplicate_sublist _)).
  apply (Permutation_in r
           (Permutation_sym (sorted_reverse_perm _risk_priority _))).
  exact Hr.
Qed.

(** X2.  Every risk that [analyze_changes] returns has one of the four
    severities and one of the four types of the weight tables of
    [_risk_priority]: no lookup falls back on the default 0, and the
    priority of a returned risk lies between 11 and 44. *)
Theorem analyze_changes_risks_are_classified
    (self : RegressionDetector) (changes : list CodeChange)
    (context : Context) :
  Forall
    (fun r =>
       In (severity r) ["critical"; "high"; "medium"; "low"]
       /\ In (type r)
            ["security"; "api_change"; "behavior_change"; "performance"]
       /\ (11 <= _risk_priority r <= 44)%Z)
    (analyze_changes self changes context).
Proof.
  apply Forall_forall. intros r Hr.
  apply analyze_changes_discovered in Hr.
  apply discovered_classified in Hr.
  destruct Hr as [Hs Ht]. split; [exact Hs|]. split; [exact Ht|].
  apply classified_priority. split; assumption.
Qed.

(** *** Changes that report nothing *)

(** X3.  A change whose kind is none of modify, delete, add and rename is
    skipped: when no change of the list has one of these kinds and the
    list holds at most ten changes, [analyze_changes] returns no risk. *)
Theorem unknown_change_types_are_ignored
    (self : RegressionDetector) (changes : list CodeChange)
    (context : Context) :
  (forall c, In c changes ->
     mem (change_type c) ["modify"; "delete"; "add"; "rename"] = false) ->
  (List.length changes <= 10)%nat ->
  analyze_changes self changes context = [].
Proof.
  intros Hkinds Hlen.
  assert (Hnone : discovered self changes context = []).
  { unfold Regression.discovered.
    assert (H1 : flat_map (analyze_change self context) changes = []).
    { apply flat_map_nil_on. intros c Hc.
      specialize (Hkinds c Hc). unfold Regression.analyze_change.
      unfold mem in *. cbn [existsb] in *.
      apply orb_false_iff in Hkinds. destruct Hkinds as [Hm Hkinds].
      apply orb_false_iff in Hkinds. destruct Hkinds as [Hd Hkinds].
      apply orb_false_iff in Hkinds. destruct Hkinds as [Ha Hkinds].
      apply orb_false_iff in Hkinds. destruct Hkinds as [Hr _].
      rewrite Hm, Hd, Ha, Hr. reflexivity. }
    rewrite H1. cbn [app].
    unfold Regression._analyze_cross_file_impacts.
    assert (H2 : filter
              (fun change =>
                 String.eqb (change_type change) "modify"
                 && existsb (fun keyword => contains (diff change) keyword)
                      ["class "; "interface "; "trait "])
              changes = []).
    { clear H1 Hlen. induction changes as [|c l IH]; [reflexivity|].
      cbn [filter].
      pose proof (Hkinds c (or_introl eq_refl)) as Hc.
      unfold mem in Hc. cbn [existsb] in Hc.
      apply orb_false_iff in Hc. destruct Hc as [Hm _].
      rewrite Hm. cbn [andb]. apply IH.
      intros c' Hc'. apply Hkinds. right. exact Hc'. }
    rewrite H2. cbn [map nodup List.length].
    replace (10 <? List.length changes)%nat with false
      by (symmetry; apply Nat.ltb_ge; lia).
    reflexivity. }
  unfold Regression.analyze_changes. rewrite Hnone. reflexivity.
Qed.

(** X4.  A change that adds no line is never charged with a performance
    risk, an injection risk or a hardcoded secret: of the security rules
    only the one about removed authorization checks can fire. *)
Theorem pure_removal_has_no_added_line_risk
    (self : RegressionDetector) (context : Context) (change : CodeChange) :
  mem (change_type change) ["modify"; "delete"] = true ->
  added_lines_of (diff change) = [] ->
  Forall
    (fun r =>
       type r <> "performance"
       /\ (type r = "security" ->
           description r = "Authentication/authorization checks removed"))
    (analyze_change self context change).
Proof.
  intros Hkind Hadded. apply Forall_forall. intros r Hr.
  unfold Regression.analyze_change in Hr. rewrite Hkind in Hr.
  unfold Regression._analyze_modification in Hr. rewrite Hadded in Hr.
  apply in_app_or in Hr. destruct Hr as [Hr|Hr].
  { rewrite (api_changes_type re_search set_iter _ _ _ _ _ Hr).
    split; discriminate. }
  apply in_app_or in Hr. destruct Hr as [Hr|Hr].
  { unfold _check_behavior_changes in Hr.
    risk_cases Hr; cbn; split; discriminate. }
  apply in_app_or in Hr. destruct Hr as [Hr|Hr].
  { exfalso. unfold _check_performance_impacts in Hr.
    cbn [filter List.length existsb] in Hr.
    repeat match type of Hr with
           | context [(?n <? 0)%nat] =>
               replace (n <? 0)%nat with false in Hr
                 by (symmetry; apply Nat.ltb_ge; lia)
           end.
    exact Hr. }
  unfold Regression._check_security_impacts in Hr.
  cbn [existsb orb negb app] in Hr.
  risk_cases Hr. cbn. split; [discriminate|reflexivity].
Qed.

(** *** Risks that are always reported *)

(** Deduplication and sorting keep a risk of every discovered key. *)
Lemma discovered_key_is_returned (self : RegressionDetector)
    (changes : list CodeChange) (context : Context) (r : RegressionRisk) :
  In r (discovered self changes context) ->
  exists r',
    In r' (analyze_changes self changes context)
    /\ risk_key r' = risk_key r.
Proof.
  intros Hr. unfold Regression.analyze_changes, _deduplicate_risks.
  destruct (dedup_loop_covers _ [] r Hr) as [[]|Hk].
  apply in_map_iff in Hk. destruct Hk as (r' & Hkey & Hr').
  exists r'. split; [|exact Hkey].
  apply (Permutation_in r' (sorted_reverse_perm _risk_priority _)).
  exact Hr'.
Qed.

(** X5.  Every renamed file is reported: for a change of kind rename the
    result holds an api_change risk of severity medium that names the
    file in its description and as its one affected component. *)
Theorem renamed_files_are_reported
    (self : RegressionDetector) (changes : list CodeChange)
    (context : Context) (change : CodeChange) :
  In change changes ->
  change_type change = "rename" ->
  exists r,
    In r (analyze_changes self changes context)
    /\ type r = "api_change"
    /\ description r = ("File renamed: " ++ file_path change)%string
    /\ affected_components r = [file_path change].
Proof.
  intros Hin Hkind.
  destruct (discovered_key_is_returned self changes context
              (mkRisk "api_change" "medium"
                 ("File renamed: " ++ file_path change)%string
                 [file_path change]
                 (Some "Update all imports and references")
                 ["Verify all imports are updated";
                  "Check configuration files"; "Test module loading"]))
    as (r & Hr & Hkey).
  - unfold Regression.discovered. apply in_or_app. left.
    apply in_flat_map. exists change. split; [exact Hin|].
    unfold Regression.analyze_change. rewrite Hkind.
    left. reflexivity.
  - exists r. split; [exact Hr|].
    unfold risk_key in Hkey.
    cbn [type description affected_components] in Hkey.
    injection Hkey as Ht Hd Hc.
    split; [exact Ht|]. split; [exact Hd|exact Hc].
Qed.

Lemma analyze_change_not_large (self : RegressionDetector)
    (context : Context) (change : CodeChange) (r : RegressionRisk) :
  In r (analyze_change self context change) ->
  description r <> "Large number of files changed".
Proof.
  unfold Regression.analyze_change. intros Hr.
  destruct (mem (change_type change) ["modify"; "delete"]).
  - unfold Regression._analyze_modification in Hr.
    apply in_app_or in Hr. destruct Hr as [Hr|Hr].
    { unfold Regression._check_api_changes in Hr.
      apply in_app_or in Hr. destruct Hr as [Hr|Hr].
      - apply in_flat_map in Hr. destruct Hr as [entry [_ Hr]].
        destruct (map strip
                    (filter (matches re_search (snd entry))
                       (removed_lines_of (diff change))));
          [contradiction|].
        destruct (negb _); destruct Hr as [<-|[]]; cbn; discriminate.
      - apply in_map_iff in Hr. destruct Hr as [pc [<- _]].
        cbn. discriminate. }
    apply in_app_or in Hr. destruct Hr as [Hr|Hr].
    { unfold _check_behavior_changes in Hr.
      risk_cases Hr; cbn; discriminate. }
    apply in_app_or in Hr. destruct Hr as [Hr|Hr].
    { unfold _check_performance_impacts in Hr.
      risk_cases Hr; cbn; discriminate. }
    unfold Regression._check_security_impacts in Hr.
    risk_cases Hr; cbn; discriminate.
  - destruct (String.eqb (change_type change) "add").
    + unfold _analyze_addition in Hr.
      destruct (contains (diff change) "import"
                || contains (diff change) "require"); [|destruct Hr].
      destruct Hr as [<-|[]]. cbn. discriminate.
    + destruct (String.eqb (change_type change) "rename"); [|destruct Hr].
      destruct Hr as [<-|[]]. cbn. discriminate.
Qed.

(** X6.  The risk about a large number of changed files is reported exactly
    when more than ten changes are given, whatever their kinds; it then
    names the first five paths, followed by an ellipsis. *)
Theorem large_change_sets_are_reported
    (self : RegressionDetector) (changes : list CodeChange)
    (context : Context) :
  (exists r,
      In r (analyze_changes self changes context)
      /\ description r = "Large number of files changed"
      /\ affected_components r
         = map file_path (firstn 5 changes) ++ ["..."])
  <-> (10 < List.length changes)%nat.
Proof.
  split.
  - intros (r & Hr & Hd & _). apply analyze_changes_discovered in Hr.
    unfold Regression.discovered in Hr.
    apply in_app_or in Hr. destruct Hr as [Hr|Hr].
    + apply in_flat_map in Hr. destruct Hr as (change & _ & Hr).
      exfalso. apply (analyze_change_not_large _ _ _ _ Hr Hd).
    + unfold Regression._analyze_cross_file_impacts in Hr.
      destruct (Nat.ltb_spec 10 (List.length changes)) as [Hlt|Hle];
        [exact Hlt|].
      rewrite app_nil_r in Hr.
      destruct (_ <? _)%nat; [|destruct Hr].
      destruct Hr as [<-|[]]. cbn in Hd. discriminate.
  - intros Hlt.
    destruct (discovered_key_is_returned self changes context
                (mkRisk "behavior_change" "medium"
                   "Large number of files changed"
                   (map file_path (firstn 5 changes) ++ ["..."])
                   (Some
                      "Consider breaking into smaller, incremental changes")
                   ["Run comprehensive test suite"; "Perform staged rollout";
                    "Monitor system behavior closely"]))
      as (r & Hr & Hkey).
    + unfold Regression.discovered. apply in_or_app. right.
      unfold Regression._analyze_cross_file_impacts.
      apply in_or_app. right.
      rewrite (proj2 (Nat.ltb_lt _ _) Hlt). left. reflexivity.
    + exists r. split; [exact Hr|].
      unfold risk_key in Hkey.
      cbn [type description affected_components] in Hkey.
      injection Hkey as Ht Hd Hc. split; [exact Hd|exact Hc].
Qed.

End RulesProperties.

(** *** The report *)

(** What [by_severity] holds for a level after the loop: the risks of
    that severity, in list order, behind what the dictionary held. *)
Lemma group_risks_get (risks : list RegressionRisk) (level : string) :
  forall d,
    get (fold_left group_risk risks d) level
    = match get d level with
      | Some group => Some (group ++ of_severity level risks)
      | None =>
          match of_severity level risks with
          | [] => None
          | group => Some group
          end
      end.
Proof.
  induction risks as [|r rest IH]; intros d.
  - simpl. destruct (get d level); [rewrite app_nil_r|]; reflexivity.
  - cbn [fold_left]. rewrite IH. unfold group_risk, of_severity.
    cbn [filter].
    destruct (String.eqb_spec (severity r) level) as [Heq|Hne].
    + rewrite Heq.
      destruct (get d level) as [group|].
      * rewrite get_set_eq, <- app_assoc. reflexivity.
      * rewrite get_set_eq. reflexivity.
    + destruct (get d (severity r)); rewrite get_set_neq by exact Hne;
        reflexivity.
Qed.

Lemma by_severity_get (risks : list RegressionRisk) (level : string) :
  get (by_severity_of risks) level
  = match of_severity level risks with
    | [] => None
    | group => Some group
    end.
Proof. unfold by_severity_of. rewrite group_risks_get. reflexivity. Qed.

(** X7.  The report reads the risks through the four severity groups only:
    two non-empty lists of risks that agree on the risks of severity
    critical, high, medium and low, each in list order, give the same
    report.  So a risk of another severity is left out, and the order of
    risks of different severities does not matter. *)
Theorem report_depends_on_severity_groups
    (risks1 risks2 : list RegressionRisk) (step : Planner.RefactorStep) :
  risks1 <> [] -> risks2 <> [] ->
  (forall level, In level ["critical"; "high"; "medium"; "low"] ->
     of_severity level risks1 = of_severity level risks2) ->
  generate_regression_report risks1 step
  = generate_regression_report risks2 step.
Proof.
  intros H1 H2 Hgroups. unfold generate_regression_report.
  destruct risks1 as [|a1 l1]; [contradiction|].
  destruct risks2 as [|a2 l2]; [contradiction|].
  cbn [nonempty negb].
  assert (Hsec : forall level,
             In level severity_levels ->
             severity_section (by_severity_of (a1 :: l1)) level
             = severity_section (by_severity_of (a2 :: l2)) level).
  { intros level Hl. unfold severity_section.
    rewrite !by_severity_get, (Hgroups level Hl). reflexivity. }
  rewrite (map_ext_in _ _ _ Hsec). reflexivity.
Qed.

Lemma shown_risks_groups (risks : list RegressionRisk) :
  shown_risks risks
  = of_severity "critical" risks ++ of_severity "high" risks
    ++ of_severity "medium" risks ++ of_severity "low" risks.
Proof.
  unfold shown_risks, severity_levels. cbn [flat_map].
  rewrite !by_severity_get, app_nil_r.
  destruct (of_severity "critical" risks), (of_severity "high" risks),
    (of_severity "medium" risks), (of_severity "low" risks); reflexivity.
Qed.

Lemma of_severity_none (level : string) (risks : list RegressionRisk) :
  (forall r, In r risks -> severity r <> level) ->
  of_severity level risks = [].
Proof.
  induction risks as [|r l IH]; intros H; [reflexivity|].
  unfold of_severity. cbn [filter].
  destruct (String.eqb_spec (severity r) level) as [Heq|_].
  - exfalso. apply (H r (or_introl eq_refl) Heq).
  - apply IH. intros r' Hr'. apply H. right. exact Hr'.
Qed.

Lemma classified_weight (r : RegressionRisk) :
  classified r ->
  (10 * severity_weight r + 1 <= _risk_priority r
   <= 10 * severity_weight r + 4)%Z.
Proof.
  intros [_ Ht]. unfold _risk_priority, severity_weight.
  unfold risk_types in Ht. simpl in Ht.
  destruct Ht as [Ht|[Ht|[Ht|[Ht|[]]]]]; rewrite <- Ht;
    cbn [get_default type_scores get String.eqb Ascii.eqb Bool.eqb]; lia.
Qed.

(** In a list of classified risks that is sorted by descending priority,
    the risks stand by descending severity already. *)
Lemma sorted_risks_grouped (risks : list RegressionRisk) :
  Forall classified risks ->
  StronglySorted (descending _risk_priority) risks ->
  of_severity "critical" risks ++ of_severity "high" risks
  ++ of_severity "medium" risks ++ of_severity "low" risks
  = risks.
Proof.
  intros Hcl Hs. induction Hs as [|r l Hs IH Hall]; [reflexivity|].
  inversion Hcl as [|r' l' Hr Hl]; subst. specialize (IH Hl).
  assert (Hle : forall y, In y l ->
                  (severity_weight y <= severity_weight r)%Z).
  { intros y Hy.
    pose proof (proj1 (Forall_forall _ _) Hall y Hy) as Hd.
    unfold descending in Hd.
    pose proof (classified_weight r Hr).
    pose proof (classified_weight y (proj1 (Forall_forall _ _) Hl y Hy)).
    lia. }
  assert (Hnone : forall level w,
             get_default severity_scores level 0 = w ->
             (severity_weight r < w)%Z ->
             of_severity level l = []).
  { intros level w Hw Hlt. apply of_severity_none. intros y Hy Hsev.
    specialize (Hle y Hy). unfold severity_weight in Hle at 1.
    rewrite Hsev, Hw in Hle. lia. }
  destruct Hr as [Hsev _]. unfold severity_levels in Hsev. simpl in Hsev.
  unfold of_severity at 1 2 3 4. cbn [filter]. fold (of_severity "critical" l).
  fold (of_severity "high" l). fold (of_severity "medium" l).
  fold (of_severity "low" l).
  destruct Hsev as [Hsev|[Hsev|[Hsev|[Hsev|[]]]]];
    unfold severity_weight in Hnone; rewrite <- Hsev in *;
    cbn [String.eqb Ascii.eqb Bool.eqb app].
  - rewrite IH. reflexivity.
  - rewrite (Hnone "critical" 4%Z eq_refl) by (vm_compute; reflexivity).
    cbn [app]. f_equal.
    rewrite (Hnone "critical" 4%Z eq_refl) in IH
      by (vm_compute; reflexivity).
    exact IH.
  - rewrite (Hnone "critical" 4%Z eq_refl) by (vm_compute; reflexivity).
    rewrite (Hnone "high" 3%Z eq_refl) by (vm_compute; reflexivity).
    cbn [app]. f_equal.
    rewrite (Hnone "critical" 4%Z eq_refl) in IH
      by (vm_compute; reflexivity).
    rewrite (Hnone "high" 3%Z eq_refl) in IH by (vm_compute; reflexivity).
    exact IH.
  - rewrite (Hnone "critical" 4%Z eq_refl) by (vm_compute; reflexivity).
    rewrite (Hnone "high" 3%Z eq_refl) by (vm_compute; reflexivity).
    rewrite (Hnone "medium" 2%Z eq_refl) by (vm_compute; reflexivity).
    cbn [app]. f_equal.
    rewrite (Hnone "critical" 4%Z eq_refl) in IH
      by (vm_compute; reflexivity).
    rewrite (Hnone "high" 3%Z eq_refl) in IH by (vm_compute; reflexivity).
    rewrite (Hnone "medium" 2%Z eq_refl) in IH by (vm_compute; reflexivity).
    exact IH.
Qed.

(** X8.  The report of the risks that [analyze_changes] returned shows every
    one of them, in the order in which they were returned: the order by
    priority already groups them by severity, and none has a severity
    that the report has no section for. *)
Theorem report_shows_classifier_output_in_order
    (re_search : regex -> string -> option (list string))
    (set_iter : list string -> list string)
    (self : RegressionDetector) (changes : list CodeChange)
    (context : Context) :
  shown_risks (analyze_changes re_search set_iter self changes context)
  = analyze_changes re_search set_iter self changes context.
Proof.
  rewrite shown_risks_groups. apply sorted_risks_grouped.
  - apply Forall_forall. intros r Hr.
    apply analyze_changes_discovered in Hr.
    apply (discovered_classified _ _ _ _ _ _ Hr).
  - unfold analyze_changes. apply sorted_reverse_sorted.
Qed.

(** *** Concrete runs *)

Lemma unknown_change_types_are_ignored_witness :
  (forall c, In c [mkChange "svc/a.py" "move" "+import os" [] []] ->
     mem (change_type c) ["modify"; "delete"; "add"; "rename"] = false)
  /\ (List.length [mkChange "svc/a.py" "move" "+import os" [] []] <= 10)%nat
  /\ analyze_changes no_match insertion_order __init__
       [mkChange "svc/a.py" "move" "+import os" [] []] []
     = [].
Proof.
  assert (H1 : forall c,
             In c [mkChange "svc/a.py" "move" "+import os" [] []] ->
             mem (change_type c) ["modify"; "delete"; "add"; "rename"]
             = false).
  { intros c [<-|[]]. reflexivity. }
  assert (H2 : (List.length [mkChange "svc/a.py" "move" "+import os" [] []]
                <= 10)%nat) by (simpl; lia).
  split; [exact H1|]. split; [exact H2|].
  exact (unknown_change_types_are_ignored no_match insertion_order __init__
           [mkChange "svc/a.py" "move" "+import os" [] []] [] H1 H2).
Defined.

Lemma pure_removal_has_no_added_line_risk_witness :
  mem (change_type change_v1) ["modify"; "delete"] = true
  /\ added_lines_of (diff change_v1) = []
  /\ Forall
       (fun r =>
          type r <> "performance"
          /\ (type r = "security" ->
              description r = "Authentication/authorization checks removed"))
       (analyze_change no_match insertion_order __init__ [] change_v1).
Proof.
  split; [reflexivity|]. split; [reflexivity|].
  apply (pure_removal_has_no_added_line_risk no_match insertion_order
           __init__ [] change_v1); reflexivity.
Defined.

Lemma renamed_files_are_reported_witness :
  In (mkChange "svc/old.py" "rename" EmptyString [] [])
    [mkChange "svc/old.py" "rename" EmptyString [] []]
  /\ change_type (mkChange "svc/old.py" "rename" EmptyString [] [])
     = "rename"
  /\ exists r,
       In r (analyze_changes no_match insertion_order __init__
               [mkChange "svc/old.py" "rename" EmptyString [] []] [])
       /\ type r = "api_change"
       /\ description r = "File renamed: svc/old.py"
       /\ affected_components r = ["svc/old.py"].
Proof.
  split; [left; reflexivity|]. split; [reflexivity|].
  apply (renamed_files_are_reported no_match insertion_order __init__
           [mkChange "svc/old.py" "rename" EmptyString [] []] []
           (mkChange "svc/old.py" "rename" EmptyString [] [])).
  - left. reflexivity.
  - reflexivity.
Defined.

Lemma report_depends_on_severity_groups_witness :
  [info_risk; medium_risk; critical_risk] <> []
  /\ [critical_risk; medium_risk] <> []
  /\ (forall level, In level ["critical"; "high"; "medium"; "low"] ->
        of_severity level [info_risk; medium_risk; critical_risk]
        = of_severity level [critical_risk; medium_risk])
  /\ generate_regression_report [info_risk; medium_risk; critical_risk]
       (Planner.plain_step "a" [])
     = generate_regression_report [critical_risk; medium_risk]
         (Planner.plain_step "a" []).
Proof.
  assert (H1 : [info_risk; medium_risk; critical_risk] <> [])
    by discriminate.
  assert (H2 : [critical_risk; medium_risk] <> []) by discriminate.
  assert (H3 : forall level,
             In level ["critical"; "high"; "medium"; "low"] ->
             of_severity level [info_risk; medium_risk; critical_risk]
             = of_severity level [critical_risk; medium_risk]).
  { intros level [<-|[<-|[<-|[<-|[]]]]]; reflexivity. }
  split; [exact H1|]. split; [exact H2|]. split; [exact H3|].
  exact (report_depends_on_severity_groups _ _ (Planner.plain_step "a" [])
           H1 H2 H3).
Defined.

End RegressionProperties.

(** ** The classifier at its entry point *)

Module ClassifierFacts.
Import Py Regression PyFacts NxFacts RegressionFacts RegressionProperties.
Import AnalyzerVocabulary ClassifierVocabulary.

(** [change_cases H] splits [H : In r (analyze_change ...)] into one
    goal per risk that the rules can emit for one change. *)
Ltac change_cases H :=
  unfold Regression.analyze_change, Regression._analyze_modification,
    Regression._analyze_addition, Regression._analyze_rename,
    Regression._check_api_changes, Regression._check_behavior_changes,
    Regression._check_performance_impacts,
    Regression._check_security_impacts in H;
  cbv zeta in H;
  repeat match type of H with
         | In _ (_ ++ _) => apply in_app_or in H; destruct H as [H|H]
         | In _ (flat_map _ _) =>
             apply in_flat_map in H; destruct H as (? & _ & H)
         | In _ (map _ _) =>
             apply in_map_iff in H; destruct H as (? & <- & H)
         | In _ [] => destruct H
         | In _ [_] => destruct H as [<-|[]]
         | In _ (match ?c with _ => _ end) => destruct c eqn:?
         end.

(** *** Deduplication of lists that differ in order *)

(** The loop of [_deduplicate_risks] reads [seen] as a set. *)
Lemma dedup_loop_seen (risks : list RegressionRisk) :
  forall seen1 seen2,
    (forall k, In k seen1 <-> In k seen2) ->
    dedup_loop risks seen1 [] = dedup_loop risks seen2 [].
Proof.
  induction risks as [|r rest IH]; intros seen1 seen2 Hseen; [reflexivity|].
  cbn [dedup_loop].
  assert (Hk : key_in (risk_key r) seen1 = key_in (risk_key r) seen2).
  { destruct (key_in (risk_key r) seen2) eqn:H2.
    - apply key_in_true. apply Hseen. apply key_in_true. exact H2.
    - apply key_in_false. intros H1.
      apply (proj1 (key_in_false _ _) H2). apply Hseen. exact H1. }
  rewrite Hk. destruct (key_in (risk_key r) seen2); cbn [negb].
  - apply IH. exact Hseen.
  - rewrite (dedup_loop_acc rest (risk_key r :: seen1) ([] ++ [r])).
    rewrite (dedup_loop_acc rest (risk_key r :: seen2) ([] ++ [r])).
    f_equal. apply IH. intros k. cbn [In].
    split; (intros [H|H]; [left; exact H|right; apply Hseen; exact H]).
Qed.

Lemma dedup_loop_app (l1 l2 : list RegressionRisk) :
  forall seen,
    dedup_loop (l1 ++ l2) seen []
    = dedup_loop l1 seen []
      ++ dedup_loop l2 (map risk_key (dedup_loop l1 seen []) ++ seen) [].
Proof.
  induction l1 as [|r l1 IH]; intros seen; [reflexivity|].
  cbn [app dedup_loop].
  destruct (key_in (risk_key r) seen) eqn:Hseen; cbn [negb].
  - apply IH.
  - rewrite (dedup_loop_acc (l1 ++ l2) (risk_key r :: seen) [r]).
    rewrite (dedup_loop_acc l1 (risk_key r :: seen) [r]).
    rewrite IH. cbn [app]. f_equal. f_equal.
    apply dedup_loop_seen. intros k. cbn [map app In].
    rewrite !in_app_iff. cbn [In]. tauto.
Qed.

(** When the risks of a list are determined by their keys, the loop
    keeps the risks whose key was not seen before. *)
Lemma dedup_loop_member (block : list RegressionRisk)
    (seen : list (string * string * list string)) :
  (forall r r', In r block -> In r' block ->
     risk_key r = risk_key r' -> r = r') ->
  forall r,
    In r (dedup_loop block seen [])
    <-> In r block /\ ~ In (risk_key r) seen.
Proof.
  intros Hfunctional r. split; [apply dedup_loop_fresh|].
  intros [Hr Hfresh].
  destruct (dedup_loop_covers block seen r Hr) as [Hk|Hk]; [contradiction|].
  apply in_map_iff in Hk. destruct Hk as (r0 & Hkey & Hr0).
  rewrite <- (Hfunctional r0 r (proj1 (dedup_loop_fresh _ _ _ Hr0)) Hr Hkey).
  exact Hr0.
Qed.

Lemma dedup_loop_permuted (block1 block2 : list RegressionRisk)
    (seen1 seen2 : list (string * string * list string)) :
  Permutation block1 block2 ->
  (forall r r', In r block1 -> In r' block1 ->
     risk_key r = risk_key r' -> r = r') ->
  (forall k, In k seen1 <-> In k seen2) ->
  Permutation (dedup_loop block1 seen1 []) (dedup_loop block2 seen2 []).
Proof.
  intros Hperm Hfunctional Hseen.
  assert (Hfunctional2 : forall r r', In r block2 -> In r' block2 ->
                           risk_key r = risk_key r' -> r = r').
  { intros r r' Hr Hr'.
    apply Hfunctional; apply (Permutation_in _ (Permutation_sym Hperm));
      assumption. }
  apply NoDup_Permutation.
  - apply (NoDup_map_inv risk_key). apply dedup_loop_NoDup.
  - apply (NoDup_map_inv risk_key). apply dedup_loop_NoDup.
  - intros r.
    rewrite (dedup_loop_member _ _ Hfunctional).
    rewrite (dedup_loop_member _ _ Hfunctional2).
    rewrite Hseen. split; intros [Hr Hk]; (split; [|exact Hk]).
    + apply (Permutation_in _ Hperm Hr).
    + apply (Permutation_in _ (Permutation_sym Hperm) Hr).
Qed.

(** Lists built block by block: permuting each block permutes what the
    loop keeps. *)
Lemma dedup_blocks_permuted {A : Type}
    (block1 block2 : A -> list RegressionRisk) (items : list A) :
  (forall x, In x items -> Permutation (block1 x) (block2 x)) ->
  (forall x r r', In x items -> In r (block1 x) -> In r' (block1 x) ->
     risk_key r = risk_key r' -> r = r') ->
  forall seen1 seen2,
    (forall k, In k seen1 <-> In k seen2) ->
    Permutation (dedup_loop (flat_map block1 items) seen1 [])
      (dedup_loop (flat_map block2 items) seen2 []).
Proof.
  induction items as [|x items IH]; intros Hperm Hfunctional seen1 seen2 Hseen.
  - apply perm_nil.
  - cbn [flat_map]. rewrite !dedup_loop_app.
    assert (Hblock : Permutation (dedup_loop (block1 x) seen1 [])
                       (dedup_loop (block2 x) seen2 [])).
    { apply dedup_loop_permuted.
      - apply Hperm. left. reflexivity.
      - intros r r'. apply Hfunctional. left. reflexivity.
      - exact Hseen. }
    apply Permutation_app; [exact Hblock|].
    apply IH.
    + intros y Hy. apply Hperm. right. exact Hy.
    + intros y r r' Hy. apply Hfunctional. right. exact Hy.
    + intros k. rewrite !in_app_iff, Hseen.
      split; (intros [H|H]; [left|right; exact H]).
      * apply (Permutation_in k (Permutation_map risk_key Hblock) H).
      * apply (Permutation_in k
                 (Permutation_sym (Permutation_map risk_key Hblock)) H).
Qed.

(** Risks of fresh, pairwise different keys at the end of the list are
    all kept. *)
Lemma deduplicate_fresh_tail (l1 l2 : list RegressionRisk) :
  NoDup (map risk_key l2) ->
  (forall r r', In r l1 -> In r' l2 -> risk_key r <> risk_key r') ->
  _deduplicate_risks (l1 ++ l2) = _deduplicate_risks l1 ++ l2.
Proof.
  intros Hunique Hfresh. unfold _deduplicate_risks.
  rewrite dedup_loop_app. f_equal.
  apply dedup_loop_unique; [exact Hunique|].
  intros r' Hr' Hin. rewrite app_nil_r in Hin.
  apply in_map_iff in Hin. destruct Hin as (r & Hkey & Hr).
  apply dedup_loop_fresh in Hr. destruct Hr as [Hr _].
  apply (Hfresh r r' Hr Hr'). exact Hkey.
Qed.

(** *** Lists in descending order *)

Lemma descending_unique (l1 : list Z) :
  forall l2,
    StronglySorted (fun a b => (b <= a)%Z) l1 ->
    StronglySorted (fun a b => (b <= a)%Z) l2 ->
    Permutation l1 l2 ->
    l1 = l2.
Proof.
  induction l1 as [|a l1 IH]; intros l2 H1 H2 Hperm.
  - apply Permutation_nil in Hperm. symmetry. exact Hperm.
  - destruct l2 as [|b l2].
    { apply Permutation_sym, Permutation_nil in Hperm. discriminate. }
    apply StronglySorted_inv in H1. destruct H1 as [H1 Ha].
    apply StronglySorted_inv in H2. destruct H2 as [H2 Hb].
    assert (Hab : a = b).
    { assert (Hle : (a <= b)%Z).
      { destruct (Permutation_in a Hperm (or_introl eq_refl)) as [Heq|Hin].
        - subst. apply Z.le_refl.
        - apply (proj1 (Forall_forall _ _) Hb a Hin). }
      assert (Hge : (b <= a)%Z).
      { destruct (Permutation_in b (Permutation_sym Hperm)
                    (or_introl eq_refl)) as [Heq|Hin].
        - subst. apply Z.le_refl.
        - apply (proj1 (Forall_forall _ _) Ha b Hin). }
      lia. }
    subst b. f_equal. apply IH; [exact H1|exact H2|].
    apply (Permutation_cons_inv Hperm).
Qed.

Lemma descending_priorities (risks : list RegressionRisk) :
  StronglySorted (descending _risk_priority) risks ->
  StronglySorted (fun a b => (b <= a)%Z) (map _risk_priority risks).
Proof.
  induction 1 as [|r risks _ IH Hr]; cbn [map]; constructor; [exact IH|].
  apply Forall_map. exact Hr.
Qed.

Lemma same_up_to_component_order_refl (r : RegressionRisk) :
  same_up_to_component_order r r.
Proof.
  unfold same_up_to_component_order. repeat split. apply Permutation_refl.
Qed.

Lemma Forall2_same_refl (risks : list RegressionRisk) :
  Forall2 same_up_to_component_order risks risks.
Proof.
  induction risks as [|r risks IH]; constructor;
    [apply same_up_to_component_order_refl|exact IH].
Qed.

Lemma same_up_to_component_order_priority (r1 r2 : RegressionRisk) :
  same_up_to_component_order r1 r2 -> _risk_priority r1 = _risk_priority r2.
Proof.
  intros (Htype & Hseverity & _). unfold _risk_priority.
  rewrite Htype, Hseverity. reflexivity.
Qed.

Lemma flat_map_permuted {A B : Type} (f g : A -> list B) (l1 l2 : list A) :
  (forall x, f x = g x) -> Permutation l1 l2 ->
  Permutation (flat_map f l1) (flat_map g l2).
Proof.
  intros Hext Hperm. rewrite (flat_map_ext f g Hext).
  apply Permutation_flat_map. exact Hperm.
Qed.

Lemma map_over_flat_map {A B C : Type} (g : B -> C) (f : A -> list B)
    (l : list A) :
  map g (flat_map f l) = flat_map (fun x => map g (f x)) l.
Proof.
  induction l as [|a l IH]; [reflexivity|].
  cbn [flat_map]. rewrite map_app, IH. reflexivity.
Qed.

Section EntryPoint.
Variable re_search : regex -> string -> option (list string).
Variable set_iter : list string -> list string.

Local Abbreviation analyze_changes := (analyze_changes re_search set_iter).
Local Abbreviation discovered := (discovered re_search set_iter).
Local Abbreviation analyze_change := (analyze_change re_search set_iter).
Local Abbreviation _analyze_cross_file_impacts :=
  (_analyze_cross_file_impacts set_iter).

(** Every rule for one change names the file of the change, and nothing
    else, as the affected component. *)
Lemma analyze_change_components (self : RegressionDetector)
    (context : Context) (change : CodeChange) (r : RegressionRisk) :
  In r (analyze_change self context change) ->
  affected_components r = [file_path change].
Proof. intros Hr. change_cases Hr; reflexivity. Qed.

Lemma analyze_change_not_multiple (self : RegressionDetector)
    (context : Context) (change : CodeChange) (r : RegressionRisk) :
  In r (analyze_change self context change) ->
  description r <> "Multiple interfaces modified simultaneously".
Proof. intros Hr. change_cases Hr; cbn; discriminate. Qed.

(** *** Deduplication by the set key *)

Lemma same_set_refl (l : list string) : same_set l l = true.
Proof.
  unfold same_set.
  assert (H : forallb (fun x => mem x l) l = true).
  { apply forallb_forall. intros x Hx. apply mem_In. exact Hx. }
  rewrite H. reflexivity.
Qed.

Lemma same_set_singleton (p q : string) :
  same_set [p] [q] = true -> p = q.
Proof.
  unfold same_set, mem. cbn [forallb existsb]. rewrite !orb_false_r.
  rewrite !andb_true_r. intros H. apply andb_prop in H.
  apply String.eqb_eq. exact (proj1 H).
Qed.

Lemma same_set_key_fields (r1 r2 : RegressionRisk) :
  same_set_key r1 r2 = true ->
  type r1 = type r2 /\ description r1 = description r2
  /\ same_set (affected_components r1) (affected_components r2) = true.
Proof.
  unfold same_set_key. intros H.
  apply andb_prop in H. destruct H as [H Hset].
  apply andb_prop in H. destruct H as [Htype Hdescription].
  apply String.eqb_eq in Htype. apply String.eqb_eq in Hdescription.
  split; [exact Htype|]. split; [exact Hdescription|exact Hset].
Qed.

(** A risk that stems from the rules across files: it is the one about
    several interfaces or the one about many files. *)
Lemma cross_file_cases (changes : list CodeChange) (context : Context)
    (r r' : RegressionRisk) :
  In r (_analyze_cross_file_impacts changes context) ->
  In r' (_analyze_cross_file_impacts changes context) ->
  description r = description r' -> r = r'.
Proof.
  unfold Regression._analyze_cross_file_impacts. cbv zeta.
  intros Hr Hr' Hd.
  destruct (1 <? _)%nat; destruct (10 <? _)%nat; cbn [app In] in Hr, Hr';
    repeat match goal with
           | H : _ \/ _ |- _ => destruct H as [H|H]
           | H : False |- _ => destruct H
           end;
    subst; try reflexivity; cbn in Hd; discriminate.
Qed.

Lemma cross_file_descriptions (changes : list CodeChange)
    (context : Context) (r : RegressionRisk) :
  In r (_analyze_cross_file_impacts changes context) ->
  description r = "Multiple interfaces modified simultaneously"
  \/ description r = "Large number of files changed".
Proof.
  unfold Regression._analyze_cross_file_impacts. cbv zeta. intros Hr.
  risk_cases Hr; [left|right]; reflexivity.
Qed.

(** Among the risks that the classifier discovers, equal type,
    description and set of affected components mean an equal tuple of
    affected components: a rule for one change names one file, and each
    rule across files speaks once, in words of its own. *)
Lemma discovered_set_key (self : RegressionDetector)
    (changes : list CodeChange) (context : Context)
    (r1 r2 : RegressionRisk) :
  In r1 (discovered self changes context) ->
  In r2 (discovered self changes context) ->
  same_set_key r1 r2 = true ->
  risk_key r1 = risk_key r2.
Proof.
  intros H1 H2 Hsame.
  apply same_set_key_fields in Hsame.
  destruct Hsame as (Htype & Hdescription & Hset).
  unfold risk_key. rewrite Htype, Hdescription. f_equal.
  unfold Regression.discovered in H1, H2.
  apply in_app_or in H1. apply in_app_or in H2.
  destruct H1 as [H1|H1]; destruct H2 as [H2|H2].
  - apply in_flat_map in H1. destruct H1 as (c1 & _ & H1).
    apply in_flat_map in H2. destruct H2 as (c2 & _ & H2).
    rewrite (analyze_change_components _ _ _ _ H1) in *.
    rewrite (analyze_change_components _ _ _ _ H2) in *.
    rewrite (same_set_singleton _ _ Hset). reflexivity.
  - exfalso. apply in_flat_map in H1. destruct H1 as (c1 & _ & H1).
    destruct (cross_file_descriptions _ _ _ H2) as [Hd|Hd];
      rewrite Hd in Hdescription.
    + apply (analyze_change_not_multiple _ _ _ _ H1 Hdescription).
    + apply (analyze_change_not_large _ _ _ _ _ _ H1 Hdescription).
  - exfalso. apply in_flat_map in H2. destruct H2 as (c2 & _ & H2).
    destruct (cross_file_descriptions _ _ _ H1) as [Hd|Hd];
      rewrite Hd in Hdescription; symmetry in Hdescription.
    + apply (analyze_change_not_multiple _ _ _ _ H2 Hdescription).
    + apply (analyze_change_not_large _ _ _ _ _ _ H2 Hdescription).
  - rewrite (cross_file_cases _ _ _ _ H1 H2 Hdescription). reflexivity.
Qed.

(** *** The rules for one change, key by key *)

(** An entry of [_detect_parameter_changes] carries the name of its
    function, and a function has one entry at most. *)
Lemma parameter_change_entry (removed_funcs added_funcs : dict (list string))
    (func_name : string) (pc : ParamChange) :
  In pc
    match get removed_funcs func_name, get added_funcs func_name with
    | Some r, Some a =>
        if negb (list_eqb r a) then
          [mkParamChange func_name
             (set_iter (filter (fun p => negb (mem p a)) r))
             (set_iter (filter (fun p => negb (mem p r)) a))]
        else []
    | _, _ => []
    end ->
  function pc = func_name
  /\ forall pc',
       In pc'
         match get removed_funcs func_name, get added_funcs func_name with
         | Some r, Some a =>
             if negb (list_eqb r a) then
               [mkParamChange func_name
                  (set_iter (filter (fun p => negb (mem p a)) r))
                  (set_iter (filter (fun p => negb (mem p r)) a))]
             else []
         | _, _ => []
         end ->
       pc' = pc.
Proof.
  destruct (get removed_funcs func_name) as [r|]; [|intros []].
  destruct (get added_funcs func_name) as [a|]; [|intros []].
  destruct (negb (list_eqb r a)); [|intros []].
  intros [<-|[]]. split; [reflexivity|].
  intros pc' [<-|[]]. reflexivity.
Qed.

Lemma parameter_change_of_function (removed_lines added_lines : list string)
    (pc pc' : ParamChange) :
  In pc
    (_detect_parameter_changes re_search set_iter removed_lines added_lines) ->
  In pc'
    (_detect_parameter_changes re_search set_iter removed_lines added_lines) ->
  function pc = function pc' ->
  pc = pc'.
Proof.
  unfold Regression._detect_parameter_changes. cbv zeta.
  intros H H' Hfunction.
  apply in_flat_map in H. destruct H as (f & _ & H).
  apply in_flat_map in H'. destruct H' as (f' & _ & H').
  destruct (parameter_change_entry _ _ _ _ H) as [Hf Hone].
  destruct (parameter_change_entry _ _ _ _ H') as [Hf' _].
  assert (Hsame : f' = f) by congruence. rewrite Hsame in H'.
  symmetry. apply Hone. exact H'.
Qed.

(** Two risks that the rules emit for one change and that share their
    deduplication key are equal in every field. *)
Lemma analyze_change_key_functional (self : RegressionDetector)
    (context : Context) (change : CodeChange) (r r' : RegressionRisk) :
  In r (analyze_change self context change) ->
  In r' (analyze_change self context change) ->
  risk_key r = risk_key r' ->
  r = r'.
Proof.
  intros Hr Hr' Hkey. unfold risk_key in Hkey.
  change_cases Hr; change_cases Hr';
    cbn [type description affected_components] in Hkey;
    try congruence;
    try (cbn [append] in Hkey; congruence).
  injection Hkey as Hdescription. cbn [append] in Hdescription.
  assert (Hfunction : function x = function x0) by congruence.
  rewrite (parameter_change_of_function _ _ _ _ Hr Hr' Hfunction).
  reflexivity.
Qed.

(** The risks of the rules across files have keys of their own, so the
    deduplication keeps them, behind what it keeps of the other risks. *)
Lemma cross_file_keys (changes : list CodeChange) (context : Context) :
  NoDup (map risk_key (_analyze_cross_file_impacts changes context)).
Proof.
  apply (NoDup_map_inv (fun k => snd (fst k))). rewrite map_map.
  unfold Regression._analyze_cross_file_impacts. cbv zeta.
  destruct (1 <? _)%nat; destruct (10 <? _)%nat; cbn;
    repeat constructor; cbn; intuition discriminate.
Qed.

Lemma discovered_deduplicated (self : RegressionDetector)
    (changes : list CodeChange) (context : Context) :
  _deduplicate_risks (discovered self changes context)
  = _deduplicate_risks (flat_map (analyze_change self context) changes)
    ++ _analyze_cross_file_impacts changes context.
Proof.
  unfold Regression.discovered. apply deduplicate_fresh_tail.
  - apply cross_file_keys.
  - intros r r' Hr Hr' Hkey. apply in_flat_map in Hr.
    destruct Hr as (change & _ & Hr).
    unfold risk_key in Hkey. injection Hkey as _ Hdescription _.
    destruct (cross_file_descriptions _ _ _ Hr') as [Hd|Hd];
      rewrite Hd in Hdescription.
    + apply (analyze_change_not_multiple _ _ _ _ Hr Hdescription).
    + apply (analyze_change_not_large _ _ _ _ _ _ Hr Hdescription).
Qed.

(** ** C7 *)

(** C7.  classifyRegressionRisks collapses any two risks it discovers
    whose type, description and set of affected components are equal into
    a single risk of the returned list: the returned list holds exactly
    one risk with that type, description and component set, the same one
    for both.  The component lists are compared as sets, so the statement
    covers lists that differ in order or multiplicity. *)
Theorem analyze_changes_collapses_equal_set_keys
    (self : RegressionDetector) (changes : list CodeChange)
    (context : Context) (r1 r2 : RegressionRisk) :
  In r1 (discovered self changes context) ->
  In r2 (discovered self changes context) ->
  same_set_key r1 r2 = true ->
  exists kept,
    filter (same_set_key r1) (analyze_changes self changes context) = [kept]
    /\ filter (same_set_key r2) (analyze_changes self changes context)
       = [kept].
Proof.
  intros H1 H2 Hsame.
  assert (Hfilter : forall r,
             In r (discovered self changes context) ->
             filter (same_set_key r) (analyze_changes self changes context)
             = firstn 1
                 (filter (has_key (risk_key r))
                    (discovered self changes context))).
  { intros r Hr.
    rewrite <- (analyze_changes_keeps_first_of_key re_search set_iter).
    apply filter_ext_in. intros r' Hr'.
    apply analyze_changes_discovered in Hr'. unfold has_key.
    destruct (same_set_key r r') eqn:Hset.
    - rewrite (discovered_set_key _ _ _ _ _ Hr Hr' Hset).
      destruct (key_eq_dec (risk_key r') (risk_key r')); congruence.
    - destruct (key_eq_dec (risk_key r') (risk_key r)) as [Hkey|];
        [|reflexivity].
      unfold risk_key in Hkey. injection Hkey as Ht Hd Hc.
      unfold same_set_key in Hset. rewrite Ht, Hd, Hc in Hset.
      rewrite !String.eqb_refl, same_set_refl in Hset. discriminate. }
  rewrite (Hfilter r1 H1), (Hfilter r2 H2).
  rewrite <- (discovered_set_key _ _ _ _ _ H1 H2 Hsame).
  destruct (filter (has_key (risk_key r1)) (discovered self changes context))
    as [|kept rest] eqn:Hkept.
  - exfalso.
    assert (Hin : In r1 (filter (has_key (risk_key r1))
                           (discovered self changes context))).
    { apply filter_In. split; [exact H1|]. unfold has_key.
      destruct (key_eq_dec (risk_key r1) (risk_key r1)); congruence. }
    rewrite Hkept in Hin. destruct Hin.
  - exists kept. split; reflexivity.
Qed.

End EntryPoint.

(** *** Two iteration orders *)

Section TwoOrders.
Variable re_search : regex -> string -> option (list string).
Variable set_iter1 : list string -> list string.
Variable set_iter2 : list string -> list string.

Lemma detect_parameter_changes_same_order
    (removed_lines added_lines : list string) :
  (forall l, set_iter1 l = set_iter2 l) ->
  _detect_parameter_changes re_search set_iter1 removed_lines added_lines
  = _detect_parameter_changes re_search set_iter2 removed_lines added_lines.
Proof.
  intros Hsame. unfold Regression._detect_parameter_changes. cbv zeta.
  rewrite Hsame. apply flat_map_ext. intros func_name.
  destruct (get _ func_name) as [r|]; [|reflexivity].
  destruct (get _ func_name) as [a|]; [|reflexivity].
  rewrite !Hsame. reflexivity.
Qed.

(** Invocations that iterate sets in the same order return the same
    list. *)
Lemma analyze_changes_same_order (self : RegressionDetector)
    (changes : list CodeChange) (context : Context) :
  (forall l, set_iter1 l = set_iter2 l) ->
  analyze_changes re_search set_iter1 self changes context
  = analyze_changes re_search set_iter2 self changes context.
Proof.
  intros Hsame. unfold Regression.analyze_changes, Regression.discovered.
  f_equal. f_equal. f_equal.
  - apply flat_map_ext. intros change.
    unfold Regression.analyze_change, Regression._analyze_modification,
      Regression._check_api_changes.
    rewrite (detect_parameter_changes_same_order _ _ Hsame). reflexivity.
  - unfold Regression._analyze_cross_file_impacts. rewrite Hsame.
    reflexivity.
Qed.

Hypothesis order1 : visits_each_once set_iter1.
Hypothesis order2 : visits_each_once set_iter2.

Lemma visits_permutation (l : list string) :
  Permutation (set_iter1 l) (set_iter2 l).
Proof.
  apply NoDup_Permutation; [apply order1|apply order2|].
  intros x. rewrite (proj2 (order1 l)), (proj2 (order2 l)). reflexivity.
Qed.

Lemma visits_nonempty (l : list string) :
  nonempty (set_iter1 l) = nonempty (set_iter2 l).
Proof.
  pose proof (visits_permutation l) as Hperm.
  destruct (set_iter1 l) as [|x xs]; destruct (set_iter2 l) as [|y ys];
    try reflexivity.
  - apply Permutation_nil in Hperm. discriminate.
  - apply Permutation_sym, Permutation_nil in Hperm. discriminate.
Qed.

(** The rules for one change emit the same risks under both orders; the
    risks about changed parameters may come in another order. *)
Lemma check_api_changes_permuted (self : RegressionDetector)
    (removed_lines added_lines : list string) (path : string) :
  Permutation
    (_check_api_changes re_search set_iter1 self removed_lines added_lines
       path)
    (_check_api_changes re_search set_iter2 self removed_lines added_lines
       path).
Proof.
  unfold Regression._check_api_changes. cbv zeta.
  apply Permutation_app_head.
  unfold Regression._detect_parameter_changes. cbv zeta.
  rewrite !map_over_flat_map.
  apply flat_map_permuted; [|apply visits_permutation].
  intros func_name.
  destruct (get _ func_name) as [r|]; [|reflexivity].
  destruct (get _ func_name) as [a|]; [|reflexivity].
  destruct (negb (list_eqb r a)); [|reflexivity].
  cbn [map function removed]. rewrite visits_nonempty. reflexivity.
Qed.

Lemma analyze_change_permuted (self : RegressionDetector)
    (context : Context) (change : CodeChange) :
  Permutation (analyze_change re_search set_iter1 self context change)
    (analyze_change re_search set_iter2 self context change).
Proof.
  unfold Regression.analyze_change.
  destruct (mem (change_type change) ["modify"; "delete"]);
    [|apply Permutation_refl].
  unfold Regression._analyze_modification. cbv zeta.
  apply Permutation_app_tail. apply check_api_changes_permuted.
Qed.

(** The rules across files emit the same risks; the components of the
    risk about several interfaces may come in another order. *)
Lemma cross_file_similar (changes : list CodeChange) (context : Context) :
  Forall2 same_up_to_component_order
    (_analyze_cross_file_impacts set_iter1 changes context)
    (_analyze_cross_file_impacts set_iter2 changes context).
Proof.
  unfold Regression._analyze_cross_file_impacts. cbv zeta.
  apply Forall2_app.
  - destruct (1 <? _)%nat; constructor; [|constructor].
    unfold same_up_to_component_order. cbn. repeat split.
    apply visits_permutation.
  - destruct (10 <? _)%nat; constructor; [|constructor].
    apply same_up_to_component_order_refl.
Qed.

Lemma Forall2_same_priorities (l1 l2 : list RegressionRisk) :
  Forall2 same_up_to_component_order l1 l2 ->
  map _risk_priority l1 = map _risk_priority l2.
Proof.
  induction 1 as [|r1 r2 l1 l2 Hr _ IH]; [reflexivity|].
  cbn [map]. rewrite IH, (same_up_to_component_order_priority _ _ Hr).
  reflexivity.
Qed.

(** ** C9 *)

(** C9, amended.  classifyRegressionRisks is deterministic up to the
    order in which the interpreter iterates sets.  For any list of
    changes and any context, two invocations on the same input return
    lists that hold the same risks, equal in every field but for the
    order of their affected components, and that carry the same
    priorities position by position: the lists differ at most in the
    order of risks of equal priority and in the order of the components
    of a risk.  When both invocations iterate sets in the same order, as
    within one interpreter run, the lists are identical in content and
    order. *)
Theorem classifier_is_deterministic_up_to_set_order
    (self : RegressionDetector) (changes : list CodeChange)
    (context : Context) :
  let out1 := analyze_changes re_search set_iter1 self changes context in
  let out2 := analyze_changes re_search set_iter2 self changes context in
  (exists reordered,
      Permutation out1 reordered
      /\ Forall2 same_up_to_component_order reordered out2)
  /\ map _risk_priority out1 = map _risk_priority out2
  /\ ((forall l, set_iter1 l = set_iter2 l) -> out1 = out2).
Proof.
  cbv zeta.
  set (per1 := flat_map (analyze_change re_search set_iter1 self context)
                 changes).
  set (per2 := flat_map (analyze_change re_search set_iter2 self context)
                 changes).
  set (cross1 := _analyze_cross_file_impacts set_iter1 changes context).
  set (cross2 := _analyze_cross_file_impacts set_iter2 changes context).
  assert (Hout1 : Permutation
                    (analyze_changes re_search set_iter1 self changes context)
                    (_deduplicate_risks per1 ++ cross1)).
  { unfold Regression.analyze_changes. rewrite discovered_deduplicated.
    apply Permutation_sym. apply sorted_reverse_perm. }
  assert (Hout2 : Permutation (_deduplicate_risks per2 ++ cross2)
                    (analyze_changes re_search set_iter2 self changes
                       context)).
  { unfold Regression.analyze_changes. rewrite discovered_deduplicated.
    apply sorted_reverse_perm. }
  assert (Hper : Permutation (_deduplicate_risks per1)
                   (_deduplicate_risks per2)).
  { apply dedup_blocks_permuted.
    - intros change _. apply analyze_change_permuted.
    - intros change r r' _. apply analyze_change_key_functional.
    - intros k. reflexivity. }
  assert (Hsimilar : Forall2 same_up_to_component_order
                       (_deduplicate_risks per2 ++ cross1)
                       (_deduplicate_risks per2 ++ cross2)).
  { apply Forall2_app; [|apply cross_file_similar].
    apply Forall2_same_refl. }
  assert (Hreordered :
            exists reordered,
              Permutation
                (analyze_changes re_search set_iter1 self changes context)
                reordered
              /\ Forall2 same_up_to_component_order reordered
                   (analyze_changes re_search set_iter2 self changes
                      context)).
  { destruct (Permutation_Forall2 Hout2 (Forall2_flip Hsimilar))
      as (reordered & Hperm & Hall).
    exists reordered. split.
    - apply (Permutation_trans Hout1).
      apply (Permutation_trans (Permutation_app_tail cross1 Hper)).
      exact Hperm.
    - apply Forall2_flip in Hall. exact Hall. }
  split; [exact Hreordered|]. split.
  - apply descending_unique.
    + apply descending_priorities. apply sorted_reverse_sorted.
    + apply descending_priorities. apply sorted_reverse_sorted.
    + destruct Hreordered as (reordered & Hperm & Hall).
      rewrite <- (Forall2_same_priorities _ _ Hall).
      apply Permutation_map. exact Hperm.
  - apply analyze_changes_same_order.
Qed.

End TwoOrders.

(** *** Concrete runs *)

Lemma insertion_order_visits_each_once : visits_each_once insertion_order.
Proof.
  intros l. split; [apply NoDup_nodup|]. intros x. apply nodup_In.
Qed.

Lemma reverse_order_visits_each_once : visits_each_once reverse_order.
Proof.
  intros l. unfold reverse_order. split.
  - apply NoDup_rev. apply NoDup_nodup.
  - intros x. rewrite <- in_rev. apply nodup_In.
Qed.

(** The two class changes under the two orders: the risk about several
    interfaces names the files in the order of the iteration. *)
Example two_class_changes_components :
  map affected_components
    (analyze_changes no_match insertion_order __init__ two_class_changes [])
  = [["shapes/a.py"; "shapes/b.py"]]
  /\ map affected_components
       (analyze_changes no_match reverse_order __init__ two_class_changes [])
     = [["shapes/b.py"; "shapes/a.py"]].
Proof. split; vm_compute; reflexivity. Qed.

(** C9, counterexample.  On the two class changes, an invocation that
    iterates the set of modified interfaces in insertion order and one
    that iterates it in the opposite order return different lists. *)
Lemma classifier_output_follows_the_set_order : ~ deterministic_across_runs.
Proof.
  intros Hdeterministic.
  specialize (Hdeterministic no_match insertion_order reverse_order __init__
                two_class_changes [] insertion_order_visits_each_once
                reverse_order_visits_each_once).
  vm_compute in Hdeterministic. discriminate.
Qed.

Lemma classifier_is_deterministic_up_to_set_order_witness :
  visits_each_once insertion_order
  /\ visits_each_once reverse_order
  /\ exists reordered,
       Permutation
         (analyze_changes no_match insertion_order __init__
            two_class_changes [])
         reordered
       /\ Forall2 same_up_to_component_order reordered
            (analyze_changes no_match reverse_order __init__
               two_class_changes []).
Proof.
  split; [exact insertion_order_visits_each_once|].
  split; [exact reverse_order_visits_each_once|].
  destruct (classifier_is_deterministic_up_to_set_order no_match
              insertion_order reverse_order insertion_order_visits_each_once
              reverse_order_visits_each_once __init__ two_class_changes [])
    as (Hreordered & _).
  exact Hreordered.
Defined.

Lemma analyze_changes_collapses_equal_set_keys_witness :
  In rename_risk
    (discovered no_match insertion_order __init__ renamed_twice [])
  /\ same_set_key rename_risk rename_risk = true
  /\ List.length
       (discovered no_match insertion_order __init__ renamed_twice [])
     = 2%nat
  /\ exists kept,
       filter (same_set_key rename_risk)
         (analyze_changes no_match insertion_order __init__ renamed_twice [])
       = [kept].
Proof.
  assert (Hin : In rename_risk
                  (discovered no_match insertion_order __init__
                     renamed_twice []))
    by (vm_compute; left; reflexivity).
  split; [exact Hin|]. split; [reflexivity|]. split; [reflexivity|].
  destruct (analyze_changes_collapses_equal_set_keys no_match
              insertion_order __init__ renamed_twice [] rename_risk
              rename_risk Hin Hin eq_refl)
    as (kept & Hkept & _).
  exists kept. exact Hkept.
Defined.

End ClassifierFacts.

(** ** The structural extractor and the service analysis *)

Module AnalyzerProperties.
Import Py Analyzer AnalyzerVocabulary NxFacts AnalyzerFacts.

(** *** Sums over a tree *)

Lemma size_positive (t : AST) : (1 <= size t)%nat.
Proof. rewrite size_children. lia. Qed.

Lemma child_size (c : AST) (l : list AST) :
  In c l -> (size c <= list_sum (map size l))%nat.
Proof.
  induction l as [|x l IH]; intros H; [destruct H|].
  cbn [map]. rewrite list_sum_cons. destruct H as [->|H]; [lia|].
  specialize (IH H). lia.
Qed.

Lemma sum_Z_nonneg {A : Type} (f : A -> Z) (l : list A) :
  (forall x, In x l -> (0 <= f x)%Z) -> (0 <= sum_Z (map f l))%Z.
Proof.
  induction l as [|x l IH]; intros H; cbn [map].
  - rewrite sum_Z_nil. lia.
  - rewrite sum_Z_cons.
    pose proof (H x (or_introl eq_refl)).
    assert (0 <= sum_Z (map f l))%Z
      by (apply IH; intros y Hy; apply H; right; exact Hy).
    lia.
Qed.

Lemma sum_Z_member {A : Type} (f : A -> Z) (l : list A) (c : A) :
  In c l -> (forall x, In x l -> (0 <= f x)%Z) ->
  (f c <= sum_Z (map f l))%Z.
Proof.
  induction l as [|x l IH]; intros Hc H; [destruct Hc|].
  cbn [map]. rewrite sum_Z_cons.
  assert (Hrest : (0 <= sum_Z (map f l))%Z)
    by (apply sum_Z_nonneg; intros y Hy; apply H; right; exact Hy).
  destruct Hc as [->|Hc].
  - lia.
  - pose proof (H x (or_introl eq_refl)).
    assert (f c <= sum_Z (map f l))%Z
      by (apply IH; [exact Hc|intros y Hy; apply H; right; exact Hy]).
    lia.
Qed.

Lemma sum_Z_le {A : Type} (f g : A -> Z) (l : list A) :
  (forall x, In x l -> (f x <= g x)%Z) ->
  (sum_Z (map f l) <= sum_Z (map g l))%Z.
Proof.
  induction l as [|x l IH]; intros H; cbn [map].
  - lia.
  - rewrite !sum_Z_cons.
    pose proof (H x (or_introl eq_refl)).
    assert (sum_Z (map f l) <= sum_Z (map g l))%Z
      by (apply IH; intros y Hy; apply H; right; exact Hy).
    lia.
Qed.

Lemma subtree_trans (n c t : AST) : subtree n c -> subtree c t -> subtree n t.
Proof.
  intros Hnc Hct. induction Hct as [|t c' Hin _ IH]; [exact Hnc|].
  apply (subtree_child n t c' Hin). exact IH.
Qed.

Lemma tree_sum_bounds (w1 w2 : AST -> Z) :
  forall (n : nat) (t : AST),
    (size t <= n)%nat ->
    (forall m, subtree m t -> (w1 m <= w2 m)%Z) ->
    (tree_sum w1 t <= tree_sum w2 t)%Z.
Proof.
  induction n as [|n IH]; intros t Hsize Hw.
  - pose proof (size_positive t). lia.
  - rewrite !tree_sum_children.
    pose proof (Hw t (subtree_refl t)) as Hroot.
    assert (sum_Z (map (tree_sum w1) (iter_child_nodes t))
            <= sum_Z (map (tree_sum w2) (iter_child_nodes t)))%Z.
    { apply sum_Z_le. intros c Hc. apply IH.
      - pose proof (child_size c _ Hc). rewrite size_children in Hsize. lia.
      - intros m Hm. apply Hw. apply (subtree_child m t c Hc Hm). }
    lia.
Qed.

Lemma tree_sum_zero (t : AST) : tree_sum (fun _ => 0%Z) t = 0%Z.
Proof.
  assert (H : forall (n : nat) (t : AST),
             (size t <= n)%nat -> tree_sum (fun _ => 0%Z) t = 0%Z).
  { clear t. induction n as [|n IH]; intros t Hsize.
    - pose proof (size_positive t). lia.
    - rewrite tree_sum_children.
      assert (Hs : forall l : list AST,
                 (forall c, In c l -> tree_sum (fun _ => 0%Z) c = 0%Z) ->
                 sum_Z (map (tree_sum (fun _ => 0%Z)) l) = 0%Z).
      { induction l as [|c l IHl]; intros Hl; cbn [map].
        - reflexivity.
        - rewrite sum_Z_cons, (Hl c (or_introl eq_refl)), IHl; [reflexivity|].
          intros c' Hc'. apply Hl. right. exact Hc'. }
      rewrite Hs; [reflexivity|].
      intros c Hc. apply IH.
      pose proof (child_size c _ Hc). rewrite size_children in Hsize. lia. }
  apply (H (size t)). lia.
Qed.

Lemma tree_sum_nonneg (w : AST -> Z) (t : AST) :
  (forall m, subtree m t -> (0 <= w m)%Z) -> (0 <= tree_sum w t)%Z.
Proof.
  intros Hw. rewrite <- (tree_sum_zero t).
  apply (tree_sum_bounds (fun _ => 0%Z) w (size t)); [lia|exact Hw].
Qed.

(** A weight that is never negative adds up to no less over a tree than
    over a node that occurs in it. *)
Lemma tree_sum_subtree (w : AST -> Z) (n t : AST) :
  subtree n t ->
  (forall m, subtree m t -> (0 <= w m)%Z) ->
  (tree_sum w n <= tree_sum w t)%Z.
Proof.
  induction 1 as [|t c Hin Hsub IH]; intros Hw; [lia|].
  assert (Hwc : forall m, subtree m c -> (0 <= w m)%Z).
  { intros m Hm. apply Hw. apply (subtree_child m t c Hin Hm). }
  specialize (IH Hwc).
  rewrite (tree_sum_children w t).
  pose proof (Hw t (subtree_refl t)) as Hroot.
  assert (tree_sum w c <= sum_Z (map (tree_sum w) (iter_child_nodes t)))%Z.
  { apply (sum_Z_member (tree_sum w)); [exact Hin|].
    intros x Hx. apply tree_sum_nonneg. intros m Hm. apply Hw.
    apply (subtree_child m t x Hx Hm). }
  lia.
Qed.

(** *** The walk *)

Lemma walk_queue_subtree (fuel : nat) :
  forall (todo : list AST) (n : AST),
    In n (walk_queue fuel todo) -> exists t, In t todo /\ subtree n t.
Proof.
  induction fuel as [|fuel IH]; intros todo n Hn; [destruct Hn|].
  destruct todo as [|node rest]; [destruct Hn|].
  cbn [walk_queue] in Hn. destruct Hn as [<-|Hn].
  - exists node. split; [left; reflexivity|apply subtree_refl].
  - destruct (IH _ _ Hn) as (t & Ht & Hsub).
    apply in_app_or in Ht. destruct Ht as [Ht|Ht].
    + exists t. split; [right; exact Ht|exact Hsub].
    + exists node. split; [left; reflexivity|].
      apply (subtree_child n node t Ht Hsub).
Qed.

Lemma walk_subtree (tree n : AST) : In n (walk tree) -> subtree n tree.
Proof.
  unfold walk. intros H. apply walk_queue_subtree in H.
  destruct H as (t & [<-|[]] & Hsub). exact Hsub.
Qed.

Lemma fold_sum_positive (w : AST -> Z) (l : list AST) :
  forall acc,
    (acc < fold_left (fun c node => (c + w node)%Z) l acc)%Z ->
    exists m, In m l /\ w m <> 0%Z.
Proof.
  induction l as [|x l IH]; intros acc H; cbn [fold_left] in H; [lia|].
  destruct (Z.eq_dec (w x) 0) as [Hz|Hnz].
  - rewrite Hz, Z.add_0_r in H. destruct (IH acc H) as (m & Hm & Hw).
    exists m. split; [right; exact Hm|exact Hw].
  - exists x. split; [left; reflexivity|exact Hnz].
Qed.

(** A node of positive weight that occurs in the tree is met by the
    walk, or another node of non-zero weight is. *)
Lemma walk_meets (w : AST -> Z) (tree n : AST) :
  subtree n tree ->
  (forall m, (0 <= w m)%Z) -> (0 < w n)%Z ->
  exists m, In m (walk tree) /\ w m <> 0%Z.
Proof.
  intros Hsub Hw Hn.
  apply (fold_sum_positive w (walk tree) 0%Z).
  rewrite walk_sum.
  pose proof (tree_sum_subtree w n tree Hsub (fun m _ => Hw m)).
  assert (w n <= tree_sum w n)%Z.
  { rewrite tree_sum_children.
    assert (0 <= sum_Z (map (tree_sum w) (iter_child_nodes n)))%Z.
    { apply sum_Z_nonneg. intros c _. apply tree_sum_nonneg.
      intros m _. apply Hw. }
    lia. }
  lia.
Qed.

(** *** The functions of a file *)

Lemma extract_functions_length (l : list AST) :
  forall acc,
    fold_left (fun c node => (c + function_weight node)%Z) l acc
    = (acc
       + Z.of_nat
           (List.length
              (flat_map
                 (fun node =>
                    match node with
                    | FunctionDef name args _ _ decorator_list returns
                        lineno =>
                        [mkFunctionFacts name args
                           (map _get_name decorator_list)
                           (option_map _get_name returns) lineno
                           (_calculate_function_complexity node)]
                    | _ => []
                    end)
                 l)))%Z.
Proof.
  induction l as [|x l IH]; intros acc; cbn [fold_left flat_map].
  - cbn. lia.
  - rewrite IH, length_app. destruct x; cbn [function_weight List.length];
      lia.
Qed.

(** X9.  [_extract_functions] reports one entry per function definition of
    the tree, whatever its depth: the number of entries is the number of
    [FunctionDef] nodes, those inside classes and inside other functions
    included. *)
Theorem extract_functions_counts_every_definition (tree : AST) :
  Z.of_nat (List.length (_extract_functions tree))
  = tree_sum function_weight tree.
Proof.
  unfold _extract_functions.
  pose proof (extract_functions_length (walk tree) 0%Z) as H.
  rewrite walk_sum in H. lia.
Qed.

(** X10.  A function definition that occurs anywhere in the tree is reported
    with its name, its parameters and its line. *)
Theorem nested_functions_are_reported
    (tree : AST) (name : string) (args : list string)
    (defaults body decorator_list : list AST) (returns : option AST)
    (lineno : Z) :
  subtree (FunctionDef name args defaults body decorator_list returns lineno)
    tree ->
  exists f,
    In f (_extract_functions tree)
    /\ fn_name f = name /\ fn_args f = args /\ fn_line_number f = lineno.
Proof.
  intros Hsub.
  destruct (walk_meets (is_function name args lineno) tree _ Hsub)
    as (m & Hm & Hw).
  - intros m. unfold is_function. destruct m; try lia.
    destruct (_ && _); lia.
  - cbn [is_function]. rewrite String.eqb_refl, Z.eqb_refl.
    rewrite (proj2 (RegressionFacts.list_eqb_true args args) eq_refl).
    reflexivity.
  - destruct m as [id|value attr|op values|name' args' defaults' body'
                   decos' returns' lineno'|cls children];
      cbn [is_function] in Hw; try congruence.
    destruct (String.eqb_spec name' name) as [Hname|_];
      [|cbn [andb] in Hw; congruence].
    destruct (list_eqb args' args) eqn:Hargs;
      [|cbn [andb] in Hw; congruence].
    destruct (Z.eqb_spec lineno' lineno) as [Hline|_];
      [|cbn [andb] in Hw; congruence].
    apply RegressionFacts.list_eqb_true in Hargs.
    eexists. split.
    + unfold _extract_functions. apply in_flat_map.
      exists (FunctionDef name' args' defaults' body' decos' returns'
                lineno').
      split; [exact Hm|left; reflexivity].
    + cbn. repeat split; assumption.
Qed.

Lemma branch_weight_nonneg (m : AST) : (0 <= branch_weight m)%Z.
Proof. unfold branch_weight. destruct (is_branching m); lia. Qed.

(** X11.  When every boolean operator of the tree has an operand, as in the
    trees the parser builds, no function of the file is reported with a
    complexity below 1 or above the complexity of the file. *)
Theorem function_complexity_within_file_complexity (tree : AST) :
  (forall op values, subtree (BoolOp op values) tree -> values <> []) ->
  Forall
    (fun f => (1 <= fn_complexity f <= _calculate_complexity tree)%Z)
    (_extract_functions tree).
Proof.
  intros Hbool. apply Forall_forall. intros f Hf.
  unfold _extract_functions in Hf. apply in_flat_map in Hf.
  destruct Hf as (node & Hnode & Hf).
  apply walk_subtree in Hnode.
  assert (Hweights : forall m, subtree m tree ->
                       (branch_weight m <= node_weight m)%Z).
  { intros m Hm. unfold branch_weight, node_weight.
    destruct (is_branching m); [lia|].
    destruct m as [| |op values| |]; try lia.
    specialize (Hbool op values Hm).
    destruct values; [congruence|]. cbn [List.length]. lia. }
  assert (Hcomplexity :
            (1 <= _calculate_function_complexity node
             <= _calculate_complexity tree)%Z).
  { rewrite calculate_function_complexity_spec, calculate_complexity_spec.
    unfold cyclomatic_complexity.
    pose proof (tree_sum_nonneg branch_weight node
                  (fun m _ => branch_weight_nonneg m)).
    pose proof (tree_sum_bounds branch_weight node_weight (size node) node
                  (Nat.le_refl _)
                  (fun m Hm => Hweights m (subtree_trans _ _ _ Hm Hnode))).
    pose proof (tree_sum_subtree node_weight node tree Hnode
                  (fun m Hm =>
                     Z.le_trans _ _ _ (branch_weight_nonneg m)
                       (Hweights m Hm))).
    lia. }
  destruct node; try (destruct Hf; fail).
  destruct Hf as [<-|[]]. exact Hcomplexity.
Qed.

(** *** Dotted names *)

Lemma append_assoc (s1 s2 s3 : string) :
  ((s1 ++ s2) ++ s3 = s1 ++ (s2 ++ s3))%string.
Proof.
  induction s1 as [|c s1 IH]; [reflexivity|]. cbn. rewrite IH. reflexivity.
Qed.

Lemma join_snoc (sep : string) (l : list string) (x a : string) :
  join sep ((x :: l) ++ [a]) = (join sep (x :: l) ++ sep ++ a)%string.
Proof.
  revert x. induction l as [|y l IH]; intros x.
  - reflexivity.
  - change (join sep ((x :: y :: l) ++ [a]))
      with (x ++ sep ++ join sep ((y :: l) ++ [a]))%string.
    rewrite IH.
    change (join sep (x :: y :: l)) with (x ++ sep ++ join sep (y :: l))%string.
    rewrite !append_assoc. reflexivity.
Qed.

(** X12.  [_get_name] renders a chain of attribute accesses on a name as the
    dotted path: [a.b.c] for the expression [a.b.c]. *)
Theorem get_name_of_dotted_path (base : string) (attrs : list string) :
  _get_name (dotted base attrs) = join "." (base :: attrs).
Proof.
  unfold dotted.
  induction attrs as [|a attrs IH] using rev_ind; [reflexivity|].
  rewrite fold_left_app. cbn [fold_left _get_name].
  rewrite IH. symmetry. apply (join_snoc "." attrs base a).
Qed.

(** *** The analysis of one service *)

Section ServiceProperties.
Variable os_walk : string -> string -> list (string * list string).
Variable set_iter : list string -> list string.
Variable code_analyzer : CodeAnalyzer.

Lemma add_file_facts_loop (rel_paths : list string) :
  forall analysis0,
    let s := fold_left (add_file_facts code_analyzer) rel_paths analysis0 in
    Service.name s = Service.name analysis0
    /\ Service.path s = Service.path analysis0
    /\ Service.total_lines s = Service.total_lines analysis0
    /\ Service.internal_calls s = Service.internal_calls analysis0
    /\ Service.files s
       = Service.files analysis0
         ++ filter (analysed code_analyzer) rel_paths
    /\ Service.complexity s
       = (Service.complexity analysis0
          + sum_Z (map (file_complexity code_analyzer)
                     (filter (analysed code_analyzer) rel_paths)))%Z
    /\ Service.api_endpoints s
       = Service.api_endpoints analysis0
         ++ flat_map (file_endpoints code_analyzer)
              (filter (analysed code_analyzer) rel_paths).
Proof.
  induction rel_paths as [|p l IH]; intros analysis0; cbv zeta.
  - cbn [fold_left filter map flat_map]. rewrite !app_nil_r, sum_Z_nil.
    repeat split; try reflexivity. lia.
  - cbn [fold_left filter].
    destruct (IH (add_file_facts code_analyzer analysis0 p))
      as (Hn & Hp & Ht & Hi & Hf & Hc & He).
    rewrite Hn, Hp, Ht, Hi, Hf, Hc, He.
    unfold add_file_facts, analysed, file_complexity, file_endpoints.
    destruct (analyze_file_of code_analyzer p) as [facts|message] eqn:Hfile.
    + cbn [Service.name Service.path Service.total_lines
             Service.internal_calls Service.files Service.complexity
             Service.api_endpoints map flat_map].
      rewrite sum_Z_cons, Hfile, <- !app_assoc.
      repeat split; try reflexivity. lia.
    + repeat split; reflexivity.
Qed.

Lemma length_append (s1 s2 : string) :
  String.length (s1 ++ s2) = (String.length s1 + String.length s2)%nat.
Proof.
  induction s1 as [|c s1 IH]; [reflexivity|]. cbn. rewrite IH. reflexivity.
Qed.

Lemma substring_append (s1 s2 : string) (k m : nat) :
  substring (String.length s1 + k) m (s1 ++ s2) = substring k m s2.
Proof.
  induction s1 as [|c s1 IH]; [reflexivity|]. cbn. exact IH.
Qed.

Lemma endswith_append (pre s suffix : string) :
  endswith s suffix = true -> endswith (pre ++ s) suffix = true.
Proof.
  unfold endswith. intros H. apply andb_true_iff in H.
  destruct H as [Hlen Heq]. apply Nat.leb_le in Hlen.
  rewrite length_append. apply andb_true_iff. split.
  - apply Nat.leb_le. lia.
  - replace (String.length pre + String.length s - String.length suffix)%nat
      with (String.length pre
            + (String.length s - String.length suffix))%nat by lia.
    rewrite substring_append. exact Heq.
Qed.

(** X13.  What [_analyze_service] records of a service.  The name and the
    path are those given; [total_lines] stays 0 and [internal_calls]
    stays empty, since no statement fills them; [files] lists Python
    files ([.py]) only, and only files that [analyze_file] analysed
    without error; the complexity of the service is the sum of the
    complexities of the listed files, and its endpoints are theirs, in
    file order. *)
Theorem analyze_service_records (service_name service_path : string) :
  let s :=
    _analyze_service os_walk set_iter code_analyzer service_name
      service_path in
  Service.name s = service_name
  /\ Service.path s = service_path
  /\ Service.total_lines s = 0%Z
  /\ Service.internal_calls s = []
  /\ Forall
       (fun p => endswith p ".py" = true /\ analysed code_analyzer p = true)
       (Service.files s)
  /\ Service.complexity s
     = sum_Z (map (file_complexity code_analyzer) (Service.files s))
  /\ Service.api_endpoints s
     = flat_map (file_endpoints code_analyzer) (Service.files s).
Proof.
  cbv zeta. unfold _analyze_service.
  cbn [Service.name Service.path Service.total_lines Service.internal_calls
         Service.files Service.complexity Service.api_endpoints].
  match goal with
  | |- context [fold_left _ ?paths ?init] =>
      destruct (add_file_facts_loop paths init)
        as (Hn & Hp & Ht & Hi & Hf & Hc & He);
      set (rel_paths := paths) in *
  end.
  rewrite Hn, Hp, Ht, Hi, Hf, Hc, He.
  cbn [Service.name Service.path Service.total_lines Service.internal_calls
         Service.files Service.complexity Service.api_endpoints app].
  repeat split; try reflexivity.
  apply Forall_forall. intros p Hp'. apply filter_In in Hp'.
  destruct Hp' as [Hin Hok]. split; [|exact Hok].
  subst rel_paths. apply in_flat_map in Hin.
  destruct Hin as (entry & _ & Hin). apply in_map_iff in Hin.
  destruct Hin as (file & <- & Hfile). apply filter_In in Hfile.
  destruct Hfile as [_ Hpy].
  apply endswith_append. apply endswith_append. exact Hpy.
Qed.

End ServiceProperties.

(** *** The smells of one service *)

Lemma Qlt_bool_iff (a b : Q) : Qlt_bool a b = true <-> (a < b)%Q.
Proof.
  unfold Qlt_bool. rewrite negb_true_iff. split.
  - intros H. apply Qnot_le_lt. intros Hle.
    apply Qle_bool_iff in Hle. congruence.
  - intros H. destruct (Qle_bool b a) eqn:E; [|reflexivity].
    apply Qle_bool_iff in E. exfalso. apply (Qlt_not_le _ _ H E).
Qed.

Lemma average_above (c m : Z) :
  (1 <= m)%Z ->
  Qlt_bool 10 (inject_Z c / inject_Z m) = true <-> (10 * m < c)%Z.
Proof.
  intros Hm. rewrite Qlt_bool_iff.
  assert (Hpos : (0 < inject_Z m)%Q).
  { unfold Qlt, inject_Z. simpl. lia. }
  split.
  - intros H.
    assert (H' : (10 * inject_Z m < inject_Z c)%Q).
    { apply (Qmult_lt_r _ _ (/ inject_Z m)).
      - apply Qinv_lt_0_compat. exact Hpos.
      - rewrite <- Qmult_assoc, Qmult_inv_r, Qmult_1_r.
        + exact H.
        + intros Hz. rewrite Hz in Hpos. apply (Qlt_irrefl 0). exact Hpos. }
    unfold Qlt, Qmult, inject_Z in H'. cbn [Qnum Qden Pos.mul] in H'. lia.
  - intros H. apply Qlt_shift_div_l; [exact Hpos|].
    unfold Qlt, Qmult, inject_Z. cbn [Qnum Qden Pos.mul]. lia.
Qed.

(** X14.  The two thresholds of [_detect_code_smells], for a service that
    references no table: the call returns; it reports a god service
    exactly when the service has more than 20 endpoints, and high
    complexity exactly when the complexity of the service exceeds ten
    times the number of its files (ten when it has no file); every smell
    is located at the service. *)
Theorem code_smell_thresholds
    (repr_set : list string -> string) (format_float : nat -> Q -> string)
    (service_name : string) (service_analysis : Service.t) :
  Service.database_tables service_analysis = [] ->
  exists smells,
    _detect_code_smells repr_set format_float service_name service_analysis
    = Return smells
    /\ (has_smell "god_service" smells = true
        <-> (20 < List.length (Service.api_endpoints service_analysis))%nat)
    /\ (has_smell "high_complexity" smells = true
        <-> (10 * Z.max
                    (Z.of_nat (List.length (Service.files service_analysis)))
                    1
             < Service.complexity service_analysis)%Z)
    /\ has_smell "shared_database" smells = false
    /\ Forall (fun s => location s = service_name) smells.
Proof.
  intros Htables. unfold _detect_code_smells. rewrite Htables.
  cbn [List.length]. change (0 <? 0)%nat with false. cbv iota.
  eexists. split; [reflexivity|].
  set (m := Z.max (Z.of_nat (List.length (Service.files service_analysis))) 1).
  assert (Hm : (1 <= m)%Z) by (subst m; lia).
  pose proof (average_above (Service.complexity service_analysis) m Hm)
    as Havg.
  destruct (Qlt_bool 10
              (inject_Z (Service.complexity service_analysis) / inject_Z m))
    eqn:Hc;
    destruct (Nat.ltb_spec 20
                (List.length (Service.api_endpoints service_analysis)))
      as [Hn|Hn];
    cbn [app has_smell existsb type String.eqb Ascii.eqb Bool.eqb orb];
    (split; [split; [intros; try discriminate; lia|intros; try reflexivity; lia]|]);
    (split; [split; [intros; try discriminate; apply Havg; reflexivity
                    |intros H; try reflexivity;
                     apply Havg in H; discriminate]|]);
    (split; [reflexivity|]);
    repeat constructor.
Qed.

(** *** The external systems of a file *)

Section ExtractorProperties.
Variable re_search : regex -> string -> bool.
Variable set_iter : list string -> list string.
Hypothesis set_order : visits_each_once set_iter.

(** X15.  [_extract_dependencies] names an external system exactly when the
    pattern of that system matches the file: the name is the text of the
    pattern before its first escaped dot.  The list holds no other name
    and no name twice. *)
Theorem extract_dependencies_names_matching_systems (content : string) :
  let found := _extract_dependencies re_search set_iter content in
  NoDup found
  /\ incl found
       ["requests"; "boto3"; "redis"; "psycopg2"; "pymongo"; "kafka";
        "celery"]
  /\ (In "requests" found <-> re_search requests_call content = true)
  /\ (In "boto3" found <-> re_search boto3_client content = true)
  /\ (In "redis" found <-> re_search redis_client content = true)
  /\ (In "psycopg2" found <-> re_search psycopg2_connect content = true)
  /\ (In "pymongo" found <-> re_search pymongo_client content = true)
  /\ (In "kafka" found <-> re_search kafka_producer content = true)
  /\ (In "celery" found <-> re_search celery_app content = true).
Proof.
  cbv zeta. unfold _extract_dependencies.
  match goal with
  | |- context [set_iter ?l] =>
      destruct (set_order l) as [Hnd Hin]; set (names := l) in *
  end.
  split; [exact Hnd|].
  assert (Hnames :
            forall x, In x names <->
              (x = "requests" /\ re_search requests_call content = true)
              \/ (x = "boto3" /\ re_search boto3_client content = true)
              \/ (x = "redis" /\ re_search redis_client content = true)
              \/ (x = "psycopg2"
                  /\ re_search psycopg2_connect content = true)
              \/ (x = "pymongo" /\ re_search pymongo_client content = true)
              \/ (x = "kafka" /\ re_search kafka_producer content = true)
              \/ (x = "celery" /\ re_search celery_app content = true)).
  { intros x. subst names. cbn [filter].
    destruct (re_search requests_call content),
      (re_search boto3_client content), (re_search redis_client content),
      (re_search psycopg2_connect content),
      (re_search pymongo_client content),
      (re_search kafka_producer content), (re_search celery_app content);
      vm_compute; intuition congruence. }
  split.
  { intros x Hx. apply Hin, Hnames in Hx. cbn [In].
    intuition congruence. }
  repeat split; intros H;
    try (apply Hin, Hnames in H; intuition congruence);
    apply Hin, Hnames; intuition congruence.
Qed.

End ExtractorProperties.

(** *** Single points of failure *)

Lemma half_below {A B : Type} (l : list A) (m : list B) :
  Qlt_bool (len_Q l * (1 # 2)) (len_Q m) = true
  <-> (List.length l < 2 * List.length m)%nat.
Proof.
  rewrite Qlt_bool_iff. unfold len_Q, Qlt, Qmult, inject_Z.
  cbn [Qnum Qden Pos.mul]. lia.
Qed.

Lemma high_coupling_risks_type (services : dict Service.t)
    (graph : Nx.DiGraph) (area : RiskArea) :
  In area (high_coupling_risks services graph) ->
  risk_type area = "high_coupling".
Proof.
  unfold high_coupling_risks. intros Hin.
  destruct (0 <? Nx.number_of_nodes graph)%nat; [|destruct Hin].
  apply in_flat_map in Hin. destruct Hin as (entry & _ & Hin).
  destruct (Qlt_bool _ _); [|destruct Hin].
  destruct Hin as [<-|[]]. reflexivity.
Qed.

(** X16.  The second rule of [_identify_risk_areas]: a service is reported as
    a single point of failure exactly when it is a service of the
    analysis and the dependencies that target it are more than half as
    many as the services, whatever the dependency graph holds. *)
Theorem single_point_of_failure_threshold
    (services : dict Service.t) (dependencies : list ServiceDependency)
    (graph : Nx.DiGraph) (name : string) :
  (exists area,
      In area (_identify_risk_areas services dependencies graph)
      /\ risk_type area = "single_point_of_failure"
      /\ risk_service area = name)
  <-> In name (keys services)
      /\ (List.length services
          < 2 * List.length
                  (filter (fun d => String.eqb (target d) name)
                     dependencies))%nat.
Proof.
  unfold _identify_risk_areas, single_point_of_failure_risks. split.
  - intros (area & Hin & Htype & Hname). apply in_app_or in Hin.
    destruct Hin as [Hin|Hin].
    { apply high_coupling_risks_type in Hin. rewrite Hin in Htype.
      discriminate. }
    apply in_flat_map in Hin.
    destruct Hin as ([service_name data] & Hservice & Harea).
    cbn [fst snd] in Harea.
    destruct (Qlt_bool _ _) eqn:Hhalf; [|destruct Harea].
    destruct Harea as [<-|[]]. cbn [risk_service] in Hname. subst name.
    split; [apply (in_map fst _ _ Hservice)|].
    apply half_below in Hhalf. rewrite length_map in Hhalf. exact Hhalf.
  - intros [Hkey Hhalf]. apply in_map_iff in Hkey.
    destruct Hkey as ([service_name data] & Hfst & Hservice).
    cbn [fst] in Hfst. subst service_name.
    eexists. split.
    + apply in_or_app. right. apply in_flat_map. exists (name, data).
      split; [exact Hservice|]. cbn [fst snd].
      rewrite (proj2 (half_below services
                        (map source
                           (filter (fun d => String.eqb (target d) name)
                              dependencies)))).
      * left. reflexivity.
      * rewrite length_map. exact Hhalf.
    + split; reflexivity.
Qed.

(** *** Concrete runs *)

Lemma nested_functions_are_reported_witness :
  subtree
    (FunctionDef "visit" ["item"] []
       [Node ast.For [Name "x"; Name "item"; Node ast.Return []]]
       [] None 3)
    nested_module
  /\ exists f,
       In f (_extract_functions nested_module)
       /\ fn_name f = "visit" /\ fn_args f = ["item"]
       /\ fn_line_number f = 3%Z.
Proof.
  assert (H : subtree
                (FunctionDef "visit" ["item"] []
                   [Node ast.For [Name "x"; Name "item"; Node ast.Return []]]
                   [] None 3)
                nested_module).
  { unfold nested_module.
    eapply subtree_child; [left; reflexivity|].
    eapply subtree_child; [left; reflexivity|].
    eapply subtree_child; [right; left; reflexivity|].
    apply subtree_refl. }
  split; [exact H|].
  exact (nested_functions_are_reported nested_module "visit" ["item"] []
           [Node ast.For [Name "x"; Name "item"; Node ast.Return []]]
           [] None 3 H).
Defined.

Lemma subtree_inv (n t : AST) :
  subtree n t ->
  n = t \/ exists c, In c (iter_child_nodes t) /\ subtree n c.
Proof.
  intros H. destruct H as [|t c Hin Hsub].
  - left. reflexivity.
  - right. exists c. split; assumption.
Qed.

(** The nodes that occur in a given tree: [occurrences H] splits
    [H : subtree n t], for a tree [t] that is given in full, into one goal
    per node of [t] that [n] can be. *)
Ltac occurrences H :=
  let c := fresh "c" in
  let Hin := fresh "Hin" in
  apply subtree_inv in H;
  destruct H as [H|(c & Hin & H)];
  [try discriminate H
  |cbn in Hin;
   repeat (destruct Hin as [Hin|Hin]; [subst c; occurrences H|]);
   try contradiction].

Lemma both_module_operands (op : ast.class) (values : list AST) :
  subtree (BoolOp op values) both_module -> values <> [].
Proof.
  intros H. unfold both_module, both_function in H.
  occurrences H. inversion H. discriminate.
Qed.

Lemma function_complexity_within_file_complexity_witness :
  (forall op values, subtree (BoolOp op values) both_module -> values <> [])
  /\ Forall
       (fun f => (1 <= fn_complexity f <= _calculate_complexity both_module)%Z)
       (_extract_functions both_module).
Proof.
  split; [exact both_module_operands|].
  exact (function_complexity_within_file_complexity both_module
           both_module_operands).
Defined.

Lemma code_smell_thresholds_witness :
  Service.database_tables busy_service = []
  /\ exists smells,
       _detect_code_smells (join ", ") demo_format_float "orders" busy_service
       = Return smells
       /\ (has_smell "god_service" smells = true
           <-> (20 < List.length (Service.api_endpoints busy_service))%nat)
       /\ (has_smell "high_complexity" smells = true
           <-> (10 * Z.max
                       (Z.of_nat (List.length (Service.files busy_service)))
                       1
                < Service.complexity busy_service)%Z)
       /\ has_smell "shared_database" smells = false
       /\ Forall (fun s => location s = "orders") smells.
Proof.
  split; [reflexivity|].
  apply (code_smell_thresholds (join ", ") demo_format_float "orders"
           busy_service).
  reflexivity.
Defined.

Lemma demo_set_iter_visits_each_once : visits_each_once demo_set_iter.
Proof.
  intros l. unfold demo_set_iter. split.
  - apply NoDup_nodup.
  - intros x. apply nodup_In.
Qed.

Lemma extract_dependencies_names_matching_systems_witness :
  visits_each_once demo_set_iter
  /\ (In "requests"
         (_extract_dependencies demo_re_search demo_set_iter user_source)
       <-> demo_re_search requests_call user_source = true).
Proof.
  split; [exact demo_set_iter_visits_each_once|].
  destruct (extract_dependencies_names_matching_systems demo_re_search
              demo_set_iter demo_set_iter_visits_each_once user_source)
    as (_ & _ & H & _).
  exact H.
Defined.

End AnalyzerProperties.

(** ** The planner: ordering, priorities, risks and groups *)

Module PlannerProperties.
Import Py Nx NxFacts Planner PlannerFacts PlannerVocabulary.

(** *** The dependency ordering *)

(** X17.  [_order_by_dependencies] always returns: it raises nothing, whatever
    the steps, and it emits no warning.  Every step it returns is one of
    the steps given, and when the ids of the steps are unique the result
    is a permutation of them: no step is lost and none is repeated. *)
Theorem order_by_dependencies_always_returns (steps : list RefactorStep) :
  exists ordered,
    _order_by_dependencies steps = mkOutcome (Return ordered) []
    /\ (forall s, In s ordered -> In s steps)
    /\ (NoDup (map id steps) -> Permutation steps ordered).
Proof.
  unfold _order_by_dependencies.
  destruct (topological_sort_correct (dependency_graph steps)
              (dependency_graph_well_formed steps))
    as [(l & Hs & Hnd & Hnodes & _)|[Hs _]]; rewrite Hs.
  - exists (steps_of_ids (step_map_of steps) l).
    split; [reflexivity|]. split.
    + intros s Hin. apply (steps_of_ids_In steps l s Hin).
    + intros Hunique.
      rewrite <- (steps_of_ids_all steps Hunique steps (incl_refl steps))
        at 1.
      unfold steps_of_ids. apply Permutation_flat_map.
      apply NoDup_Permutation; [exact Hunique|exact Hnd|].
      intros v. rewrite Hnodes, dependency_graph_nodes, in_map_iff.
      split; intros (s & H1 & H2); exists s; split; assumption.
  - exists steps. split; [reflexivity|]. split.
    + intros s Hin. exact Hin.
    + intros _. apply Permutation_refl.
Qed.

(** The step that the step map holds for an id is the last step of the
    list that carries the id. *)
Lemma step_map_last (l : list RefactorStep) :
  forall (m0 : dict RefactorStep) (k : string) (s : RefactorStep),
    get (fold_left (fun m step => set m (id step) step) l m0) k = Some s
    <-> (exists l1 l2,
            l = l1 ++ s :: l2 /\ id s = k
            /\ forall t, In t l2 -> id t <> k)
        \/ (get m0 k = Some s /\ forall t, In t l -> id t <> k).
Proof.
  induction l as [|a l IH]; intros m0 k s; cbn [fold_left].
  - split.
    + intros H. right. split; [exact H|intros t []].
    + intros [(l1 & l2 & H & _)|[H _]]; [|exact H].
      destruct l1; discriminate.
  - rewrite IH. split.
    + intros [(l1 & l2 & Hl & Hid & Hlast)|[Hget Hnone]].
      * left. exists (a :: l1), l2. split; [rewrite Hl; reflexivity|].
        split; assumption.
      * destruct (string_dec (id a) k) as [Heq|Hne].
        -- subst k. rewrite get_set_eq in Hget. inversion Hget; subst a.
           left. exists [], l. split; [reflexivity|].
           split; [reflexivity|exact Hnone].
        -- rewrite get_set_neq in Hget by exact Hne.
           right. split; [exact Hget|].
           intros t [<-|Ht]; [exact Hne|apply Hnone; exact Ht].
    + intros [(l1 & l2 & Hl & Hid & Hlast)|[Hget Hnone]].
      * destruct l1 as [|b l1]; cbn [app] in Hl; inversion Hl; subst.
        -- right. split; [apply get_set_eq|exact Hlast].
        -- left. exists l1, l2. split; [reflexivity|].
           split; [reflexivity|exact Hlast].
      * right. split.
        -- rewrite get_set_neq; [exact Hget|].
           apply Hnone. left. reflexivity.
        -- intros t Ht. apply Hnone. right. exact Ht.
Qed.

Lemma step_map_of_last (steps : list RefactorStep) (s : RefactorStep) :
  get (step_map_of steps) (id s) = Some s <-> last_of_its_id steps s.
Proof.
  unfold step_map_of, last_of_its_id. rewrite step_map_last. split.
  - intros [(l1 & l2 & Hl & _ & Hlast)|[H _]]; [|discriminate].
    exists l1, l2. split; assumption.
  - intros (l1 & l2 & Hl & Hlast). left. exists l1, l2.
    split; [exact Hl|]. split; [reflexivity|exact Hlast].
Qed.

(** X18.  When several steps carry one id and the steps are not cyclic, the
    ordering keeps one step per id, the last one given: the ids of the
    result are pairwise different, and a step is in the result exactly
    when no later step of the list has its id.  Earlier steps of a
    repeated id are dropped. *)
Theorem ordering_keeps_last_step_of_each_id (steps : list RefactorStep) :
  ~ cyclic steps ->
  exists ordered,
    returned (_order_by_dependencies steps) = Return ordered
    /\ NoDup (map id ordered)
    /\ forall s, In s ordered <-> last_of_its_id steps s.
Proof.
  intros Hc.
  destruct (order_when_acyclic steps Hc) as (l & (Hnd & Hnodes & _) & Hrun).
  exists (steps_of_ids (step_map_of steps) l).
  rewrite Hrun. split; [reflexivity|].
  assert (Hids : map id (steps_of_ids (step_map_of steps) l) = l).
  { apply steps_of_ids_ids. intros v Hv.
    apply dependency_graph_nodes. apply Hnodes. exact Hv. }
  split; [rewrite Hids; exact Hnd|].
  intros s. rewrite <- step_map_of_last. unfold steps_of_ids.
  rewrite in_flat_map. split.
  - intros (v & Hv & Hs).
    destruct (get (step_map_of steps) v) as [s'|] eqn:Hg; [|destruct Hs].
    destruct Hs as [<-|[]].
    destruct (step_map_of_get steps v s' Hg) as [_ Hid].
    rewrite Hid. exact Hg.
  - intros Hg. exists (id s). split.
    + apply Hnodes. apply dependency_graph_nodes.
      exists s. split; [|reflexivity].
      apply (step_map_of_get steps (id s) s Hg).
    + rewrite Hg. left. reflexivity.
Qed.

(** *** Steps without a dependency among them *)

Lemma filter_all {A : Type} (f : A -> bool) (l : list A) :
  (forall x, In x l -> f x = true) -> filter f l = l.
Proof.
  induction l as [|a l IH]; intros H; [reflexivity|].
  cbn [filter]. rewrite (H a (or_introl eq_refl)). f_equal.
  apply IH. intros x Hx. apply H. right. exact Hx.
Qed.

Lemma filter_none {A : Type} (f : A -> bool) (l : list A) :
  (forall x, In x l -> f x = false) -> filter f l = [].
Proof.
  induction l as [|a l IH]; intros H; [reflexivity|].
  cbn [filter]. rewrite (H a (or_introl eq_refl)).
  apply IH. intros x Hx. apply H. right. exact Hx.
Qed.

Lemma visit_generation_without_edges (g : DiGraph)
    (generation : list string) :
  edges g = [] ->
  incl generation (nodes g) ->
  visit_generation g generation [] [] = Return ([], []).
Proof.
  intros He. induction generation as [|v l IH]; intros Hincl;
    [reflexivity|].
  cbn [visit_generation].
  rewrite (proj2 (mem_In v (nodes g)) (Hincl v (or_introl eq_refl))).
  cbn [negb]. unfold neighbors. rewrite He. cbn [filter map relax bind fst snd].
  apply IH. intros x Hx. apply Hincl. right. exact Hx.
Qed.

(** On a graph without edges the sort returns the nodes as they were
    added. *)
Lemma topological_sort_without_edges (g : DiGraph) :
  edges g = [] -> topological_sort g = Return (nodes g).
Proof.
  intros He. unfold topological_sort, topological_generations.
  assert (Hdeg : forall v, in_degree g v = 0%nat).
  { intros v. unfold in_degree. rewrite He. reflexivity. }
  rewrite (filter_none (fun v => (0 <? in_degree g v)%nat))
    by (intros v _; rewrite Hdeg; reflexivity).
  rewrite (filter_all (fun v => (in_degree g v =? 0)%nat))
    by (intros v _; rewrite Hdeg; reflexivity).
  cbn [map]. unfold number_of_nodes.
  destruct (nodes g) as [|v l] eqn:Hn; [reflexivity|].
  cbn [List.length generations_loop].
  rewrite (visit_generation_without_edges g (v :: l) He)
    by (rewrite Hn; apply incl_refl).
  cbn [bind fst snd].
  destruct (List.length l); cbn [generations_loop bind List.concat];
    rewrite app_nil_r; reflexivity.
Qed.

Lemma add_dependency_unmatched (step_map : dict RefactorStep)
    (step_id : string) (g : DiGraph) (dep : string) :
  (forall k, In k (keys step_map) -> dep_matches dep k = false) ->
  add_dependency step_map step_id g dep = g.
Proof.
  unfold add_dependency, dep_matches. intros H.
  destruct (endswith dep "*").
  - induction (keys step_map) as [|k ks IH]; [reflexivity|].
    cbn [fold_left]. rewrite (H k (or_introl eq_refl)).
    apply IH. intros k' Hk'. apply H. right. exact Hk'.
  - destruct (has_key step_map dep) eqn:Hk; [|reflexivity].
    apply has_key_In in Hk. specialize (H dep Hk).
    rewrite String.eqb_refl in H. discriminate.
Qed.

Lemma add_nodes_fresh (ids : list string) :
  forall g,
    NoDup (nodes g ++ ids) ->
    fold_left add_node ids g = mkDiGraph (nodes g ++ ids) (edges g).
Proof.
  induction ids as [|v l IH]; intros g Hnd; cbn [fold_left].
  - rewrite app_nil_r. destruct g; reflexivity.
  - assert (Hfresh : mem v (nodes g) = false).
    { apply mem_false. intros Hin.
      apply NoDup_remove_2 in Hnd. apply Hnd.
      apply in_or_app. left. exact Hin. }
    unfold add_node at 2. rewrite Hfresh. rewrite IH.
    + cbn [nodes edges]. rewrite <- app_assoc. reflexivity.
    + cbn [nodes]. rewrite <- app_assoc. exact Hnd.
Qed.

Lemma fold_left_ext_in {A B : Type} (f g : A -> B -> A) (l : list B) :
  (forall a b, In b l -> f a b = g a b) ->
  forall a, fold_left f l a = fold_left g l a.
Proof.
  induction l as [|b l IH]; intros H a; [reflexivity|].
  cbn [fold_left]. rewrite (H a b (or_introl eq_refl)).
  apply IH. intros a' b' Hb'. apply H. right. exact Hb'.
Qed.

Lemma fold_left_map_ids (steps : list RefactorStep) :
  forall g,
    fold_left (fun g step => add_node g (id step)) steps g
    = fold_left add_node (map id steps) g.
Proof.
  induction steps as [|s l IH]; intros g; [reflexivity|].
  cbn [fold_left map]. apply IH.
Qed.

(** X19.  A dependency that designates no step of the list adds no edge and
    raises no error: when no step depends on a step of the list and the
    ids are unique, the steps come back in the order they were given. *)
Theorem unmatched_dependencies_are_ignored (steps : list RefactorStep) :
  NoDup (map id steps) ->
  (forall A B, In A steps -> In B steps -> ~ depends_on B A) ->
  _order_by_dependencies steps = mkOutcome (Return steps) [].
Proof.
  intros Hunique Hnone.
  assert (Hgraph : dependency_graph steps = mkDiGraph (map id steps) []).
  { unfold dependency_graph.
    rewrite (fold_left_ext_in (add_step (step_map_of steps))
               (fun g step => add_node g (id step))).
    - rewrite fold_left_map_ids. apply (add_nodes_fresh (map id steps) empty).
      exact Hunique.
    - intros g B HB. unfold add_step.
      generalize (add_node g (id B)). intros g'.
      assert (Hdeps : forall dep, In dep (dependencies B) ->
                        forall k, In k (keys (step_map_of steps)) ->
                          dep_matches dep k = false).
      { intros dep Hdep k Hk. apply step_map_of_keys in Hk.
        destruct Hk as (A & HA & Hid).
        destruct (dep_matches dep k) eqn:Hm; [|reflexivity].
        exfalso. apply (Hnone A B HA HB). exists dep.
        split; [exact Hdep|].
        apply (dep_matches_depends dep k A Hid). exact Hm. }
      induction (dependencies B) as [|dep deps IH]; [reflexivity|].
      cbn [fold_left]. rewrite add_dependency_unmatched.
      + apply IH. intros d Hd. apply Hdeps. right. exact Hd.
      + apply Hdeps. left. reflexivity. }
  unfold _order_by_dependencies. rewrite Hgraph.
  rewrite topological_sort_without_edges by reflexivity.
  cbn [nodes].
  rewrite (steps_of_ids_all steps Hunique steps (incl_refl steps)).
  reflexivity.
Qed.


(** *** Priorities *)

Section AscendingSort.
Context {A : Type} (key : A -> Z).

Lemma insert_asc_perm (x : A) (l : list A) :
  Permutation (x :: l) (insert_asc key x l).
Proof.
  induction l as [|y l IH]; cbn [insert_asc].
  - apply Permutation_refl.
  - destruct (key x <? key y)%Z.
    + apply Permutation_refl.
    + eapply perm_trans; [apply perm_swap|].
      apply perm_skip. exact IH.
Qed.

Lemma insert_asc_sorted (x : A) (l : list A) :
  StronglySorted (ascending key) l ->
  StronglySorted (ascending key) (insert_asc key x l).
Proof.
  induction 1 as [|y l Hs IH Hall]; cbn [insert_asc].
  - constructor; constructor.
  - destruct (Z.ltb_spec (key x) (key y)) as [Hlt|Hge].
    + constructor.
      * constructor; assumption.
      * constructor; [unfold ascending; lia|].
        eapply Forall_impl; [|exact Hall].
        unfold ascending; intros; lia.
    + constructor; [exact IH|].
      eapply Permutation_Forall; [apply insert_asc_perm|].
      constructor; [unfold ascending; lia|exact Hall].
Qed.

(** In a sorted list an element goes behind the elements of its key. *)
Lemma insert_asc_stable (p : Z) (x : A) (l : list A) :
  StronglySorted (ascending key) l ->
  filter (fun a => (key a =? p)%Z) (insert_asc key x l)
  = filter (fun a => (key a =? p)%Z) (l ++ [x]).
Proof.
  induction 1 as [|y l Hs IH Hall]; [reflexivity|].
  cbn [insert_asc].
  destruct (Z.ltb_spec (key x) (key y)) as [Hlt|Hge].
  - cbn [filter app].
    destruct (Z.eqb_spec (key x) p) as [Hx|Hx].
    + destruct (Z.eqb_spec (key y) p) as [Hy|_]; [lia|].
      rewrite filter_app. cbn [filter].
      rewrite (proj2 (Z.eqb_eq _ _) Hx).
      rewrite (filter_none (fun a => (key a =? p)%Z) l); [reflexivity|].
      intros a Ha. apply Z.eqb_neq.
      pose proof (proj1 (Forall_forall _ _) Hall a Ha) as Hya.
      unfold ascending in Hya. lia.
    + rewrite filter_app. cbn [filter].
      rewrite (proj2 (Z.eqb_neq _ _) Hx), app_nil_r. reflexivity.
  - cbn [filter app]. rewrite IH. reflexivity.
Qed.

Lemma sorted_loop (l : list A) :
  forall acc,
    StronglySorted (ascending key) acc ->
    let out := fold_left (fun acc x => insert_asc key x acc) l acc in
    StronglySorted (ascending key) out
    /\ Permutation (acc ++ l) out
    /\ forall p,
         filter (fun a => (key a =? p)%Z) out
         = filter (fun a => (key a =? p)%Z) (acc ++ l).
Proof.
  induction l as [|x l IH]; intros acc Hacc; cbv zeta; cbn [fold_left].
  - rewrite app_nil_r. split; [exact Hacc|].
    split; [apply Permutation_refl|reflexivity].
  - destruct (IH (insert_asc key x acc) (insert_asc_sorted x acc Hacc))
      as (Hs & Hp & Hf).
    split; [exact Hs|]. split.
    + eapply perm_trans; [|exact Hp].
      pose proof (Permutation_app_tail l (insert_asc_perm x acc)) as Hxa.
      eapply perm_trans; [|exact Hxa].
      cbn [app]. apply Permutation_sym. apply Permutation_middle.
    + intros p. rewrite Hf, !filter_app.
      rewrite (insert_asc_stable p x acc Hacc), filter_app.
      cbn [filter]. rewrite <- app_assoc.
      destruct (key x =? p)%Z; reflexivity.
Qed.

End AscendingSort.

Lemma set_Forall {V : Type} (P : string * V -> Prop) (d : dict V)
    (k : string) (v : V) :
  Forall P d -> P (k, v) -> Forall P (set d k v).
Proof.
  induction 1 as [|[k' v'] d Hhead Htail IH]; intros Hnew; cbn [set].
  - constructor; [exact Hnew|constructor].
  - destruct (String.eqb k k').
    + constructor; assumption.
    + constructor; [exact Hhead|apply IH; exact Hnew].
Qed.

Lemma priority_map_loop (priorities : list string) :
  forall st : dict Z * Z,
    (0 <= snd st)%Z ->
    Forall (fun e => (0 <= snd e < snd st)%Z) (fst st) ->
    let st' :=
      fold_left
        (fun st p => (set (fst st) p (snd st), (snd st + 1)%Z))
        priorities st in
    snd st' = (snd st + Z.of_nat (List.length priorities))%Z
    /\ Forall (fun e => (0 <= snd e < snd st')%Z) (fst st').
Proof.
  induction priorities as [|p l IH]; intros st Hpos Hall; cbv zeta;
    cbn [fold_left].
  - cbn [List.length]. split; [lia|exact Hall].
  - destruct (IH (set (fst st) p (snd st), (snd st + 1)%Z)) as [Hn Hf].
    + cbn [snd]. lia.
    + cbn [fst snd]. apply set_Forall.
      * eapply Forall_impl; [|exact Hall]. intros e He. cbv beta in He. lia.
      * cbn [snd]. lia.
    + cbn [snd] in Hn. split; [|exact Hf].
      rewrite Hn. cbn [List.length]. lia.
Qed.

Lemma first_match_bound (step : RefactorStep) (entries : list (string * Z))
    (default bound : Z) :
  Forall (fun e => (0 <= snd e < bound)%Z) entries ->
  (0 <= default <= bound)%Z ->
  (0 <= first_match step entries default <= bound)%Z.
Proof.
  induction 1 as [|[p i] entries Hhead _ IH]; intros Hd; cbn [first_match].
  - exact Hd.
  - destruct (contains (type_value (type step)) p
              || contains (lower (description step)) p).
    + cbn [snd] in Hhead. lia.
    + apply IH. exact Hd.
Qed.

Lemma set_In {V : Type} (d : dict V) (k : string) (v : V)
    (e : string * V) :
  In e (set d k v) -> e = (k, v) \/ In e d.
Proof.
  induction d as [|[k' v'] d IH]; cbn [set].
  - intros [H|[]]. left. symmetry. exact H.
  - destruct (String.eqb k k').
    + intros [H|H]; [left; symmetry; exact H|right; right; exact H].
    + intros [H|H]; [right; left; exact H|].
      destruct (IH H) as [H'|H']; [left; exact H'|right; right; exact H'].
Qed.

Lemma set_fresh {V : Type} (d : dict V) (k : string) (v : V) :
  ~ In k (keys d) -> set d k v = d ++ [(k, v)].
Proof.
  induction d as [|[k' v'] d IH]; intros Hfresh; [reflexivity|].
  cbn [set app]. destruct (String.eqb_spec k k') as [Heq|Hne].
  - exfalso. apply Hfresh. left. symmetry. exact Heq.
  - f_equal. apply IH. intros Hin. apply Hfresh. right. exact Hin.
Qed.

(** What [get_priority] returns: the index of the first entry of the
    priority map that matches, or the default when none does. *)
Lemma first_match_cases (step : RefactorStep) (entries : list (string * Z))
    (default : Z) :
  (first_match step entries default = default
   /\ forall e, In e entries -> matches_priority (fst e) step = false)
  \/ exists p i,
       In (p, i) entries /\ matches_priority p step = true
       /\ first_match step entries default = i.
Proof.
  induction entries as [|[p i] entries IH]; cbn [first_match].
  - left. split; [reflexivity|intros e []].
  - change (contains (type_value (type step)) p
            || contains (lower (description step)) p)
      with (matches_priority p step).
    destruct (matches_priority p step) eqn:Hmatch.
    + right. exists p, i.
      split; [left; reflexivity|]. split; [exact Hmatch|reflexivity].
    + destruct IH as [[Hdefault Hnone]|(q & j & Hin & Hq & Hfirst)].
      * left. split; [exact Hdefault|].
        intros e [<-|He]; [exact Hmatch|apply Hnone; exact He].
      * right. exists q, j.
        split; [right; exact Hin|]. split; [exact Hq|exact Hfirst].
Qed.

(** An entry of the priority map holds a priority and one of its
    positions in the list. *)
Lemma priority_map_loop_entries (rest : list string) :
  forall (done : list string) (d : dict Z),
    (forall p i, In (p, i) d ->
       (0 <= i)%Z /\ nth_error done (Z.to_nat i) = Some p) ->
    forall p i,
      In (p, i)
        (fst (fold_left
                (fun st p => (set (fst st) p (snd st), (snd st + 1)%Z))
                rest (d, Z.of_nat (List.length done)))) ->
      (0 <= i)%Z /\ nth_error (done ++ rest) (Z.to_nat i) = Some p.
Proof.
  induction rest as [|p0 rest IH]; intros done d Hd p i Hin;
    cbn [fold_left fst snd] in Hin.
  - rewrite app_nil_r. apply Hd. exact Hin.
  - replace (done ++ p0 :: rest) with ((done ++ [p0]) ++ rest)
      by (rewrite <- app_assoc; reflexivity).
    apply (IH (done ++ [p0]) (set d p0 (Z.of_nat (List.length done)))).
    + intros q j Hq. apply set_In in Hq. destruct Hq as [Heq|Hq].
      * injection Heq as Hq Hj. subst q j. split; [lia|].
        rewrite Nat2Z.id, nth_error_app2 by lia.
        rewrite Nat.sub_diag. reflexivity.
      * destruct (Hd q j Hq) as [Hj Hnth]. split; [exact Hj|].
        rewrite nth_error_app1; [exact Hnth|].
        apply nth_error_Some. congruence.
    + replace (Z.of_nat (List.length (done ++ [p0])))
        with (Z.of_nat (List.length done) + 1)%Z
        by (rewrite length_app; cbn [List.length]; lia).
      exact Hin.
Qed.

Lemma priority_map_entries (priorities : list string) (p : string) (i : Z) :
  In (p, i) (priority_map_of priorities) ->
  (0 <= i)%Z /\ nth_error priorities (Z.to_nat i) = Some p.
Proof.
  unfold priority_map_of. intros Hin.
  apply (priority_map_loop_entries priorities [] []); [intros q j []|].
  exact Hin.
Qed.

(** Every priority is a key of the priority map. *)
Lemma priority_map_loop_keys (rest : list string) :
  forall (st : dict Z * Z) (p : string),
    In p (keys (fst st)) \/ In p rest ->
    In p
      (keys
         (fst (fold_left
                 (fun st p => (set (fst st) p (snd st), (snd st + 1)%Z))
                 rest st))).
Proof.
  induction rest as [|p0 rest IH]; intros st p Hp; cbn [fold_left].
  - destruct Hp as [Hp|[]]. exact Hp.
  - apply IH. cbn [fst]. destruct Hp as [Hp|[Hp|Hp]].
    + left. apply keys_set_In. right. exact Hp.
    + left. apply keys_set_In. left. symmetry. exact Hp.
    + right. exact Hp.
Qed.

Lemma priority_map_keys (priorities : list string) (p : string) :
  In p priorities -> exists i, In (p, i) (priority_map_of priorities).
Proof.
  intros Hp. unfold priority_map_of.
  pose proof (priority_map_loop_keys priorities ([], 0%Z) p
                (or_intror Hp)) as Hkey.
  unfold keys in Hkey. apply in_map_iff in Hkey.
  destruct Hkey as ([q i] & Hq & Hin). cbn [fst] in Hq. subst q.
  exists i. exact Hin.
Qed.

(** The priority map of a list without repetition: the priorities with
    their positions, in list order. *)
Lemma indexed_app (l : list string) :
  forall (k : Z) (p : string),
    indexed k (l ++ [p])
    = indexed k l ++ [(p, (k + Z.of_nat (List.length l))%Z)].
Proof.
  induction l as [|q l IH]; intros k p; cbn [app indexed List.length].
  - rewrite Z.add_0_r. reflexivity.
  - rewrite IH.
    replace (k + Z.of_nat (S (List.length l)))%Z
      with (k + 1 + Z.of_nat (List.length l))%Z by lia.
    reflexivity.
Qed.

Lemma keys_indexed (l : list string) : forall k, keys (indexed k l) = l.
Proof.
  induction l as [|q l IH]; intros k; [reflexivity|].
  cbn [indexed]. unfold keys in *. cbn [map fst]. rewrite IH. reflexivity.
Qed.

Lemma priority_map_loop_unique (rest : list string) :
  forall done,
    NoDup (done ++ rest) ->
    fold_left (fun st p => (set (fst st) p (snd st), (snd st + 1)%Z))
      rest (indexed 0 done, Z.of_nat (List.length done))
    = (indexed 0 (done ++ rest), Z.of_nat (List.length (done ++ rest))).
Proof.
  induction rest as [|p0 rest IH]; intros done Hunique; cbn [fold_left].
  - rewrite app_nil_r. reflexivity.
  - cbn [fst snd]. rewrite set_fresh.
    + rewrite <- (Z.add_0_l (Z.of_nat (List.length done))) at 1.
      rewrite <- indexed_app.
      replace (Z.of_nat (List.length done) + 1)%Z
        with (Z.of_nat (List.length (done ++ [p0])))
        by (rewrite length_app; cbn [List.length]; lia).
      rewrite IH by (rewrite <- app_assoc; exact Hunique).
      rewrite <- app_assoc. reflexivity.
    + rewrite keys_indexed. intros Hin.
      apply (NoDup_remove_2 _ _ _ Hunique). apply in_or_app. left.
      exact Hin.
Qed.

Lemma priority_map_unique (priorities : list string) :
  NoDup priorities -> priority_map_of priorities = indexed 0 priorities.
Proof.
  intros Hunique.
  exact (f_equal fst (priority_map_loop_unique priorities [] Hunique)).
Qed.

Lemma first_match_indexed (step : RefactorStep) (default : Z)
    (l : list string) :
  forall (k : Z) (i : nat) (p : string),
    nth_error l i = Some p ->
    matches_priority p step = true ->
    (first_match step (indexed k l) default <= k + Z.of_nat i)%Z.
Proof.
  induction l as [|q l IH]; intros k i p Hnth Hmatch.
  - destruct i; discriminate.
  - cbn [indexed first_match].
    change (contains (type_value (type step)) q
            || contains (lower (description step)) q)
      with (matches_priority q step).
    destruct i as [|i]; cbn [nth_error] in Hnth.
    + injection Hnth as ->. rewrite Hmatch. lia.
    + destruct (matches_priority q step); [lia|].
      specialize (IH (k + 1)%Z i p Hnth Hmatch). lia.
Qed.

(** X20.  [_prioritize_steps], for steps whose descriptions are ASCII
    text, is a stable sort by rank: the result is a permutation of the
    steps in ascending rank, and steps of equal rank keep their order.
    The rank of a step is the number of priorities exactly when no
    priority matches the step; a smaller rank is a position of a
    priority that matches; and when no priority is given twice, it is
    the position of the first priority that matches. *)
Theorem prioritize_steps_is_a_stable_sort
    (steps : list RefactorStep) (priorities : list string) :
  forallb (fun s => is_ascii (description s)) steps = true ->
  let rank := get_priority priorities in
  let out := _prioritize_steps steps priorities in
  let n := Z.of_nat (List.length priorities) in
  Permutation steps out
  /\ StronglySorted (ascending rank) out
  /\ (forall p,
        filter (fun s => (rank s =? p)%Z) out
        = filter (fun s => (rank s =? p)%Z) steps)
  /\ (forall s,
        In s steps ->
        (0 <= rank s <= n)%Z
        /\ (rank s = n
            <-> forall p, In p priorities -> matches_priority p s = false)
        /\ ((rank s < n)%Z ->
            exists p,
              nth_error priorities (Z.to_nat (rank s)) = Some p
              /\ matches_priority p s = true)
        /\ (NoDup priorities ->
            forall i p,
              nth_error priorities i = Some p ->
              matches_priority p s = true ->
              (rank s <= Z.of_nat i)%Z)).
Proof.
  intros _. cbv zeta. unfold _prioritize_steps, sorted.
  destruct (sorted_loop (get_priority priorities) steps []
              (SSorted_nil _)) as (Hs & Hp & Hf).
  cbn [app] in Hp, Hf.
  split; [exact Hp|]. split; [exact Hs|]. split; [exact Hf|].
  intros s _.
  assert (Hbound : (0 <= get_priority priorities s
                    <= Z.of_nat (List.length priorities))%Z).
  { unfold get_priority, priority_map_of.
    destruct (priority_map_loop priorities ([], 0%Z)) as [Hn Hall].
    - cbn [snd]. lia.
    - constructor.
    - cbn [snd] in Hn. rewrite Hn in Hall. cbn [Z.add] in Hall.
      apply first_match_bound; [exact Hall|lia]. }
  assert (Hentry : forall p i,
             In (p, i) (priority_map_of priorities) ->
             (0 <= i < Z.of_nat (List.length priorities))%Z
             /\ nth_error priorities (Z.to_nat i) = Some p).
  { intros p i Hin. destruct (priority_map_entries _ _ _ Hin) as [Hi Hnth].
    split; [|exact Hnth].
    assert (Hlt : (Z.to_nat i < List.length priorities)%nat)
      by (apply nth_error_Some; congruence).
    lia. }
  split; [exact Hbound|].
  unfold get_priority in *.
  destruct (first_match_cases s (priority_map_of priorities)
              (Z.of_nat (List.length priorities)))
    as [[Hdefault Hnone]|(q & j & Hin & Hq & Hfirst)].
  - split; [|split].
    + split; [|intros _; exact Hdefault].
      intros _ p Hpin. destruct (priority_map_keys _ _ Hpin) as [i Hi].
      apply (Hnone (p, i) Hi).
    + intros Hlt. rewrite Hdefault in Hlt. lia.
    + intros _ i p Hnth Hmatch. exfalso.
      destruct (priority_map_keys _ _ (nth_error_In _ _ Hnth)) as [k Hk].
      pose proof (Hnone (p, k) Hk) as Hno. cbn [fst] in Hno.
      rewrite Hno in Hmatch. discriminate.
  - destruct (Hentry q j Hin) as [Hj Hnth]. split; [|split].
    + split.
      * intros Hn. rewrite Hfirst in Hn. lia.
      * intros Hnone. rewrite (Hnone q (nth_error_In _ _ Hnth)) in Hq.
        discriminate.
    + intros _. exists q. rewrite Hfirst.
      split; [exact Hnth|exact Hq].
    + intros Hunique i p Hi Hmatch.
      rewrite (priority_map_unique priorities Hunique).
      apply (first_match_indexed s _ priorities 0%Z i p Hi Hmatch).
Qed.

(** The three described steps under the two sample priorities. *)
Example described_steps_prioritized :
  map (fun s => (id s, get_priority sample_priorities s))
    (_prioritize_steps described_steps sample_priorities)
  = [("schema", 0%Z); ("routes", 1%Z); ("imports", 2%Z)].
Proof. vm_compute. reflexivity. Qed.

Lemma prioritize_steps_is_a_stable_sort_witness :
  forallb (fun s => is_ascii (description s)) described_steps = true
  /\ Permutation described_steps
       (_prioritize_steps described_steps sample_priorities)
  /\ StronglySorted (ascending (get_priority sample_priorities))
       (_prioritize_steps described_steps sample_priorities).
Proof.
  split; [reflexivity|].
  destruct (prioritize_steps_is_a_stable_sort described_steps
              sample_priorities eq_refl)
    as (Hperm & Hsorted & _).
  split; [exact Hperm|exact Hsorted].
Defined.

(** *** The risk assessment *)

Lemma count_risk_get (level : string) (steps : list RefactorStep) :
  forall d,
    count_of (fold_left count_risk steps d) level
    = (count_of d level + count_level level steps)%Z.
Proof.
  unfold count_level.
  induction steps as [|s l IH]; intros d; cbn [fold_left filter].
  - cbn [List.length]. lia.
  - rewrite IH. unfold count_risk, count_of.
    destruct (String.eqb_spec (risk_level s) level) as [Heq|Hne].
    + rewrite Heq. destruct (get d level); rewrite get_set_eq;
        cbn [List.length]; lia.
    + destruct (get d (risk_level s)); rewrite get_set_neq by exact Hne;
        lia.
Qed.

Lemma sum_values_set (d : dict Z) (k : string) (v : Z) :
  Analyzer.sum_Z (map snd (set d k v))
  = (Analyzer.sum_Z (map snd d) - count_of d k + v)%Z.
Proof.
  unfold count_of.
  induction d as [|[k' v'] d IH]; cbn [set get map].
  - rewrite !AnalyzerFacts.sum_Z_cons, AnalyzerFacts.sum_Z_nil. cbn [snd].
    lia.
  - destruct (String.eqb k k'); cbn [map snd];
      rewrite !AnalyzerFacts.sum_Z_cons; [lia|].
    rewrite IH. lia.
Qed.

Lemma sum_values_count (steps : list RefactorStep) :
  forall d,
    Analyzer.sum_Z (map snd (fold_left count_risk steps d))
    = (Analyzer.sum_Z (map snd d) + Z.of_nat (List.length steps))%Z.
Proof.
  induction steps as [|s l IH]; intros d; cbn [fold_left].
  - cbn [List.length]. lia.
  - rewrite IH. unfold count_risk at 1.
    destruct (get d (risk_level s)) as [n|] eqn:Hg;
      rewrite sum_values_set; unfold count_of; rewrite Hg;
      cbn [List.length]; lia.
Qed.

Lemma risk_score_count (steps : list RefactorStep) :
  Analyzer.sum_Z
    (map
       (fun s =>
          if String.eqb (risk_level s) "high" then 3%Z
          else if String.eqb (risk_level s) "medium" then 2%Z
          else 1%Z)
       steps)
  = (Z.of_nat (List.length steps) + 2 * count_level "high" steps
     + count_level "medium" steps)%Z.
Proof.
  unfold count_level.
  induction steps as [|s l IH]; [reflexivity|].
  cbn [map filter]. rewrite AnalyzerFacts.sum_Z_cons, IH.
  destruct (String.eqb_spec (risk_level s) "high") as [Hh|Hh].
  - rewrite Hh. cbn [String.eqb Ascii.eqb Bool.eqb List.length]. lia.
  - destruct (String.eqb (risk_level s) "medium"); cbn [List.length]; lia.
Qed.

Lemma count_level_bound (level : string) (steps : list RefactorStep) :
  (0 <= count_level level steps <= Z.of_nat (List.length steps))%Z.
Proof.
  unfold count_level. pose proof (filter_length_le
    (fun s => String.eqb (risk_level s) level) steps). lia.
Qed.

Lemma count_levels_disjoint (steps : list RefactorStep) :
  (count_level "high" steps + count_level "medium" steps
   <= Z.of_nat (List.length steps))%Z.
Proof.
  unfold count_level. induction steps as [|s l IH]; [cbn; lia|].
  cbn [filter].
  destruct (String.eqb_spec (risk_level s) "high") as [Hh|Hh].
  - rewrite Hh. cbn [String.eqb Ascii.eqb Bool.eqb List.length]. lia.
  - destruct (String.eqb (risk_level s) "medium"); cbn [List.length]; lia.
Qed.

(** X21.  The risk assessment of a plan counts every step once: the risk
    distribution holds, per risk level, the number of steps of that level,
    and its counts add up to the number of steps; [high_risk_count] is
    the count of the level high; the total risk score is the number of
    steps plus twice the high ones plus the medium ones, so it lies
    between the number of steps and three times that number. *)
Theorem plan_risk_assessment_counts
    (all_simple_paths : DiGraph -> string -> string -> list (list string))
    (steps : list RefactorStep) (analysis : Analyzer.ArchitectureAnalysis) :
  let assessment := _assess_plan_risks all_simple_paths steps analysis in
  let n := Z.of_nat (List.length steps) in
  (forall level,
      count_of (risk_distribution assessment) level
      = count_level level steps)
  /\ Analyzer.sum_Z (map snd (risk_distribution assessment)) = n
  /\ Z.of_nat (high_risk_count assessment) = count_level "high" steps
  /\ total_risk_score assessment
     = (n + 2 * count_level "high" steps + count_level "medium" steps)%Z
  /\ (n <= total_risk_score assessment <= 3 * n)%Z.
Proof.
  cbv zeta. unfold _assess_plan_risks.
  cbn [risk_distribution high_risk_count total_risk_score].
  split; [intros level; rewrite count_risk_get; reflexivity|].
  split; [rewrite sum_values_count; reflexivity|].
  split; [reflexivity|].
  rewrite risk_score_count. split; [reflexivity|].
  pose proof (count_level_bound "high" steps).
  pose proof (count_level_bound "medium" steps).
  pose proof (count_levels_disjoint steps). lia.
Qed.


(** *** Services that share a database *)

(** The names of the services that a test selects are pairwise
    different when the names of all the services are. *)
Lemma selected_names_unique {V : Type} (selected : string * V -> bool)
    (services : dict V) :
  NoDup (keys services) -> NoDup (map fst (filter selected services)).
Proof.
  unfold keys. induction services as [|entry rest IH]; intros Hunique.
  - constructor.
  - cbn [map] in Hunique. apply NoDup_cons_iff in Hunique.
    destruct Hunique as [Hfresh Hrest]. cbn [filter].
    destruct (selected entry); [|exact (IH Hrest)].
    cbn [map]. apply NoDup_cons; [|exact (IH Hrest)].
    intros Hin. apply Hfresh. apply in_map_iff in Hin.
    destruct Hin as (other & Hname & Hother).
    apply filter_In in Hother. rewrite <- Hname.
    apply in_map. exact (proj1 Hother).
Qed.

Lemma nonempty_filter {A : Type} (p : A -> bool) (l : list A) :
  nonempty (filter p l) = true -> exists x, In x l /\ p x = true.
Proof.
  induction l as [|a l IH]; cbn [filter]; [discriminate|].
  destruct (p a) eqn:Hp.
  - intros _. exists a. split; [left; reflexivity|exact Hp].
  - intros H. destruct (IH H) as (x & Hx & Hpx).
    exists x. split; [right; exact Hx|exact Hpx].
Qed.

(** X22.  The groups of [_find_services_with_shared_db], for an analysis whose
    service names are unique, as the keys of a dictionary are: no service
    is put in two groups or twice in a group; every group holds at least
    two services of the analysis, and each service of a group but the
    first references a table that the first one references too. *)
Theorem shared_db_groups_are_disjoint
    (analysis : Analyzer.ArchitectureAnalysis) :
  NoDup (keys (Analyzer.services analysis)) ->
  let groups := _find_services_with_shared_db analysis in
  NoDup (List.concat groups)
  /\ Forall (shared_group (Analyzer.services analysis)) groups.
Proof.
  intros Hkeys. cbv zeta. unfold _find_services_with_shared_db.
  set (services := Analyzer.services analysis) in *.
  match goal with
  | |- context [fold_left ?f services ?init] => set (step := f)
  end.
  set (inv := fun st : list (list string) * list string =>
                snd st = List.concat (fst st)
                /\ NoDup (snd st)
                /\ Forall (shared_group services) (fst st)).
  assert (Hloop : forall l st,
             incl l services -> inv st -> inv (fold_left step l st)).
  { induction l as [|[service1 data1] l IH]; intros st Hincl Hinv;
      [exact Hinv|].
    cbn [fold_left]. apply IH; [intros x Hx; apply Hincl; right; exact Hx|].
    assert (Hentry : In (service1, data1) services)
      by (apply Hincl; left; reflexivity).
    destruct Hinv as (Hconcat & Hnd & Hgroups).
    subst step. cbv beta. cbn [fst snd].
    destruct (mem service1 (snd st)) eqn:Hseen;
      [split; [exact Hconcat|split; assumption]|].
    match goal with
    | |- context [map fst (filter ?c services)] =>
        set (cond := c); set (members := map fst (filter cond services))
    end.
    destruct (1 <? List.length (service1 :: members))%nat eqn:Hlen;
      [|split; [exact Hconcat|split; assumption]].
    assert (Hmember : forall m,
               In m members ->
               exists data2,
                 In (m, data2) services /\ cond (m, data2) = true).
    { intros m Hm. subst members. apply in_map_iff in Hm.
      destruct Hm as ([m' data2] & Hfst & Hin). cbn [fst] in Hfst.
      subst m'. apply filter_In in Hin. exists data2. exact Hin. }
    unfold inv. cbn [fst snd]. split; [|split].
    - rewrite concat_app, Hconcat. cbn [List.concat].
      rewrite app_nil_r. reflexivity.
    - apply NoDup_app; [exact Hnd| |].
      + constructor.
        * intros Hin. destruct (Hmember _ Hin) as (data2 & _ & Hc).
          subst cond. cbn [fst snd] in Hc.
          rewrite String.eqb_refl in Hc. discriminate.
        * subst members. apply selected_names_unique. exact Hkeys.
      + intros a Ha [Heq|Hin].
        * subst a. apply mem_false in Hseen. contradiction.
        * destruct (Hmember _ Hin) as (data2 & _ & Hc).
          subst cond. cbn [fst snd] in Hc.
          apply andb_true_iff in Hc. destruct Hc as [Hc _].
          apply andb_true_iff in Hc. destruct Hc as [_ Hc].
          apply negb_true_iff, mem_false in Hc. contradiction.
    - apply Forall_app. split; [exact Hgroups|].
      constructor; [|constructor].
      split; [apply Nat.ltb_lt in Hlen; lia|]. split.
      + intros a [<-|Hin].
        * apply (in_map fst _ _ Hentry).
        * destruct (Hmember _ Hin) as (data2 & Hin2 & _).
          apply (in_map fst _ _ Hin2).
      + exists service1, members. split; [reflexivity|].
        intros m Hm. destruct (Hmember _ Hm) as (data2 & Hin2 & Hc).
        subst cond. cbn [fst snd] in Hc.
        apply andb_true_iff in Hc. destruct Hc as [_ Hc].
        apply nonempty_filter in Hc. destruct Hc as (t & Ht1 & Ht2).
        apply mem_In in Ht2.
        exists data1, data2, t. repeat split; assumption. }
  destruct (Hloop services ([], []) (incl_refl services))
    as (Hconcat & Hnd & Hgroups).
  - unfold inv. cbn [fst snd List.concat].
    split; [reflexivity|]. split; constructor.
  - rewrite <- Hconcat. split; assumption.
Qed.

(** *** The plan *)

(** X23.  [create_refactoring_plan] always returns a plan, whatever the
    analysis, the target architecture, the safety level and the
    priorities: the generated steps never form a cycle, so no exception
    is raised, and no warning is emitted.  The plan carries the target
    and the safety level given; its steps are generated steps; its total
    effort is the sum of their efforts; and every step of the plan stands
    after the steps of the plan it depends on. *)
Theorem create_plan_always_returns
    (repr_list : list string -> string) (format_float : nat -> Q -> string)
    (new_uuid now : string)
    (all_simple_paths : DiGraph -> string -> string -> list (list string))
    (analysis : Analyzer.ArchitectureAnalysis) (target : string)
    (safety : SafetyLevel) (priorities : option (list string)) :
  exists plan,
    create_refactoring_plan repr_list format_float new_uuid now
      all_simple_paths analysis target safety priorities
    = mkOutcome (Return plan) []
    /\ plan_id plan = new_uuid
    /\ target_architecture plan = target
    /\ safety_level plan = safety
    /\ (forall s, In s (steps plan) ->
          In s (generated_steps repr_list analysis target safety))
    /\ total_effort plan = Analyzer.sum_Z (map estimated_effort (steps plan))
    /\ (forall A B,
          In A (steps plan) -> In B (steps plan) -> depends_on B A ->
          before (map id (steps plan)) (id A) (id B)).
Proof.
  pose proof (generated_steps_not_cyclic repr_list analysis target safety
                priorities) as Hacyclic.
  destruct (order_when_acyclic _ Hacyclic)
    as (l & (Hnd & Hnodes & Hord) & Hrun).
  unfold create_refactoring_plan. rewrite Hrun. cbn [returned emitted].
  eexists. split; [reflexivity|].
  cbn [plan_id target_architecture safety_level steps total_effort].
  assert (Hin : forall s,
             In s (steps_of_ids
                     (step_map_of
                        (presorted_steps repr_list analysis target safety
                           priorities)) l) ->
             In s (presorted_steps repr_list analysis target safety
                     priorities))
    by (intros s Hs; apply (steps_of_ids_In _ l s Hs)).
  repeat split.
  - intros s Hs. apply Hin in Hs. unfold presorted_steps in Hs.
    destruct priorities as [[|p ps]|]; try exact Hs.
    apply (sorted_In _ _ _ Hs).
  - intros A B HA HB Hdep. rewrite steps_of_ids_ids.
    + apply Hord. apply dependency_graph_edges.
      exists A, B. repeat split; auto.
    + intros v Hv. apply dependency_graph_nodes. apply Hnodes. exact Hv.
Qed.



(** *** The domain-driven plan *)

Lemma prefix_empty (s : string) : String.prefix EmptyString s = true.
Proof. destruct s; reflexivity. Qed.

Lemma presorted_steps_In (repr_list : list string -> string)
    (analysis : Analyzer.ArchitectureAnalysis) (target : string)
    (safety : SafetyLevel) (priorities : option (list string))
    (s : RefactorStep) :
  In s (generated_steps repr_list analysis target safety) ->
  In s (presorted_steps repr_list analysis target safety priorities).
Proof.
  intros Hs. unfold presorted_steps.
  destruct priorities as [[|p ps]|]; try exact Hs.
  unfold _prioritize_steps, sorted.
  destruct (sorted_loop (get_priority (p :: ps))
              (generated_steps repr_list analysis target safety) []
              (SSorted_nil _)) as (_ & Hperm & _).
  apply (Permutation_in s Hperm). exact Hs.
Qed.

(** X24.  The plan for the target domain-driven, whatever the analysis, the
    safety level and the priorities: the aggregates are implemented
    before the domain events and before the repositories, and after the
    bounded contexts of every service of more than ten endpoints have
    been extracted. *)
Theorem domain_driven_plan_is_staged
    (repr_list : list string -> string) (format_float : nat -> Q -> string)
    (new_uuid now : string)
    (all_simple_paths : DiGraph -> string -> string -> list (list string))
    (analysis : Analyzer.ArchitectureAnalysis) (safety : SafetyLevel)
    (priorities : option (list string)) :
  exists plan,
    returned
      (create_refactoring_plan repr_list format_float new_uuid now
         all_simple_paths analysis "domain-driven" safety priorities)
    = Return plan
    /\ before (map id (steps plan))
         "implement-aggregates" "create-domain-events"
    /\ before (map id (steps plan))
         "implement-aggregates" "implement-repositories"
    /\ forall service_name service_data,
         In (service_name, service_data) (Analyzer.services analysis) ->
         (10 < List.length (Analyzer.Service.api_endpoints service_data))%nat ->
         before (map id (steps plan))
           ("extract-context-" ++ service_name)%string
           "implement-aggregates".
Proof.
  set (generated :=
         presorted_steps repr_list analysis "domain-driven" safety
           priorities).
  pose proof (generated_steps_not_cyclic repr_list analysis "domain-driven"
                safety priorities) as Hacyclic.
  destruct (order_when_acyclic _ Hacyclic)
    as (l & (Hnd & Hnodes & Hord) & Hrun).
  fold generated in Hrun, Hnodes, Hord.
  unfold create_refactoring_plan. fold generated. rewrite Hrun.
  cbn [returned emitted]. eexists. split; [reflexivity|]. cbn [steps].
  rewrite steps_of_ids_ids
    by (intros v Hv; apply dependency_graph_nodes, Hnodes; exact Hv).
  assert (Hfixed : forall s,
             In s
               [mkStep "implement-aggregates" RESTRUCTURE
                  "Implement DDD aggregates and entities" []
                  ["extract-context-*"] 24 "low" None
                  ["Verify aggregate boundaries";
                   "Check invariant enforcement";
                   "Validate entity relationships"]
                  (Some "refactor: implement DDD aggregates and entities");
                mkStep "create-domain-events" RESTRUCTURE
                  "Implement domain events for cross-aggregate communication"
                  [] ["implement-aggregates"] 16 "medium" None
                  ["Verify event publishing"; "Check event handling";
                   "Validate event sourcing if applicable"]
                  (Some
                     "feat: add domain events for aggregate communication");
                mkStep "implement-repositories" INTERFACE_EXTRACTION
                  "Create repository interfaces and implementations" []
                  ["implement-aggregates"] 12 "low" None
                  ["Verify data access patterns";
                   "Check repository contracts";
                   "Validate persistence logic"]
                  (Some
                     "refactor: implement repository pattern for data access")] ->
             In s generated).
  { intros s Hs. subst generated. apply presorted_steps_In.
    unfold generated_steps. cbn [String.eqb Ascii.eqb Bool.eqb].
    unfold _plan_ddd_migration. apply in_or_app. right. exact Hs. }
  assert (Hedge : forall A B,
             In A generated -> In B generated -> depends_on B A ->
             before l (id A) (id B)).
  { intros A B HA HB Hdep. apply Hord. apply dependency_graph_edges.
    exists A, B. repeat split; assumption. }
  split; [|split].
  - eapply (Hedge _ _ (Hfixed _ (or_introl eq_refl))
              (Hfixed _ (or_intror (or_introl eq_refl)))).
    exists "implement-aggregates". split; [left; reflexivity|].
    left. reflexivity.
  - eapply (Hedge _ _ (Hfixed _ (or_introl eq_refl))
              (Hfixed _ (or_intror (or_intror (or_introl eq_refl))))).
    exists "implement-aggregates". split; [left; reflexivity|].
    left. reflexivity.
  - intros service_name service_data Hservice Hmany.
    assert (Hcontext :
              In (mkStep ("extract-context-" ++ service_name) SPLIT_SERVICE
                    ("Extract bounded contexts from " ++ service_name)
                    (Analyzer.Service.files service_data) [] 16 "medium"
                    None
                    ["Verify all endpoints still function";
                     "Check data consistency"; "Validate domain boundaries"]
                    (Some ("refactor: extract bounded contexts from "
                           ++ service_name)%string))
                 generated).
    { subst generated. apply presorted_steps_In.
      unfold generated_steps. cbn [String.eqb Ascii.eqb Bool.eqb].
      unfold _plan_ddd_migration. apply in_or_app. left.
      apply in_flat_map. exists (service_name, service_data).
      split; [exact Hservice|]. cbn [fst snd].
      rewrite (proj2 (Nat.ltb_lt _ _) Hmany). left. reflexivity. }
    eapply (Hedge _ _ Hcontext (Hfixed _ (or_introl eq_refl))).
    exists "extract-context-*". split; [left; reflexivity|].
    right. split; [reflexivity|]. cbn [id].
    unfold startswith.
    change (drop_last "extract-context-*") with "extract-context-".
    cbn. apply prefix_empty.
Qed.


(** *** The event-driven and the microservices plan *)

(** X25.  The plan for the target event-driven: the step that converts a
    synchronous call, generated for every api dependency of strength
    above one half, stands after the broker set-up, and, when the safety
    level is not low, before the event sourcing, which waits for all the
    conversions. *)
Theorem event_driven_plan_is_staged
    (repr_list : list string -> string) (format_float : nat -> Q -> string)
    (new_uuid now : string)
    (all_simple_paths : DiGraph -> string -> string -> list (list string))
    (analysis : Analyzer.ArchitectureAnalysis) (safety : SafetyLevel)
    (priorities : option (list string)) :
  exists plan,
    returned
      (create_refactoring_plan repr_list format_float new_uuid now
         all_simple_paths analysis "event-driven" safety priorities)
    = Return plan
    /\ forall dep,
         In dep (Analyzer.analysis_dependencies analysis) ->
         Analyzer.dependency_type dep = "api" ->
         Analyzer.Qlt_bool (1 # 2) (Analyzer.strength dep) = true ->
         before (map id (steps plan)) "setup-message-broker"
           ("async-" ++ Analyzer.source dep ++ "-"
            ++ Analyzer.target dep)%string
         /\ (is_low safety = false ->
             before (map id (steps plan))
               ("async-" ++ Analyzer.source dep ++ "-"
                ++ Analyzer.target dep)%string
               "implement-event-sourcing").
Proof.
  destruct (create_plan_always_ordered repr_list format_float new_uuid now
              all_simple_paths analysis "event-driven" safety priorities)
    as (plan & Hplan & Hord).
  exists plan. split; [exact Hplan|].
  intros dep Hdep Hapi Hstrong.
  assert (Hgen : forall s,
             In s (_plan_event_driven_migration analysis safety) ->
             In s (presorted_steps repr_list analysis "event-driven" safety
                     priorities)).
  { intros s Hs. apply presorted_steps_In. exact Hs. }
  assert (Hbroker :
            exists s, In s (_plan_event_driven_migration analysis safety)
                      /\ id s = "setup-message-broker").
  { eexists. split; [left; reflexivity|reflexivity]. }
  assert (Hasync :
            exists s, In s (_plan_event_driven_migration analysis safety)
                      /\ id s
                         = ("async-" ++ Analyzer.source dep ++ "-"
                            ++ Analyzer.target dep)%string
                      /\ dependencies s = ["setup-message-broker"]).
  { eexists. split.
    - unfold _plan_event_driven_migration. cbn [app]. right.
      apply in_or_app. left.
      apply in_flat_map. exists dep. split; [exact Hdep|].
      rewrite Hapi, Hstrong. cbn [String.eqb Ascii.eqb Bool.eqb andb].
      left. reflexivity.
    - split; reflexivity. }
  destruct Hbroker as (broker & Hbroker & Hbid).
  destruct Hasync as (async & Hasync & Haid & Hadeps).
  split.
  - rewrite <- Hbid, <- Haid.
    apply (Hord broker async (Hgen _ Hbroker) (Hgen _ Hasync)).
    exists "setup-message-broker". rewrite Hadeps.
    split; [left; reflexivity|]. left. symmetry. exact Hbid.
  - intros Hlow.
    assert (Hsourcing :
              exists s, In s (_plan_event_driven_migration analysis safety)
                        /\ id s = "implement-event-sourcing"
                        /\ dependencies s = ["async-*"]).
    { eexists. split.
      - unfold _plan_event_driven_migration. cbn [app]. right.
      apply in_or_app. right.
        rewrite Hlow. left. reflexivity.
      - split; reflexivity. }
    destruct Hsourcing as (sourcing & Hsourcing & Hsid & Hsdeps).
    rewrite <- Hsid, <- Haid.
    apply (Hord async sourcing (Hgen _ Hasync) (Hgen _ Hsourcing)).
    exists "async-*". rewrite Hsdeps. split; [left; reflexivity|].
    right. split; [reflexivity|]. rewrite Haid.
    change (drop_last "async-*") with "async-". unfold startswith.
    cbn. apply prefix_empty.
Qed.

(** X26.  The plan for the target microservices at the safety level high: the
    service mesh is set up after the API of every service that has an
    endpoint without a version has been versioned. *)
Theorem service_mesh_follows_api_versioning
    (repr_list : list string -> string) (format_float : nat -> Q -> string)
    (new_uuid now : string)
    (all_simple_paths : DiGraph -> string -> string -> list (list string))
    (analysis : Analyzer.ArchitectureAnalysis)
    (priorities : option (list string)) :
  exists plan,
    returned
      (create_refactoring_plan repr_list format_float new_uuid now
         all_simple_paths analysis "microservices" HIGH priorities)
    = Return plan
    /\ forall service_name service_data endpoint,
         In (service_name, service_data) (Analyzer.services analysis) ->
         In endpoint (Analyzer.Service.api_endpoints service_data) ->
         contains (Analyzer.path endpoint) "/v" = false ->
         before (map id (steps plan))
           ("api-versioning-" ++ service_name)%string "setup-service-mesh".
Proof.
  destruct (create_plan_always_ordered repr_list format_float new_uuid now
              all_simple_paths analysis "microservices" HIGH priorities)
    as (plan & Hplan & Hord).
  exists plan. split; [exact Hplan|].
  assert (Hgen : forall s,
             In s (_plan_microservices_migration repr_list analysis HIGH) ->
             In s (presorted_steps repr_list analysis "microservices" HIGH
                     priorities)).
  { intros s Hs. apply presorted_steps_In. exact Hs. }
  assert (Hmesh :
            exists s,
              In s (_plan_microservices_migration repr_list analysis HIGH)
              /\ id s = "setup-service-mesh"
              /\ dependencies s = ["api-versioning-*"]).
  { eexists. split.
    - unfold _plan_microservices_migration.
      apply in_or_app. right. apply in_or_app. right.
      left. reflexivity.
    - split; reflexivity. }
  destruct Hmesh as (mesh & Hmesh & Hmid & Hmdeps).
  intros service_name service_data endpoint Hservice Hendpoint Hversion.
  assert (Hversioning :
            exists s,
              In s (_plan_microservices_migration repr_list analysis HIGH)
              /\ id s = ("api-versioning-" ++ service_name)%string).
  { assert (Hne : nonempty
                    (filter
                       (fun e => negb (contains (Analyzer.path e) "/v"))
                       (Analyzer.Service.api_endpoints service_data))
                  = true).
    { assert (Hin : In endpoint
                      (filter
                         (fun e => negb (contains (Analyzer.path e) "/v"))
                         (Analyzer.Service.api_endpoints service_data))).
      { apply filter_In. split; [exact Hendpoint|].
        rewrite Hversion. reflexivity. }
      destruct (filter _ _); [destruct Hin|reflexivity]. }
    eexists. split.
    - unfold _plan_microservices_migration.
      apply in_or_app. right. apply in_or_app. left.
      apply in_flat_map. exists (service_name, service_data).
      split; [exact Hservice|]. cbn [fst snd].
      rewrite Hne. left. reflexivity.
    - reflexivity. }
  destruct Hversioning as (versioning & Hversioning & Hvid).
  rewrite <- Hvid, <- Hmid.
  apply (Hord versioning mesh (Hgen _ Hversioning) (Hgen _ Hmesh)).
  exists "api-versioning-*". rewrite Hmdeps. split; [left; reflexivity|].
  right. split; [reflexivity|]. rewrite Hvid.
  change (drop_last "api-versioning-*") with "api-versioning-".
  unfold startswith. cbn. apply prefix_empty.
Qed.

(** *** Concrete runs *)

Lemma duplicate_steps_acyclic : ~ cyclic duplicate_steps.
Proof.
  apply (sorted_not_cyclic duplicate_steps ["backup"; "migrate"]).
  vm_compute. reflexivity.
Qed.

Lemma ordering_keeps_last_step_of_each_id_witness :
  ~ cyclic duplicate_steps
  /\ exists ordered,
       returned (_order_by_dependencies duplicate_steps) = Return ordered
       /\ NoDup (map id ordered)
       /\ forall s, In s ordered <-> last_of_its_id duplicate_steps s.
Proof.
  split; [exact duplicate_steps_acyclic|].
  exact (ordering_keeps_last_step_of_each_id duplicate_steps
           duplicate_steps_acyclic).
Defined.

(** Of the two steps of id [migrate] the second draft is kept, behind
    the step [backup] it depends on. *)
Example duplicate_steps_ordered :
  option_map (map description)
    match returned (_order_by_dependencies duplicate_steps) with
    | Return ordered => Some ordered
    | Raise _ => None
    end
  = Some ["Step backup"; "Second draft"].
Proof. vm_compute. reflexivity. Qed.

Lemma loose_steps_unique : NoDup (map id loose_steps).
Proof.
  cbn. constructor; [|constructor; [|constructor]].
  - intros [H|[]]. discriminate.
  - intros [].
Qed.

Lemma loose_steps_independent (A B : RefactorStep) :
  In A loose_steps -> In B loose_steps -> ~ depends_on B A.
Proof.
  intros HA HB (dep & Hdep & Hmatch).
  destruct HA as [<-|[<-|[]]]; destruct HB as [<-|[<-|[]]];
    cbn in Hdep; destruct Hdep as [<-|[]];
    destruct Hmatch as [Hm|[Hm1 Hm2]];
    solve [discriminate Hm | vm_compute in Hm1; discriminate Hm1
          | vm_compute in Hm2; discriminate Hm2].
Qed.

Lemma unmatched_dependencies_are_ignored_witness :
  NoDup (map id loose_steps)
  /\ (forall A B, In A loose_steps -> In B loose_steps -> ~ depends_on B A)
  /\ _order_by_dependencies loose_steps = mkOutcome (Return loose_steps) [].
Proof.
  split; [exact loose_steps_unique|].
  split; [exact loose_steps_independent|].
  exact (unmatched_dependencies_are_ignored loose_steps loose_steps_unique
           loose_steps_independent).
Defined.

Lemma shared_analysis_unique :
  NoDup (keys (Analyzer.services shared_analysis)).
Proof.
  cbn. constructor; [|constructor; [|constructor; [|constructor]]].
  - intros [H|[H|[]]]; discriminate.
  - intros [H|[]]. discriminate.
  - intros [].
Qed.

Lemma shared_db_groups_are_disjoint_witness :
  NoDup (keys (Analyzer.services shared_analysis))
  /\ NoDup (List.concat (_find_services_with_shared_db shared_analysis))
  /\ Forall (shared_group (Analyzer.services shared_analysis))
       (_find_services_with_shared_db shared_analysis).
Proof.
  split; [exact shared_analysis_unique|].
  exact (shared_db_groups_are_disjoint shared_analysis
           shared_analysis_unique).
Defined.

(** The services [orders] and [billing] form the one group. *)
Example shared_analysis_groups :
  _find_services_with_shared_db shared_analysis = [["orders"; "billing"]].
Proof. vm_compute. reflexivity. Qed.

End PlannerProperties.

(** ** From the analysis to the plan *)

Module PipelineProperties.
Import Py NxFacts AnalyzerFacts Pipeline.

Section AnalysisProperties.
Variable os_walk : string -> string -> list (string * list string).
Variable simple_cycles : Nx.DiGraph -> list (list string).
Variable set_iter : list string -> list string.
Variable repr_set : list string -> string.
Variable repr_list : list string -> string.
Variable repr_cycles : list (list string) -> string.
Variable format_float : nat -> Q -> string.
Variable code_analyzer : Analyzer.CodeAnalyzer.

Local Abbreviation _analyze_service :=
  (Analyzer._analyze_service os_walk set_iter code_analyzer).
Local Abbreviation analyze_services :=
  (Analyzer.analyze_services os_walk set_iter repr_set format_float
     code_analyzer).
Local Abbreviation analyze_architecture :=
  (Analyzer.analyze_architecture os_walk simple_cycles set_iter repr_set
     repr_list repr_cycles format_float code_analyzer).

(** The services that the first loop of [analyze_architecture] stores
    reference no table: the loop raises on a service that does. *)
Lemma analyze_services_tables (service_paths : dict string) :
  forall services0 smells0 services smells,
    analyze_services service_paths services0 smells0
    = Return (services, smells) ->
    (forall e, In e services0 ->
       Analyzer.Service.database_tables (snd e) = []) ->
    forall e, In e services ->
      Analyzer.Service.database_tables (snd e) = [].
Proof.
  induction service_paths as [|[name path] rest IH];
    intros services0 smells0 services smells Hrun Hinit.
  - cbn in Hrun. inversion Hrun; subst. exact Hinit.
  - cbn [Analyzer.analyze_services] in Hrun.
    destruct (Analyzer.Service.database_tables (_analyze_service name path))
      as [|t ts] eqn:Htables.
    + destruct (Analyzer._detect_code_smells repr_set format_float name
                  (_analyze_service name path)) as [found|err];
        cbn [bind] in Hrun; [|discriminate].
      apply (IH _ _ _ _ Hrun).
      intros e He. apply PlannerProperties.set_In in He. destruct He as [->|He].
      * exact Htables.
      * apply Hinit. exact He.
    + rewrite (detect_code_smells_raises repr_set format_float name)
        in Hrun by (rewrite Htables; discriminate).
      discriminate.
Qed.

Lemma no_shared_db_without_tables (analysis : Analyzer.ArchitectureAnalysis) :
  (forall e, In e (Analyzer.services analysis) ->
     Analyzer.Service.database_tables (snd e) = []) ->
  Planner._find_services_with_shared_db analysis = [].
Proof.
  intros Htables. unfold Planner._find_services_with_shared_db.
  set (services := Analyzer.services analysis) in *.
  match goal with
  | |- context [fold_left ?f services ?init] => set (step := f)
  end.
  assert (Hloop : forall l, incl l services ->
                    fold_left step l ([], []) = ([], [])).
  { induction l as [|entry1 l IH]; intros Hincl; [reflexivity|].
    cbn [fold_left].
    assert (Hstep : step ([], []) entry1 = ([], [])).
    { subst step. cbv beta. cbn [fst snd mem existsb].
      rewrite (Htables entry1 (Hincl entry1 (or_introl eq_refl))).
      rewrite (PlannerProperties.filter_none _ services)
        by (intros e2 _; cbn [filter nonempty]; apply andb_false_r).
      reflexivity. }
    rewrite Hstep. apply IH. intros x Hx. apply Hincl. right. exact Hx. }
  rewrite (Hloop services (incl_refl services)). reflexivity.
Qed.

(** X27.  An analysis that [analyze_architecture] returned, handed to the
    planner: no service of it references a table and it holds no
    dependency, so the planner finds no group of services that share a
    database, the event-driven plan holds no step that converts a call
    (only the broker set-up and, unless the safety level is low, the
    event sourcing), and the microservices plan holds no database
    migration. *)
Theorem plans_from_a_returned_analysis
    (graph : Nx.DiGraph) (service_paths : dict string)
    (analysis : Analyzer.ArchitectureAnalysis) :
  fst (analyze_architecture graph service_paths) = Return analysis ->
  Forall
    (fun entry => Analyzer.Service.database_tables (snd entry) = [])
    (Analyzer.services analysis)
  /\ Analyzer.analysis_dependencies analysis = []
  /\ Planner._find_services_with_shared_db analysis = []
  /\ (forall safety,
        map Planner.id (Planner._plan_event_driven_migration analysis safety)
        = "setup-message-broker"
          :: (if Planner.is_low safety then []
              else ["implement-event-sourcing"]))
  /\ (forall safety,
        Forall
          (fun s => Planner.type s <> Planner.DATABASE_MIGRATION)
          (Planner._plan_microservices_migration repr_list analysis safety)).
Proof.
  unfold Analyzer.analyze_architecture. intros Hrun.
  destruct (analyze_services service_paths [] [])
    as [[services smells]|err] eqn:Hservices; [|discriminate].
  rewrite build_dependency_graph_empty in Hrun. cbn [fst snd] in Hrun.
  inversion Hrun as [Ha]; clear Hrun.
  assert (Htables : forall e, In e services ->
                      Analyzer.Service.database_tables (snd e) = []).
  { apply (analyze_services_tables service_paths [] [] services smells
             Hservices).
    intros e []. }
  match goal with
  | |- context [Analyzer.mkAnalysis ?s ?d ?c ?m ?r ?a] =>
      set (made := Analyzer.mkAnalysis s d c m r a)
  end.
  assert (Hnone : Planner._find_services_with_shared_db made = [])
    by (apply no_shared_db_without_tables; exact Htables).
  split; [apply Forall_forall; exact Htables|].
  split; [reflexivity|]. split; [exact Hnone|]. split.
  - intros safety. unfold Planner._plan_event_driven_migration.
    cbn [Analyzer.analysis_dependencies made flat_map app map Planner.id].
    destruct safety; reflexivity.
  - intros safety. unfold Planner._plan_microservices_migration.
    rewrite Hnone. cbn [map app]. apply Forall_app. split.
    + apply Forall_forall. intros s Hs. apply in_flat_map in Hs.
      destruct Hs as (entry & _ & Hs).
      destruct (nonempty _); [|destruct Hs].
      destruct Hs as [<-|[]]. discriminate.
    + destruct (Planner.is_high safety); constructor; [discriminate|].
      constructor.
Qed.

End AnalysisProperties.

Lemma demo_analysis_returned :
  fst (Analyzer.demo_analyze Analyzer.calling_services)
  = Return demo_analysis.
Proof. vm_compute. reflexivity. Qed.

Lemma plans_from_a_returned_analysis_witness :
  fst (Analyzer.demo_analyze Analyzer.calling_services)
  = Return demo_analysis
  /\ Planner._find_services_with_shared_db demo_analysis = [].
Proof.
  split; [exact demo_analysis_returned|].
  destruct (plans_from_a_returned_analysis Analyzer.demo_walk
              Analyzer.demo_cycles Analyzer.demo_set_iter (join ", ")
              (join ", ")
              (fun cycles => join "; " (map (join ", ") cycles))
              Analyzer.demo_format_float Analyzer.demo_code_analyzer
              Nx.empty Analyzer.calling_services demo_analysis
              demo_analysis_returned)
    as (_ & _ & H & _).
  exact H.
Defined.

End PipelineProperties.

(** ** The commit message generator *)

Module GitManagerProperties.
Import Py Regression GitManager.

Lemma append_empty (s : string) : (s ++ EmptyString)%string = s.
Proof.
  induction s as [|c s IH]; [reflexivity|]. cbn. rewrite IH. reflexivity.
Qed.

Lemma existsb_filter_nonempty {A : Type} (p : A -> bool) (l : list A) :
  existsb p l = nonempty (filter p l).
Proof.
  induction l as [|a l IH]; [reflexivity|].
  cbn [existsb filter]. destruct (p a); [reflexivity|exact IH].
Qed.

(** X28.  The flag and the footer of a commit agree: [_is_breaking_change]
    answers True exactly when the footer that [_generate_footer] builds
    from the same risks starts with the breaking change notice. *)
Theorem breaking_change_is_announced_in_footer
    (step : Planner.RefactorStep) (risks : list RegressionRisk) :
  _is_breaking_change risks = true
  <-> exists rest,
        _generate_footer step risks = Some (breaking_notice ++ rest)%string.
Proof.
  unfold _is_breaking_change, _generate_footer.
  rewrite existsb_filter_nonempty.
  set (breaking_risks := filter is_breaking risks).
  set (reference :=
         match Planner.id step with
         | EmptyString => []
         | String _ _ =>
             [(Report.nl ++ "Ref: " ++ Planner.id step)%string]
         end).
  set (rollback :=
         if String.eqb (Planner.risk_level step) "high" then
           match Planner.rollback_strategy step with
           | Some (String c s) =>
               [(Report.nl ++ "Rollback: " ++ String c s)%string]
           | _ => []
           end
         else []).
  destruct (nonempty breaking_risks) eqn:Hb.
  - split; [intros _|reflexivity]. cbn [app nonempty].
    destruct (map (fun risk => ("  - " ++ description risk)%string)
                (firstn 2 breaking_risks) ++ reference ++ rollback)
      as [|line lines].
    + exists EmptyString. cbn [join]. rewrite append_empty. reflexivity.
    + eexists. cbn [join]. reflexivity.
  - split; [discriminate|]. intros [rest Hrest]. exfalso.
    cbn [app] in Hrest.
    assert (Href : reference = []
                   \/ exists r, reference = [(Report.nl ++ r)%string]).
    { subst reference. destruct (Planner.id step);
        [left; reflexivity|right; eexists; reflexivity]. }
    assert (Hroll : rollback = []
                    \/ exists r, rollback = [(Report.nl ++ r)%string]).
    { subst rollback.
      destruct (String.eqb (Planner.risk_level step) "high");
        [|left; reflexivity].
      destruct (Planner.rollback_strategy step) as [[|c s]|];
        [left; reflexivity|right; eexists; reflexivity|left; reflexivity]. }
    destruct Href as [->|[r1 ->]]; destruct Hroll as [->|[r2 ->]];
      cbn in Hrest; discriminate.
Qed.

(** X29.  The commit type that [_determine_commit_type] chooses is always one
    of the ten types that the commit check [_verify_commit] accepts at
    the head of a message. *)
Theorem commit_type_is_conventional
    (step : Planner.RefactorStep) (changes : list CodeChange) :
  In (_determine_commit_type step changes) conventional_types.
Proof.
  unfold _determine_commit_type.
  destruct (find _ type_patterns) as [entry|] eqn:Hfind.
  - apply find_some in Hfind. destruct Hfind as [Hin _].
    unfold type_patterns in Hin. cbn [In] in Hin.
    repeat (destruct Hin as [<-|Hin]; [vm_compute; tauto|]).
    destruct Hin.
  - destruct (Planner.type step); vm_compute; tauto.
Qed.

End GitManagerProperties.
